(* ===== verification/_CoqProject ===== *)
-Q . S2P
Prelude.v
Wire.v
Parser.v
Message.v
Requests.v
Responses.v
Envelope.v
Framing.v
WireInstance.v
WireTheorems.v
Storage.v
Database.v
Postgres.v
Transactions.v
Effects.v
Growth.v
Invariants.v
Completeness.v
PostgresSpec.v
StorageTheorems.v
Programs.v
Interleaving.v
Isolation.v
Serial.v
Progress.v
Steps.v
Alone.v
Overlap.v
Messenger.v
Linearization.v
Overtaking.v
Race.v
ConcurrencyTheorems.v
MessengerTheorems.v
Connection.v
Session.v
Jobs.v
JobCalls.v
Server.v
ConcurrentServer.v
ServerFacts.v
ServerInvariant.v
ConcurrentFacts.v
Traffic.v
ConcurrentInvariant.v
ConcurrentProgress.v
Provenance.v
ConcurrentRefinement.v
ServerTheorems.v
ConcurrentServerTheorems.v
ServerMain.v
StartupTheorems.v
Qt.v
ClientLists.v
NetworkSession.v
Client.v
ClientListTheorems.v
NetworkTheorems.v
ClientTheorems.v
ClientMain.v
Pages.v
PageFacts.v
PageInvariant.v
PageSteps.v
PageTheorems.v
EndToEnd.v
System.v
SystemInvariant.v
SystemWindows.v
SystemSteps.v
SystemRounds.v
SystemProgress.v
SystemTheorems.v
Portions.v
PortionFacts.v
PortionTheorems.v
PageSystem.v
PageSystemInvariant.v
PageProgress.v
PageSystemTheorems.v
