(* ===== verification/Prelude.v ===== *)
(** * Elegram: a verification library for the elegram messaging service

    Elegram is a messenger in C++: a server ([src/server]) that keeps users,
    contacts, chats and messages in PostgreSQL, and a Qt client ([src/client])
    whose window is written in QML.  Both ends talk in packets, a nine-byte
    length prefix and a protobuf message ([src/protocol/messages.proto]); a
    client sends a request and gets one response.  This library translates
    both programs, and the code protoc generated for them, into executable
    definitions and proves what makes them work together.

    ** The parts of the program and the files that model them

    - Messages.  [Requests.v], [Responses.v], [Envelope.v]: the classes of
      [server/src/proto/messages.pb.h] and [messages.pb.cc] (the client has an
      identical copy), a module per class with its members as a record, the
      union of a [oneof] as an inductive type, and the generated
      functions under their names ([Clear], [MergePartialFromCodedStream],
      [SerializeWithCachedSizes], [InternalSerializeWithCachedSizesToArray],
      [ByteSize], [MergeFrom], [set_...], [release_...], ...).  [Parser.v] is
      the loop with [goto]s all generated parsers share.  [Message.v] is the
      contract of a message class, discharged by every class and the only
      thing known of a nested message.  [Wire.v] is the interface of the
      protobuf runtime and [WireInstance.v] an implementation of it.
      [Framing.v] is the packet.
    - Storage.  [Storage.v]: [AbstractStorageConnection]
      ([server/src/storage/abstract_storage.h]) as a class, and the contract
      the server relies on.  [Database.v]: the tables, constraints and
      sequences of [server/tests/gen_schema.sql] and one function per SQL
      statement.  [Postgres.v]: the operations of
      [server/src/storage/postgresql_storage.cpp] in a state and exception
      monad.  [Programs.v]: the same operations as trees of exchanges with the
      database server.  [Interleaving.v]: calls of several sessions on one
      database, an exchange at a time, at the isolation level the code runs
      with.  [Messenger.v]: what the storage means to its users, an abstract
      state of users, friends, chats and posts with actions and views.
      [Connection.v]: connections, prepared statements and their factory
      ([server/src/storage/pimpl]).
    - Server.  [Session.v]: [ClientSession] of [server/src/server/session.cpp],
      whose member functions return the session and the asynchronous
      operations they start.  [Jobs.v]: the function objects of
      [server/src/jobs/jobs.cpp].  [Server.v]: [ElegramServer] and its event
      loop as a step relation over sessions, pending operations and any
      storage, a job in one step.  [JobCalls.v] cuts a job at its storage call,
      and [ConcurrentServer.v] is the server whose jobs interleave in the world
      of [Interleaving.v].  [ServerMain.v]: [main], its exceptions and the end
      of the event loop.
    - Client.  [ClientLists.v]: the lists and item models of
      [client/src/model].  [NetworkSession.v]: [Session] of
      [client/src/network/network_session.cpp].  [Client.v]: the message
      factory, the jobs, [Backend] and [BackEndFacade] ([client/src/jobs],
      [client/src/backend.cpp], [client/src/backend_facade.cpp]) with
      everything that can happen to them.  [Pages.v]: the pages of
      [client/qml], what their buttons do and how they react to the signals of
      the facade.  [ClientMain.v]: [main] of the client.  [Qt.v]: what is used
      of Qt.
    - The whole system.  [System.v]: windows, the network and the server with
      concurrent jobs as one transition system, built from the handlers of
      [Client.v] and [ConcurrentServer.v].  [Portions.v]: the same over a
      network that hands a response to its window in several arrivals.
      [PageSystem.v]: the same with the pages of [Pages.v] in front of each
      window.

    They meet in four places: the server's jobs call the storage through
    [AbstractStorageConnection]; both ends exchange packets of
    [WrappedMessage]; the client's facade is freed by the callback that its
    network session stored with the request; the pages call the facade and get
    its signals.

    ** What the theorems show

    - [WireTheorems.v]: every message survives its encoding, with anything
      behind it in the buffer; both serializers agree with [ByteSize]; parsing
      into a message merges; the parsers terminate on all input.
    - [StorageTheorems.v] (through [Transactions.v], triples for the monad;
      [Effects.v], what each operation does; [Invariants.v], [Completeness.v],
      [PostgresSpec.v]): operations that write are atomic under any break of
      the connection; the database stays well formed; on a connection that
      stays up each operation succeeds exactly when its effect is possible;
      queries answer the tables; no fault lets a wrong password in.
    - [ConcurrencyTheorems.v] (through [Growth.v], what a transaction can add;
      [Isolation.v], what a call can rely on while others run; [Serial.v], the
      invariant; [Progress.v], [Steps.v], [Alone.v], [Overlap.v];
      [Overtaking.v], the check of [create_chat] at the place of its commit;
      [Race.v], two such calls side by side): whatever the interleaving, the
      committed tables are the rows that the committed calls add one after
      another, and at its place in this order a [create_chat] found no common
      chat, or was overtaken by another one of the same users; queries see
      committed states; calls come to an end; a call that is alone is the
      operation of [Postgres.v]; two users share one chat if no two
      [create_chat] calls overlap, and from every database any two users
      without a chat can get two if they do.
    - [MessengerTheorems.v] (through [Messenger.v], the abstract state and the
      tables as such a state; [Linearization.v], the moments of a schedule):
      the storage implements the messenger: whatever the interleaving, each
      call takes effect at one moment between its beginning and its return.
    - [ConcurrentServerTheorems.v] (through [ConcurrentFacts.v], [Traffic.v],
      [ConcurrentInvariant.v], [ConcurrentProgress.v], [Provenance.v],
      [ConcurrentRefinement.v]): in every state of the server with concurrent
      jobs no two operations or jobs touch one session; every storage call for
      a user was requested over a connection that has sent his password; every
      response reports the result of a call, or is empty and its session's
      traffic says that nobody is logged in; what was accepted is shown to
      every request that arrives later; jobs are executed; and the runs of
      [Server.v] over PostgreSQL are those runs in which no jobs overlap.
    - [ServerTheorems.v] (through [ServerFacts.v], [ServerInvariant.v]): in
      every reachable state a running session has one operation under way,
      requests and responses alternate and match, logged-in sessions belong to
      users; a request is served; malformed packets stop only their session;
      guests reach no data; but an oversized prefix stops the server.
    - [StartupTheorems.v]: statements are prepared as they are called; what the
      command line leads to; a shutdown drops requests.
    - [ClientListTheorems.v]: a model follows the signals of the list it shows
      and has values for its roles; the lists follow the protocol of an item model
      for non-empty answers, and break it for empty ones; look-ups through
      pointers are safe after [setItems] and not after [reset]; the messages
      of a chat are kept.
    - [NetworkTheorems.v]: a request is one packet; which arrivals of a
      response are put together, and one kind that is lost.
    - [ClientTheorems.v]: the facade lets one operation at a time through,
      exactly when it is free, and is freed once per response; a message without a response leaves it closed;
      connection settings are checked; a response that is cut off spoils the
      next connection.
    - [ClientMain.v]: the client opens the network configuration it saved.
    - [PageTheorems.v] (through [PageFacts.v], which calls of the facade make no
      page react; [PageInvariant.v], [PageSteps.v], that every event keeps the
      pages in order): pages that need a profile are shown after a login; calls
      and reactions come to an end; the client behind the pages is one of
      [Client.v], used with filled forms and one chat at a time; a chat that is
      opened is loaded, unless the client is busy, and then its page shows
      another chat; new connection settings, set while nothing is under way,
      end the connection and close the pages, but keep the contents of the
      former user.
    - [SystemTheorems.v] (through [SystemInvariant.v], the stages of an
      operation between a window and its session; [SystemWindows.v],
      [SystemSteps.v], that every step keeps to them; [SystemRounds.v],
      [SystemProgress.v]): both ends of a connection are in step and agree on
      who is logged in; what a window shows is the answer of the call it asked
      for; a window that waits can get its answer.
    - [PortionTheorems.v] (through [PortionFacts.v], what a part of a response
      does to a window): in which portions the responses arrive makes no
      difference, as long as the client can put them together; what one window
      was told to be accepted is shown by every other one, in the answer of a
      storage call that began later, unless the commit of that call was never
      answered, and then the list is empty.
    - [PageSystemTheorems.v] (through [PageSystemInvariant.v]; [PageProgress.v],
      what the pages ask for without their user): the system used through its
      pages is a part of the system without; the messages shown are those the
      storage answered for their chat; a message that was accepted is loaded
      again by its page and is among those then shown; a window comes to rest,
      with all its pages ask for answered, after three responses at most.
    - [EndToEnd.v]: signing in, the four operations that write and loading the
      data, from the window to the storage and back; a message of one client is seen by
      another one.

    ** Conventions, bounds and fuel

    An [uint64_t] or [int] is a [Z]; casts are [to_unsigned] and [to_signed];
    [uint64_ok] and [nested_ok] state the ranges of members, and [sendable]
    that a message and its prefix fit an [int].  Bytes are [list byte].  A
    [QString] is abstract.  Undefined behaviour, failed assertions and escaping
    exceptions are values ([Undefined], [VAssert], [Throw]).  Code outside the
    repository is a class: [WireFormat] (the runtime of protobuf), [Pqxx] (text
    parameters, SHA-256, the order of rows), [Memory] (the allocator), [Qt],
    [NetworkManager], [ProgramOptions]; its documented behaviour is
    [WireFormatLaws], [PqxxLaws], [QtLaws] and so on, and the theorems are also
    run on concrete instances ([WireInstance.v], [plain_pqxx], [unlimited],
    [utf8_qt]).

    The only fuel is that of a parser: [parser_fuel], twice the bytes left plus
    three; [Parser.v] proves that it always suffices, and [parser_terminates]
    that the value [OutOfFuel] never occurs.  In [Postgres.v] a fault schedule breaks a database
    connection at one arbitrary exchange; in [Interleaving.v] any connection
    can break at any exchange.  A call makes at most seven exchanges
    ([most_exchanges]) and a return.

    PostgreSQL at [READ COMMITTED], as [Interleaving.v] takes it: a statement
    sees what is committed and the rows of its transaction; sequences are never
    rolled back, and the number an [INSERT] drew before it waited may be older
    than its sequence; an [INSERT] of a key that another open transaction has
    inserted waits, which is having no step; of two calls that wait for each
    other one fails; a commit whose answer is lost took effect, or not, no later
    than the connection broke.

    The pages of [Pages.v]: a page that is popped is gone at once (Qt plays an
    animation first), an open notice keeps the user from the pages, and how
    many rows of a list have delegates, each of which reacts to signals, is the
    class [Views].  Calls nest at most [DEPTH] = 2 deep, a signal of one call
    making a page call and no signal of that one making another;
    [cascades_end] proves that it suffices.

    The network of [System.v] hands the bytes of a window to the reads of its
    session in any portions, in order, and each packet of the server to the
    window as one arrival; in [Portions.v] these are several, of which the last
    brings all that is missing of the message if the prefix is there already
    ([NetworkTheorems.v] has what happens otherwise); a window
    counts as one while its first connection lasts, connections that are no
    windows send what they like, and messages are those that can be framed.

    ** What is not modelled, and why

    - The pool's queue: a worker may take any waiting job; and the time
      between the answer of the storage and the write of the response, one step.
    - Signals of a [QTcpSocket] are happenings of their own, but for the
      [disconnected] that [abort] emits before it returns.  A slot of a page
      runs, in the model, after the function that emitted the signal.  The
      texts of error signals are left out.
    - Of the pages: layout, labels, colours, and the closing of the window.
    - In [System.v]: connection settings that are changed, for the window is a
      different one then; [Client.v] and [Pages.v] have them.
    - Arenas, descriptors, reflection and unknown-field storage of protobuf;
      the time stamp of a message, which no statement reads; logging
      and build files: no logic of the program. *)
From stdpp Require Export prelude list.
From Stdlib Require Export ZArith Lia.
From Stdlib Require Import Strings.Byte.

(** ** Bytes and machine integers *)

Abbreviation byte := Byte.byte.
Abbreviation bytes := (list Byte.byte).

#[export] Instance byte_eq_dec : EqDecision byte := Byte.byte_eq_dec.

Declare Scope elegram_scope.
Delimit Scope elegram_scope with elegram.
#[global] Open Scope Z_scope.
#[global] Open Scope elegram_scope.

(** [zlen l] is the length of a buffer as an integer of the program. *)
Definition zlen {A} (l : list A) : Z := Z.of_nat (length l).

(** The value ranges of the C++ types [uint64_t], [int] and [qint64]. *)
Definition uint64_ok (v : Z) : Prop := 0 ≤ v < 2 ^ 64.
Definition int32_ok (v : Z) : Prop := - 2 ^ 31 ≤ v < 2 ^ 31.
Definition int_max : Z := 2 ^ 31 - 1.

(** [static_cast] to an unsigned or signed type of the given width. *)
Definition to_unsigned (w : Z) (v : Z) : Z := v mod 2 ^ w.
Definition to_signed (w : Z) (v : Z) : Z :=
  (v + 2 ^ (w - 1)) mod 2 ^ w - 2 ^ (w - 1).

(** A non-zero-terminated buffer read as a C string: the bytes before the
    first NUL. *)
Fixpoint c_str (s : bytes) : bytes :=
  match s with
  | [] => []
  | Byte.x00 :: _ => []
  | b :: s' => b :: c_str s'
  end.

Definition nul_free (s : bytes) : Prop := Byte.x00 ∉ s.

(** [vec_resize n v] is [std::vector<uint8_t>::resize(n)]: truncation, or
    extension with zero bytes. *)
Definition vec_resize (n : nat) (v : bytes) : bytes :=
  take n v ++ replicate (n - length v) Byte.x00.

(** [write_at off data buf] stores [data] into [buf] from offset [off]. *)
Definition write_at (off : nat) (data buf : bytes) : bytes :=
  take off buf ++ data ++ drop (off + length data) buf.

(** ** Hint databases and tactics *)

Create HintDb elegram discriminated.

(** Case analysis on every [match] of the goal or a hypothesis, keeping the
    equations, with inconsistent branches closed. *)
Ltac case_matches :=
  repeat (case_match; simplify_eq/=; try done).

(** ** Generic lemmas *)

Lemma zlen_nil {A} : zlen (@nil A) = 0.
Proof. done. Qed.

Lemma zlen_cons {A} (x : A) l : zlen (x :: l) = 1 + zlen l.
Proof. unfold zlen. simpl. lia. Qed.

Lemma zlen_app {A} (l k : list A) : zlen (l ++ k) = zlen l + zlen k.
Proof. unfold zlen. rewrite length_app. lia. Qed.

Lemma zlen_nonneg {A} (l : list A) : 0 ≤ zlen l.
Proof. unfold zlen. lia. Qed.

Lemma zlen_zero_nil {A} (l : list A) : zlen l = 0 ↔ l = [].
Proof. unfold zlen. destruct l; simpl; [done | split; [lia | done]]. Qed.

Lemma to_nat_zlen {A} (l : list A) : Z.to_nat (zlen l) = length l.
Proof. unfold zlen. lia. Qed.

Lemma to_unsigned_ok w v : 0 ≤ v < 2 ^ w → to_unsigned w v = v.
Proof. intros H. unfold to_unsigned. by apply Z.mod_small. Qed.

Lemma to_signed_ok w v : 0 < w → - 2 ^ (w - 1) ≤ v < 2 ^ (w - 1) → to_signed w v = v.
Proof.
  intros Hw H. unfold to_signed.
  assert (2 ^ w = 2 * 2 ^ (w - 1)) as Hp.
  { rewrite <- Z.pow_succ_r by lia. f_equal. lia. }
  rewrite Z.mod_small; lia.
Qed.

Lemma c_str_nul_free s : nul_free s → c_str s = s.
Proof.
  unfold nul_free. induction s as [|b s IH]; [done|]. intros Hn. simpl.
  rewrite IH by set_solver. destruct b; try done. set_solver.
Qed.

Lemma length_vec_resize n v : length (vec_resize n v) = n.
Proof. unfold vec_resize. rewrite length_app, length_take, length_replicate. lia. Qed.

Lemma zlen_vec_resize n v : 0 ≤ n → zlen (vec_resize (Z.to_nat n) v) = n.
Proof. intros H. unfold zlen. rewrite length_vec_resize. lia. Qed.

Lemma length_write_at off data buf :
  (off + length data ≤ length buf)%nat →
  length (write_at off data buf) = length buf.
Proof.
  intros H. unfold write_at.
  rewrite !length_app, length_take, length_drop. lia.
Qed.

(** Two adjacent stores that fill a buffer leave exactly their
    concatenation in it. *)
Lemma write_at_fill d1 d2 buf :
  length buf = (length d1 + length d2)%nat →
  write_at (length d1) d2 (write_at 0 d1 buf) = d1 ++ d2.
Proof.
  intros H. unfold write_at. simpl.
  rewrite take_app_length, drop_ge, app_nil_r; [done|].
  rewrite length_app, length_drop. lia.
Qed.
