(* ===== verification/Wire.v ===== *)
(** * The protobuf runtime as an interface

    The generated message classes of [server/src/proto/messages.pb.cc] call
    the protobuf runtime ([CodedInputStream], [WireFormatLite],
    [MessageLite]), which is not part of the repository.  Class [WireFormat]
    names the operations the generated code calls, class [WireFormatLaws] the
    documented behaviour the theorems rely on; [WireInstance.v] gives one
    implementation of both. *)
From S2P Require Import Prelude.

(** ** Results of parsing *)

Inductive parse (A S : Type) : Type :=
| Parsed (m : A) (s : S)
| ParseFailed
| OutOfFuel.
Arguments Parsed {A S}.
Arguments ParseFailed {A S}.
Arguments OutOfFuel {A S}.

(** ** Operations of the runtime *)

Class WireFormat : Type := {
  (** [CodedInputStream]: the reader, the bytes it may still read before the
      current limit, and its recursion budget *)
  stream : Type;
  bytes_left : stream → bytes;
  depth : stream → nat;
  OpenArray : bytes → stream;
  ReadTagWithCutoff : Z → stream → (Z * bool) * stream;
  ExpectTag : Z → stream → bool * stream;
  ExpectAtEnd : stream → bool * stream;
  ConsumedEntireMessage : stream → bool;
  IncrementRecursionDepth : stream → option stream;
  UnsafeDecrementRecursionDepth : stream → stream;
  (** [WireFormatLite]: readers *)
  GetTagFieldNumber : Z → Z;
  GetTagWireType : Z → Z;
  ReadUInt64 : stream → option (Z * stream);
  ReadFixed64 : stream → option (Z * stream);
  ReadEnum : stream → option (Z * stream);
  ReadString : stream → option (bytes * stream);
  ReadMessageNoVirtual :
    ∀ {A}, (A → stream → parse A stream) → A → stream → parse A stream;
  ReadMessageNoVirtualNoRecursionDepth :
    ∀ {A}, (A → stream → parse A stream) → A → stream → parse A stream;
  SkipField : Z → stream → option stream;
  VerifyUtf8String : bytes → bool;
  (** [WireFormatLite]: writers into an array; the last argument is what the
      array holds so far *)
  WriteUInt64ToArray : Z → Z → bytes → bytes;
  WriteFixed64ToArray : Z → Z → bytes → bytes;
  WriteEnumToArray : Z → Z → bytes → bytes;
  WriteStringToArray : Z → bytes → bytes → bytes;
  InternalWriteMessageNoVirtualToArray :
    ∀ {A}, (A → Z) → (A → bytes → bytes) → Z → A → bytes → bytes;
  (** [WireFormatLite]: writers into a [CodedOutputStream] *)
  WriteUInt64 : Z → Z → bytes → bytes;
  WriteFixed64 : Z → Z → bytes → bytes;
  WriteEnum : Z → Z → bytes → bytes;
  WriteStringMaybeAliased : Z → bytes → bytes → bytes;
  WriteMessageMaybeToArray :
    ∀ {A}, (A → Z) → (A → bytes → bytes) → Z → A → bytes → bytes;
  (** [WireFormatLite]: encoded sizes *)
  UInt64Size : Z → Z;
  EnumSize : Z → Z;
  StringSize : bytes → Z;
  MessageSizeNoVirtual : ∀ {A}, (A → Z) → A → Z;
  (** [MessageLite]: parsing from, and serializing to, an array of the given
      [int] size; the array a message is stored into is given with the offset
      to store at *)
  ParseFromArray : ∀ {A}, (A → stream → parse A stream) → A → bytes → Z → option A;
  SerializeToArray :
    ∀ {A}, (A → Z) → (A → bytes → bytes) → A → nat → Z → bytes → bytes
}.

(** Field and wire-type numbers of a tag, as the wire format defines them. *)
Definition WIRETYPE_VARINT : Z := 0.
Definition WIRETYPE_FIXED64 : Z := 1.
Definition WIRETYPE_LENGTH_DELIMITED : Z := 2.
Definition WIRETYPE_END_GROUP : Z := 4.

Definition make_tag (field wiretype : Z) : Z := 8 * field + wiretype.

(** ** Documented behaviour *)

(** [same_pos s s']: the reader moved nowhere. *)
Definition same_pos `{W : WireFormat} (s s' : stream) : Prop :=
  bytes_left s' = bytes_left s ∧ depth s' = depth s.

(** [reads s rest s']: reading from [s] left the reader in front of [rest]. *)
Definition reads `{W : WireFormat} (s : stream) (rest : bytes) (s' : stream) : Prop :=
  bytes_left s' = rest ∧ depth s' = depth s.

(** At the end of its input: the state in which [ConsumedEntireMessage] holds. *)
Definition at_end `{W : WireFormat} (d : nat) (s : stream) : Prop :=
  bytes_left s = [] ∧ depth s = d ∧ ConsumedEntireMessage s = true.

(** A sub-parser never gives up for lack of fuel and never hands back more
    input than it was given. *)
Definition parse_total `{W : WireFormat} {A} (merge : A → stream → parse A stream) : Prop :=
  ∀ m s, match merge m s with
         | Parsed _ s' => (length (bytes_left s') ≤ length (bytes_left s))%nat
         | ParseFailed => True
         | OutOfFuel => False
         end.

Definition shrinks `{W : WireFormat} {A} (s : stream) (r : parse A stream) : Prop :=
  match r with
  | Parsed _ s' => (length (bytes_left s') ≤ length (bytes_left s))%nat
  | ParseFailed => True
  | OutOfFuel => False
  end.

Class WireFormatLaws (W : WireFormat) : Type := {
  (** the encodings of tags, varints, fixed-width integers and lengths *)
  tag_bytes : Z → bytes;
  uint64_bytes : Z → bytes;
  fixed64_bytes : Z → bytes;
  enum_bytes : Z → bytes;
  length_bytes : Z → bytes;

  tag_bytes_length t : 0 < t ≤ 127 → length (tag_bytes t) = 1%nat;
  tag_bytes_inj t t' : 0 < t ≤ 127 → 0 < t' ≤ 127 → tag_bytes t = tag_bytes t' → t = t';
  fixed64_bytes_length v : length (fixed64_bytes v) = 8%nat;
  tag_field_number t : 0 ≤ t < 2 ^ 32 → GetTagFieldNumber t = t / 8;
  tag_wire_type t : 0 ≤ t < 2 ^ 32 → GetTagWireType t = t mod 8;

  (** opening an array of [int] size *)
  open_array data : zlen data ≤ int_max →
    bytes_left (OpenArray data) = data ∧ depth (OpenArray data) = 100%nat;

  (** reading tags *)
  read_tag t s rest : 0 < t ≤ 127 → bytes_left s = tag_bytes t ++ rest →
    ∃ s', ReadTagWithCutoff 127 s = (t, true, s') ∧ reads s rest s';
  read_tag_end s : bytes_left s = [] →
    ∃ b s', ReadTagWithCutoff 127 s = (0, b, s') ∧ at_end (depth s) s';
  read_tag_shrinks t b s s' : ReadTagWithCutoff 127 s = (t, b, s') →
    (length (bytes_left s') ≤ length (bytes_left s))%nat ∧
    (t ≠ 0 → (length (bytes_left s') < length (bytes_left s))%nat);

  (** [ExpectTag] may miss a tag, but never takes another one for it *)
  expect_tag_true t s s' : ExpectTag t s = (true, s') →
    ∃ s1, ReadTagWithCutoff 127 s = (t, true, s1) ∧ same_pos s1 s';
  expect_tag_false t s s' : ExpectTag t s = (false, s') → same_pos s s';
  expect_end_true s s' : ExpectAtEnd s = (true, s') →
    bytes_left s = [] ∧ at_end (depth s) s';
  expect_end_false s s' : ExpectAtEnd s = (false, s') → same_pos s s';

  (** the recursion budget *)
  increment_depth s d : depth s = S d →
    ∃ s', IncrementRecursionDepth s = Some s' ∧
          bytes_left s' = bytes_left s ∧ depth s' = d;
  increment_depth_shrinks s s' : IncrementRecursionDepth s = Some s' →
    (length (bytes_left s') ≤ length (bytes_left s))%nat;
  decrement_depth s :
    bytes_left (UnsafeDecrementRecursionDepth s) = bytes_left s ∧
    depth (UnsafeDecrementRecursionDepth s) = S (depth s);

  (** reading what the writers wrote *)
  read_uint64 v s rest : uint64_ok v → bytes_left s = uint64_bytes v ++ rest →
    ∃ s', ReadUInt64 s = Some (v, s') ∧ reads s rest s';
  read_fixed64 v s rest : uint64_ok v → bytes_left s = fixed64_bytes v ++ rest →
    ∃ s', ReadFixed64 s = Some (v, s') ∧ reads s rest s';
  read_enum v s rest : int32_ok v → bytes_left s = enum_bytes v ++ rest →
    ∃ s', ReadEnum s = Some (v, s') ∧ reads s rest s';
  read_string str s rest : zlen str ≤ int_max →
    bytes_left s = length_bytes (zlen str) ++ str ++ rest →
    ∃ s', ReadString s = Some (str, s') ∧ reads s rest s';
  read_message {A} (merge : A → stream → parse A stream) m m' s body rest d :
    depth s = S d → zlen body ≤ int_max →
    bytes_left s = length_bytes (zlen body) ++ body ++ rest →
    (∀ sub, bytes_left sub = body → depth sub = d →
            ∃ sub', merge m sub = Parsed m' sub' ∧ at_end d sub') →
    ∃ s', ReadMessageNoVirtual merge m s = Parsed m' s' ∧ reads s rest s';
  read_message_no_depth {A} (merge : A → stream → parse A stream) m m' s body rest :
    zlen body ≤ int_max →
    bytes_left s = length_bytes (zlen body) ++ body ++ rest →
    (∀ sub, bytes_left sub = body → depth sub = depth s →
            ∃ sub', merge m sub = Parsed m' sub' ∧ at_end (depth s) sub') →
    ∃ s', ReadMessageNoVirtualNoRecursionDepth merge m s = Parsed m' s' ∧ reads s rest s';

  (** readers never give input back *)
  read_uint64_shrinks v s s' : ReadUInt64 s = Some (v, s') →
    (length (bytes_left s') ≤ length (bytes_left s))%nat;
  read_fixed64_shrinks v s s' : ReadFixed64 s = Some (v, s') →
    (length (bytes_left s') ≤ length (bytes_left s))%nat;
  read_enum_shrinks v s s' : ReadEnum s = Some (v, s') →
    (length (bytes_left s') ≤ length (bytes_left s))%nat;
  read_string_shrinks v s s' : ReadString s = Some (v, s') →
    (length (bytes_left s') ≤ length (bytes_left s))%nat;
  skip_field_shrinks t s s' : SkipField t s = Some s' →
    (length (bytes_left s') ≤ length (bytes_left s))%nat;
  read_message_total {A} (merge : A → stream → parse A stream) m s :
    parse_total merge → shrinks s (ReadMessageNoVirtual merge m s);
  read_message_no_depth_total {A} (merge : A → stream → parse A stream) m s :
    parse_total merge → shrinks s (ReadMessageNoVirtualNoRecursionDepth merge m s);

  (** the payload of an unknown varint field is skipped *)
  skip_varint f v s rest : 0 < f → uint64_ok v →
    bytes_left s = uint64_bytes v ++ rest →
    ∃ s', SkipField (make_tag f WIRETYPE_VARINT) s = Some s' ∧ reads s rest s';

  (** writers *)
  write_uint64 f v t : 0 < f ≤ 15 → uint64_ok v →
    WriteUInt64ToArray f v t = t ++ tag_bytes (make_tag f WIRETYPE_VARINT) ++ uint64_bytes v;
  write_fixed64 f v t : 0 < f ≤ 15 → uint64_ok v →
    WriteFixed64ToArray f v t = t ++ tag_bytes (make_tag f WIRETYPE_FIXED64) ++ fixed64_bytes v;
  write_enum f v t : 0 < f ≤ 15 → int32_ok v →
    WriteEnumToArray f v t = t ++ tag_bytes (make_tag f WIRETYPE_VARINT) ++ enum_bytes v;
  write_string f str t : 0 < f ≤ 15 → zlen str ≤ int_max →
    WriteStringToArray f str t =
    t ++ tag_bytes (make_tag f WIRETYPE_LENGTH_DELIMITED) ++ length_bytes (zlen str) ++ str;
  write_message {A} (size : A → Z) (write : A → bytes → bytes) f m t :
    0 < f ≤ 15 → 0 ≤ size m ≤ int_max →
    InternalWriteMessageNoVirtualToArray size write f m t =
    write m (t ++ tag_bytes (make_tag f WIRETYPE_LENGTH_DELIMITED) ++ length_bytes (size m));

  (** a [CodedOutputStream] receives the same bytes *)
  write_stream_uint64 f v t : WriteUInt64 f v t = WriteUInt64ToArray f v t;
  write_stream_fixed64 f v t : WriteFixed64 f v t = WriteFixed64ToArray f v t;
  write_stream_enum f v t : WriteEnum f v t = WriteEnumToArray f v t;
  write_stream_string f str t : WriteStringMaybeAliased f str t = WriteStringToArray f str t;
  write_stream_message {A} (size : A → Z) (write : A → bytes → bytes) f m t :
    WriteMessageMaybeToArray size write f m t =
    InternalWriteMessageNoVirtualToArray size write f m t;

  (** sizes *)
  uint64_size v : uint64_ok v → UInt64Size v = zlen (uint64_bytes v);
  enum_size v : int32_ok v → EnumSize v = zlen (enum_bytes v);
  string_size str : zlen str ≤ int_max →
    StringSize str = zlen (length_bytes (zlen str)) + zlen str;
  message_size {A} (size : A → Z) m : 0 ≤ size m ≤ int_max →
    MessageSizeNoVirtual size m = zlen (length_bytes (size m)) + size m;
  length_bytes_nonempty n : 0 ≤ n ≤ int_max → 1 ≤ zlen (length_bytes n) ≤ 5;
  uint64_bytes_length v : uint64_ok v → zlen (uint64_bytes v) ≤ 10;

  (** whole messages *)
  parse_from_array {A} (merge : A → stream → parse A stream) m data n :
    0 ≤ n ≤ zlen data → n ≤ int_max →
    ParseFromArray merge m data n =
    match merge m (OpenArray (take (Z.to_nat n) data)) with
    | Parsed m' s => if ConsumedEntireMessage s then Some m' else None
    | _ => None
    end;
  serialize_to_array {A} (size : A → Z) (write : A → bytes → bytes) m off n buf :
    0 ≤ size m ≤ n → Z.of_nat off + n ≤ zlen buf → zlen (write m []) = size m →
    SerializeToArray size write m off n buf = write_at off (write m []) buf
}.
