(* ===== verification/Parser.v ===== *)
(** * The loop of a generated [MergePartialFromCodedStream]

    A generated parser is a [for(;;)] around a [switch], with labels
    [parse_<field>] inside the [case]s that the previous [case] may [goto].
    Here a message supplies a step function on labels ([Top] is the head of
    the loop, [At t] the label behind the check [tag == t]), and
    [run_parser] iterates it on fuel.  [runs] is the same loop as a
    relation.  The section of lemmas reduces "parsing a serialized message
    merges it" to one obligation per field, and shows that the fuel
    [parser_fuel] is always enough. *)
From S2P Require Import Prelude Wire.

(** ** The goto graph *)

Inductive label : Type :=
| Top
| At (tag : Z).

Inductive next (A S : Type) : Type :=
| Goto (l : label) (m : A) (s : S)
| Done (m : A) (s : S)
| Fail
| Stuck.
Arguments Goto {A S}.
Arguments Done {A S}.
Arguments Fail {A S}.
Arguments Stuck {A S}.

(** [DO_(e)] of the generated code: leave the parser with failure when [e]
    yields nothing. *)
Notation "'DO_' p <- e ; k" :=
  (match e with Some p => k | None => Fail end)
  (at level 100, p pattern, e at level 99, k at level 200, right associativity)
  : elegram_scope.

(** [DO_] around a nested message parse. *)
Notation "'MERGE_' ( m , s ) <- e ; k" :=
  (match e with
   | Parsed m s => k
   | ParseFailed => Fail
   | OutOfFuel => Stuck
   end)
  (at level 100, m name, s name, e at level 99, k at level 200, right associativity)
  : elegram_scope.

(** [DO_] around a test. *)
Notation "'REQUIRE_' b ; k" := (if b then k else Fail)
  (at level 100, b at level 99, k at level 200, right associativity) : elegram_scope.

Section Loop.
Context `{W : WireFormat} {A : Type}.

(** The code behind the label [handle_unusual]. *)
Definition handle_unusual (tag : Z) (m : A) (s : stream) : next A stream :=
  if (tag =? 0) || (GetTagWireType tag =? WIRETYPE_END_GROUP) then Done m s
  else DO_ s <- SkipField tag s; Goto Top m s.

(** [if (input->ExpectTag(t)) goto parse_...;] followed by [break]. *)
Definition expect_tag (t : Z) (m : A) (s : stream) : next A stream :=
  match ExpectTag t s with
  | (true, s) => Goto (At t) m s
  | (false, s) => Goto Top m s
  end.

(** [if (input->ExpectAtEnd()) goto success;] followed by [break]. *)
Definition expect_at_end (m : A) (s : stream) : next A stream :=
  match ExpectAtEnd s with
  | (true, s) => Done m s
  | (false, s) => Goto Top m s
  end.

(** The head of the loop: read a tag; a known one enters the [switch]. *)
Definition loop_head (cases : Z → A → stream → next A stream)
    (m : A) (s : stream) : next A stream :=
  match ReadTagWithCutoff 127 s with
  | (tag, true, s) => cases tag m s
  | (tag, false, s) => handle_unusual tag m s
  end.

Definition step_fn : Type := label → A → stream → next A stream.

Fixpoint run_parser (fuel : nat) (step : step_fn) (l : label) (m : A) (s : stream)
    : parse A stream :=
  match fuel with
  | O => OutOfFuel
  | S fuel =>
    match step l m s with
    | Goto l m s => run_parser fuel step l m s
    | Done m s => Parsed m s
    | Fail => ParseFailed
    | Stuck => OutOfFuel
    end
  end.

(** Every turn through the loop head consumes a tag, and between two heads
    at most one label is visited per consumed byte. *)
Definition parser_fuel (s : stream) : nat := 2 * length (bytes_left s) + 3.

Definition merge_loop (step : step_fn) (m : A) (s : stream) : parse A stream :=
  run_parser (parser_fuel s) step Top m s.

(** The loop as a relation. *)
Inductive runs (step : step_fn) : label → A → stream → A → stream → Prop :=
| runs_done l m s m' s' :
    step l m s = Done m' s' → runs step l m s m' s'
| runs_goto l m s l1 m1 s1 m' s' :
    step l m s = Goto l1 m1 s1 → runs step l1 m1 s1 m' s' →
    runs step l m s m' s'.
End Loop.
#[export] Hint Constructors runs : elegram.

(** ** Termination *)

Section Termination.
Context `{W : WireFormat} {L : WireFormatLaws W} {A : Type}.
Implicit Types (step : @step_fn W A) (m : A) (s : stream).

Definition measure (l : label) (s : stream) : nat :=
  match l with
  | Top => 2 * length (bytes_left s)
  | At _ => 2 * length (bytes_left s) + 1
  end.

(** [shrinks_from n r]: the outcome [r] of a step left the loop, or is at
    a point of measure below [n]. *)
Definition steps_below (n len : nat) (r : next A stream) : Prop :=
  match r with
  | Goto l _ s => (measure l s < n)%nat ∧ (length (bytes_left s) ≤ len)%nat
  | Done _ s => (length (bytes_left s) ≤ len)%nat
  | Fail => True
  | Stuck => False
  end.

Definition step_decreases step : Prop :=
  ∀ l m s, steps_below (measure l s) (length (bytes_left s)) (step l m s).

Lemma run_parser_total step fuel l m s :
  step_decreases step → (measure l s < fuel)%nat →
  match run_parser fuel step l m s with
  | Parsed _ s' => (length (bytes_left s') ≤ length (bytes_left s))%nat
  | ParseFailed => True
  | OutOfFuel => False
  end.
Proof.
  intros Hdec. revert l m s. induction fuel as [|fuel IH]; intros l m s Hf; [lia|].
  simpl. specialize (Hdec l m s).
  destruct (step l m s) as [l1 m1 s1|m1 s1| |]; simpl in Hdec; try done.
  specialize (IH l1 m1 s1). destruct Hdec as [Hm Hl].
  destruct (run_parser fuel step l1 m1 s1); try done; [|apply IH; lia].
  assert (measure l1 s1 < fuel)%nat as Hlt by lia. specialize (IH Hlt). lia.
Qed.

Lemma merge_loop_total step :
  step_decreases step → parse_total (merge_loop step).
Proof.
  intros Hdec m s. apply run_parser_total; [done|].
  unfold parser_fuel, measure. lia.
Qed.

Lemma runs_run_parser step fuel l m s m' s' :
  step_decreases step → runs step l m s m' s' → (measure l s < fuel)%nat →
  run_parser fuel step l m s = Parsed m' s'.
Proof.
  intros Hdec Hruns. revert fuel.
  induction Hruns as [l m s m' s' Hs|l m s l1 m1 s1 m' s' Hs _ IH];
    intros [|fuel] Hf; try lia; simpl; rewrite Hs; [done|].
  apply IH. pose proof (Hdec l m s) as Hd. rewrite Hs in Hd. simpl in Hd. lia.
Qed.

Lemma runs_merge_loop step m s m' s' :
  step_decreases step → runs step Top m s m' s' →
  merge_loop step m s = Parsed m' s'.
Proof.
  intros Hdec Hruns. apply runs_run_parser; [done|done|].
  unfold parser_fuel, measure. lia.
Qed.

(** Steps of the building blocks. *)
Lemma steps_below_unusual t m s n len :
  (2 * length (bytes_left s) < n)%nat → (length (bytes_left s) ≤ len)%nat →
  steps_below n len (handle_unusual t m s).
Proof.
  intros Hn Hl. unfold handle_unusual. destruct (_ || _); simpl; [done|].
  destruct (SkipField t s) as [s'|] eqn:Hs; simpl; [|done].
  apply skip_field_shrinks in Hs. lia.
Qed.

Lemma steps_below_expect_tag t m s len :
  t ≠ 0 → (length (bytes_left s) ≤ len)%nat →
  steps_below (2 * len + 1) len (expect_tag t m s).
Proof.
  intros Ht Hl. unfold expect_tag. destruct (ExpectTag t s) as [[] s'] eqn:Hs; simpl.
  - apply expect_tag_true in Hs as (s1 & Hr & Hb & _).
    apply read_tag_shrinks in Hr as [Hr1 Hr2]. rewrite Hb.
    specialize (Hr2 Ht). lia.
  - apply expect_tag_false in Hs as [Hb _]. rewrite Hb. lia.
Qed.

Lemma steps_below_expect_at_end m s len :
  (length (bytes_left s) ≤ len)%nat →
  steps_below (2 * len + 1) len (expect_at_end m s).
Proof.
  intros Hl. unfold expect_at_end. destruct (ExpectAtEnd s) as [[] s'] eqn:Hs; simpl.
  - apply expect_end_true in Hs as (_ & Hb & _). rewrite Hb. simpl. lia.
  - apply expect_end_false in Hs as [Hb _]. rewrite Hb. lia.
Qed.

Lemma steps_below_unusual_tag t m s1 n :
  (length (bytes_left s1) ≤ n)%nat →
  (t ≠ 0 → (length (bytes_left s1) < n)%nat) →
  steps_below (2 * n) n (handle_unusual t m s1).
Proof.
  intros H1 H2. destruct (decide (t = 0)) as [->|Ht].
  - unfold handle_unusual. simpl. lia.
  - apply steps_below_unusual; [specialize (H2 Ht)|]; lia.
Qed.
(** The loop head: a known tag was read, so its [case] starts with less
    input. *)
Lemma steps_below_loop_head cases m s :
  (∀ t s1, (length (bytes_left s1) ≤ length (bytes_left s))%nat →
           (t ≠ 0 → (length (bytes_left s1) < length (bytes_left s))%nat) →
           steps_below (2 * length (bytes_left s)) (length (bytes_left s)) (cases t m s1)) →
  steps_below (measure Top s) (length (bytes_left s)) (loop_head cases m s).
Proof.
  intros Hc. unfold loop_head.
  destruct (ReadTagWithCutoff 127 s) as [[t b] s1] eqn:Hr.
  apply read_tag_shrinks in Hr as [Hr1 Hr2]. simpl.
  destruct b; [by apply Hc|by apply steps_below_unusual_tag].
Qed.
End Termination.

(** ** Merging a serialized message *)

Section Correctness.
Context `{W : WireFormat} {L : WireFormatLaws W} {A : Type}.
Implicit Types (step : @step_fn W A) (m : A) (s : stream).

(** What may follow a field: nothing, or the tag of another field. *)
Definition tail_ok (bs : bytes) : Prop :=
  bs = [] ∨ ∃ t rest, 0 < t ≤ 127 ∧ bs = tag_bytes t ++ rest.

(** [ready bs d da m r]: the parser holds [m] and has [bs] left to read,
    either at the head of the loop with recursion budget [d], or behind
    the tag that starts [bs] with budget [da], or done. *)
Definition ready (bs : bytes) (d da : nat) (m : A) (r : next A stream) : Prop :=
  match r with
  | Goto Top m' s => m' = m ∧ bytes_left s = bs ∧ depth s = d
  | Goto (At t) m' s =>
      m' = m ∧ 0 < t ≤ 127 ∧ bs = tag_bytes t ++ bytes_left s ∧ depth s = da
  | Done m' s => m' = m ∧ bs = [] ∧ at_end d s
  | _ => False
  end.

(** [finishes step d mf r]: from [r] the parser succeeds with [mf] at the
    end of its input. *)
Definition finishes step (d : nat) (mf : A) (r : next A stream) : Prop :=
  match r with
  | Goto l m s => ∃ s', runs step l m s mf s' ∧ at_end d s'
  | Done m s => m = mf ∧ at_end d s
  | _ => False
  end.

Lemma tail_ok_nil : tail_ok [].
Proof. by left. Qed.

Lemma tail_ok_tag t rest : 0 < t ≤ 127 → tail_ok (tag_bytes t ++ rest).
Proof. intros Ht. right. eauto. Qed.

Lemma tag_bytes_app_inj t t' r r' :
  0 < t ≤ 127 → 0 < t' ≤ 127 → tag_bytes t ++ r = tag_bytes t' ++ r' → t = t' ∧ r = r'.
Proof.
  intros Ht Ht' Heq. apply app_inj_1 in Heq as [H1 H2].
  - split; [by apply tag_bytes_inj|done].
  - by rewrite !tag_bytes_length.
Qed.

Lemma tag_bytes_app_not_nil t r : 0 < t ≤ 127 → tag_bytes t ++ r ≠ [].
Proof.
  intros Ht Heq. apply (f_equal length) in Heq.
  rewrite length_app, tag_bytes_length in Heq by done. simpl in Heq. lia.
Qed.

Lemma ready_expect_tag t m s rest d da :
  0 < t ≤ 127 → bytes_left s = rest → tail_ok rest → depth s = d → depth s = da →
  ready rest d da m (expect_tag t m s).
Proof.
  intros Ht Hl Htail Hd Hda. unfold expect_tag.
  destruct (ExpectTag t s) as [[] s'] eqn:He; simpl.
  - apply expect_tag_true in He as (s1 & Hr & Hb & Hdep).
    destruct Htail as [->|(t' & r & Ht' & ->)].
    + destruct (read_tag_end s Hl) as (b & s2 & Hr2 & _). rewrite Hr in Hr2.
      simplify_eq. lia.
    + destruct (read_tag t' s r Ht' Hl) as (s2 & Hr2 & Hb2 & Hd2).
      rewrite Hr in Hr2. simplify_eq. rewrite Hb. repeat split; [lia|lia|congruence].
  - apply expect_tag_false in He as [Hb Hdep]. repeat split; congruence.
Qed.

Lemma ready_expect_at_end m s rest d da :
  bytes_left s = rest → depth s = d → ready rest d da m (expect_at_end m s).
Proof.
  intros <- <-. unfold expect_at_end.
  destruct (ExpectAtEnd s) as [[] s'] eqn:He; simpl.
  - apply expect_end_true in He as [Hb Hend]. done.
  - apply expect_end_false in He as [Hb Hd]. done.
Qed.

Lemma finishes_goto step d mf l m s :
  finishes step d mf (step l m s) → finishes step d mf (Goto l m s).
Proof.
  intros Hf. simpl. destruct (step l m s) as [l1 m1 s1|m1 s1| |] eqn:Hs; simpl in Hf; try done.
  - destruct Hf as (s' & Hr & He). eauto using runs_goto.
  - destruct Hf as [-> He]. eauto using runs_done.
Qed.

Section Fields.
Context (step : @step_fn W A) (cases : Z → A → stream → next A stream).
Hypothesis step_top : ∀ m s, step Top m s = loop_head cases m s.

(** One field: its tag is dispatched to its label, the code there reads
    the payload and merges it. *)
Lemma field_finishes r m t payload rest m1 mf d da :
  0 < t ≤ 127 →
  ready (tag_bytes t ++ payload ++ rest) d da m r →
  (∀ s1, bytes_left s1 = payload ++ rest → depth s1 = d →
     ∃ s2, cases t m s1 = Goto (At t) m s2 ∧
           bytes_left s2 = payload ++ rest ∧ depth s2 = da) →
  (∀ s2, bytes_left s2 = payload ++ rest → depth s2 = da →
     ready rest d da m1 (step (At t) m s2)) →
  (∀ r', ready rest d da m1 r' → finishes step d mf r') →
  finishes step d mf r.
Proof.
  intros Ht Hr Hcase Hbody Hk.
  destruct r as [[|t'] m' s|m' s| |]; simpl in Hr; try done.
  - destruct Hr as (-> & Hb & Hd). apply finishes_goto. rewrite step_top.
    destruct (read_tag t s _ Ht Hb) as (s1 & Hrd & Hb1 & Hd1).
    unfold loop_head. rewrite Hrd.
    destruct (Hcase s1) as (s2 & -> & Hb2 & Hd2); [done|congruence|].
    apply finishes_goto, Hk, Hbody; done.
  - destruct Hr as (-> & Ht' & Hb & Hd). symmetry in Hb.
    apply tag_bytes_app_inj in Hb as [-> Hb]; [|done..].
    apply finishes_goto, Hk, Hbody; [congruence|done].
  - destruct Hr as (_ & Hb & _). by apply tag_bytes_app_not_nil in Hb.
Qed.

(** The end of the input. *)
Lemma end_finishes r m d da : ready [] d da m r →
  (∀ s, cases 0 m s = handle_unusual 0 m s) → finishes step d m r.
Proof.
  intros Hr Hzero. destruct r as [[|t'] m' s|m' s| |]; simpl in Hr; try done.
  - destruct Hr as (-> & Hb & Hd). apply finishes_goto. rewrite step_top.
    destruct (read_tag_end s Hb) as (b & s1 & Hrd & Hend).
    unfold loop_head. rewrite Hrd, Hd in *.
    destruct b; [rewrite Hzero|]; by unfold handle_unusual.
  - destruct Hr as (-> & Ht & Hb & _). symmetry in Hb.
    by apply tag_bytes_app_not_nil in Hb.
  - destruct Hr as (-> & _ & Hend). done.
Qed.
End Fields.

(** A parser started at the head of the loop. *)
Lemma finishes_merge_loop step d m0 mf s :
  step_decreases step → finishes step d mf (Goto Top m0 s) →
  ∃ s', merge_loop step m0 s = Parsed mf s' ∧ at_end d s'.
Proof.
  intros Hdec (s' & Hr & He). exists s'. split; [|done]. by apply runs_merge_loop.
Qed.
End Correctness.
