(* ===== verification/Message.v ===== *)
(** * The contract of a generated message class

    [Message] collects the virtual functions a generated class implements;
    [MessageLaws] is what the rest of the library relies on: the serializer
    writes the reference encoding [msg_wire], [ByteSize] is its length, and
    parsing an encoding merges the encoded message into the receiver.  The
    files [Requests.v], [Responses.v] and [Envelope.v] discharge it for every
    message of [protocol/messages.proto]; nested fields are verified against
    this interface only. *)
From S2P Require Import Prelude Wire Parser.

Class Message `{W : WireFormat} (M : Type) : Type := {
  msg_default : M;
  msg_merge_partial : M → stream → parse M stream;
  msg_to_array : M → bytes → bytes;
  msg_to_stream : M → bytes → bytes;
  msg_byte_size : M → Z;
  msg_merge_from : M → M → M
}.

Class MessageLaws `{W : WireFormat} {L : WireFormatLaws W} (M : Type) {Msg : Message M} : Type := {
  (** values the class can represent and the wire format can carry *)
  msg_ok : M → Prop;
  (** how many levels of messages a value contains *)
  msg_nesting : nat;
  (** the reference encoding *)
  msg_wire : M → bytes;
  msg_to_array_wire m t : msg_ok m → msg_to_array m t = t ++ msg_wire m;
  msg_to_stream_wire m t : msg_ok m → msg_to_stream m t = t ++ msg_wire m;
  msg_size_wire m : msg_ok m → msg_byte_size m = zlen (msg_wire m);
  msg_parse_wire m0 m s : msg_ok m → bytes_left s = msg_wire m →
    (msg_nesting ≤ depth s)%nat →
    ∃ s', msg_merge_partial m0 s = Parsed (msg_merge_from m0 m) s' ∧ at_end (depth s) s';
  msg_parse_total : parse_total msg_merge_partial;
  msg_merge_default m : msg_ok m → msg_merge_from msg_default m = m
}.

(** A nested message must be writable: its size is an [int]. *)
Definition nested_ok `{W : WireFormat} {L : WireFormatLaws W}
    `{Msg : !Message M} `{!MessageLaws M} (m : M) : Prop :=
  msg_ok m ∧ zlen (msg_wire m) ≤ int_max.

Definition string_ok `{W : WireFormat} (s : bytes) : Prop :=
  VerifyUtf8String s = true ∧ zlen s ≤ int_max.

(** ** Reference encodings of fields *)

Section Chunks.
Context `{W : WireFormat} {L : WireFormatLaws W}.

(** A field that is written only when [b] holds. *)
Definition chunk (b : bool) (t : Z) (payload : bytes) : bytes :=
  if b then tag_bytes t ++ payload else [].

Definition uint64_chunk (t v : Z) : bytes := chunk (negb (v =? 0)) t (uint64_bytes v).
Definition string_payload (s : bytes) : bytes := length_bytes (zlen s) ++ s.
Definition string_chunk (t : Z) (s : bytes) : bytes :=
  chunk (0 <? zlen s) t (string_payload s).
Definition message_chunk `{Msg : !Message M} `{!MessageLaws M} (t : Z) (m : M) : bytes :=
  chunk true t (string_payload (msg_wire m)).

Lemma chunk_false t p : chunk false t p = [].
Proof. done. Qed.

Lemma tail_ok_chunk b t p rest : 0 < t ≤ 127 → tail_ok rest → tail_ok (chunk b t p ++ rest).
Proof.
  intros Ht Hr. destruct b; simpl; [|done]. rewrite <- app_assoc. by apply tail_ok_tag.
Qed.

Lemma zlen_tag t : 0 < t ≤ 127 → zlen (tag_bytes t) = 1.
Proof. intros Ht. unfold zlen. by rewrite tag_bytes_length. Qed.

Lemma zlen_chunk b t p : 0 < t ≤ 127 → zlen (chunk b t p) = if b then 1 + zlen p else 0.
Proof. intros Ht. destruct b; simpl; [|done]. by rewrite zlen_app, zlen_tag. Qed.

Lemma zlen_fixed64 v : zlen (fixed64_bytes v) = 8.
Proof. unfold zlen. by rewrite fixed64_bytes_length. Qed.

Lemma zlen_string_payload s : zlen s ≤ int_max →
  zlen (string_payload s) = StringSize s.
Proof. intros Hs. unfold string_payload. by rewrite zlen_app, string_size. Qed.
End Chunks.
#[export] Hint Resolve tail_ok_nil : elegram.
#[export] Hint Extern 1 (tail_ok (chunk _ _ _ ++ _)) => apply tail_ok_chunk; [lia|] : elegram.

(** ** One lemma per kind of field *)

Section FieldKinds.
Context `{W : WireFormat} {L : WireFormatLaws W} {A : Type}.
Context (step : @step_fn W A) (cases : Z → A → stream → next A stream).
Hypothesis step_top : ∀ m s, step Top m s = loop_head cases m s.

(** An optional field of any kind, dispatched without side effect. *)
Lemma chunk_finishes r m b t payload rest m1 mf d :
  0 < t ≤ 127 →
  ready (chunk b t payload ++ rest) d d m r →
  (∀ s, cases t m s = Goto (At t) m s) →
  (b = true → ∀ s, bytes_left s = payload ++ rest → depth s = d →
     ready rest d d m1 (step (At t) m s)) →
  (∀ r', ready rest d d (if b then m1 else m) r' → finishes step d mf r') →
  finishes step d mf r.
Proof.
  intros Ht Hr Hcase Hbody Hk. destruct b; simpl in *; [|by apply Hk].
  rewrite <- app_assoc in Hr.
  eapply (field_finishes step cases step_top r m t payload rest m1 mf d d); eauto.
Qed.

(** The code that follows a field: another tag or the end is expected. *)
Definition continues (k : A → stream → next A stream) : Prop :=
  ∀ m s rest d, bytes_left s = rest → depth s = d → tail_ok rest →
    ready rest d d m (k m s).

Lemma continues_expect_tag t : 0 < t ≤ 127 → continues (expect_tag t).
Proof. intros Ht m s rest d Hb Hd Hr. by apply ready_expect_tag. Qed.

Lemma continues_expect_at_end : continues expect_at_end.
Proof. intros m s rest d Hb Hd _. by apply ready_expect_at_end. Qed.

Lemma uint64_finishes r m t v set k rest mf d :
  0 < t ≤ 127 → uint64_ok v → tail_ok rest → continues k →
  ready (uint64_chunk t v ++ rest) d d m r →
  (∀ s, cases t m s = Goto (At t) m s) →
  (∀ s, step (At t) m s = (DO_ (v, s) <- ReadUInt64 s; k (set m v) s)) →
  (∀ r', ready rest d d (if negb (v =? 0) then set m v else m) r' →
         finishes step d mf r') →
  finishes step d mf r.
Proof.
  intros Ht Hv Htl Hk Hr Hcase Hstep Hf.
  eapply (chunk_finishes r m); [done|exact Hr|done| |exact Hf].
  intros _ s Hb Hd. rewrite Hstep.
  destruct (read_uint64 v s rest Hv Hb) as (s' & -> & Hb' & Hd').
  apply Hk; [done|congruence|done].
Qed.

Lemma string_finishes r m t v set get k rest mf d :
  0 < t ≤ 127 → string_ok v → tail_ok rest → continues k →
  ready (string_chunk t v ++ rest) d d m r →
  (∀ s, cases t m s = Goto (At t) m s) →
  (∀ s, step (At t) m s =
     (DO_ (v, s) <- ReadString s;
      let m := set m v in REQUIRE_ VerifyUtf8String (get m); k m s)) →
  get (set m v) = v →
  (∀ r', ready rest d d (if 0 <? zlen v then set m v else m) r' →
         finishes step d mf r') →
  finishes step d mf r.
Proof.
  intros Ht [Hu Hv] Htl Hk Hr Hcase Hstep Hget Hf.
  eapply (chunk_finishes r m); [done|exact Hr|done| |exact Hf].
  intros _ s Hb Hd. rewrite Hstep. unfold string_payload in Hb.
  rewrite <- app_assoc in Hb.
  destruct (read_string v s rest Hv Hb) as (s' & -> & Hb' & Hd'). simpl.
  rewrite Hget, Hu. apply Hk; [done|congruence|done].
Qed.

(** A nested message: [get] is the [mutable_] accessor's value, [set]
    stores the merged message back. *)
Lemma message_finishes `{Msg : !Message M} `{!MessageLaws M} r m t (v old : M) set k rest mf d :
  0 < t ≤ 127 → nested_ok v → tail_ok rest → continues k → (S msg_nesting ≤ d)%nat →
  ready (message_chunk t v ++ rest) d d m r →
  (∀ s, cases t m s = Goto (At t) m s) →
  (∀ s, step (At t) m s =
     (MERGE_ (v, s) <- ReadMessageNoVirtual msg_merge_partial old s; k (set m v) s)) →
  (∀ r', ready rest d d (set m (msg_merge_from old v)) r' → finishes step d mf r') →
  finishes step d mf r.
Proof.
  intros Ht [Hv Hlen] Htl Hk Hn Hr Hcase Hstep Hf.
  eapply (chunk_finishes r m); [done|exact Hr|done| |exact Hf].
  intros _ s Hb Hd. rewrite Hstep. unfold string_payload in Hb.
  rewrite <- app_assoc in Hb. destruct d as [|d]; [lia|].
  destruct (read_message msg_merge_partial old (msg_merge_from old v) s (msg_wire v) rest d)
    as (s' & -> & Hb' & Hd'); [done..| |].
  - intros sub Hsb Hsd. rewrite <- Hsd. apply msg_parse_wire; [done..|lia].
  - apply Hk; [done|congruence|done].
Qed.

Lemma nothing_left_finishes r m d :
  ready [] d d m r → (∀ s, cases 0 m s = handle_unusual 0 m s) → finishes step d m r.
Proof. apply (end_finishes step cases step_top). Qed.
End FieldKinds.
#[export] Hint Resolve continues_expect_at_end : elegram.
#[export] Hint Extern 1 (continues (expect_tag _)) => apply continues_expect_tag; lia : elegram.

(** ** Enumerations, fixed-width integers and repeated messages *)

Section MoreChunks.
Context `{W : WireFormat} {L : WireFormatLaws W}.

Definition enum_chunk (t v : Z) : bytes := chunk (negb (v =? 0)) t (enum_bytes v).
Definition fixed64_chunk (t v : Z) : bytes := chunk (negb (v =? 0)) t (fixed64_bytes v).
Definition repeated_chunk `{Msg : !Message M} `{!MessageLaws M} (t : Z) (l : list M) : bytes :=
  concat (map (message_chunk t) l).

Lemma tail_ok_message_chunk `{Msg : !Message M} `{!MessageLaws M} t (m : M) rest :
  0 < t ≤ 127 → tail_ok (message_chunk t m ++ rest).
Proof.
  intros Ht. unfold message_chunk, chunk. rewrite <- app_assoc. by apply tail_ok_tag.
Qed.
End MoreChunks.

Section MoreFieldKinds.
Context `{W : WireFormat} {L : WireFormatLaws W} {A : Type}.
Context (step : @step_fn W A) (cases : Z → A → stream → next A stream).
Hypothesis step_top : ∀ m s, step Top m s = loop_head cases m s.

Lemma enum_finishes r m t v set k rest mf d :
  0 < t ≤ 127 → int32_ok v → tail_ok rest → continues k →
  ready (enum_chunk t v ++ rest) d d m r →
  (∀ s, cases t m s = Goto (At t) m s) →
  (∀ s, step (At t) m s = (DO_ (v, s) <- ReadEnum s; k (set m v) s)) →
  (∀ r', ready rest d d (if negb (v =? 0) then set m v else m) r' →
         finishes step d mf r') →
  finishes step d mf r.
Proof.
  intros Ht Hv Htl Hk Hr Hcase Hstep Hf.
  eapply (chunk_finishes step cases step_top r m); [done|exact Hr|done| |exact Hf].
  intros _ s Hb Hd. rewrite Hstep.
  destruct (read_enum v s rest Hv Hb) as (s' & -> & Hb' & Hd').
  apply Hk; [done|congruence|done].
Qed.

Lemma fixed64_finishes r m t v set k rest mf d :
  0 < t ≤ 127 → uint64_ok v → tail_ok rest → continues k →
  ready (fixed64_chunk t v ++ rest) d d m r →
  (∀ s, cases t m s = Goto (At t) m s) →
  (∀ s, step (At t) m s = (DO_ (v, s) <- ReadFixed64 s; k (set m v) s)) →
  (∀ r', ready rest d d (if negb (v =? 0) then set m v else m) r' →
         finishes step d mf r') →
  finishes step d mf r.
Proof.
  intros Ht Hv Htl Hk Hr Hcase Hstep Hf.
  eapply (chunk_finishes step cases step_top r m); [done|exact Hr|done| |exact Hf].
  intros _ s Hb Hd. rewrite Hstep.
  destruct (read_fixed64 v s rest Hv Hb) as (s' & -> & Hb' & Hd').
  apply Hk; [done|congruence|done].
Qed.

(** A repeated message field at the end of a message: the first element's
    tag takes one level of the recursion budget, the loop over
    [parse_loop_<field>] keeps it, and falling out of the loop returns it. *)
Lemma repeated_finishes `{Msg : !Message M} `{!MessageLaws M} r m t (l : list M) add d :
  0 < t ≤ 127 → Forall nested_ok l → (S msg_nesting ≤ S d)%nat →
  ready (repeated_chunk t l) (S d) d m r →
  (∀ m s, cases t m s = (DO_ s <- IncrementRecursionDepth s; Goto (At t) m s)) →
  (∀ m s, cases 0 m s = handle_unusual 0 m s) →
  (∀ m s, step (At t) m s =
     (MERGE_ (v, s) <- ReadMessageNoVirtualNoRecursionDepth msg_merge_partial msg_default s;
      match ExpectTag t s with
      | (true, s) => Goto (At t) (add m v) s
      | (false, s) => expect_at_end (add m v) (UnsafeDecrementRecursionDepth s)
      end)) →
  finishes step (S d) (fold_left add l m) r.
Proof.
  intros Ht Hl Hn Hr Hcase Hzero Hstep. revert m r Hr.
  induction Hl as [|v l [Hv Hlen] Hl IH]; intros m r Hr; simpl.
  { by eapply (end_finishes step cases step_top r m _ d). }
  change (repeated_chunk t (v :: l)) with (message_chunk t v ++ repeated_chunk t l) in Hr.
  unfold message_chunk, chunk in Hr. rewrite <- app_assoc in Hr.
  eapply (field_finishes step cases step_top r m t _ _ (add m v)); [done|exact Hr|..].
  - intros s1 Hb Hd. rewrite Hcase.
    destruct (increment_depth s1 d Hd) as (s2 & -> & Hb2 & Hd2).
    exists s2. split; [done|]. split; [congruence|done].
  - intros s2 Hb Hd. rewrite Hstep. unfold string_payload in Hb.
    rewrite <- app_assoc in Hb.
    destruct (read_message_no_depth msg_merge_partial msg_default
                (msg_merge_from msg_default v) s2 (msg_wire v) (repeated_chunk t l))
      as (s' & -> & Hb' & Hd'); [done..| |].
    + intros sub Hsb Hsd. rewrite <- Hsd. apply msg_parse_wire; [done..|lia].
    + rewrite msg_merge_default by done.
      assert (tail_ok (repeated_chunk t l)) as Htl.
      { destruct l as [|v' l]; [by left|]. by apply tail_ok_message_chunk. }
      destruct (ExpectTag t s') as [[] s3] eqn:He.
      * pose proof (ready_expect_tag t (add m v) s' _ (depth s') (depth s') Ht Hb' Htl eq_refl eq_refl) as Hrd.
        unfold expect_tag in Hrd. rewrite He in Hrd. simpl in *.
        destruct Hrd as (_ & _ & Hr1 & Hr2). repeat split; [lia|lia|done|congruence].
      * apply expect_tag_false in He as [Hb3 Hd3].
        destruct (decrement_depth s3) as [Hb4 Hd4].
        apply ready_expect_at_end; [congruence|]. rewrite Hd4. congruence.
  - apply IH.
Qed.
End MoreFieldKinds.

(** ** Nested messages, written and measured *)

Section Nested.
Context `{W : WireFormat} {L : WireFormatLaws W}.
Context `{Msg : !Message M} `{!MessageLaws M}.

Lemma nested_size (v : M) : nested_ok v → 0 ≤ msg_byte_size v ≤ int_max.
Proof. intros [Hv Hl]. rewrite msg_size_wire by done. split; [apply zlen_nonneg|done]. Qed.

Lemma write_message_chunk f t (v : M) target :
  0 < f ≤ 15 → t = make_tag f WIRETYPE_LENGTH_DELIMITED → nested_ok v →
  InternalWriteMessageNoVirtualToArray msg_byte_size msg_to_array f v target =
  target ++ message_chunk t v.
Proof.
  intros Hf -> Hn. rewrite write_message by (by try apply nested_size).
  destruct Hn as [Hv Hl]. rewrite msg_to_array_wire, msg_size_wire by done.
  unfold message_chunk, chunk, string_payload. by rewrite <- !app_assoc.
Qed.

Lemma write_stream_message_chunk f t (v : M) target :
  0 < f ≤ 15 → t = make_tag f WIRETYPE_LENGTH_DELIMITED → nested_ok v →
  WriteMessageMaybeToArray msg_byte_size msg_to_stream f v target =
  target ++ message_chunk t v.
Proof.
  intros Hf -> Hn. rewrite write_stream_message, write_message by (by try apply nested_size).
  destruct Hn as [Hv Hl]. rewrite msg_to_stream_wire, msg_size_wire by done.
  unfold message_chunk, chunk, string_payload. by rewrite <- !app_assoc.
Qed.

Lemma zlen_message_chunk t (v : M) : 0 < t ≤ 127 → nested_ok v →
  zlen (message_chunk t v) = 1 + MessageSizeNoVirtual msg_byte_size v.
Proof.
  intros Ht Hn. rewrite message_size by (by apply nested_size).
  destruct Hn as [Hv Hl]. rewrite msg_size_wire by done.
  unfold message_chunk. rewrite zlen_chunk by done.
  unfold string_payload. by rewrite zlen_app.
Qed.

Lemma message_chunk_nonempty t (v : M) : 0 < t ≤ 127 → nested_ok v →
  2 ≤ zlen (message_chunk t v).
Proof.
  intros Ht Hn. unfold message_chunk. rewrite zlen_chunk by done.
  unfold string_payload. rewrite zlen_app. destruct Hn as [_ Hl].
  pose proof (zlen_nonneg (msg_wire v)).
  pose proof (length_bytes_nonempty (zlen (msg_wire v))). lia.
Qed.

(** Repeated fields are written and measured element by element. *)
Lemma write_repeated f t (l : list M) target :
  0 < f ≤ 15 → t = make_tag f WIRETYPE_LENGTH_DELIMITED → Forall nested_ok l →
  fold_left (λ target v,
    InternalWriteMessageNoVirtualToArray msg_byte_size msg_to_array f v target) l target =
  target ++ repeated_chunk t l.
Proof.
  intros Hf Ht Hl. revert target. induction Hl as [|v l Hv Hl IH]; intros target.
  - by rewrite app_nil_r.
  - simpl. rewrite IH, (write_message_chunk f t) by done. by rewrite <- app_assoc.
Qed.

Lemma write_stream_repeated f t (l : list M) target :
  0 < f ≤ 15 → t = make_tag f WIRETYPE_LENGTH_DELIMITED → Forall nested_ok l →
  fold_left (λ output v,
    WriteMessageMaybeToArray msg_byte_size msg_to_stream f v output) l target =
  target ++ repeated_chunk t l.
Proof.
  intros Hf Ht Hl. revert target. induction Hl as [|v l Hv Hl IH]; intros target.
  - by rewrite app_nil_r.
  - simpl. rewrite IH, (write_stream_message_chunk f t) by done. by rewrite <- app_assoc.
Qed.

Lemma size_repeated t (l : list M) z : 0 < t ≤ 127 → Forall nested_ok l →
  fold_left (λ total v, total + MessageSizeNoVirtual msg_byte_size v) l z + zlen l =
  z + zlen (repeated_chunk t l).
Proof.
  intros Ht Hl. revert z. induction Hl as [|v l Hv Hl IH]; intros z; [done|].
  change (repeated_chunk t (v :: l)) with (message_chunk t v ++ repeated_chunk t l).
  simpl. rewrite zlen_cons, zlen_app, zlen_message_chunk by done.
  specialize (IH (z + MessageSizeNoVirtual msg_byte_size v)). lia.
Qed.
End Nested.

(** ** Whole messages *)

Section Whole.
Context `{W : WireFormat} {L : WireFormatLaws W}.
Context `{Msg : !Message M} `{!MessageLaws M}.

(** What [SerializeToArray] leaves in the array from its offset on. *)
Definition msg_encode (m : M) : bytes := msg_to_array m [].

Lemma msg_encode_wire m : msg_ok m → msg_encode m = msg_wire m.
Proof. intros Hok. unfold msg_encode. by rewrite msg_to_array_wire. Qed.

(** Parsing an encoding, with anything behind it in the buffer, merges the
    encoded message into the receiver. *)
Lemma parse_encoded m0 (m : M) rest n : nested_ok m → (msg_nesting ≤ 100)%nat →
  n = zlen (msg_encode m) →
  ParseFromArray msg_merge_partial m0 (msg_encode m ++ rest) n = Some (msg_merge_from m0 m).
Proof.
  intros [Hok Hlen] Hn ->. rewrite msg_encode_wire by done.
  pose proof (zlen_nonneg (msg_wire m)). pose proof (zlen_nonneg rest).
  rewrite parse_from_array by (rewrite ?zlen_app; lia).
  rewrite to_nat_zlen, take_app_length.
  destruct (open_array (msg_wire m) Hlen) as [Hl Hd].
  destruct (msg_parse_wire m0 m (OpenArray (msg_wire m))) as (s' & -> & (_ & _ & Hc));
    [done|done|by rewrite Hd|]. by rewrite Hc.
Qed.

Lemma parse_encoded_fresh (m : M) rest n : nested_ok m → (msg_nesting ≤ 100)%nat →
  n = zlen (msg_encode m) →
  ParseFromArray msg_merge_partial msg_default (msg_encode m ++ rest) n = Some m.
Proof.
  intros Hm Hn Hl. rewrite parse_encoded by done. f_equal. apply msg_merge_default, Hm.
Qed.

Lemma encode_size (m : M) : msg_ok m → msg_byte_size m = zlen (msg_encode m).
Proof. intros Hok. by rewrite msg_size_wire, msg_encode_wire. Qed.
End Whole.

(** ** Tactics for the proofs about one message class *)

(** [cases] on a literal tag. *)
Tactic Notation "dispatch" reference(cases) :=
  intros; unfold cases; by rewrite tag_field_number.

Lemma expect_tag_true_shrinks `{W : WireFormat} {L : WireFormatLaws W} t s s' :
  t ≠ 0 → ExpectTag t s = (true, s') → (length (bytes_left s') < length (bytes_left s))%nat.
Proof.
  intros Ht (s1 & Hr & Hb & _)%expect_tag_true.
  apply read_tag_shrinks in Hr as [_ Hr]. rewrite Hb. auto.
Qed.

Lemma expect_tag_false_shrinks `{W : WireFormat} {L : WireFormatLaws W} t s s' :
  ExpectTag t s = (false, s') → (length (bytes_left s') ≤ length (bytes_left s))%nat.
Proof. intros [Hb _]%expect_tag_false. by rewrite Hb. Qed.

Lemma decrement_left `{W : WireFormat} {L : WireFormatLaws W} s :
  bytes_left (UnsafeDecrementRecursionDepth s) = bytes_left s.
Proof. apply decrement_depth. Qed.

(** Reads performed by a step left no more input than there was. *)
Ltac shrink_facts :=
  repeat match goal with
  | H : ReadUInt64 _ = Some _ |- _ => apply read_uint64_shrinks in H
  | H : ReadFixed64 _ = Some _ |- _ => apply read_fixed64_shrinks in H
  | H : ReadEnum _ = Some _ |- _ => apply read_enum_shrinks in H
  | H : ReadString _ = Some _ |- _ => apply read_string_shrinks in H
  | H : IncrementRecursionDepth _ = Some _ |- _ => apply increment_depth_shrinks in H
  | H : ExpectTag _ _ = (true, _) |- _ => apply expect_tag_true_shrinks in H; [|done]
  | H : ExpectTag _ _ = (false, _) |- _ => apply expect_tag_false_shrinks in H
  | H : ReadMessageNoVirtual ?mg ?m ?s = _ |- _ =>
      let Hs := fresh in
      pose proof (read_message_total mg m s msg_parse_total) as Hs;
      rewrite H in Hs; simpl in Hs; clear H
  | H : ReadMessageNoVirtualNoRecursionDepth ?mg ?m ?s = _ |- _ =>
      let Hs := fresh in
      pose proof (read_message_no_depth_total mg m s msg_parse_total) as Hs;
      rewrite H in Hs; simpl in Hs; clear H
  | H : (?t =? _) = true |- _ => apply Z.eqb_eq in H; subst
  end.

Ltac steps_below_leaf :=
  match goal with
  | |- steps_below _ _ (handle_unusual _ _ _) => by apply steps_below_unusual_tag
  | |- steps_below _ _ (expect_tag _ _ _) => apply steps_below_expect_tag; [done|lia]
  | |- steps_below _ _ (expect_at_end _ _) =>
      apply steps_below_expect_at_end; rewrite ?decrement_left; lia
  | |- steps_below _ _ (Goto (At _) _ _) => simpl; lia
  | H : ?t ≠ 0 → _ |- steps_below _ _ (Goto (At _) _ _) => specialize (H ltac:(done)); simpl; lia
  | |- _ => done
  end.

Tactic Notation "parser_decreases" reference(step) reference(cases) :=
  let tag := fresh "tag" in
  intros [|tag] ? s;
  [ apply steps_below_loop_head; intros; unfold cases;
    repeat case_match; shrink_facts; steps_below_leaf
  | unfold step; repeat (case_match; try done); shrink_facts; try steps_below_leaf ].

(** Unpack the validity of the fields. *)
Tactic Notation "open_ok" reference(ok) :=
  unfold ok in *;
  repeat match goal with
  | H : _ ∧ _ |- _ => destruct H
  | H : string_ok _ |- _ => destruct H
  end.

(** The serializers, compared with the reference encoding. *)
Ltac write_chunks :=
  unfold uint64_chunk, string_chunk, enum_chunk, fixed64_chunk, chunk, string_payload;
  repeat case_match;
  rewrite ?write_stream_uint64, ?write_stream_string, ?write_stream_enum,
    ?write_stream_fixed64, ?write_uint64, ?write_string, ?write_enum, ?write_fixed64
    by (done || lia);
  by rewrite <- ?app_assoc, ?app_nil_r.

Ltac size_chunks :=
  unfold uint64_chunk, string_chunk, enum_chunk, fixed64_chunk;
  rewrite ?app_nil_r, ?zlen_app, ?zlen_chunk, ?zlen_string_payload by (done || lia);
  rewrite <- ?uint64_size, <- ?enum_size, ?zlen_fixed64 by (done || lia);
  first [done | repeat case_match; lia].

(** Merging into the default value: an absent field has the default. *)
Ltac merge_into_default :=
  repeat case_match;
  repeat match goal with
  | H : negb (?v =? 0) = false |- _ => assert (v = 0) by lia; clear H; subst
  | H : (0 <? zlen ?v) = false |- _ =>
      assert (v = []) by (apply zlen_zero_nil; pose proof (zlen_nonneg v); lia); clear H; subst
  end;
  done.

(** Parsing: one lemma application per field.  The code behind the label is
    unified first, it determines how the parser continues. *)
Ltac close_field cases :=
  try lazymatch goal with
  | |- finishes _ _ _ _ => fail
  | |- ∀ _, ready _ _ _ _ _ → finishes _ _ _ _ => fail
  | |- ∀ _, _ = Goto _ _ _ => intros; unfold cases; by rewrite tag_field_number
  | |- ∀ _, _ = handle_unusual _ _ _ =>
      intros; unfold cases; first [reflexivity | by rewrite tag_field_number]
  | |- continues _ => first [apply continues_expect_at_end | apply continues_expect_tag; lia]
  | |- tail_ok _ => repeat (apply tail_ok_chunk; [lia|]); apply tail_ok_nil
  | |- (S msg_nesting ≤ _)%nat => simpl; lia
  | |- _ => first [done | lia | eassumption | intros; reflexivity]
  end.

Tactic Notation "merge_field" reference(cases) :=
  let r := fresh "r" in
  let Hr := fresh "Hr" in
  match goal with
  | H : ready (uint64_chunk _ _ ++ _) _ _ _ ?r0 |- finishes ?st _ _ ?r0 =>
      eapply (uint64_finishes st); [ | | | | |exact H| |intros; reflexivity|]; clear H
  | H : ready (string_chunk _ _ ++ _) _ _ _ ?r0 |- finishes ?st _ _ ?r0 =>
      eapply (string_finishes st); [ | | | | |exact H| |intros; reflexivity| |]; clear H
  | H : ready (enum_chunk _ _ ++ _) _ _ _ ?r0 |- finishes ?st _ _ ?r0 =>
      eapply (enum_finishes st); [ | | | | |exact H| |intros; reflexivity|]; clear H
  | H : ready (fixed64_chunk _ _ ++ _) _ _ _ ?r0 |- finishes ?st _ _ ?r0 =>
      eapply (fixed64_finishes st); [ | | | | |exact H| |intros; reflexivity|]; clear H
  | H : ready (message_chunk _ ?v ++ _) _ _ _ ?r0 |- finishes ?st _ _ ?r0 =>
      let M := type of v in
      eapply (@message_finishes _ _ _ st _ (λ _ _, eq_refl) M);
        [ | | | | |exact H| |intros; reflexivity|]; clear H
  | H : ready [] _ _ _ ?r0 |- finishes ?st _ _ ?r0 =>
      eapply (nothing_left_finishes st); [ |exact H|]
  end;
  close_field cases;
  try (intros r Hr).

(** Start of a merge proof: the parser is at the head of its loop. *)
Tactic Notation "start_merge" constr(decreases) :=
  match goal with
  | H : bytes_left ?s = ?wire |- ∃ _, _ = Parsed _ _ ∧ _ =>
      apply finishes_merge_loop; [apply decreases|];
      match goal with
      | |- finishes _ _ _ (Goto Top ?m0 ?s) =>
          let Hr := fresh "Hr" in
          assert (ready wire (depth s) (depth s) m0 (Goto Top m0 s)) as Hr by done;
          revert Hr; generalize (Goto Top m0 s : next _ stream);
          let r := fresh "r" in intros r Hr
      end
  end.
