(* ===== verification/Requests.v ===== *)
(** * Request messages

    The request classes of [server/src/proto/messages.pb.cc] (the client's
    copy is identical): their members, accessors, parser, serializers, size
    and merge, one module per class, and the proof that each class meets the
    contract of [Message.v]. *)
From S2P Require Import Prelude Wire Parser Message.

(** ** RegisterRequest

    name, email and password of a new user *)

Module RegisterRequest.
Record t := Build { name : bytes; email : bytes; password : bytes }.

Section Code.
Context `{W : WireFormat}.

Definition SharedCtor : t := {| name := []; email := []; password := [] |}.

Definition Clear (m : t) : t := {| name := []; email := []; password := [] |}.

Definition set_name (m : t) (value : bytes) : t :=
  {| name := value; email := email m; password := password m |}.

Definition set_email (m : t) (value : bytes) : t :=
  {| name := name m; email := value; password := password m |}.

Definition set_password (m : t) (value : bytes) : t :=
  {| name := name m; email := email m; password := value |}.

Definition cases (tag : Z) (m : t) (s : stream) : next t stream :=
  match GetTagFieldNumber tag with
  | 1 => if tag =? 10 then Goto (At 10) m s else handle_unusual tag m s
  | 2 => if tag =? 18 then Goto (At 18) m s else handle_unusual tag m s
  | 3 => if tag =? 26 then Goto (At 26) m s else handle_unusual tag m s
  | _ => handle_unusual tag m s
  end.

Definition step (l : label) (m : t) (s : stream) : next t stream :=
  match l with
  | Top => loop_head cases m s
  | At 10 =>
      DO_ (v, s) <- ReadString s;
      let m := set_name m v in
      REQUIRE_ VerifyUtf8String (name m);
      expect_tag 18 m s
  | At 18 =>
      DO_ (v, s) <- ReadString s;
      let m := set_email m v in
      REQUIRE_ VerifyUtf8String (email m);
      expect_tag 26 m s
  | At 26 =>
      DO_ (v, s) <- ReadString s;
      let m := set_password m v in
      REQUIRE_ VerifyUtf8String (password m);
      expect_at_end m s
  | At _ => Fail
  end.

Definition MergePartialFromCodedStream (m : t) (s : stream) : parse t stream :=
  merge_loop step m s.

Definition InternalSerializeWithCachedSizesToArray (m : t) (target : bytes) : bytes :=
  let target :=
    if 0 <? zlen (name m) then WriteStringToArray 1 (name m) target else target in
  let target :=
    if 0 <? zlen (email m) then WriteStringToArray 2 (email m) target else target in
  let target :=
    if 0 <? zlen (password m) then WriteStringToArray 3 (password m) target else target in
  target.

Definition SerializeWithCachedSizes (m : t) (output : bytes) : bytes :=
  let output :=
    if 0 <? zlen (name m) then WriteStringMaybeAliased 1 (name m) output else output in
  let output :=
    if 0 <? zlen (email m) then WriteStringMaybeAliased 2 (email m) output else output in
  let output :=
    if 0 <? zlen (password m) then WriteStringMaybeAliased 3 (password m) output else output in
  output.

Definition ByteSize (m : t) : Z :=
  let total_size := 0 in
  let total_size :=
    if 0 <? zlen (name m) then total_size + (1 + StringSize (name m)) else total_size in
  let total_size :=
    if 0 <? zlen (email m) then total_size + (1 + StringSize (email m)) else total_size in
  let total_size :=
    if 0 <? zlen (password m) then total_size + (1 + StringSize (password m)) else total_size in
  total_size.

Definition MergeFrom (m from : t) : t :=
  let m := if 0 <? zlen (name from) then set_name m (name from) else m in
  let m := if 0 <? zlen (email from) then set_email m (email from) else m in
  let m := if 0 <? zlen (password from) then set_password m (password from) else m in
  m.

Definition CopyFrom (m from : t) : t := MergeFrom (Clear m) from.

#[global] Instance message : Message t := {|
  msg_default := SharedCtor;
  msg_merge_partial := MergePartialFromCodedStream;
  msg_to_array := InternalSerializeWithCachedSizesToArray;
  msg_to_stream := SerializeWithCachedSizes;
  msg_byte_size := ByteSize;
  msg_merge_from := MergeFrom |}.
End Code.

Section Laws.
Context `{W : WireFormat} {L : WireFormatLaws W}.

Definition ok (m : t) : Prop := string_ok (name m) ∧ string_ok (email m) ∧ string_ok (password m).

Definition wire (m : t) : bytes :=
  string_chunk 10 (name m) ++ string_chunk 18 (email m) ++ string_chunk 26 (password m) ++ [].

Lemma RegisterRequest_step_decreases : Parser.step_decreases step.
Proof. parser_decreases step cases. Qed.

Lemma RegisterRequest_to_array_wire m target : ok m →
  InternalSerializeWithCachedSizesToArray m target = target ++ wire m.
Proof.
  intros Hok. open_ok ok. unfold InternalSerializeWithCachedSizesToArray, wire. write_chunks.
Qed.

Lemma RegisterRequest_to_stream_wire m output : ok m →
  SerializeWithCachedSizes m output = output ++ wire m.
Proof. intros Hok. open_ok ok. unfold SerializeWithCachedSizes, wire. write_chunks. Qed.

Lemma RegisterRequest_size_wire m : ok m → ByteSize m = zlen (wire m).
Proof. intros Hok. open_ok ok. unfold ByteSize, wire. size_chunks. Qed.

Lemma RegisterRequest_parse_wire m0 m s : ok m → bytes_left s = wire m → (0 ≤ depth s)%nat →
  ∃ s', MergePartialFromCodedStream m0 s = Parsed (MergeFrom m0 m) s' ∧ at_end (depth s) s'.
Proof.
  intros (H0 & H1 & H2) Hb _. unfold wire in Hb. start_merge RegisterRequest_step_decreases.
  do 4 merge_field cases.
Qed.

Lemma RegisterRequest_merge_default m : ok m → MergeFrom SharedCtor m = m.
Proof. destruct m as [x0 x1 x2]. intros _. unfold MergeFrom, SharedCtor; simpl. merge_into_default. Qed.

#[global] Instance message_laws : MessageLaws t.
Proof.
  refine {| msg_ok := ok; msg_nesting := 0; msg_wire := wire |}.
  - exact RegisterRequest_to_array_wire.
  - exact RegisterRequest_to_stream_wire.
  - exact RegisterRequest_size_wire.
  - exact RegisterRequest_parse_wire.
  - apply merge_loop_total, RegisterRequest_step_decreases.
  - exact RegisterRequest_merge_default.
Defined.

Lemma RegisterRequest_CopyFrom_copies (m from : t) : ok from → CopyFrom m from = from.
Proof. apply RegisterRequest_merge_default. Qed.
End Laws.
End RegisterRequest.

(** ** LoginRequest

    email and password *)

Module LoginRequest.
Record t := Build { email : bytes; password : bytes }.

Section Code.
Context `{W : WireFormat}.

Definition SharedCtor : t := {| email := []; password := [] |}.

Definition Clear (m : t) : t := {| email := []; password := [] |}.

Definition set_email (m : t) (value : bytes) : t :=
  {| email := value; password := password m |}.

Definition set_password (m : t) (value : bytes) : t :=
  {| email := email m; password := value |}.

Definition cases (tag : Z) (m : t) (s : stream) : next t stream :=
  match GetTagFieldNumber tag with
  | 1 => if tag =? 10 then Goto (At 10) m s else handle_unusual tag m s
  | 2 => if tag =? 18 then Goto (At 18) m s else handle_unusual tag m s
  | _ => handle_unusual tag m s
  end.

Definition step (l : label) (m : t) (s : stream) : next t stream :=
  match l with
  | Top => loop_head cases m s
  | At 10 =>
      DO_ (v, s) <- ReadString s;
      let m := set_email m v in
      REQUIRE_ VerifyUtf8String (email m);
      expect_tag 18 m s
  | At 18 =>
      DO_ (v, s) <- ReadString s;
      let m := set_password m v in
      REQUIRE_ VerifyUtf8String (password m);
      expect_at_end m s
  | At _ => Fail
  end.

Definition MergePartialFromCodedStream (m : t) (s : stream) : parse t stream :=
  merge_loop step m s.

Definition InternalSerializeWithCachedSizesToArray (m : t) (target : bytes) : bytes :=
  let target :=
    if 0 <? zlen (email m) then WriteStringToArray 1 (email m) target else target in
  let target :=
    if 0 <? zlen (password m) then WriteStringToArray 2 (password m) target else target in
  target.

Definition SerializeWithCachedSizes (m : t) (output : bytes) : bytes :=
  let output :=
    if 0 <? zlen (email m) then WriteStringMaybeAliased 1 (email m) output else output in
  let output :=
    if 0 <? zlen (password m) then WriteStringMaybeAliased 2 (password m) output else output in
  output.

Definition ByteSize (m : t) : Z :=
  let total_size := 0 in
  let total_size :=
    if 0 <? zlen (email m) then total_size + (1 + StringSize (email m)) else total_size in
  let total_size :=
    if 0 <? zlen (password m) then total_size + (1 + StringSize (password m)) else total_size in
  total_size.

Definition MergeFrom (m from : t) : t :=
  let m := if 0 <? zlen (email from) then set_email m (email from) else m in
  let m := if 0 <? zlen (password from) then set_password m (password from) else m in
  m.

Definition CopyFrom (m from : t) : t := MergeFrom (Clear m) from.

#[global] Instance message : Message t := {|
  msg_default := SharedCtor;
  msg_merge_partial := MergePartialFromCodedStream;
  msg_to_array := InternalSerializeWithCachedSizesToArray;
  msg_to_stream := SerializeWithCachedSizes;
  msg_byte_size := ByteSize;
  msg_merge_from := MergeFrom |}.
End Code.

Section Laws.
Context `{W : WireFormat} {L : WireFormatLaws W}.

Definition ok (m : t) : Prop := string_ok (email m) ∧ string_ok (password m).

Definition wire (m : t) : bytes :=
  string_chunk 10 (email m) ++ string_chunk 18 (password m) ++ [].

Lemma LoginRequest_step_decreases : Parser.step_decreases step.
Proof. parser_decreases step cases. Qed.

Lemma LoginRequest_to_array_wire m target : ok m →
  InternalSerializeWithCachedSizesToArray m target = target ++ wire m.
Proof.
  intros Hok. open_ok ok. unfold InternalSerializeWithCachedSizesToArray, wire. write_chunks.
Qed.

Lemma LoginRequest_to_stream_wire m output : ok m →
  SerializeWithCachedSizes m output = output ++ wire m.
Proof. intros Hok. open_ok ok. unfold SerializeWithCachedSizes, wire. write_chunks. Qed.

Lemma LoginRequest_size_wire m : ok m → ByteSize m = zlen (wire m).
Proof. intros Hok. open_ok ok. unfold ByteSize, wire. size_chunks. Qed.

Lemma LoginRequest_parse_wire m0 m s : ok m → bytes_left s = wire m → (0 ≤ depth s)%nat →
  ∃ s', MergePartialFromCodedStream m0 s = Parsed (MergeFrom m0 m) s' ∧ at_end (depth s) s'.
Proof.
  intros (H0 & H1) Hb _. unfold wire in Hb. start_merge LoginRequest_step_decreases.
  do 3 merge_field cases.
Qed.

Lemma LoginRequest_merge_default m : ok m → MergeFrom SharedCtor m = m.
Proof. destruct m as [x0 x1]. intros _. unfold MergeFrom, SharedCtor; simpl. merge_into_default. Qed.

#[global] Instance message_laws : MessageLaws t.
Proof.
  refine {| msg_ok := ok; msg_nesting := 0; msg_wire := wire |}.
  - exact LoginRequest_to_array_wire.
  - exact LoginRequest_to_stream_wire.
  - exact LoginRequest_size_wire.
  - exact LoginRequest_parse_wire.
  - apply merge_loop_total, LoginRequest_step_decreases.
  - exact LoginRequest_merge_default.
Defined.

Lemma LoginRequest_CopyFrom_copies (m from : t) : ok from → CopyFrom m from = from.
Proof. apply LoginRequest_merge_default. Qed.
End Laws.
End LoginRequest.

(** ** AllMyChatsRequest

    no fields: the parser skips whatever it reads *)

Module AllMyChatsRequest.
Record t := Build {}.

Section Code.
Context `{W : WireFormat}.

Definition SharedCtor : t := Build.

Definition Clear (m : t) : t := m.

Definition cases (tag : Z) (m : t) (s : stream) : next t stream :=
  handle_unusual tag m s.

Definition step (l : label) (m : t) (s : stream) : next t stream :=
  match l with
  | Top => loop_head cases m s
  | At _ => Fail
  end.

Definition MergePartialFromCodedStream (m : t) (s : stream) : parse t stream :=
  merge_loop step m s.

Definition InternalSerializeWithCachedSizesToArray (m : t) (target : bytes) : bytes :=
  target.

Definition SerializeWithCachedSizes (m : t) (output : bytes) : bytes :=
  output.

Definition ByteSize (m : t) : Z :=
  let total_size := 0 in
  total_size.

Definition MergeFrom (m from : t) : t :=
  m.

Definition CopyFrom (m from : t) : t := MergeFrom (Clear m) from.

#[global] Instance message : Message t := {|
  msg_default := SharedCtor;
  msg_merge_partial := MergePartialFromCodedStream;
  msg_to_array := InternalSerializeWithCachedSizesToArray;
  msg_to_stream := SerializeWithCachedSizes;
  msg_byte_size := ByteSize;
  msg_merge_from := MergeFrom |}.
End Code.

Section Laws.
Context `{W : WireFormat} {L : WireFormatLaws W}.

Definition ok (m : t) : Prop := True.

Definition wire (m : t) : bytes :=
  [].

Lemma AllMyChatsRequest_step_decreases : Parser.step_decreases step.
Proof. parser_decreases step cases. Qed.

Lemma AllMyChatsRequest_to_array_wire m target : ok m →
  InternalSerializeWithCachedSizesToArray m target = target ++ wire m.
Proof.
  intros Hok. open_ok ok. unfold InternalSerializeWithCachedSizesToArray, wire. write_chunks.
Qed.

Lemma AllMyChatsRequest_to_stream_wire m output : ok m →
  SerializeWithCachedSizes m output = output ++ wire m.
Proof. intros Hok. open_ok ok. unfold SerializeWithCachedSizes, wire. write_chunks. Qed.

Lemma AllMyChatsRequest_size_wire m : ok m → ByteSize m = zlen (wire m).
Proof. intros Hok. open_ok ok. unfold ByteSize, wire. size_chunks. Qed.

Lemma AllMyChatsRequest_parse_wire m0 m s : ok m → bytes_left s = wire m → (0 ≤ depth s)%nat →
  ∃ s', MergePartialFromCodedStream m0 s = Parsed (MergeFrom m0 m) s' ∧ at_end (depth s) s'.
Proof.
  intros H0 Hb _. unfold wire in Hb. start_merge AllMyChatsRequest_step_decreases.
  do 1 merge_field cases.
Qed.

Lemma AllMyChatsRequest_merge_default m : ok m → MergeFrom SharedCtor m = m.
Proof. destruct m as []. intros _. unfold MergeFrom, SharedCtor; simpl. merge_into_default. Qed.

#[global] Instance message_laws : MessageLaws t.
Proof.
  refine {| msg_ok := ok; msg_nesting := 0; msg_wire := wire |}.
  - exact AllMyChatsRequest_to_array_wire.
  - exact AllMyChatsRequest_to_stream_wire.
  - exact AllMyChatsRequest_size_wire.
  - exact AllMyChatsRequest_parse_wire.
  - apply merge_loop_total, AllMyChatsRequest_step_decreases.
  - exact AllMyChatsRequest_merge_default.
Defined.

Lemma AllMyChatsRequest_CopyFrom_copies (m from : t) : ok from → CopyFrom m from = from.
Proof. by destruct m, from. Qed.
End Laws.
End AllMyChatsRequest.

(** ** AllMyContactsRequest

    no fields *)

Module AllMyContactsRequest.
Record t := Build {}.

Section Code.
Context `{W : WireFormat}.

Definition SharedCtor : t := Build.

Definition Clear (m : t) : t := m.

Definition cases (tag : Z) (m : t) (s : stream) : next t stream :=
  handle_unusual tag m s.

Definition step (l : label) (m : t) (s : stream) : next t stream :=
  match l with
  | Top => loop_head cases m s
  | At _ => Fail
  end.

Definition MergePartialFromCodedStream (m : t) (s : stream) : parse t stream :=
  merge_loop step m s.

Definition InternalSerializeWithCachedSizesToArray (m : t) (target : bytes) : bytes :=
  target.

Definition SerializeWithCachedSizes (m : t) (output : bytes) : bytes :=
  output.

Definition ByteSize (m : t) : Z :=
  let total_size := 0 in
  total_size.

Definition MergeFrom (m from : t) : t :=
  m.

Definition CopyFrom (m from : t) : t := MergeFrom (Clear m) from.

#[global] Instance message : Message t := {|
  msg_default := SharedCtor;
  msg_merge_partial := MergePartialFromCodedStream;
  msg_to_array := InternalSerializeWithCachedSizesToArray;
  msg_to_stream := SerializeWithCachedSizes;
  msg_byte_size := ByteSize;
  msg_merge_from := MergeFrom |}.
End Code.

Section Laws.
Context `{W : WireFormat} {L : WireFormatLaws W}.

Definition ok (m : t) : Prop := True.

Definition wire (m : t) : bytes :=
  [].

Lemma AllMyContactsRequest_step_decreases : Parser.step_decreases step.
Proof. parser_decreases step cases. Qed.

Lemma AllMyContactsRequest_to_array_wire m target : ok m →
  InternalSerializeWithCachedSizesToArray m target = target ++ wire m.
Proof.
  intros Hok. open_ok ok. unfold InternalSerializeWithCachedSizesToArray, wire. write_chunks.
Qed.

Lemma AllMyContactsRequest_to_stream_wire m output : ok m →
  SerializeWithCachedSizes m output = output ++ wire m.
Proof. intros Hok. open_ok ok. unfold SerializeWithCachedSizes, wire. write_chunks. Qed.

Lemma AllMyContactsRequest_size_wire m : ok m → ByteSize m = zlen (wire m).
Proof. intros Hok. open_ok ok. unfold ByteSize, wire. size_chunks. Qed.

Lemma AllMyContactsRequest_parse_wire m0 m s : ok m → bytes_left s = wire m → (0 ≤ depth s)%nat →
  ∃ s', MergePartialFromCodedStream m0 s = Parsed (MergeFrom m0 m) s' ∧ at_end (depth s) s'.
Proof.
  intros H0 Hb _. unfold wire in Hb. start_merge AllMyContactsRequest_step_decreases.
  do 1 merge_field cases.
Qed.

Lemma AllMyContactsRequest_merge_default m : ok m → MergeFrom SharedCtor m = m.
Proof. destruct m as []. intros _. unfold MergeFrom, SharedCtor; simpl. merge_into_default. Qed.

#[global] Instance message_laws : MessageLaws t.
Proof.
  refine {| msg_ok := ok; msg_nesting := 0; msg_wire := wire |}.
  - exact AllMyContactsRequest_to_array_wire.
  - exact AllMyContactsRequest_to_stream_wire.
  - exact AllMyContactsRequest_size_wire.
  - exact AllMyContactsRequest_parse_wire.
  - apply merge_loop_total, AllMyContactsRequest_step_decreases.
  - exact AllMyContactsRequest_merge_default.
Defined.

Lemma AllMyContactsRequest_CopyFrom_copies (m from : t) : ok from → CopyFrom m from = from.
Proof. by destruct m, from. Qed.
End Laws.
End AllMyContactsRequest.

(** ** MessagesRequest

    the chat to read *)

Module MessagesRequest.
Record t := Build { chat_id : Z }.

Section Code.
Context `{W : WireFormat}.

Definition SharedCtor : t := {| chat_id := 0 |}.

Definition Clear (m : t) : t := {| chat_id := 0 |}.

Definition set_chat_id (m : t) (value : Z) : t :=
  {| chat_id := value |}.

Definition cases (tag : Z) (m : t) (s : stream) : next t stream :=
  match GetTagFieldNumber tag with
  | 1 => if tag =? 8 then Goto (At 8) m s else handle_unusual tag m s
  | _ => handle_unusual tag m s
  end.

Definition step (l : label) (m : t) (s : stream) : next t stream :=
  match l with
  | Top => loop_head cases m s
  | At 8 =>
      DO_ (v, s) <- ReadUInt64 s;
      expect_at_end (set_chat_id m v) s
  | At _ => Fail
  end.

Definition MergePartialFromCodedStream (m : t) (s : stream) : parse t stream :=
  merge_loop step m s.

Definition InternalSerializeWithCachedSizesToArray (m : t) (target : bytes) : bytes :=
  let target :=
    if negb (chat_id m =? 0) then WriteUInt64ToArray 1 (chat_id m) target else target in
  target.

Definition SerializeWithCachedSizes (m : t) (output : bytes) : bytes :=
  let output :=
    if negb (chat_id m =? 0) then WriteUInt64 1 (chat_id m) output else output in
  output.

Definition ByteSize (m : t) : Z :=
  let total_size := 0 in
  let total_size :=
    if negb (chat_id m =? 0) then total_size + (1 + UInt64Size (chat_id m)) else total_size in
  total_size.

Definition MergeFrom (m from : t) : t :=
  let m := if negb (chat_id from =? 0) then set_chat_id m (chat_id from) else m in
  m.

Definition CopyFrom (m from : t) : t := MergeFrom (Clear m) from.

#[global] Instance message : Message t := {|
  msg_default := SharedCtor;
  msg_merge_partial := MergePartialFromCodedStream;
  msg_to_array := InternalSerializeWithCachedSizesToArray;
  msg_to_stream := SerializeWithCachedSizes;
  msg_byte_size := ByteSize;
  msg_merge_from := MergeFrom |}.
End Code.

Section Laws.
Context `{W : WireFormat} {L : WireFormatLaws W}.

Definition ok (m : t) : Prop := uint64_ok (chat_id m).

Definition wire (m : t) : bytes :=
  uint64_chunk 8 (chat_id m) ++ [].

Lemma MessagesRequest_step_decreases : Parser.step_decreases step.
Proof. parser_decreases step cases. Qed.

Lemma MessagesRequest_to_array_wire m target : ok m →
  InternalSerializeWithCachedSizesToArray m target = target ++ wire m.
Proof.
  intros Hok. open_ok ok. unfold InternalSerializeWithCachedSizesToArray, wire. write_chunks.
Qed.

Lemma MessagesRequest_to_stream_wire m output : ok m →
  SerializeWithCachedSizes m output = output ++ wire m.
Proof. intros Hok. open_ok ok. unfold SerializeWithCachedSizes, wire. write_chunks. Qed.

Lemma MessagesRequest_size_wire m : ok m → ByteSize m = zlen (wire m).
Proof. intros Hok. open_ok ok. unfold ByteSize, wire. size_chunks. Qed.

Lemma MessagesRequest_parse_wire m0 m s : ok m → bytes_left s = wire m → (0 ≤ depth s)%nat →
  ∃ s', MergePartialFromCodedStream m0 s = Parsed (MergeFrom m0 m) s' ∧ at_end (depth s) s'.
Proof.
  intros H0 Hb _. unfold wire in Hb. start_merge MessagesRequest_step_decreases.
  do 2 merge_field cases.
Qed.

Lemma MessagesRequest_merge_default m : ok m → MergeFrom SharedCtor m = m.
Proof. destruct m as [x0]. intros _. unfold MergeFrom, SharedCtor; simpl. merge_into_default. Qed.

#[global] Instance message_laws : MessageLaws t.
Proof.
  refine {| msg_ok := ok; msg_nesting := 0; msg_wire := wire |}.
  - exact MessagesRequest_to_array_wire.
  - exact MessagesRequest_to_stream_wire.
  - exact MessagesRequest_size_wire.
  - exact MessagesRequest_parse_wire.
  - apply merge_loop_total, MessagesRequest_step_decreases.
  - exact MessagesRequest_merge_default.
Defined.

Lemma MessagesRequest_CopyFrom_copies (m from : t) : ok from → CopyFrom m from = from.
Proof. apply MessagesRequest_merge_default. Qed.
End Laws.
End MessagesRequest.

(** ** MessageToSend

    a chat and the text to post there *)

Module MessageToSend.
Record t := Build { chat_id : Z; text : bytes }.

Section Code.
Context `{W : WireFormat}.

Definition SharedCtor : t := {| chat_id := 0; text := [] |}.

Definition Clear (m : t) : t := {| chat_id := 0; text := [] |}.

Definition set_chat_id (m : t) (value : Z) : t :=
  {| chat_id := value; text := text m |}.

Definition set_text (m : t) (value : bytes) : t :=
  {| chat_id := chat_id m; text := value |}.

Definition cases (tag : Z) (m : t) (s : stream) : next t stream :=
  match GetTagFieldNumber tag with
  | 1 => if tag =? 8 then Goto (At 8) m s else handle_unusual tag m s
  | 2 => if tag =? 18 then Goto (At 18) m s else handle_unusual tag m s
  | _ => handle_unusual tag m s
  end.

Definition step (l : label) (m : t) (s : stream) : next t stream :=
  match l with
  | Top => loop_head cases m s
  | At 8 =>
      DO_ (v, s) <- ReadUInt64 s;
      expect_tag 18 (set_chat_id m v) s
  | At 18 =>
      DO_ (v, s) <- ReadString s;
      let m := set_text m v in
      REQUIRE_ VerifyUtf8String (text m);
      expect_at_end m s
  | At _ => Fail
  end.

Definition MergePartialFromCodedStream (m : t) (s : stream) : parse t stream :=
  merge_loop step m s.

Definition InternalSerializeWithCachedSizesToArray (m : t) (target : bytes) : bytes :=
  let target :=
    if negb (chat_id m =? 0) then WriteUInt64ToArray 1 (chat_id m) target else target in
  let target :=
    if 0 <? zlen (text m) then WriteStringToArray 2 (text m) target else target in
  target.

Definition SerializeWithCachedSizes (m : t) (output : bytes) : bytes :=
  let output :=
    if negb (chat_id m =? 0) then WriteUInt64 1 (chat_id m) output else output in
  let output :=
    if 0 <? zlen (text m) then WriteStringMaybeAliased 2 (text m) output else output in
  output.

Definition ByteSize (m : t) : Z :=
  let total_size := 0 in
  let total_size :=
    if negb (chat_id m =? 0) then total_size + (1 + UInt64Size (chat_id m)) else total_size in
  let total_size :=
    if 0 <? zlen (text m) then total_size + (1 + StringSize (text m)) else total_size in
  total_size.

Definition MergeFrom (m from : t) : t :=
  let m := if negb (chat_id from =? 0) then set_chat_id m (chat_id from) else m in
  let m := if 0 <? zlen (text from) then set_text m (text from) else m in
  m.

Definition CopyFrom (m from : t) : t := MergeFrom (Clear m) from.

#[global] Instance message : Message t := {|
  msg_default := SharedCtor;
  msg_merge_partial := MergePartialFromCodedStream;
  msg_to_array := InternalSerializeWithCachedSizesToArray;
  msg_to_stream := SerializeWithCachedSizes;
  msg_byte_size := ByteSize;
  msg_merge_from := MergeFrom |}.
End Code.

Section Laws.
Context `{W : WireFormat} {L : WireFormatLaws W}.

Definition ok (m : t) : Prop := uint64_ok (chat_id m) ∧ string_ok (text m).

Definition wire (m : t) : bytes :=
  uint64_chunk 8 (chat_id m) ++ string_chunk 18 (text m) ++ [].

Lemma MessageToSend_step_decreases : Parser.step_decreases step.
Proof. parser_decreases step cases. Qed.

Lemma MessageToSend_to_array_wire m target : ok m →
  InternalSerializeWithCachedSizesToArray m target = target ++ wire m.
Proof.
  intros Hok. open_ok ok. unfold InternalSerializeWithCachedSizesToArray, wire. write_chunks.
Qed.

Lemma MessageToSend_to_stream_wire m output : ok m →
  SerializeWithCachedSizes m output = output ++ wire m.
Proof. intros Hok. open_ok ok. unfold SerializeWithCachedSizes, wire. write_chunks. Qed.

Lemma MessageToSend_size_wire m : ok m → ByteSize m = zlen (wire m).
Proof. intros Hok. open_ok ok. unfold ByteSize, wire. size_chunks. Qed.

Lemma MessageToSend_parse_wire m0 m s : ok m → bytes_left s = wire m → (0 ≤ depth s)%nat →
  ∃ s', MergePartialFromCodedStream m0 s = Parsed (MergeFrom m0 m) s' ∧ at_end (depth s) s'.
Proof.
  intros (H0 & H1) Hb _. unfold wire in Hb. start_merge MessageToSend_step_decreases.
  do 3 merge_field cases.
Qed.

Lemma MessageToSend_merge_default m : ok m → MergeFrom SharedCtor m = m.
Proof. destruct m as [x0 x1]. intros _. unfold MergeFrom, SharedCtor; simpl. merge_into_default. Qed.

#[global] Instance message_laws : MessageLaws t.
Proof.
  refine {| msg_ok := ok; msg_nesting := 0; msg_wire := wire |}.
  - exact MessageToSend_to_array_wire.
  - exact MessageToSend_to_stream_wire.
  - exact MessageToSend_size_wire.
  - exact MessageToSend_parse_wire.
  - apply merge_loop_total, MessageToSend_step_decreases.
  - exact MessageToSend_merge_default.
Defined.

Lemma MessageToSend_CopyFrom_copies (m from : t) : ok from → CopyFrom m from = from.
Proof. apply MessageToSend_merge_default. Qed.
End Laws.
End MessageToSend.

(** ** SendMessageRequest

    a message to send *)

Module SendMessageRequest.
(** [mesg_] is a pointer, [NULL] when the field is absent. *)
Record t := Build { mesg_ : option MessageToSend.t }.

Section Code.
Context `{W : WireFormat}.

Definition SharedCtor : t := {| mesg_ := None |}.

Definition Clear (m : t) : t := {| mesg_ := None |}.

Definition has_mesg (m : t) : bool := match mesg_ m with Some _ => true | None => false end.

(** The getter: the default instance stands for an absent field. *)
Definition mesg (m : t) : MessageToSend.t := match mesg_ m with Some v => v | None => msg_default end.

Definition mutable_mesg (m : t) : MessageToSend.t :=
  match mesg_ m with Some v => v | None => msg_default end.

Definition set_allocated_mesg (m : t) (p : option MessageToSend.t) : t := {| mesg_ := p |}.

Definition cases (tag : Z) (m : t) (s : stream) : next t stream :=
  match GetTagFieldNumber tag with
  | 1 => if tag =? 10 then Goto (At 10) m s else handle_unusual tag m s
  | _ => handle_unusual tag m s
  end.

Definition step (l : label) (m : t) (s : stream) : next t stream :=
  match l with
  | Top => loop_head cases m s
  | At 10 =>
      MERGE_ (v, s) <- ReadMessageNoVirtual msg_merge_partial (mutable_mesg m) s;
      expect_at_end {| mesg_ := Some v |} s
  | At _ => Fail
  end.

Definition MergePartialFromCodedStream (m : t) (s : stream) : parse t stream :=
  merge_loop step m s.

Definition InternalSerializeWithCachedSizesToArray (m : t) (target : bytes) : bytes :=
  match mesg_ m with
  | Some v => InternalWriteMessageNoVirtualToArray msg_byte_size msg_to_array 1 v target
  | None => target
  end.

Definition SerializeWithCachedSizes (m : t) (output : bytes) : bytes :=
  match mesg_ m with
  | Some v => WriteMessageMaybeToArray msg_byte_size msg_to_stream 1 v output
  | None => output
  end.

Definition ByteSize (m : t) : Z :=
  let total_size := 0 in
  match mesg_ m with
  | Some v => total_size + (1 + MessageSizeNoVirtual msg_byte_size v)
  | None => total_size
  end.

Definition MergeFrom (m from : t) : t :=
  match mesg_ from with
  | Some v => {| mesg_ := Some (msg_merge_from (mutable_mesg m) v) |}
  | None => m
  end.

Definition CopyFrom (m from : t) : t := MergeFrom (Clear m) from.

#[global] Instance message : Message t := {|
  msg_default := SharedCtor;
  msg_merge_partial := MergePartialFromCodedStream;
  msg_to_array := InternalSerializeWithCachedSizesToArray;
  msg_to_stream := SerializeWithCachedSizes;
  msg_byte_size := ByteSize;
  msg_merge_from := MergeFrom |}.
End Code.

Section Laws.
Context `{W : WireFormat} {L : WireFormatLaws W}.

Definition ok (m : t) : Prop :=
  match mesg_ m with Some v => nested_ok v | None => True end.

Definition wire (m : t) : bytes :=
  match mesg_ m with Some v => message_chunk 10 v ++ [] | None => [] end.

Lemma SendMessageRequest_step_decreases : Parser.step_decreases step.
Proof. parser_decreases step cases. Qed.

Lemma SendMessageRequest_to_array_wire m target : ok m →
  InternalSerializeWithCachedSizesToArray m target = target ++ wire m.
Proof.
  intros Hok. unfold ok, InternalSerializeWithCachedSizesToArray, wire in *.
  destruct (mesg_ m); rewrite app_nil_r;
    first [by apply write_message_chunk | done].
Qed.

Lemma SendMessageRequest_to_stream_wire m output : ok m →
  SerializeWithCachedSizes m output = output ++ wire m.
Proof.
  intros Hok. unfold ok, SerializeWithCachedSizes, wire in *.
  destruct (mesg_ m); rewrite app_nil_r;
    first [by apply write_stream_message_chunk | done].
Qed.

Lemma SendMessageRequest_size_wire m : ok m → ByteSize m = zlen (wire m).
Proof.
  intros Hok. unfold ok, ByteSize, wire in *.
  destruct (mesg_ m); rewrite ?app_nil_r;
    first [by rewrite zlen_message_chunk | done].
Qed.

Lemma SendMessageRequest_parse_wire m0 m s : ok m → bytes_left s = wire m → (1 ≤ depth s)%nat →
  ∃ s', MergePartialFromCodedStream m0 s = Parsed (MergeFrom m0 m) s' ∧ at_end (depth s) s'.
Proof.
  unfold ok, wire, MergeFrom. intros Hok Hb Hd.
  destruct (mesg_ m); start_merge SendMessageRequest_step_decreases; repeat merge_field cases.
Qed.

Lemma SendMessageRequest_merge_default m : ok m → MergeFrom SharedCtor m = m.
Proof.
  destruct m as [[v|]]; [|done]. unfold ok, MergeFrom. simpl.
  intros [Hok _]. do 2 f_equal. exact (msg_merge_default _ Hok).
Qed.

#[global] Instance message_laws : MessageLaws t.
Proof.
  refine {| msg_ok := ok; msg_nesting := 1; msg_wire := wire |}.
  - exact SendMessageRequest_to_array_wire.
  - exact SendMessageRequest_to_stream_wire.
  - exact SendMessageRequest_size_wire.
  - exact SendMessageRequest_parse_wire.
  - apply merge_loop_total, SendMessageRequest_step_decreases.
  - exact SendMessageRequest_merge_default.
Defined.

Lemma SendMessageRequest_CopyFrom_copies (m from : t) : ok from → CopyFrom m from = from.
Proof. apply SendMessageRequest_merge_default. Qed.
End Laws.
End SendMessageRequest.

(** ** AddContactRequest

    the email of the new contact *)

Module AddContactRequest.
Record t := Build { email : bytes }.

Section Code.
Context `{W : WireFormat}.

Definition SharedCtor : t := {| email := [] |}.

Definition Clear (m : t) : t := {| email := [] |}.

Definition set_email (m : t) (value : bytes) : t :=
  {| email := value |}.

Definition cases (tag : Z) (m : t) (s : stream) : next t stream :=
  match GetTagFieldNumber tag with
  | 1 => if tag =? 10 then Goto (At 10) m s else handle_unusual tag m s
  | _ => handle_unusual tag m s
  end.

Definition step (l : label) (m : t) (s : stream) : next t stream :=
  match l with
  | Top => loop_head cases m s
  | At 10 =>
      DO_ (v, s) <- ReadString s;
      let m := set_email m v in
      REQUIRE_ VerifyUtf8String (email m);
      expect_at_end m s
  | At _ => Fail
  end.

Definition MergePartialFromCodedStream (m : t) (s : stream) : parse t stream :=
  merge_loop step m s.

Definition InternalSerializeWithCachedSizesToArray (m : t) (target : bytes) : bytes :=
  let target :=
    if 0 <? zlen (email m) then WriteStringToArray 1 (email m) target else target in
  target.

Definition SerializeWithCachedSizes (m : t) (output : bytes) : bytes :=
  let output :=
    if 0 <? zlen (email m) then WriteStringMaybeAliased 1 (email m) output else output in
  output.

Definition ByteSize (m : t) : Z :=
  let total_size := 0 in
  let total_size :=
    if 0 <? zlen (email m) then total_size + (1 + StringSize (email m)) else total_size in
  total_size.

Definition MergeFrom (m from : t) : t :=
  let m := if 0 <? zlen (email from) then set_email m (email from) else m in
  m.

Definition CopyFrom (m from : t) : t := MergeFrom (Clear m) from.

#[global] Instance message : Message t := {|
  msg_default := SharedCtor;
  msg_merge_partial := MergePartialFromCodedStream;
  msg_to_array := InternalSerializeWithCachedSizesToArray;
  msg_to_stream := SerializeWithCachedSizes;
  msg_byte_size := ByteSize;
  msg_merge_from := MergeFrom |}.
End Code.

Section Laws.
Context `{W : WireFormat} {L : WireFormatLaws W}.

Definition ok (m : t) : Prop := string_ok (email m).

Definition wire (m : t) : bytes :=
  string_chunk 10 (email m) ++ [].

Lemma AddContactRequest_step_decreases : Parser.step_decreases step.
Proof. parser_decreases step cases. Qed.

Lemma AddContactRequest_to_array_wire m target : ok m →
  InternalSerializeWithCachedSizesToArray m target = target ++ wire m.
Proof.
  intros Hok. open_ok ok. unfold InternalSerializeWithCachedSizesToArray, wire. write_chunks.
Qed.

Lemma AddContactRequest_to_stream_wire m output : ok m →
  SerializeWithCachedSizes m output = output ++ wire m.
Proof. intros Hok. open_ok ok. unfold SerializeWithCachedSizes, wire. write_chunks. Qed.

Lemma AddContactRequest_size_wire m : ok m → ByteSize m = zlen (wire m).
Proof. intros Hok. open_ok ok. unfold ByteSize, wire. size_chunks. Qed.

Lemma AddContactRequest_parse_wire m0 m s : ok m → bytes_left s = wire m → (0 ≤ depth s)%nat →
  ∃ s', MergePartialFromCodedStream m0 s = Parsed (MergeFrom m0 m) s' ∧ at_end (depth s) s'.
Proof.
  intros H0 Hb _. unfold wire in Hb. start_merge AddContactRequest_step_decreases.
  do 2 merge_field cases.
Qed.

Lemma AddContactRequest_merge_default m : ok m → MergeFrom SharedCtor m = m.
Proof. destruct m as [x0]. intros _. unfold MergeFrom, SharedCtor; simpl. merge_into_default. Qed.

#[global] Instance message_laws : MessageLaws t.
Proof.
  refine {| msg_ok := ok; msg_nesting := 0; msg_wire := wire |}.
  - exact AddContactRequest_to_array_wire.
  - exact AddContactRequest_to_stream_wire.
  - exact AddContactRequest_size_wire.
  - exact AddContactRequest_parse_wire.
  - apply merge_loop_total, AddContactRequest_step_decreases.
  - exact AddContactRequest_merge_default.
Defined.

Lemma AddContactRequest_CopyFrom_copies (m from : t) : ok from → CopyFrom m from = from.
Proof. apply AddContactRequest_merge_default. Qed.
End Laws.
End AddContactRequest.

(** ** CreateChatRequest

    the user to chat with *)

Module CreateChatRequest.
Record t := Build { friend_id : Z }.

Section Code.
Context `{W : WireFormat}.

Definition SharedCtor : t := {| friend_id := 0 |}.

Definition Clear (m : t) : t := {| friend_id := 0 |}.

Definition set_friend_id (m : t) (value : Z) : t :=
  {| friend_id := value |}.

Definition cases (tag : Z) (m : t) (s : stream) : next t stream :=
  match GetTagFieldNumber tag with
  | 1 => if tag =? 8 then Goto (At 8) m s else handle_unusual tag m s
  | _ => handle_unusual tag m s
  end.

Definition step (l : label) (m : t) (s : stream) : next t stream :=
  match l with
  | Top => loop_head cases m s
  | At 8 =>
      DO_ (v, s) <- ReadUInt64 s;
      expect_at_end (set_friend_id m v) s
  | At _ => Fail
  end.

Definition MergePartialFromCodedStream (m : t) (s : stream) : parse t stream :=
  merge_loop step m s.

Definition InternalSerializeWithCachedSizesToArray (m : t) (target : bytes) : bytes :=
  let target :=
    if negb (friend_id m =? 0) then WriteUInt64ToArray 1 (friend_id m) target else target in
  target.

Definition SerializeWithCachedSizes (m : t) (output : bytes) : bytes :=
  let output :=
    if negb (friend_id m =? 0) then WriteUInt64 1 (friend_id m) output else output in
  output.

Definition ByteSize (m : t) : Z :=
  let total_size := 0 in
  let total_size :=
    if negb (friend_id m =? 0) then total_size + (1 + UInt64Size (friend_id m)) else total_size in
  total_size.

Definition MergeFrom (m from : t) : t :=
  let m := if negb (friend_id from =? 0) then set_friend_id m (friend_id from) else m in
  m.

Definition CopyFrom (m from : t) : t := MergeFrom (Clear m) from.

#[global] Instance message : Message t := {|
  msg_default := SharedCtor;
  msg_merge_partial := MergePartialFromCodedStream;
  msg_to_array := InternalSerializeWithCachedSizesToArray;
  msg_to_stream := SerializeWithCachedSizes;
  msg_byte_size := ByteSize;
  msg_merge_from := MergeFrom |}.
End Code.

Section Laws.
Context `{W : WireFormat} {L : WireFormatLaws W}.

Definition ok (m : t) : Prop := uint64_ok (friend_id m).

Definition wire (m : t) : bytes :=
  uint64_chunk 8 (friend_id m) ++ [].

Lemma CreateChatRequest_step_decreases : Parser.step_decreases step.
Proof. parser_decreases step cases. Qed.

Lemma CreateChatRequest_to_array_wire m target : ok m →
  InternalSerializeWithCachedSizesToArray m target = target ++ wire m.
Proof.
  intros Hok. open_ok ok. unfold InternalSerializeWithCachedSizesToArray, wire. write_chunks.
Qed.

Lemma CreateChatRequest_to_stream_wire m output : ok m →
  SerializeWithCachedSizes m output = output ++ wire m.
Proof. intros Hok. open_ok ok. unfold SerializeWithCachedSizes, wire. write_chunks. Qed.

Lemma CreateChatRequest_size_wire m : ok m → ByteSize m = zlen (wire m).
Proof. intros Hok. open_ok ok. unfold ByteSize, wire. size_chunks. Qed.

Lemma CreateChatRequest_parse_wire m0 m s : ok m → bytes_left s = wire m → (0 ≤ depth s)%nat →
  ∃ s', MergePartialFromCodedStream m0 s = Parsed (MergeFrom m0 m) s' ∧ at_end (depth s) s'.
Proof.
  intros H0 Hb _. unfold wire in Hb. start_merge CreateChatRequest_step_decreases.
  do 2 merge_field cases.
Qed.

Lemma CreateChatRequest_merge_default m : ok m → MergeFrom SharedCtor m = m.
Proof. destruct m as [x0]. intros _. unfold MergeFrom, SharedCtor; simpl. merge_into_default. Qed.

#[global] Instance message_laws : MessageLaws t.
Proof.
  refine {| msg_ok := ok; msg_nesting := 0; msg_wire := wire |}.
  - exact CreateChatRequest_to_array_wire.
  - exact CreateChatRequest_to_stream_wire.
  - exact CreateChatRequest_size_wire.
  - exact CreateChatRequest_parse_wire.
  - apply merge_loop_total, CreateChatRequest_step_decreases.
  - exact CreateChatRequest_merge_default.
Defined.

Lemma CreateChatRequest_CopyFrom_copies (m from : t) : ok from → CopyFrom m from = from.
Proof. apply CreateChatRequest_merge_default. Qed.
End Laws.
End CreateChatRequest.

(** ** Request

    one of the eight requests *)

Module Request.
(** The union of the oneof, tagged with [_oneof_case_]. *)
Inductive msg_union : Type :=
| kRegisterRequest (m : RegisterRequest.t)
| kLoginRequest (m : LoginRequest.t)
| kChatsRequest (m : AllMyChatsRequest.t)
| kContactsRequest (m : AllMyContactsRequest.t)
| kMessagesRequest (m : MessagesRequest.t)
| kSendMesgRequest (m : SendMessageRequest.t)
| kAddContactRequest (m : AddContactRequest.t)
| kCreateChatRequest (m : CreateChatRequest.t)
| MSG_NOT_SET.

Record t := Build { msg_ : msg_union }.

Section Code.
Context `{W : WireFormat}.

Definition SharedCtor : t := {| msg_ := MSG_NOT_SET |}.

Definition clear_msg (m : t) : t := {| msg_ := MSG_NOT_SET |}.

Definition Clear (m : t) : t := clear_msg m.

Definition has_register_request (m : t) : bool :=
  match msg_ m with kRegisterRequest _ => true | _ => false end.

Definition register_request (m : t) : RegisterRequest.t :=
  match msg_ m with kRegisterRequest v => v | _ => msg_default end.

(** The object the [mutable_] pointer designates: the current one, or a
    new default one.  What is stored through the pointer is put back under
    [kRegisterRequest]. *)
Definition mutable_register_request (m : t) : RegisterRequest.t :=
  match msg_ m with kRegisterRequest v => v | _ => msg_default end.

Definition set_allocated_register_request (m : t) (p : option RegisterRequest.t) : t :=
  match p with Some v => {| msg_ := kRegisterRequest v |} | None => clear_msg m end.

Definition release_register_request (m : t) : option RegisterRequest.t * t :=
  match msg_ m with
  | kRegisterRequest v => (Some v, {| msg_ := MSG_NOT_SET |})
  | _ => (None, m)
  end.

Definition has_login_request (m : t) : bool :=
  match msg_ m with kLoginRequest _ => true | _ => false end.

Definition login_request (m : t) : LoginRequest.t :=
  match msg_ m with kLoginRequest v => v | _ => msg_default end.

Definition mutable_login_request (m : t) : LoginRequest.t :=
  match msg_ m with kLoginRequest v => v | _ => msg_default end.

Definition set_allocated_login_request (m : t) (p : option LoginRequest.t) : t :=
  match p with Some v => {| msg_ := kLoginRequest v |} | None => clear_msg m end.

Definition release_login_request (m : t) : option LoginRequest.t * t :=
  match msg_ m with
  | kLoginRequest v => (Some v, {| msg_ := MSG_NOT_SET |})
  | _ => (None, m)
  end.

Definition has_chats_request (m : t) : bool :=
  match msg_ m with kChatsRequest _ => true | _ => false end.

Definition chats_request (m : t) : AllMyChatsRequest.t :=
  match msg_ m with kChatsRequest v => v | _ => msg_default end.

Definition mutable_chats_request (m : t) : AllMyChatsRequest.t :=
  match msg_ m with kChatsRequest v => v | _ => msg_default end.

Definition set_allocated_chats_request (m : t) (p : option AllMyChatsRequest.t) : t :=
  match p with Some v => {| msg_ := kChatsRequest v |} | None => clear_msg m end.

Definition release_chats_request (m : t) : option AllMyChatsRequest.t * t :=
  match msg_ m with
  | kChatsRequest v => (Some v, {| msg_ := MSG_NOT_SET |})
  | _ => (None, m)
  end.

Definition has_contacts_request (m : t) : bool :=
  match msg_ m with kContactsRequest _ => true | _ => false end.

Definition contacts_request (m : t) : AllMyContactsRequest.t :=
  match msg_ m with kContactsRequest v => v | _ => msg_default end.

Definition mutable_contacts_request (m : t) : AllMyContactsRequest.t :=
  match msg_ m with kContactsRequest v => v | _ => msg_default end.

Definition set_allocated_contacts_request (m : t) (p : option AllMyContactsRequest.t) : t :=
  match p with Some v => {| msg_ := kContactsRequest v |} | None => clear_msg m end.

Definition release_contacts_request (m : t) : option AllMyContactsRequest.t * t :=
  match msg_ m with
  | kContactsRequest v => (Some v, {| msg_ := MSG_NOT_SET |})
  | _ => (None, m)
  end.

Definition has_messages_request (m : t) : bool :=
  match msg_ m with kMessagesRequest _ => true | _ => false end.

Definition messages_request (m : t) : MessagesRequest.t :=
  match msg_ m with kMessagesRequest v => v | _ => msg_default end.

Definition mutable_messages_request (m : t) : MessagesRequest.t :=
  match msg_ m with kMessagesRequest v => v | _ => msg_default end.

Definition set_allocated_messages_request (m : t) (p : option MessagesRequest.t) : t :=
  match p with Some v => {| msg_ := kMessagesRequest v |} | None => clear_msg m end.

Definition release_messages_request (m : t) : option MessagesRequest.t * t :=
  match msg_ m with
  | kMessagesRequest v => (Some v, {| msg_ := MSG_NOT_SET |})
  | _ => (None, m)
  end.

Definition has_send_mesg_request (m : t) : bool :=
  match msg_ m with kSendMesgRequest _ => true | _ => false end.

Definition send_mesg_request (m : t) : SendMessageRequest.t :=
  match msg_ m with kSendMesgRequest v => v | _ => msg_default end.

Definition mutable_send_mesg_request (m : t) : SendMessageRequest.t :=
  match msg_ m with kSendMesgRequest v => v | _ => msg_default end.

Definition set_allocated_send_mesg_request (m : t) (p : option SendMessageRequest.t) : t :=
  match p with Some v => {| msg_ := kSendMesgRequest v |} | None => clear_msg m end.

Definition release_send_mesg_request (m : t) : option SendMessageRequest.t * t :=
  match msg_ m with
  | kSendMesgRequest v => (Some v, {| msg_ := MSG_NOT_SET |})
  | _ => (None, m)
  end.

Definition has_add_contact_request (m : t) : bool :=
  match msg_ m with kAddContactRequest _ => true | _ => false end.

Definition add_contact_request (m : t) : AddContactRequest.t :=
  match msg_ m with kAddContactRequest v => v | _ => msg_default end.

Definition mutable_add_contact_request (m : t) : AddContactRequest.t :=
  match msg_ m with kAddContactRequest v => v | _ => msg_default end.

Definition set_allocated_add_contact_request (m : t) (p : option AddContactRequest.t) : t :=
  match p with Some v => {| msg_ := kAddContactRequest v |} | None => clear_msg m end.

Definition release_add_contact_request (m : t) : option AddContactRequest.t * t :=
  match msg_ m with
  | kAddContactRequest v => (Some v, {| msg_ := MSG_NOT_SET |})
  | _ => (None, m)
  end.

Definition has_create_chat_request (m : t) : bool :=
  match msg_ m with kCreateChatRequest _ => true | _ => false end.

Definition create_chat_request (m : t) : CreateChatRequest.t :=
  match msg_ m with kCreateChatRequest v => v | _ => msg_default end.

Definition mutable_create_chat_request (m : t) : CreateChatRequest.t :=
  match msg_ m with kCreateChatRequest v => v | _ => msg_default end.

Definition set_allocated_create_chat_request (m : t) (p : option CreateChatRequest.t) : t :=
  match p with Some v => {| msg_ := kCreateChatRequest v |} | None => clear_msg m end.

Definition release_create_chat_request (m : t) : option CreateChatRequest.t * t :=
  match msg_ m with
  | kCreateChatRequest v => (Some v, {| msg_ := MSG_NOT_SET |})
  | _ => (None, m)
  end.

Definition cases (tag : Z) (m : t) (s : stream) : next t stream :=
  match GetTagFieldNumber tag with
  | 1 => if tag =? 10 then Goto (At 10) m s else handle_unusual tag m s
  | 2 => if tag =? 18 then Goto (At 18) m s else handle_unusual tag m s
  | 3 => if tag =? 26 then Goto (At 26) m s else handle_unusual tag m s
  | 4 => if tag =? 34 then Goto (At 34) m s else handle_unusual tag m s
  | 5 => if tag =? 42 then Goto (At 42) m s else handle_unusual tag m s
  | 6 => if tag =? 50 then Goto (At 50) m s else handle_unusual tag m s
  | 7 => if tag =? 58 then Goto (At 58) m s else handle_unusual tag m s
  | 8 => if tag =? 66 then Goto (At 66) m s else handle_unusual tag m s
  | _ => handle_unusual tag m s
  end.

Definition step (l : label) (m : t) (s : stream) : next t stream :=
  match l with
  | Top => loop_head cases m s
  | At 10 =>
      MERGE_ (v, s) <- ReadMessageNoVirtual msg_merge_partial (mutable_register_request m) s;
      expect_tag 18 {| msg_ := kRegisterRequest v |} s
  | At 18 =>
      MERGE_ (v, s) <- ReadMessageNoVirtual msg_merge_partial (mutable_login_request m) s;
      expect_tag 26 {| msg_ := kLoginRequest v |} s
  | At 26 =>
      MERGE_ (v, s) <- ReadMessageNoVirtual msg_merge_partial (mutable_chats_request m) s;
      expect_tag 34 {| msg_ := kChatsRequest v |} s
  | At 34 =>
      MERGE_ (v, s) <- ReadMessageNoVirtual msg_merge_partial (mutable_contacts_request m) s;
      expect_tag 42 {| msg_ := kContactsRequest v |} s
  | At 42 =>
      MERGE_ (v, s) <- ReadMessageNoVirtual msg_merge_partial (mutable_messages_request m) s;
      expect_tag 50 {| msg_ := kMessagesRequest v |} s
  | At 50 =>
      MERGE_ (v, s) <- ReadMessageNoVirtual msg_merge_partial (mutable_send_mesg_request m) s;
      expect_tag 58 {| msg_ := kSendMesgRequest v |} s
  | At 58 =>
      MERGE_ (v, s) <- ReadMessageNoVirtual msg_merge_partial (mutable_add_contact_request m) s;
      expect_tag 66 {| msg_ := kAddContactRequest v |} s
  | At 66 =>
      MERGE_ (v, s) <- ReadMessageNoVirtual msg_merge_partial (mutable_create_chat_request m) s;
      expect_at_end {| msg_ := kCreateChatRequest v |} s
  | At _ => Fail
  end.

Definition MergePartialFromCodedStream (m : t) (s : stream) : parse t stream :=
  merge_loop step m s.

Definition InternalSerializeWithCachedSizesToArray (m : t) (target : bytes) : bytes :=
  let target :=
    match msg_ m with
    | kRegisterRequest v =>
        InternalWriteMessageNoVirtualToArray msg_byte_size msg_to_array 1 v target
    | _ => target
    end in
  let target :=
    match msg_ m with
    | kLoginRequest v =>
        InternalWriteMessageNoVirtualToArray msg_byte_size msg_to_array 2 v target
    | _ => target
    end in
  let target :=
    match msg_ m with
    | kChatsRequest v =>
        InternalWriteMessageNoVirtualToArray msg_byte_size msg_to_array 3 v target
    | _ => target
    end in
  let target :=
    match msg_ m with
    | kContactsRequest v =>
        InternalWriteMessageNoVirtualToArray msg_byte_size msg_to_array 4 v target
    | _ => target
    end in
  let target :=
    match msg_ m with
    | kMessagesRequest v =>
        InternalWriteMessageNoVirtualToArray msg_byte_size msg_to_array 5 v target
    | _ => target
    end in
  let target :=
    match msg_ m with
    | kSendMesgRequest v =>
        InternalWriteMessageNoVirtualToArray msg_byte_size msg_to_array 6 v target
    | _ => target
    end in
  let target :=
    match msg_ m with
    | kAddContactRequest v =>
        InternalWriteMessageNoVirtualToArray msg_byte_size msg_to_array 7 v target
    | _ => target
    end in
  let target :=
    match msg_ m with
    | kCreateChatRequest v =>
        InternalWriteMessageNoVirtualToArray msg_byte_size msg_to_array 8 v target
    | _ => target
    end in
  target.

Definition SerializeWithCachedSizes (m : t) (output : bytes) : bytes :=
  let output :=
    match msg_ m with
    | kRegisterRequest v =>
        WriteMessageMaybeToArray msg_byte_size msg_to_stream 1 v output
    | _ => output
    end in
  let output :=
    match msg_ m with
    | kLoginRequest v =>
        WriteMessageMaybeToArray msg_byte_size msg_to_stream 2 v output
    | _ => output
    end in
  let output :=
    match msg_ m with
    | kChatsRequest v =>
        WriteMessageMaybeToArray msg_byte_size msg_to_stream 3 v output
    | _ => output
    end in
  let output :=
    match msg_ m with
    | kContactsRequest v =>
        WriteMessageMaybeToArray msg_byte_size msg_to_stream 4 v output
    | _ => output
    end in
  let output :=
    match msg_ m with
    | kMessagesRequest v =>
        WriteMessageMaybeToArray msg_byte_size msg_to_stream 5 v output
    | _ => output
    end in
  let output :=
    match msg_ m with
    | kSendMesgRequest v =>
        WriteMessageMaybeToArray msg_byte_size msg_to_stream 6 v output
    | _ => output
    end in
  let output :=
    match msg_ m with
    | kAddContactRequest v =>
        WriteMessageMaybeToArray msg_byte_size msg_to_stream 7 v output
    | _ => output
    end in
  let output :=
    match msg_ m with
    | kCreateChatRequest v =>
        WriteMessageMaybeToArray msg_byte_size msg_to_stream 8 v output
    | _ => output
    end in
  output.

Definition ByteSize (m : t) : Z :=
  let total_size := 0 in
  match msg_ m with
  | kRegisterRequest v => total_size + (1 + MessageSizeNoVirtual msg_byte_size v)
  | kLoginRequest v => total_size + (1 + MessageSizeNoVirtual msg_byte_size v)
  | kChatsRequest v => total_size + (1 + MessageSizeNoVirtual msg_byte_size v)
  | kContactsRequest v => total_size + (1 + MessageSizeNoVirtual msg_byte_size v)
  | kMessagesRequest v => total_size + (1 + MessageSizeNoVirtual msg_byte_size v)
  | kSendMesgRequest v => total_size + (1 + MessageSizeNoVirtual msg_byte_size v)
  | kAddContactRequest v => total_size + (1 + MessageSizeNoVirtual msg_byte_size v)
  | kCreateChatRequest v => total_size + (1 + MessageSizeNoVirtual msg_byte_size v)
  | MSG_NOT_SET => total_size
  end.

Definition MergeFrom (m from : t) : t :=
  match msg_ from with
  | kRegisterRequest v => {| msg_ := kRegisterRequest (msg_merge_from (mutable_register_request m) v) |}
  | kLoginRequest v => {| msg_ := kLoginRequest (msg_merge_from (mutable_login_request m) v) |}
  | kChatsRequest v => {| msg_ := kChatsRequest (msg_merge_from (mutable_chats_request m) v) |}
  | kContactsRequest v => {| msg_ := kContactsRequest (msg_merge_from (mutable_contacts_request m) v) |}
  | kMessagesRequest v => {| msg_ := kMessagesRequest (msg_merge_from (mutable_messages_request m) v) |}
  | kSendMesgRequest v => {| msg_ := kSendMesgRequest (msg_merge_from (mutable_send_mesg_request m) v) |}
  | kAddContactRequest v => {| msg_ := kAddContactRequest (msg_merge_from (mutable_add_contact_request m) v) |}
  | kCreateChatRequest v => {| msg_ := kCreateChatRequest (msg_merge_from (mutable_create_chat_request m) v) |}
  | MSG_NOT_SET => m
  end.

Definition CopyFrom (m from : t) : t := MergeFrom (Clear m) from.

#[global] Instance message : Message t := {|
  msg_default := SharedCtor;
  msg_merge_partial := MergePartialFromCodedStream;
  msg_to_array := InternalSerializeWithCachedSizesToArray;
  msg_to_stream := SerializeWithCachedSizes;
  msg_byte_size := ByteSize;
  msg_merge_from := MergeFrom |}.
End Code.

Section Laws.
Context `{W : WireFormat} {L : WireFormatLaws W}.

Definition ok (m : t) : Prop :=
  match msg_ m with
  | kRegisterRequest v => nested_ok v
  | kLoginRequest v => nested_ok v
  | kChatsRequest v => nested_ok v
  | kContactsRequest v => nested_ok v
  | kMessagesRequest v => nested_ok v
  | kSendMesgRequest v => nested_ok v
  | kAddContactRequest v => nested_ok v
  | kCreateChatRequest v => nested_ok v
  | MSG_NOT_SET => True
  end.

Definition wire (m : t) : bytes :=
  match msg_ m with
  | kRegisterRequest v => message_chunk 10 v ++ []
  | kLoginRequest v => message_chunk 18 v ++ []
  | kChatsRequest v => message_chunk 26 v ++ []
  | kContactsRequest v => message_chunk 34 v ++ []
  | kMessagesRequest v => message_chunk 42 v ++ []
  | kSendMesgRequest v => message_chunk 50 v ++ []
  | kAddContactRequest v => message_chunk 58 v ++ []
  | kCreateChatRequest v => message_chunk 66 v ++ []
  | MSG_NOT_SET => []
  end.

Lemma Request_step_decreases : Parser.step_decreases step.
Proof. parser_decreases step cases. Qed.

Lemma Request_to_array_wire m target : ok m →
  InternalSerializeWithCachedSizesToArray m target = target ++ wire m.
Proof.
  destruct m as [u]. unfold ok. simpl. intros Hok. destruct u;
    cbv beta iota zeta delta [InternalSerializeWithCachedSizesToArray wire msg_];
    rewrite app_nil_r;
    first [by apply write_message_chunk | done].
Qed.

Lemma Request_to_stream_wire m output : ok m →
  SerializeWithCachedSizes m output = output ++ wire m.
Proof.
  destruct m as [u]. unfold ok. simpl. intros Hok. destruct u;
    cbv beta iota zeta delta [SerializeWithCachedSizes wire msg_];
    rewrite app_nil_r;
    first [by apply write_stream_message_chunk | done].
Qed.

Lemma Request_size_wire m : ok m → ByteSize m = zlen (wire m).
Proof.
  intros Hok. unfold ok, ByteSize, wire in *.
  destruct (msg_ m); rewrite ?app_nil_r;
    first [by rewrite zlen_message_chunk | done].
Qed.

Lemma Request_parse_wire m0 m s : ok m → bytes_left s = wire m → (2 ≤ depth s)%nat →
  ∃ s', MergePartialFromCodedStream m0 s = Parsed (MergeFrom m0 m) s' ∧ at_end (depth s) s'.
Proof.
  unfold ok, wire, MergeFrom. intros Hok Hb Hd.
  destruct (msg_ m); start_merge Request_step_decreases; repeat merge_field cases.
Qed.

Lemma Request_merge_default m : ok m → MergeFrom SharedCtor m = m.
Proof.
  destruct m as [u]. unfold ok, MergeFrom. simpl.
  destruct u; simpl; try done; intros [Hok _]; do 2 f_equal; exact (msg_merge_default _ Hok).
Qed.

#[global] Instance message_laws : MessageLaws t.
Proof.
  refine {| msg_ok := ok; msg_nesting := 2; msg_wire := wire |}.
  - exact Request_to_array_wire.
  - exact Request_to_stream_wire.
  - exact Request_size_wire.
  - exact Request_parse_wire.
  - apply merge_loop_total, Request_step_decreases.
  - exact Request_merge_default.
Defined.

Lemma Request_CopyFrom_copies (m from : t) : ok from → CopyFrom m from = from.
Proof. apply Request_merge_default. Qed.
End Laws.
End Request.

