(* ===== verification/Responses.v ===== *)
(** * Response messages

    The response classes of [server/src/proto/messages.pb.cc], in the same
    shape as the request classes. *)
From S2P Require Import Prelude Wire Parser Message.

(** The enumeration [StatusResponse.RESULT]; an open enum, its C++ variable
    may hold any [int]. *)
Definition StatusResponse_RESULT_ACCEPTED : Z := 0.
Definition StatusResponse_RESULT_REJECTED : Z := 1.

(** ** StatusResponse

    accepted or rejected *)

Module StatusResponse.
Record t := Build { result : Z }.

Section Code.
Context `{W : WireFormat}.

Definition SharedCtor : t := {| result := 0 |}.

Definition Clear (m : t) : t := {| result := 0 |}.

Definition set_result (m : t) (value : Z) : t :=
  {| result := value |}.

Definition cases (tag : Z) (m : t) (s : stream) : next t stream :=
  match GetTagFieldNumber tag with
  | 1 => if tag =? 8 then Goto (At 8) m s else handle_unusual tag m s
  | _ => handle_unusual tag m s
  end.

Definition step (l : label) (m : t) (s : stream) : next t stream :=
  match l with
  | Top => loop_head cases m s
  | At 8 =>
      DO_ (v, s) <- ReadEnum s;
      expect_at_end (set_result m v) s
  | At _ => Fail
  end.

Definition MergePartialFromCodedStream (m : t) (s : stream) : parse t stream :=
  merge_loop step m s.

Definition InternalSerializeWithCachedSizesToArray (m : t) (target : bytes) : bytes :=
  let target :=
    if negb (result m =? 0) then WriteEnumToArray 1 (result m) target else target in
  target.

Definition SerializeWithCachedSizes (m : t) (output : bytes) : bytes :=
  let output :=
    if negb (result m =? 0) then WriteEnum 1 (result m) output else output in
  output.

Definition ByteSize (m : t) : Z :=
  let total_size := 0 in
  let total_size :=
    if negb (result m =? 0) then total_size + (1 + EnumSize (result m)) else total_size in
  total_size.

Definition MergeFrom (m from : t) : t :=
  let m := if negb (result from =? 0) then set_result m (result from) else m in
  m.

Definition CopyFrom (m from : t) : t := MergeFrom (Clear m) from.

#[global] Instance message : Message t := {|
  msg_default := SharedCtor;
  msg_merge_partial := MergePartialFromCodedStream;
  msg_to_array := InternalSerializeWithCachedSizesToArray;
  msg_to_stream := SerializeWithCachedSizes;
  msg_byte_size := ByteSize;
  msg_merge_from := MergeFrom |}.
End Code.

Section Laws.
Context `{W : WireFormat} {L : WireFormatLaws W}.

Definition ok (m : t) : Prop := int32_ok (result m).

Definition wire (m : t) : bytes :=
  enum_chunk 8 (result m) ++ [].

Lemma StatusResponse_step_decreases : Parser.step_decreases step.
Proof. parser_decreases step cases. Qed.

Lemma StatusResponse_to_array_wire m target : ok m →
  InternalSerializeWithCachedSizesToArray m target = target ++ wire m.
Proof.
  intros Hok. open_ok ok. unfold InternalSerializeWithCachedSizesToArray, wire. write_chunks.
Qed.

Lemma StatusResponse_to_stream_wire m output : ok m →
  SerializeWithCachedSizes m output = output ++ wire m.
Proof. intros Hok. open_ok ok. unfold SerializeWithCachedSizes, wire. write_chunks. Qed.

Lemma StatusResponse_size_wire m : ok m → ByteSize m = zlen (wire m).
Proof. intros Hok. open_ok ok. unfold ByteSize, wire. size_chunks. Qed.

Lemma StatusResponse_parse_wire m0 m s : ok m → bytes_left s = wire m → (0 ≤ depth s)%nat →
  ∃ s', MergePartialFromCodedStream m0 s = Parsed (MergeFrom m0 m) s' ∧ at_end (depth s) s'.
Proof.
  intros H0 Hb _. unfold wire in Hb. start_merge StatusResponse_step_decreases.
  do 2 merge_field cases.
Qed.

Lemma StatusResponse_merge_default m : ok m → MergeFrom SharedCtor m = m.
Proof. destruct m as [x0]. intros _. unfold MergeFrom, SharedCtor; simpl. merge_into_default. Qed.

#[global] Instance message_laws : MessageLaws t.
Proof.
  refine {| msg_ok := ok; msg_nesting := 0; msg_wire := wire |}.
  - exact StatusResponse_to_array_wire.
  - exact StatusResponse_to_stream_wire.
  - exact StatusResponse_size_wire.
  - exact StatusResponse_parse_wire.
  - apply merge_loop_total, StatusResponse_step_decreases.
  - exact StatusResponse_merge_default.
Defined.

Lemma StatusResponse_CopyFrom_copies (m from : t) : ok from → CopyFrom m from = from.
Proof. apply StatusResponse_merge_default. Qed.
End Laws.
End StatusResponse.

(** ** Chat

    a chat and its title for the user who asked *)

Module Chat.
Record t := Build { chat_id : Z; title : bytes }.

Section Code.
Context `{W : WireFormat}.

Definition SharedCtor : t := {| chat_id := 0; title := [] |}.

Definition Clear (m : t) : t := {| chat_id := 0; title := [] |}.

Definition set_chat_id (m : t) (value : Z) : t :=
  {| chat_id := value; title := title m |}.

Definition set_title (m : t) (value : bytes) : t :=
  {| chat_id := chat_id m; title := value |}.

Definition cases (tag : Z) (m : t) (s : stream) : next t stream :=
  match GetTagFieldNumber tag with
  | 1 => if tag =? 8 then Goto (At 8) m s else handle_unusual tag m s
  | 2 => if tag =? 18 then Goto (At 18) m s else handle_unusual tag m s
  | _ => handle_unusual tag m s
  end.

Definition step (l : label) (m : t) (s : stream) : next t stream :=
  match l with
  | Top => loop_head cases m s
  | At 8 =>
      DO_ (v, s) <- ReadUInt64 s;
      expect_tag 18 (set_chat_id m v) s
  | At 18 =>
      DO_ (v, s) <- ReadString s;
      let m := set_title m v in
      REQUIRE_ VerifyUtf8String (title m);
      expect_at_end m s
  | At _ => Fail
  end.

Definition MergePartialFromCodedStream (m : t) (s : stream) : parse t stream :=
  merge_loop step m s.

Definition InternalSerializeWithCachedSizesToArray (m : t) (target : bytes) : bytes :=
  let target :=
    if negb (chat_id m =? 0) then WriteUInt64ToArray 1 (chat_id m) target else target in
  let target :=
    if 0 <? zlen (title m) then WriteStringToArray 2 (title m) target else target in
  target.

Definition SerializeWithCachedSizes (m : t) (output : bytes) : bytes :=
  let output :=
    if negb (chat_id m =? 0) then WriteUInt64 1 (chat_id m) output else output in
  let output :=
    if 0 <? zlen (title m) then WriteStringMaybeAliased 2 (title m) output else output in
  output.

Definition ByteSize (m : t) : Z :=
  let total_size := 0 in
  let total_size :=
    if negb (chat_id m =? 0) then total_size + (1 + UInt64Size (chat_id m)) else total_size in
  let total_size :=
    if 0 <? zlen (title m) then total_size + (1 + StringSize (title m)) else total_size in
  total_size.

Definition MergeFrom (m from : t) : t :=
  let m := if negb (chat_id from =? 0) then set_chat_id m (chat_id from) else m in
  let m := if 0 <? zlen (title from) then set_title m (title from) else m in
  m.

Definition CopyFrom (m from : t) : t := MergeFrom (Clear m) from.

#[global] Instance message : Message t := {|
  msg_default := SharedCtor;
  msg_merge_partial := MergePartialFromCodedStream;
  msg_to_array := InternalSerializeWithCachedSizesToArray;
  msg_to_stream := SerializeWithCachedSizes;
  msg_byte_size := ByteSize;
  msg_merge_from := MergeFrom |}.
End Code.

Section Laws.
Context `{W : WireFormat} {L : WireFormatLaws W}.

Definition ok (m : t) : Prop := uint64_ok (chat_id m) ∧ string_ok (title m).

Definition wire (m : t) : bytes :=
  uint64_chunk 8 (chat_id m) ++ string_chunk 18 (title m) ++ [].

Lemma Chat_step_decreases : Parser.step_decreases step.
Proof. parser_decreases step cases. Qed.

Lemma Chat_to_array_wire m target : ok m →
  InternalSerializeWithCachedSizesToArray m target = target ++ wire m.
Proof.
  intros Hok. open_ok ok. unfold InternalSerializeWithCachedSizesToArray, wire. write_chunks.
Qed.

Lemma Chat_to_stream_wire m output : ok m →
  SerializeWithCachedSizes m output = output ++ wire m.
Proof. intros Hok. open_ok ok. unfold SerializeWithCachedSizes, wire. write_chunks. Qed.

Lemma Chat_size_wire m : ok m → ByteSize m = zlen (wire m).
Proof. intros Hok. open_ok ok. unfold ByteSize, wire. size_chunks. Qed.

Lemma Chat_parse_wire m0 m s : ok m → bytes_left s = wire m → (0 ≤ depth s)%nat →
  ∃ s', MergePartialFromCodedStream m0 s = Parsed (MergeFrom m0 m) s' ∧ at_end (depth s) s'.
Proof.
  intros (H0 & H1) Hb _. unfold wire in Hb. start_merge Chat_step_decreases.
  do 3 merge_field cases.
Qed.

Lemma Chat_merge_default m : ok m → MergeFrom SharedCtor m = m.
Proof. destruct m as [x0 x1]. intros _. unfold MergeFrom, SharedCtor; simpl. merge_into_default. Qed.

#[global] Instance message_laws : MessageLaws t.
Proof.
  refine {| msg_ok := ok; msg_nesting := 0; msg_wire := wire |}.
  - exact Chat_to_array_wire.
  - exact Chat_to_stream_wire.
  - exact Chat_size_wire.
  - exact Chat_parse_wire.
  - apply merge_loop_total, Chat_step_decreases.
  - exact Chat_merge_default.
Defined.

Lemma Chat_CopyFrom_copies (m from : t) : ok from → CopyFrom m from = from.
Proof. apply Chat_merge_default. Qed.
End Laws.
End Chat.

(** ** ChatsResponse

    the chats of a user *)

Module ChatsResponse.
Record t := Build { chats : list Chat.t }.

Section Code.
Context `{W : WireFormat}.

Definition SharedCtor : t := {| chats := [] |}.

Definition Clear (m : t) : t := {| chats := [] |}.

Definition chats_size (m : t) : Z := zlen (chats m).

(** [add_chats] returns a pointer to a new last element; the element is given
    here with the value it is assigned through that pointer. *)
Definition add_chats (m : t) (value : Chat.t) : t := {| chats := chats m ++ [value] |}.

Definition cases (tag : Z) (m : t) (s : stream) : next t stream :=
  match GetTagFieldNumber tag with
  | 1 =>
      if tag =? 10 then
        DO_ s <- IncrementRecursionDepth s;
        Goto (At 10) m s
      else handle_unusual tag m s
  | _ => handle_unusual tag m s
  end.

Definition step (l : label) (m : t) (s : stream) : next t stream :=
  match l with
  | Top => loop_head cases m s
  | At 10 =>
      MERGE_ (v, s) <- ReadMessageNoVirtualNoRecursionDepth msg_merge_partial msg_default s;
      match ExpectTag 10 s with
      | (true, s) => Goto (At 10) (add_chats m v) s
      | (false, s) => expect_at_end (add_chats m v) (UnsafeDecrementRecursionDepth s)
      end
  | At _ => Fail
  end.

Definition MergePartialFromCodedStream (m : t) (s : stream) : parse t stream :=
  merge_loop step m s.

Definition InternalSerializeWithCachedSizesToArray (m : t) (target : bytes) : bytes :=
  fold_left (λ target v,
    InternalWriteMessageNoVirtualToArray msg_byte_size msg_to_array 1 v target)
    (chats m) target.

Definition SerializeWithCachedSizes (m : t) (output : bytes) : bytes :=
  fold_left (λ output v,
    WriteMessageMaybeToArray msg_byte_size msg_to_stream 1 v output)
    (chats m) output.

Definition ByteSize (m : t) : Z :=
  let total_size := 0 in
  let total_size := total_size + 1 * chats_size m in
  fold_left (λ total_size v, total_size + MessageSizeNoVirtual msg_byte_size v)
    (chats m) total_size.

Definition MergeFrom (m from : t) : t := {| chats := chats m ++ chats from |}.

Definition CopyFrom (m from : t) : t := MergeFrom (Clear m) from.

#[global] Instance message : Message t := {|
  msg_default := SharedCtor;
  msg_merge_partial := MergePartialFromCodedStream;
  msg_to_array := InternalSerializeWithCachedSizesToArray;
  msg_to_stream := SerializeWithCachedSizes;
  msg_byte_size := ByteSize;
  msg_merge_from := MergeFrom |}.
End Code.

Section Laws.
Context `{W : WireFormat} {L : WireFormatLaws W}.

Definition ok (m : t) : Prop := Forall nested_ok (chats m).

Definition wire (m : t) : bytes := repeated_chunk 10 (chats m).

Lemma ChatsResponse_step_decreases : Parser.step_decreases step.
Proof. parser_decreases step cases. Qed.

Lemma ChatsResponse_to_array_wire m target : ok m →
  InternalSerializeWithCachedSizesToArray m target = target ++ wire m.
Proof. intros Hok. by apply write_repeated. Qed.

Lemma ChatsResponse_to_stream_wire m output : ok m →
  SerializeWithCachedSizes m output = output ++ wire m.
Proof. intros Hok. by apply write_stream_repeated. Qed.

Lemma ChatsResponse_size_wire m : ok m → ByteSize m = zlen (wire m).
Proof.
  intros Hok. unfold ByteSize, wire, chats_size.
  pose proof (size_repeated 10 (chats m) (zlen (chats m)) ltac:(lia) Hok).
  rewrite Z.add_0_l, Z.mul_1_l. lia.
Qed.

Lemma ChatsResponse_add_all l m : fold_left add_chats l m = {| chats := chats m ++ l |}.
Proof.
  revert m. induction l as [|v l IH]; intros [l0]; simpl.
  - by rewrite app_nil_r.
  - rewrite IH. simpl. by rewrite <- app_assoc.
Qed.

Lemma ChatsResponse_parse_wire m0 m s : ok m → bytes_left s = wire m → (1 ≤ depth s)%nat →
  ∃ s', MergePartialFromCodedStream m0 s = Parsed (MergeFrom m0 m) s' ∧ at_end (depth s) s'.
Proof.
  intros Hok Hb Hd. apply finishes_merge_loop; [apply ChatsResponse_step_decreases|].
  unfold MergeFrom. rewrite <- ChatsResponse_add_all. destruct (depth s) as [|d] eqn:Hds; [lia|].
  apply (@repeated_finishes _ _ _ step cases (λ _ _, eq_refl) Chat.t _ _) with (t := 10);
    [done|done|simpl; lia|done|dispatch cases|dispatch cases|done].
Qed.

Lemma ChatsResponse_merge_default m : ok m → MergeFrom SharedCtor m = m.
Proof. by destruct m. Qed.

#[global] Instance message_laws : MessageLaws t.
Proof.
  refine {| msg_ok := ok; msg_nesting := 1; msg_wire := wire |}.
  - exact ChatsResponse_to_array_wire.
  - exact ChatsResponse_to_stream_wire.
  - exact ChatsResponse_size_wire.
  - exact ChatsResponse_parse_wire.
  - apply merge_loop_total, ChatsResponse_step_decreases.
  - exact ChatsResponse_merge_default.
Defined.

Lemma ChatsResponse_CopyFrom_copies (m from : t) : ok from → CopyFrom m from = from.
Proof. apply ChatsResponse_merge_default. Qed.
End Laws.
End ChatsResponse.

(** ** Contact

    a user as another one sees him *)

Module Contact.
Record t := Build { user_id : Z; name : bytes; email : bytes }.

Section Code.
Context `{W : WireFormat}.

Definition SharedCtor : t := {| user_id := 0; name := []; email := [] |}.

Definition Clear (m : t) : t := {| user_id := 0; name := []; email := [] |}.

Definition set_user_id (m : t) (value : Z) : t :=
  {| user_id := value; name := name m; email := email m |}.

Definition set_name (m : t) (value : bytes) : t :=
  {| user_id := user_id m; name := value; email := email m |}.

Definition set_email (m : t) (value : bytes) : t :=
  {| user_id := user_id m; name := name m; email := value |}.

Definition cases (tag : Z) (m : t) (s : stream) : next t stream :=
  match GetTagFieldNumber tag with
  | 1 => if tag =? 8 then Goto (At 8) m s else handle_unusual tag m s
  | 2 => if tag =? 18 then Goto (At 18) m s else handle_unusual tag m s
  | 3 => if tag =? 26 then Goto (At 26) m s else handle_unusual tag m s
  | _ => handle_unusual tag m s
  end.

Definition step (l : label) (m : t) (s : stream) : next t stream :=
  match l with
  | Top => loop_head cases m s
  | At 8 =>
      DO_ (v, s) <- ReadUInt64 s;
      expect_tag 18 (set_user_id m v) s
  | At 18 =>
      DO_ (v, s) <- ReadString s;
      let m := set_name m v in
      REQUIRE_ VerifyUtf8String (name m);
      expect_tag 26 m s
  | At 26 =>
      DO_ (v, s) <- ReadString s;
      let m := set_email m v in
      REQUIRE_ VerifyUtf8String (email m);
      expect_at_end m s
  | At _ => Fail
  end.

Definition MergePartialFromCodedStream (m : t) (s : stream) : parse t stream :=
  merge_loop step m s.

Definition InternalSerializeWithCachedSizesToArray (m : t) (target : bytes) : bytes :=
  let target :=
    if negb (user_id m =? 0) then WriteUInt64ToArray 1 (user_id m) target else target in
  let target :=
    if 0 <? zlen (name m) then WriteStringToArray 2 (name m) target else target in
  let target :=
    if 0 <? zlen (email m) then WriteStringToArray 3 (email m) target else target in
  target.

Definition SerializeWithCachedSizes (m : t) (output : bytes) : bytes :=
  let output :=
    if negb (user_id m =? 0) then WriteUInt64 1 (user_id m) output else output in
  let output :=
    if 0 <? zlen (name m) then WriteStringMaybeAliased 2 (name m) output else output in
  let output :=
    if 0 <? zlen (email m) then WriteStringMaybeAliased 3 (email m) output else output in
  output.

Definition ByteSize (m : t) : Z :=
  let total_size := 0 in
  let total_size :=
    if negb (user_id m =? 0) then total_size + (1 + UInt64Size (user_id m)) else total_size in
  let total_size :=
    if 0 <? zlen (name m) then total_size + (1 + StringSize (name m)) else total_size in
  let total_size :=
    if 0 <? zlen (email m) then total_size + (1 + StringSize (email m)) else total_size in
  total_size.

Definition MergeFrom (m from : t) : t :=
  let m := if negb (user_id from =? 0) then set_user_id m (user_id from) else m in
  let m := if 0 <? zlen (name from) then set_name m (name from) else m in
  let m := if 0 <? zlen (email from) then set_email m (email from) else m in
  m.

Definition CopyFrom (m from : t) : t := MergeFrom (Clear m) from.

#[global] Instance message : Message t := {|
  msg_default := SharedCtor;
  msg_merge_partial := MergePartialFromCodedStream;
  msg_to_array := InternalSerializeWithCachedSizesToArray;
  msg_to_stream := SerializeWithCachedSizes;
  msg_byte_size := ByteSize;
  msg_merge_from := MergeFrom |}.
End Code.

Section Laws.
Context `{W : WireFormat} {L : WireFormatLaws W}.

Definition ok (m : t) : Prop := uint64_ok (user_id m) ∧ string_ok (name m) ∧ string_ok (email m).

Definition wire (m : t) : bytes :=
  uint64_chunk 8 (user_id m) ++ string_chunk 18 (name m) ++ string_chunk 26 (email m) ++ [].

Lemma Contact_step_decreases : Parser.step_decreases step.
Proof. parser_decreases step cases. Qed.

Lemma Contact_to_array_wire m target : ok m →
  InternalSerializeWithCachedSizesToArray m target = target ++ wire m.
Proof.
  intros Hok. open_ok ok. unfold InternalSerializeWithCachedSizesToArray, wire. write_chunks.
Qed.

Lemma Contact_to_stream_wire m output : ok m →
  SerializeWithCachedSizes m output = output ++ wire m.
Proof. intros Hok. open_ok ok. unfold SerializeWithCachedSizes, wire. write_chunks. Qed.

Lemma Contact_size_wire m : ok m → ByteSize m = zlen (wire m).
Proof. intros Hok. open_ok ok. unfold ByteSize, wire. size_chunks. Qed.

Lemma Contact_parse_wire m0 m s : ok m → bytes_left s = wire m → (0 ≤ depth s)%nat →
  ∃ s', MergePartialFromCodedStream m0 s = Parsed (MergeFrom m0 m) s' ∧ at_end (depth s) s'.
Proof.
  intros (H0 & H1 & H2) Hb _. unfold wire in Hb. start_merge Contact_step_decreases.
  do 4 merge_field cases.
Qed.

Lemma Contact_merge_default m : ok m → MergeFrom SharedCtor m = m.
Proof. destruct m as [x0 x1 x2]. intros _. unfold MergeFrom, SharedCtor; simpl. merge_into_default. Qed.

#[global] Instance message_laws : MessageLaws t.
Proof.
  refine {| msg_ok := ok; msg_nesting := 0; msg_wire := wire |}.
  - exact Contact_to_array_wire.
  - exact Contact_to_stream_wire.
  - exact Contact_size_wire.
  - exact Contact_parse_wire.
  - apply merge_loop_total, Contact_step_decreases.
  - exact Contact_merge_default.
Defined.

Lemma Contact_CopyFrom_copies (m from : t) : ok from → CopyFrom m from = from.
Proof. apply Contact_merge_default. Qed.
End Laws.
End Contact.

(** ** ContactsResponse

    the contacts of a user *)

Module ContactsResponse.
Record t := Build { contacts : list Contact.t }.

Section Code.
Context `{W : WireFormat}.

Definition SharedCtor : t := {| contacts := [] |}.

Definition Clear (m : t) : t := {| contacts := [] |}.

Definition contacts_size (m : t) : Z := zlen (contacts m).

(** [add_contacts] returns a pointer to a new last element; the element is given
    here with the value it is assigned through that pointer. *)
Definition add_contacts (m : t) (value : Contact.t) : t := {| contacts := contacts m ++ [value] |}.

Definition cases (tag : Z) (m : t) (s : stream) : next t stream :=
  match GetTagFieldNumber tag with
  | 1 =>
      if tag =? 10 then
        DO_ s <- IncrementRecursionDepth s;
        Goto (At 10) m s
      else handle_unusual tag m s
  | _ => handle_unusual tag m s
  end.

Definition step (l : label) (m : t) (s : stream) : next t stream :=
  match l with
  | Top => loop_head cases m s
  | At 10 =>
      MERGE_ (v, s) <- ReadMessageNoVirtualNoRecursionDepth msg_merge_partial msg_default s;
      match ExpectTag 10 s with
      | (true, s) => Goto (At 10) (add_contacts m v) s
      | (false, s) => expect_at_end (add_contacts m v) (UnsafeDecrementRecursionDepth s)
      end
  | At _ => Fail
  end.

Definition MergePartialFromCodedStream (m : t) (s : stream) : parse t stream :=
  merge_loop step m s.

Definition InternalSerializeWithCachedSizesToArray (m : t) (target : bytes) : bytes :=
  fold_left (λ target v,
    InternalWriteMessageNoVirtualToArray msg_byte_size msg_to_array 1 v target)
    (contacts m) target.

Definition SerializeWithCachedSizes (m : t) (output : bytes) : bytes :=
  fold_left (λ output v,
    WriteMessageMaybeToArray msg_byte_size msg_to_stream 1 v output)
    (contacts m) output.

Definition ByteSize (m : t) : Z :=
  let total_size := 0 in
  let total_size := total_size + 1 * contacts_size m in
  fold_left (λ total_size v, total_size + MessageSizeNoVirtual msg_byte_size v)
    (contacts m) total_size.

Definition MergeFrom (m from : t) : t := {| contacts := contacts m ++ contacts from |}.

Definition CopyFrom (m from : t) : t := MergeFrom (Clear m) from.

#[global] Instance message : Message t := {|
  msg_default := SharedCtor;
  msg_merge_partial := MergePartialFromCodedStream;
  msg_to_array := InternalSerializeWithCachedSizesToArray;
  msg_to_stream := SerializeWithCachedSizes;
  msg_byte_size := ByteSize;
  msg_merge_from := MergeFrom |}.
End Code.

Section Laws.
Context `{W : WireFormat} {L : WireFormatLaws W}.

Definition ok (m : t) : Prop := Forall nested_ok (contacts m).

Definition wire (m : t) : bytes := repeated_chunk 10 (contacts m).

Lemma ContactsResponse_step_decreases : Parser.step_decreases step.
Proof. parser_decreases step cases. Qed.

Lemma ContactsResponse_to_array_wire m target : ok m →
  InternalSerializeWithCachedSizesToArray m target = target ++ wire m.
Proof. intros Hok. by apply write_repeated. Qed.

Lemma ContactsResponse_to_stream_wire m output : ok m →
  SerializeWithCachedSizes m output = output ++ wire m.
Proof. intros Hok. by apply write_stream_repeated. Qed.

Lemma ContactsResponse_size_wire m : ok m → ByteSize m = zlen (wire m).
Proof.
  intros Hok. unfold ByteSize, wire, contacts_size.
  pose proof (size_repeated 10 (contacts m) (zlen (contacts m)) ltac:(lia) Hok).
  rewrite Z.add_0_l, Z.mul_1_l. lia.
Qed.

Lemma ContactsResponse_add_all l m : fold_left add_contacts l m = {| contacts := contacts m ++ l |}.
Proof.
  revert m. induction l as [|v l IH]; intros [l0]; simpl.
  - by rewrite app_nil_r.
  - rewrite IH. simpl. by rewrite <- app_assoc.
Qed.

Lemma ContactsResponse_parse_wire m0 m s : ok m → bytes_left s = wire m → (1 ≤ depth s)%nat →
  ∃ s', MergePartialFromCodedStream m0 s = Parsed (MergeFrom m0 m) s' ∧ at_end (depth s) s'.
Proof.
  intros Hok Hb Hd. apply finishes_merge_loop; [apply ContactsResponse_step_decreases|].
  unfold MergeFrom. rewrite <- ContactsResponse_add_all. destruct (depth s) as [|d] eqn:Hds; [lia|].
  apply (@repeated_finishes _ _ _ step cases (λ _ _, eq_refl) Contact.t _ _) with (t := 10);
    [done|done|simpl; lia|done|dispatch cases|dispatch cases|done].
Qed.

Lemma ContactsResponse_merge_default m : ok m → MergeFrom SharedCtor m = m.
Proof. by destruct m. Qed.

#[global] Instance message_laws : MessageLaws t.
Proof.
  refine {| msg_ok := ok; msg_nesting := 1; msg_wire := wire |}.
  - exact ContactsResponse_to_array_wire.
  - exact ContactsResponse_to_stream_wire.
  - exact ContactsResponse_size_wire.
  - exact ContactsResponse_parse_wire.
  - apply merge_loop_total, ContactsResponse_step_decreases.
  - exact ContactsResponse_merge_default.
Defined.

Lemma ContactsResponse_CopyFrom_copies (m from : t) : ok from → CopyFrom m from = from.
Proof. apply ContactsResponse_merge_default. Qed.
End Laws.
End ContactsResponse.

(** ** MessageToRecieve

    a message of a chat *)

Module MessageToRecieve.
Record t := Build { sender_id : Z; text : bytes }.

Section Code.
Context `{W : WireFormat}.

Definition SharedCtor : t := {| sender_id := 0; text := [] |}.

Definition Clear (m : t) : t := {| sender_id := 0; text := [] |}.

Definition set_sender_id (m : t) (value : Z) : t :=
  {| sender_id := value; text := text m |}.

Definition set_text (m : t) (value : bytes) : t :=
  {| sender_id := sender_id m; text := value |}.

Definition cases (tag : Z) (m : t) (s : stream) : next t stream :=
  match GetTagFieldNumber tag with
  | 1 => if tag =? 8 then Goto (At 8) m s else handle_unusual tag m s
  | 2 => if tag =? 18 then Goto (At 18) m s else handle_unusual tag m s
  | _ => handle_unusual tag m s
  end.

Definition step (l : label) (m : t) (s : stream) : next t stream :=
  match l with
  | Top => loop_head cases m s
  | At 8 =>
      DO_ (v, s) <- ReadUInt64 s;
      expect_tag 18 (set_sender_id m v) s
  | At 18 =>
      DO_ (v, s) <- ReadString s;
      let m := set_text m v in
      REQUIRE_ VerifyUtf8String (text m);
      expect_at_end m s
  | At _ => Fail
  end.

Definition MergePartialFromCodedStream (m : t) (s : stream) : parse t stream :=
  merge_loop step m s.

Definition InternalSerializeWithCachedSizesToArray (m : t) (target : bytes) : bytes :=
  let target :=
    if negb (sender_id m =? 0) then WriteUInt64ToArray 1 (sender_id m) target else target in
  let target :=
    if 0 <? zlen (text m) then WriteStringToArray 2 (text m) target else target in
  target.

Definition SerializeWithCachedSizes (m : t) (output : bytes) : bytes :=
  let output :=
    if negb (sender_id m =? 0) then WriteUInt64 1 (sender_id m) output else output in
  let output :=
    if 0 <? zlen (text m) then WriteStringMaybeAliased 2 (text m) output else output in
  output.

Definition ByteSize (m : t) : Z :=
  let total_size := 0 in
  let total_size :=
    if negb (sender_id m =? 0) then total_size + (1 + UInt64Size (sender_id m)) else total_size in
  let total_size :=
    if 0 <? zlen (text m) then total_size + (1 + StringSize (text m)) else total_size in
  total_size.

Definition MergeFrom (m from : t) : t :=
  let m := if negb (sender_id from =? 0) then set_sender_id m (sender_id from) else m in
  let m := if 0 <? zlen (text from) then set_text m (text from) else m in
  m.

Definition CopyFrom (m from : t) : t := MergeFrom (Clear m) from.

#[global] Instance message : Message t := {|
  msg_default := SharedCtor;
  msg_merge_partial := MergePartialFromCodedStream;
  msg_to_array := InternalSerializeWithCachedSizesToArray;
  msg_to_stream := SerializeWithCachedSizes;
  msg_byte_size := ByteSize;
  msg_merge_from := MergeFrom |}.
End Code.

Section Laws.
Context `{W : WireFormat} {L : WireFormatLaws W}.

Definition ok (m : t) : Prop := uint64_ok (sender_id m) ∧ string_ok (text m).

Definition wire (m : t) : bytes :=
  uint64_chunk 8 (sender_id m) ++ string_chunk 18 (text m) ++ [].

Lemma MessageToRecieve_step_decreases : Parser.step_decreases step.
Proof. parser_decreases step cases. Qed.

Lemma MessageToRecieve_to_array_wire m target : ok m →
  InternalSerializeWithCachedSizesToArray m target = target ++ wire m.
Proof.
  intros Hok. open_ok ok. unfold InternalSerializeWithCachedSizesToArray, wire. write_chunks.
Qed.

Lemma MessageToRecieve_to_stream_wire m output : ok m →
  SerializeWithCachedSizes m output = output ++ wire m.
Proof. intros Hok. open_ok ok. unfold SerializeWithCachedSizes, wire. write_chunks. Qed.

Lemma MessageToRecieve_size_wire m : ok m → ByteSize m = zlen (wire m).
Proof. intros Hok. open_ok ok. unfold ByteSize, wire. size_chunks. Qed.

Lemma MessageToRecieve_parse_wire m0 m s : ok m → bytes_left s = wire m → (0 ≤ depth s)%nat →
  ∃ s', MergePartialFromCodedStream m0 s = Parsed (MergeFrom m0 m) s' ∧ at_end (depth s) s'.
Proof.
  intros (H0 & H1) Hb _. unfold wire in Hb. start_merge MessageToRecieve_step_decreases.
  do 3 merge_field cases.
Qed.

Lemma MessageToRecieve_merge_default m : ok m → MergeFrom SharedCtor m = m.
Proof. destruct m as [x0 x1]. intros _. unfold MergeFrom, SharedCtor; simpl. merge_into_default. Qed.

#[global] Instance message_laws : MessageLaws t.
Proof.
  refine {| msg_ok := ok; msg_nesting := 0; msg_wire := wire |}.
  - exact MessageToRecieve_to_array_wire.
  - exact MessageToRecieve_to_stream_wire.
  - exact MessageToRecieve_size_wire.
  - exact MessageToRecieve_parse_wire.
  - apply merge_loop_total, MessageToRecieve_step_decreases.
  - exact MessageToRecieve_merge_default.
Defined.

Lemma MessageToRecieve_CopyFrom_copies (m from : t) : ok from → CopyFrom m from = from.
Proof. apply MessageToRecieve_merge_default. Qed.
End Laws.
End MessageToRecieve.

(** ** MessagesResponse

    the messages of a chat *)

Module MessagesResponse.
Record t := Build { messages : list MessageToRecieve.t }.

Section Code.
Context `{W : WireFormat}.

Definition SharedCtor : t := {| messages := [] |}.

Definition Clear (m : t) : t := {| messages := [] |}.

Definition messages_size (m : t) : Z := zlen (messages m).

(** [add_messages] returns a pointer to a new last element; the element is given
    here with the value it is assigned through that pointer. *)
Definition add_messages (m : t) (value : MessageToRecieve.t) : t := {| messages := messages m ++ [value] |}.

Definition cases (tag : Z) (m : t) (s : stream) : next t stream :=
  match GetTagFieldNumber tag with
  | 1 =>
      if tag =? 10 then
        DO_ s <- IncrementRecursionDepth s;
        Goto (At 10) m s
      else handle_unusual tag m s
  | _ => handle_unusual tag m s
  end.

Definition step (l : label) (m : t) (s : stream) : next t stream :=
  match l with
  | Top => loop_head cases m s
  | At 10 =>
      MERGE_ (v, s) <- ReadMessageNoVirtualNoRecursionDepth msg_merge_partial msg_default s;
      match ExpectTag 10 s with
      | (true, s) => Goto (At 10) (add_messages m v) s
      | (false, s) => expect_at_end (add_messages m v) (UnsafeDecrementRecursionDepth s)
      end
  | At _ => Fail
  end.

Definition MergePartialFromCodedStream (m : t) (s : stream) : parse t stream :=
  merge_loop step m s.

Definition InternalSerializeWithCachedSizesToArray (m : t) (target : bytes) : bytes :=
  fold_left (λ target v,
    InternalWriteMessageNoVirtualToArray msg_byte_size msg_to_array 1 v target)
    (messages m) target.

Definition SerializeWithCachedSizes (m : t) (output : bytes) : bytes :=
  fold_left (λ output v,
    WriteMessageMaybeToArray msg_byte_size msg_to_stream 1 v output)
    (messages m) output.

Definition ByteSize (m : t) : Z :=
  let total_size := 0 in
  let total_size := total_size + 1 * messages_size m in
  fold_left (λ total_size v, total_size + MessageSizeNoVirtual msg_byte_size v)
    (messages m) total_size.

Definition MergeFrom (m from : t) : t := {| messages := messages m ++ messages from |}.

Definition CopyFrom (m from : t) : t := MergeFrom (Clear m) from.

#[global] Instance message : Message t := {|
  msg_default := SharedCtor;
  msg_merge_partial := MergePartialFromCodedStream;
  msg_to_array := InternalSerializeWithCachedSizesToArray;
  msg_to_stream := SerializeWithCachedSizes;
  msg_byte_size := ByteSize;
  msg_merge_from := MergeFrom |}.
End Code.

Section Laws.
Context `{W : WireFormat} {L : WireFormatLaws W}.

Definition ok (m : t) : Prop := Forall nested_ok (messages m).

Definition wire (m : t) : bytes := repeated_chunk 10 (messages m).

Lemma MessagesResponse_step_decreases : Parser.step_decreases step.
Proof. parser_decreases step cases. Qed.

Lemma MessagesResponse_to_array_wire m target : ok m →
  InternalSerializeWithCachedSizesToArray m target = target ++ wire m.
Proof. intros Hok. by apply write_repeated. Qed.

Lemma MessagesResponse_to_stream_wire m output : ok m →
  SerializeWithCachedSizes m output = output ++ wire m.
Proof. intros Hok. by apply write_stream_repeated. Qed.

Lemma MessagesResponse_size_wire m : ok m → ByteSize m = zlen (wire m).
Proof.
  intros Hok. unfold ByteSize, wire, messages_size.
  pose proof (size_repeated 10 (messages m) (zlen (messages m)) ltac:(lia) Hok).
  rewrite Z.add_0_l, Z.mul_1_l. lia.
Qed.

Lemma MessagesResponse_add_all l m : fold_left add_messages l m = {| messages := messages m ++ l |}.
Proof.
  revert m. induction l as [|v l IH]; intros [l0]; simpl.
  - by rewrite app_nil_r.
  - rewrite IH. simpl. by rewrite <- app_assoc.
Qed.

Lemma MessagesResponse_parse_wire m0 m s : ok m → bytes_left s = wire m → (1 ≤ depth s)%nat →
  ∃ s', MergePartialFromCodedStream m0 s = Parsed (MergeFrom m0 m) s' ∧ at_end (depth s) s'.
Proof.
  intros Hok Hb Hd. apply finishes_merge_loop; [apply MessagesResponse_step_decreases|].
  unfold MergeFrom. rewrite <- MessagesResponse_add_all. destruct (depth s) as [|d] eqn:Hds; [lia|].
  apply (@repeated_finishes _ _ _ step cases (λ _ _, eq_refl) MessageToRecieve.t _ _) with (t := 10);
    [done|done|simpl; lia|done|dispatch cases|dispatch cases|done].
Qed.

Lemma MessagesResponse_merge_default m : ok m → MergeFrom SharedCtor m = m.
Proof. by destruct m. Qed.

#[global] Instance message_laws : MessageLaws t.
Proof.
  refine {| msg_ok := ok; msg_nesting := 1; msg_wire := wire |}.
  - exact MessagesResponse_to_array_wire.
  - exact MessagesResponse_to_stream_wire.
  - exact MessagesResponse_size_wire.
  - exact MessagesResponse_parse_wire.
  - apply merge_loop_total, MessagesResponse_step_decreases.
  - exact MessagesResponse_merge_default.
Defined.

Lemma MessagesResponse_CopyFrom_copies (m from : t) : ok from → CopyFrom m from = from.
Proof. apply MessagesResponse_merge_default. Qed.
End Laws.
End MessagesResponse.

(** ** LoginResponse

    the profile of the user, absent when the login failed *)

Module LoginResponse.
(** The union of the oneof, tagged with [_oneof_case_]. *)
Inductive optional_profile_union : Type :=
| kProfile (m : Contact.t)
| OPTIONAL_PROFILE_NOT_SET.

Record t := Build { optional_profile_ : optional_profile_union }.

Section Code.
Context `{W : WireFormat}.

Definition SharedCtor : t := {| optional_profile_ := OPTIONAL_PROFILE_NOT_SET |}.

Definition clear_optional_profile (m : t) : t := {| optional_profile_ := OPTIONAL_PROFILE_NOT_SET |}.

Definition Clear (m : t) : t := clear_optional_profile m.

Definition has_profile (m : t) : bool :=
  match optional_profile_ m with kProfile _ => true | _ => false end.

Definition profile (m : t) : Contact.t :=
  match optional_profile_ m with kProfile v => v | _ => msg_default end.

(** The object the [mutable_] pointer designates: the current one, or a
    new default one.  What is stored through the pointer is put back under
    [kProfile]. *)
Definition mutable_profile (m : t) : Contact.t :=
  match optional_profile_ m with kProfile v => v | _ => msg_default end.

Definition set_allocated_profile (m : t) (p : option Contact.t) : t :=
  match p with Some v => {| optional_profile_ := kProfile v |} | None => clear_optional_profile m end.

Definition release_profile (m : t) : option Contact.t * t :=
  match optional_profile_ m with
  | kProfile v => (Some v, {| optional_profile_ := OPTIONAL_PROFILE_NOT_SET |})
  | _ => (None, m)
  end.

Definition cases (tag : Z) (m : t) (s : stream) : next t stream :=
  match GetTagFieldNumber tag with
  | 1 => if tag =? 10 then Goto (At 10) m s else handle_unusual tag m s
  | _ => handle_unusual tag m s
  end.

Definition step (l : label) (m : t) (s : stream) : next t stream :=
  match l with
  | Top => loop_head cases m s
  | At 10 =>
      MERGE_ (v, s) <- ReadMessageNoVirtual msg_merge_partial (mutable_profile m) s;
      expect_at_end {| optional_profile_ := kProfile v |} s
  | At _ => Fail
  end.

Definition MergePartialFromCodedStream (m : t) (s : stream) : parse t stream :=
  merge_loop step m s.

Definition InternalSerializeWithCachedSizesToArray (m : t) (target : bytes) : bytes :=
  let target :=
    match optional_profile_ m with
    | kProfile v =>
        InternalWriteMessageNoVirtualToArray msg_byte_size msg_to_array 1 v target
    | _ => target
    end in
  target.

Definition SerializeWithCachedSizes (m : t) (output : bytes) : bytes :=
  let output :=
    match optional_profile_ m with
    | kProfile v =>
        WriteMessageMaybeToArray msg_byte_size msg_to_stream 1 v output
    | _ => output
    end in
  output.

Definition ByteSize (m : t) : Z :=
  let total_size := 0 in
  match optional_profile_ m with
  | kProfile v => total_size + (1 + MessageSizeNoVirtual msg_byte_size v)
  | OPTIONAL_PROFILE_NOT_SET => total_size
  end.

Definition MergeFrom (m from : t) : t :=
  match optional_profile_ from with
  | kProfile v => {| optional_profile_ := kProfile (msg_merge_from (mutable_profile m) v) |}
  | OPTIONAL_PROFILE_NOT_SET => m
  end.

Definition CopyFrom (m from : t) : t := MergeFrom (Clear m) from.

#[global] Instance message : Message t := {|
  msg_default := SharedCtor;
  msg_merge_partial := MergePartialFromCodedStream;
  msg_to_array := InternalSerializeWithCachedSizesToArray;
  msg_to_stream := SerializeWithCachedSizes;
  msg_byte_size := ByteSize;
  msg_merge_from := MergeFrom |}.
End Code.

Section Laws.
Context `{W : WireFormat} {L : WireFormatLaws W}.

Definition ok (m : t) : Prop :=
  match optional_profile_ m with
  | kProfile v => nested_ok v
  | OPTIONAL_PROFILE_NOT_SET => True
  end.

Definition wire (m : t) : bytes :=
  match optional_profile_ m with
  | kProfile v => message_chunk 10 v ++ []
  | OPTIONAL_PROFILE_NOT_SET => []
  end.

Lemma LoginResponse_step_decreases : Parser.step_decreases step.
Proof. parser_decreases step cases. Qed.

Lemma LoginResponse_to_array_wire m target : ok m →
  InternalSerializeWithCachedSizesToArray m target = target ++ wire m.
Proof.
  destruct m as [u]. unfold ok. simpl. intros Hok. destruct u;
    cbv beta iota zeta delta [InternalSerializeWithCachedSizesToArray wire optional_profile_];
    rewrite app_nil_r;
    first [by apply write_message_chunk | done].
Qed.

Lemma LoginResponse_to_stream_wire m output : ok m →
  SerializeWithCachedSizes m output = output ++ wire m.
Proof.
  destruct m as [u]. unfold ok. simpl. intros Hok. destruct u;
    cbv beta iota zeta delta [SerializeWithCachedSizes wire optional_profile_];
    rewrite app_nil_r;
    first [by apply write_stream_message_chunk | done].
Qed.

Lemma LoginResponse_size_wire m : ok m → ByteSize m = zlen (wire m).
Proof.
  intros Hok. unfold ok, ByteSize, wire in *.
  destruct (optional_profile_ m); rewrite ?app_nil_r;
    first [by rewrite zlen_message_chunk | done].
Qed.

Lemma LoginResponse_parse_wire m0 m s : ok m → bytes_left s = wire m → (1 ≤ depth s)%nat →
  ∃ s', MergePartialFromCodedStream m0 s = Parsed (MergeFrom m0 m) s' ∧ at_end (depth s) s'.
Proof.
  unfold ok, wire, MergeFrom. intros Hok Hb Hd.
  destruct (optional_profile_ m); start_merge LoginResponse_step_decreases; repeat merge_field cases.
Qed.

Lemma LoginResponse_merge_default m : ok m → MergeFrom SharedCtor m = m.
Proof.
  destruct m as [u]. unfold ok, MergeFrom. simpl.
  destruct u; simpl; try done; intros [Hok _]; do 2 f_equal; exact (msg_merge_default _ Hok).
Qed.

#[global] Instance message_laws : MessageLaws t.
Proof.
  refine {| msg_ok := ok; msg_nesting := 1; msg_wire := wire |}.
  - exact LoginResponse_to_array_wire.
  - exact LoginResponse_to_stream_wire.
  - exact LoginResponse_size_wire.
  - exact LoginResponse_parse_wire.
  - apply merge_loop_total, LoginResponse_step_decreases.
  - exact LoginResponse_merge_default.
Defined.

Lemma LoginResponse_CopyFrom_copies (m from : t) : ok from → CopyFrom m from = from.
Proof. apply LoginResponse_merge_default. Qed.
End Laws.
End LoginResponse.

(** ** Response

    one of the five responses *)

Module Response.
(** The union of the oneof, tagged with [_oneof_case_]. *)
Inductive msg_union : Type :=
| kStatusResponse (m : StatusResponse.t)
| kChatsResponse (m : ChatsResponse.t)
| kContactsResponse (m : ContactsResponse.t)
| kMessagesResponse (m : MessagesResponse.t)
| kLoginResponse (m : LoginResponse.t)
| MSG_NOT_SET.

Record t := Build { msg_ : msg_union }.

Section Code.
Context `{W : WireFormat}.

Definition SharedCtor : t := {| msg_ := MSG_NOT_SET |}.

Definition clear_msg (m : t) : t := {| msg_ := MSG_NOT_SET |}.

Definition Clear (m : t) : t := clear_msg m.

Definition has_status_response (m : t) : bool :=
  match msg_ m with kStatusResponse _ => true | _ => false end.

Definition status_response (m : t) : StatusResponse.t :=
  match msg_ m with kStatusResponse v => v | _ => msg_default end.

(** The object the [mutable_] pointer designates: the current one, or a
    new default one.  What is stored through the pointer is put back under
    [kStatusResponse]. *)
Definition mutable_status_response (m : t) : StatusResponse.t :=
  match msg_ m with kStatusResponse v => v | _ => msg_default end.

Definition set_allocated_status_response (m : t) (p : option StatusResponse.t) : t :=
  match p with Some v => {| msg_ := kStatusResponse v |} | None => clear_msg m end.

Definition release_status_response (m : t) : option StatusResponse.t * t :=
  match msg_ m with
  | kStatusResponse v => (Some v, {| msg_ := MSG_NOT_SET |})
  | _ => (None, m)
  end.

Definition has_chats_response (m : t) : bool :=
  match msg_ m with kChatsResponse _ => true | _ => false end.

Definition chats_response (m : t) : ChatsResponse.t :=
  match msg_ m with kChatsResponse v => v | _ => msg_default end.

Definition mutable_chats_response (m : t) : ChatsResponse.t :=
  match msg_ m with kChatsResponse v => v | _ => msg_default end.

Definition set_allocated_chats_response (m : t) (p : option ChatsResponse.t) : t :=
  match p with Some v => {| msg_ := kChatsResponse v |} | None => clear_msg m end.

Definition release_chats_response (m : t) : option ChatsResponse.t * t :=
  match msg_ m with
  | kChatsResponse v => (Some v, {| msg_ := MSG_NOT_SET |})
  | _ => (None, m)
  end.

Definition has_contacts_response (m : t) : bool :=
  match msg_ m with kContactsResponse _ => true | _ => false end.

Definition contacts_response (m : t) : ContactsResponse.t :=
  match msg_ m with kContactsResponse v => v | _ => msg_default end.

Definition mutable_contacts_response (m : t) : ContactsResponse.t :=
  match msg_ m with kContactsResponse v => v | _ => msg_default end.

Definition set_allocated_contacts_response (m : t) (p : option ContactsResponse.t) : t :=
  match p with Some v => {| msg_ := kContactsResponse v |} | None => clear_msg m end.

Definition release_contacts_response (m : t) : option ContactsResponse.t * t :=
  match msg_ m with
  | kContactsResponse v => (Some v, {| msg_ := MSG_NOT_SET |})
  | _ => (None, m)
  end.

Definition has_messages_response (m : t) : bool :=
  match msg_ m with kMessagesResponse _ => true | _ => false end.

Definition messages_response (m : t) : MessagesResponse.t :=
  match msg_ m with kMessagesResponse v => v | _ => msg_default end.

Definition mutable_messages_response (m : t) : MessagesResponse.t :=
  match msg_ m with kMessagesResponse v => v | _ => msg_default end.

Definition set_allocated_messages_response (m : t) (p : option MessagesResponse.t) : t :=
  match p with Some v => {| msg_ := kMessagesResponse v |} | None => clear_msg m end.

Definition release_messages_response (m : t) : option MessagesResponse.t * t :=
  match msg_ m with
  | kMessagesResponse v => (Some v, {| msg_ := MSG_NOT_SET |})
  | _ => (None, m)
  end.

Definition has_login_response (m : t) : bool :=
  match msg_ m with kLoginResponse _ => true | _ => false end.

Definition login_response (m : t) : LoginResponse.t :=
  match msg_ m with kLoginResponse v => v | _ => msg_default end.

Definition mutable_login_response (m : t) : LoginResponse.t :=
  match msg_ m with kLoginResponse v => v | _ => msg_default end.

Definition set_allocated_login_response (m : t) (p : option LoginResponse.t) : t :=
  match p with Some v => {| msg_ := kLoginResponse v |} | None => clear_msg m end.

Definition release_login_response (m : t) : option LoginResponse.t * t :=
  match msg_ m with
  | kLoginResponse v => (Some v, {| msg_ := MSG_NOT_SET |})
  | _ => (None, m)
  end.

Definition cases (tag : Z) (m : t) (s : stream) : next t stream :=
  match GetTagFieldNumber tag with
  | 1 => if tag =? 10 then Goto (At 10) m s else handle_unusual tag m s
  | 2 => if tag =? 18 then Goto (At 18) m s else handle_unusual tag m s
  | 3 => if tag =? 26 then Goto (At 26) m s else handle_unusual tag m s
  | 4 => if tag =? 34 then Goto (At 34) m s else handle_unusual tag m s
  | 5 => if tag =? 42 then Goto (At 42) m s else handle_unusual tag m s
  | _ => handle_unusual tag m s
  end.

Definition step (l : label) (m : t) (s : stream) : next t stream :=
  match l with
  | Top => loop_head cases m s
  | At 10 =>
      MERGE_ (v, s) <- ReadMessageNoVirtual msg_merge_partial (mutable_status_response m) s;
      expect_tag 18 {| msg_ := kStatusResponse v |} s
  | At 18 =>
      MERGE_ (v, s) <- ReadMessageNoVirtual msg_merge_partial (mutable_chats_response m) s;
      expect_tag 26 {| msg_ := kChatsResponse v |} s
  | At 26 =>
      MERGE_ (v, s) <- ReadMessageNoVirtual msg_merge_partial (mutable_contacts_response m) s;
      expect_tag 34 {| msg_ := kContactsResponse v |} s
  | At 34 =>
      MERGE_ (v, s) <- ReadMessageNoVirtual msg_merge_partial (mutable_messages_response m) s;
      expect_tag 42 {| msg_ := kMessagesResponse v |} s
  | At 42 =>
      MERGE_ (v, s) <- ReadMessageNoVirtual msg_merge_partial (mutable_login_response m) s;
      expect_at_end {| msg_ := kLoginResponse v |} s
  | At _ => Fail
  end.

Definition MergePartialFromCodedStream (m : t) (s : stream) : parse t stream :=
  merge_loop step m s.

Definition InternalSerializeWithCachedSizesToArray (m : t) (target : bytes) : bytes :=
  let target :=
    match msg_ m with
    | kStatusResponse v =>
        InternalWriteMessageNoVirtualToArray msg_byte_size msg_to_array 1 v target
    | _ => target
    end in
  let target :=
    match msg_ m with
    | kChatsResponse v =>
        InternalWriteMessageNoVirtualToArray msg_byte_size msg_to_array 2 v target
    | _ => target
    end in
  let target :=
    match msg_ m with
    | kContactsResponse v =>
        InternalWriteMessageNoVirtualToArray msg_byte_size msg_to_array 3 v target
    | _ => target
    end in
  let target :=
    match msg_ m with
    | kMessagesResponse v =>
        InternalWriteMessageNoVirtualToArray msg_byte_size msg_to_array 4 v target
    | _ => target
    end in
  let target :=
    match msg_ m with
    | kLoginResponse v =>
        InternalWriteMessageNoVirtualToArray msg_byte_size msg_to_array 5 v target
    | _ => target
    end in
  target.

Definition SerializeWithCachedSizes (m : t) (output : bytes) : bytes :=
  let output :=
    match msg_ m with
    | kStatusResponse v =>
        WriteMessageMaybeToArray msg_byte_size msg_to_stream 1 v output
    | _ => output
    end in
  let output :=
    match msg_ m with
    | kChatsResponse v =>
        WriteMessageMaybeToArray msg_byte_size msg_to_stream 2 v output
    | _ => output
    end in
  let output :=
    match msg_ m with
    | kContactsResponse v =>
        WriteMessageMaybeToArray msg_byte_size msg_to_stream 3 v output
    | _ => output
    end in
  let output :=
    match msg_ m with
    | kMessagesResponse v =>
        WriteMessageMaybeToArray msg_byte_size msg_to_stream 4 v output
    | _ => output
    end in
  let output :=
    match msg_ m with
    | kLoginResponse v =>
        WriteMessageMaybeToArray msg_byte_size msg_to_stream 5 v output
    | _ => output
    end in
  output.

Definition ByteSize (m : t) : Z :=
  let total_size := 0 in
  match msg_ m with
  | kStatusResponse v => total_size + (1 + MessageSizeNoVirtual msg_byte_size v)
  | kChatsResponse v => total_size + (1 + MessageSizeNoVirtual msg_byte_size v)
  | kContactsResponse v => total_size + (1 + MessageSizeNoVirtual msg_byte_size v)
  | kMessagesResponse v => total_size + (1 + MessageSizeNoVirtual msg_byte_size v)
  | kLoginResponse v => total_size + (1 + MessageSizeNoVirtual msg_byte_size v)
  | MSG_NOT_SET => total_size
  end.

Definition MergeFrom (m from : t) : t :=
  match msg_ from with
  | kStatusResponse v => {| msg_ := kStatusResponse (msg_merge_from (mutable_status_response m) v) |}
  | kChatsResponse v => {| msg_ := kChatsResponse (msg_merge_from (mutable_chats_response m) v) |}
  | kContactsResponse v => {| msg_ := kContactsResponse (msg_merge_from (mutable_contacts_response m) v) |}
  | kMessagesResponse v => {| msg_ := kMessagesResponse (msg_merge_from (mutable_messages_response m) v) |}
  | kLoginResponse v => {| msg_ := kLoginResponse (msg_merge_from (mutable_login_response m) v) |}
  | MSG_NOT_SET => m
  end.

Definition CopyFrom (m from : t) : t := MergeFrom (Clear m) from.

#[global] Instance message : Message t := {|
  msg_default := SharedCtor;
  msg_merge_partial := MergePartialFromCodedStream;
  msg_to_array := InternalSerializeWithCachedSizesToArray;
  msg_to_stream := SerializeWithCachedSizes;
  msg_byte_size := ByteSize;
  msg_merge_from := MergeFrom |}.
End Code.

Section Laws.
Context `{W : WireFormat} {L : WireFormatLaws W}.

Definition ok (m : t) : Prop :=
  match msg_ m with
  | kStatusResponse v => nested_ok v
  | kChatsResponse v => nested_ok v
  | kContactsResponse v => nested_ok v
  | kMessagesResponse v => nested_ok v
  | kLoginResponse v => nested_ok v
  | MSG_NOT_SET => True
  end.

Definition wire (m : t) : bytes :=
  match msg_ m with
  | kStatusResponse v => message_chunk 10 v ++ []
  | kChatsResponse v => message_chunk 18 v ++ []
  | kContactsResponse v => message_chunk 26 v ++ []
  | kMessagesResponse v => message_chunk 34 v ++ []
  | kLoginResponse v => message_chunk 42 v ++ []
  | MSG_NOT_SET => []
  end.

Lemma Response_step_decreases : Parser.step_decreases step.
Proof. parser_decreases step cases. Qed.

Lemma Response_to_array_wire m target : ok m →
  InternalSerializeWithCachedSizesToArray m target = target ++ wire m.
Proof.
  destruct m as [u]. unfold ok. simpl. intros Hok. destruct u;
    cbv beta iota zeta delta [InternalSerializeWithCachedSizesToArray wire msg_];
    rewrite app_nil_r;
    first [by apply write_message_chunk | done].
Qed.

Lemma Response_to_stream_wire m output : ok m →
  SerializeWithCachedSizes m output = output ++ wire m.
Proof.
  destruct m as [u]. unfold ok. simpl. intros Hok. destruct u;
    cbv beta iota zeta delta [SerializeWithCachedSizes wire msg_];
    rewrite app_nil_r;
    first [by apply write_stream_message_chunk | done].
Qed.

Lemma Response_size_wire m : ok m → ByteSize m = zlen (wire m).
Proof.
  intros Hok. unfold ok, ByteSize, wire in *.
  destruct (msg_ m); rewrite ?app_nil_r;
    first [by rewrite zlen_message_chunk | done].
Qed.

Lemma Response_parse_wire m0 m s : ok m → bytes_left s = wire m → (2 ≤ depth s)%nat →
  ∃ s', MergePartialFromCodedStream m0 s = Parsed (MergeFrom m0 m) s' ∧ at_end (depth s) s'.
Proof.
  unfold ok, wire, MergeFrom. intros Hok Hb Hd.
  destruct (msg_ m); start_merge Response_step_decreases; repeat merge_field cases.
Qed.

Lemma Response_merge_default m : ok m → MergeFrom SharedCtor m = m.
Proof.
  destruct m as [u]. unfold ok, MergeFrom. simpl.
  destruct u; simpl; try done; intros [Hok _]; do 2 f_equal; exact (msg_merge_default _ Hok).
Qed.

#[global] Instance message_laws : MessageLaws t.
Proof.
  refine {| msg_ok := ok; msg_nesting := 2; msg_wire := wire |}.
  - exact Response_to_array_wire.
  - exact Response_to_stream_wire.
  - exact Response_size_wire.
  - exact Response_parse_wire.
  - apply merge_loop_total, Response_step_decreases.
  - exact Response_merge_default.
Defined.

Lemma Response_CopyFrom_copies (m from : t) : ok from → CopyFrom m from = from.
Proof. apply Response_merge_default. Qed.
End Laws.
End Response.

