(* ===== verification/Envelope.v ===== *)
(** * The envelope: [WrappedMessage] and [LengthPrefix]

    Every packet is a [LengthPrefix] followed by a [WrappedMessage] that
    holds a request or a response. *)
From S2P Require Import Prelude Wire Parser Message Requests Responses.

(** ** WrappedMessage

    a response or a request *)

Module WrappedMessage.
(** The union of the oneof, tagged with [_oneof_case_]. *)
Inductive msg_union : Type :=
| kResponse (m : Response.t)
| kRequest (m : Request.t)
| MSG_NOT_SET.

Record t := Build { msg_ : msg_union }.

Section Code.
Context `{W : WireFormat}.

Definition SharedCtor : t := {| msg_ := MSG_NOT_SET |}.

Definition clear_msg (m : t) : t := {| msg_ := MSG_NOT_SET |}.

Definition Clear (m : t) : t := clear_msg m.

Definition has_response (m : t) : bool :=
  match msg_ m with kResponse _ => true | _ => false end.

Definition response (m : t) : Response.t :=
  match msg_ m with kResponse v => v | _ => msg_default end.

(** The object the [mutable_] pointer designates: the current one, or a
    new default one.  What is stored through the pointer is put back under
    [kResponse]. *)
Definition mutable_response (m : t) : Response.t :=
  match msg_ m with kResponse v => v | _ => msg_default end.

Definition set_allocated_response (m : t) (p : option Response.t) : t :=
  match p with Some v => {| msg_ := kResponse v |} | None => clear_msg m end.

Definition release_response (m : t) : option Response.t * t :=
  match msg_ m with
  | kResponse v => (Some v, {| msg_ := MSG_NOT_SET |})
  | _ => (None, m)
  end.

Definition has_request (m : t) : bool :=
  match msg_ m with kRequest _ => true | _ => false end.

Definition request (m : t) : Request.t :=
  match msg_ m with kRequest v => v | _ => msg_default end.

Definition mutable_request (m : t) : Request.t :=
  match msg_ m with kRequest v => v | _ => msg_default end.

Definition set_allocated_request (m : t) (p : option Request.t) : t :=
  match p with Some v => {| msg_ := kRequest v |} | None => clear_msg m end.

Definition release_request (m : t) : option Request.t * t :=
  match msg_ m with
  | kRequest v => (Some v, {| msg_ := MSG_NOT_SET |})
  | _ => (None, m)
  end.

Definition cases (tag : Z) (m : t) (s : stream) : next t stream :=
  match GetTagFieldNumber tag with
  | 1 => if tag =? 10 then Goto (At 10) m s else handle_unusual tag m s
  | 2 => if tag =? 18 then Goto (At 18) m s else handle_unusual tag m s
  | _ => handle_unusual tag m s
  end.

Definition step (l : label) (m : t) (s : stream) : next t stream :=
  match l with
  | Top => loop_head cases m s
  | At 10 =>
      MERGE_ (v, s) <- ReadMessageNoVirtual msg_merge_partial (mutable_response m) s;
      expect_tag 18 {| msg_ := kResponse v |} s
  | At 18 =>
      MERGE_ (v, s) <- ReadMessageNoVirtual msg_merge_partial (mutable_request m) s;
      expect_at_end {| msg_ := kRequest v |} s
  | At _ => Fail
  end.

Definition MergePartialFromCodedStream (m : t) (s : stream) : parse t stream :=
  merge_loop step m s.

Definition InternalSerializeWithCachedSizesToArray (m : t) (target : bytes) : bytes :=
  let target :=
    match msg_ m with
    | kResponse v =>
        InternalWriteMessageNoVirtualToArray msg_byte_size msg_to_array 1 v target
    | _ => target
    end in
  let target :=
    match msg_ m with
    | kRequest v =>
        InternalWriteMessageNoVirtualToArray msg_byte_size msg_to_array 2 v target
    | _ => target
    end in
  target.

Definition SerializeWithCachedSizes (m : t) (output : bytes) : bytes :=
  let output :=
    match msg_ m with
    | kResponse v =>
        WriteMessageMaybeToArray msg_byte_size msg_to_stream 1 v output
    | _ => output
    end in
  let output :=
    match msg_ m with
    | kRequest v =>
        WriteMessageMaybeToArray msg_byte_size msg_to_stream 2 v output
    | _ => output
    end in
  output.

Definition ByteSize (m : t) : Z :=
  let total_size := 0 in
  match msg_ m with
  | kResponse v => total_size + (1 + MessageSizeNoVirtual msg_byte_size v)
  | kRequest v => total_size + (1 + MessageSizeNoVirtual msg_byte_size v)
  | MSG_NOT_SET => total_size
  end.

Definition MergeFrom (m from : t) : t :=
  match msg_ from with
  | kResponse v => {| msg_ := kResponse (msg_merge_from (mutable_response m) v) |}
  | kRequest v => {| msg_ := kRequest (msg_merge_from (mutable_request m) v) |}
  | MSG_NOT_SET => m
  end.

Definition CopyFrom (m from : t) : t := MergeFrom (Clear m) from.

#[global] Instance message : Message t := {|
  msg_default := SharedCtor;
  msg_merge_partial := MergePartialFromCodedStream;
  msg_to_array := InternalSerializeWithCachedSizesToArray;
  msg_to_stream := SerializeWithCachedSizes;
  msg_byte_size := ByteSize;
  msg_merge_from := MergeFrom |}.
End Code.

Section Laws.
Context `{W : WireFormat} {L : WireFormatLaws W}.

Definition ok (m : t) : Prop :=
  match msg_ m with
  | kResponse v => nested_ok v
  | kRequest v => nested_ok v
  | MSG_NOT_SET => True
  end.

Definition wire (m : t) : bytes :=
  match msg_ m with
  | kResponse v => message_chunk 10 v ++ []
  | kRequest v => message_chunk 18 v ++ []
  | MSG_NOT_SET => []
  end.

Lemma WrappedMessage_step_decreases : Parser.step_decreases step.
Proof. parser_decreases step cases. Qed.

Lemma WrappedMessage_to_array_wire m target : ok m →
  InternalSerializeWithCachedSizesToArray m target = target ++ wire m.
Proof.
  destruct m as [u]. unfold ok. simpl. intros Hok. destruct u;
    cbv beta iota zeta delta [InternalSerializeWithCachedSizesToArray wire msg_];
    rewrite app_nil_r;
    first [by apply write_message_chunk | done].
Qed.

Lemma WrappedMessage_to_stream_wire m output : ok m →
  SerializeWithCachedSizes m output = output ++ wire m.
Proof.
  destruct m as [u]. unfold ok. simpl. intros Hok. destruct u;
    cbv beta iota zeta delta [SerializeWithCachedSizes wire msg_];
    rewrite app_nil_r;
    first [by apply write_stream_message_chunk | done].
Qed.

Lemma WrappedMessage_size_wire m : ok m → ByteSize m = zlen (wire m).
Proof.
  intros Hok. unfold ok, ByteSize, wire in *.
  destruct (msg_ m); rewrite ?app_nil_r;
    first [by rewrite zlen_message_chunk | done].
Qed.

Lemma WrappedMessage_parse_wire m0 m s : ok m → bytes_left s = wire m → (3 ≤ depth s)%nat →
  ∃ s', MergePartialFromCodedStream m0 s = Parsed (MergeFrom m0 m) s' ∧ at_end (depth s) s'.
Proof.
  unfold ok, wire, MergeFrom. intros Hok Hb Hd.
  destruct (msg_ m); start_merge WrappedMessage_step_decreases; repeat merge_field cases.
Qed.

Lemma WrappedMessage_merge_default m : ok m → MergeFrom SharedCtor m = m.
Proof.
  destruct m as [u]. unfold ok, MergeFrom. simpl.
  destruct u; simpl; try done; intros [Hok _]; do 2 f_equal; exact (msg_merge_default _ Hok).
Qed.

#[global] Instance message_laws : MessageLaws t.
Proof.
  refine {| msg_ok := ok; msg_nesting := 3; msg_wire := wire |}.
  - exact WrappedMessage_to_array_wire.
  - exact WrappedMessage_to_stream_wire.
  - exact WrappedMessage_size_wire.
  - exact WrappedMessage_parse_wire.
  - apply merge_loop_total, WrappedMessage_step_decreases.
  - exact WrappedMessage_merge_default.
Defined.

Lemma WrappedMessage_CopyFrom_copies (m from : t) : ok from → CopyFrom m from = from.
Proof. apply WrappedMessage_merge_default. Qed.
End Laws.
End WrappedMessage.

(** ** LengthPrefix

    the length of the message that follows *)

Module LengthPrefix.
Record t := Build { length : Z }.

Section Code.
Context `{W : WireFormat}.

Definition SharedCtor : t := {| length := 0 |}.

Definition Clear (m : t) : t := {| length := 0 |}.

Definition set_length (m : t) (value : Z) : t :=
  {| length := value |}.

Definition cases (tag : Z) (m : t) (s : stream) : next t stream :=
  match GetTagFieldNumber tag with
  | 1 => if tag =? 9 then Goto (At 9) m s else handle_unusual tag m s
  | _ => handle_unusual tag m s
  end.

Definition step (l : label) (m : t) (s : stream) : next t stream :=
  match l with
  | Top => loop_head cases m s
  | At 9 =>
      DO_ (v, s) <- ReadFixed64 s;
      expect_at_end (set_length m v) s
  | At _ => Fail
  end.

Definition MergePartialFromCodedStream (m : t) (s : stream) : parse t stream :=
  merge_loop step m s.

Definition InternalSerializeWithCachedSizesToArray (m : t) (target : bytes) : bytes :=
  let target :=
    if negb (length m =? 0) then WriteFixed64ToArray 1 (length m) target else target in
  target.

Definition SerializeWithCachedSizes (m : t) (output : bytes) : bytes :=
  let output :=
    if negb (length m =? 0) then WriteFixed64 1 (length m) output else output in
  output.

Definition ByteSize (m : t) : Z :=
  let total_size := 0 in
  let total_size :=
    if negb (length m =? 0) then total_size + (1 + 8) else total_size in
  total_size.

Definition MergeFrom (m from : t) : t :=
  let m := if negb (length from =? 0) then set_length m (length from) else m in
  m.

Definition CopyFrom (m from : t) : t := MergeFrom (Clear m) from.

#[global] Instance message : Message t := {|
  msg_default := SharedCtor;
  msg_merge_partial := MergePartialFromCodedStream;
  msg_to_array := InternalSerializeWithCachedSizesToArray;
  msg_to_stream := SerializeWithCachedSizes;
  msg_byte_size := ByteSize;
  msg_merge_from := MergeFrom |}.
End Code.

Section Laws.
Context `{W : WireFormat} {L : WireFormatLaws W}.

Definition ok (m : t) : Prop := uint64_ok (length m).

Definition wire (m : t) : bytes :=
  fixed64_chunk 9 (length m) ++ [].

Lemma LengthPrefix_step_decreases : Parser.step_decreases step.
Proof. parser_decreases step cases. Qed.

Lemma LengthPrefix_to_array_wire m target : ok m →
  InternalSerializeWithCachedSizesToArray m target = target ++ wire m.
Proof.
  intros Hok. open_ok ok. unfold InternalSerializeWithCachedSizesToArray, wire. write_chunks.
Qed.

Lemma LengthPrefix_to_stream_wire m output : ok m →
  SerializeWithCachedSizes m output = output ++ wire m.
Proof. intros Hok. open_ok ok. unfold SerializeWithCachedSizes, wire. write_chunks. Qed.

Lemma LengthPrefix_size_wire m : ok m → ByteSize m = zlen (wire m).
Proof. intros Hok. open_ok ok. unfold ByteSize, wire. size_chunks. Qed.

Lemma LengthPrefix_parse_wire m0 m s : ok m → bytes_left s = wire m → (0 ≤ depth s)%nat →
  ∃ s', MergePartialFromCodedStream m0 s = Parsed (MergeFrom m0 m) s' ∧ at_end (depth s) s'.
Proof.
  intros H0 Hb _. unfold wire in Hb. start_merge LengthPrefix_step_decreases.
  do 2 merge_field cases.
Qed.

Lemma LengthPrefix_merge_default m : ok m → MergeFrom SharedCtor m = m.
Proof. destruct m as [x0]. intros _. unfold MergeFrom, SharedCtor; simpl. merge_into_default. Qed.

#[global] Instance message_laws : MessageLaws t.
Proof.
  refine {| msg_ok := ok; msg_nesting := 0; msg_wire := wire |}.
  - exact LengthPrefix_to_array_wire.
  - exact LengthPrefix_to_stream_wire.
  - exact LengthPrefix_size_wire.
  - exact LengthPrefix_parse_wire.
  - apply merge_loop_total, LengthPrefix_step_decreases.
  - exact LengthPrefix_merge_default.
Defined.

Lemma LengthPrefix_CopyFrom_copies (m from : t) : ok from → CopyFrom m from = from.
Proof. apply LengthPrefix_merge_default. Qed.
End Laws.
End LengthPrefix.

