(* ===== verification/Framing.v ===== *)
(** * Packets

    Both ends frame a message the same way: nine bytes of [LengthPrefix], then
    the message.  The two [SerializeToArray] calls of
    [ClientSession::do_async_write] (server) and [Session::request] (client)
    fill the buffer with exactly this packet, and the receiver gets the
    message back from its two parts. *)
From S2P Require Import Prelude Wire Parser Message Requests Responses Envelope.

Section Framing.
Context `{W : WireFormat} {L : WireFormatLaws W}.

Definition prefix_of (n : Z) : bytes := msg_encode (LengthPrefix.Build n).

(** The packet of a message. *)
Definition packet (m : WrappedMessage.t) : bytes :=
  prefix_of (zlen (msg_encode m)) ++ msg_encode m.

(** A message that can be framed: it holds something, its encoding and the
    prefix fit an [int]. *)
Definition sendable (m : WrappedMessage.t) : Prop :=
  WrappedMessage.ok m ∧ WrappedMessage.msg_ m ≠ WrappedMessage.MSG_NOT_SET ∧
  zlen (msg_encode m) + 9 ≤ int_max.

Lemma prefix_wire n : uint64_ok n → prefix_of n = LengthPrefix.wire (LengthPrefix.Build n).
Proof. intros Hn. unfold prefix_of. by rewrite (msg_encode_wire (M:=LengthPrefix.t)). Qed.

Lemma zlen_prefix n : uint64_ok n → n ≠ 0 → zlen (prefix_of n) = 9.
Proof.
  intros Hn Hz. rewrite prefix_wire by done. unfold LengthPrefix.wire, fixed64_chunk. simpl.
  rewrite app_nil_r, zlen_chunk by done. destruct (Z.eqb_spec n 0); [done|]. simpl.
  unfold zlen. rewrite fixed64_bytes_length. done.
Qed.

Lemma prefix_zero : prefix_of 0 = [].
Proof. by rewrite prefix_wire. Qed.

Lemma encode_nonempty m : sendable m → 0 < zlen (msg_encode m).
Proof.
  intros (Hok & Hset & _). rewrite (msg_encode_wire (M:=WrappedMessage.t)) by done. simpl.
  destruct m as [u]. unfold WrappedMessage.wire, WrappedMessage.ok in *. simpl in *.
  destruct u; try done; rewrite app_nil_r.
  - pose proof (message_chunk_nonempty 10 m ltac:(lia) Hok). lia.
  - pose proof (message_chunk_nonempty 18 m ltac:(lia) Hok). lia.
Qed.

Lemma sendable_size m : sendable m → 0 < zlen (msg_encode m) ≤ int_max - 9.
Proof. intros Hm. pose proof (encode_nonempty m Hm). destruct Hm as (_ & _ & ?). lia. Qed.

Lemma byte_size_encode m : sendable m → WrappedMessage.ByteSize m = zlen (msg_encode m).
Proof. intros (Hok & _). exact (encode_size m Hok). Qed.

(** The two writes fill the buffer with the packet. *)
Lemma serialize_packet m buf :
  sendable m → zlen buf = WrappedMessage.ByteSize m + 9 →
  SerializeToArray WrappedMessage.ByteSize WrappedMessage.InternalSerializeWithCachedSizesToArray m
    9 (WrappedMessage.ByteSize m)
    (SerializeToArray LengthPrefix.ByteSize LengthPrefix.InternalSerializeWithCachedSizesToArray
       (LengthPrefix.set_length LengthPrefix.SharedCtor (to_unsigned 64 (WrappedMessage.ByteSize m)))
       0 9 buf) = packet m.
Proof.
  intros Hm Hbuf. pose proof (sendable_size m Hm) as Hsize. unfold int_max in Hsize.
  rewrite (byte_size_encode m Hm) in *. set (n := zlen (msg_encode m)) in *.
  rewrite to_unsigned_ok by lia.
  assert (uint64_ok n) as Hn by (unfold uint64_ok; lia).
  pose proof (zlen_prefix n Hn ltac:(lia)) as Hp. unfold prefix_of, msg_encode in Hp. simpl in Hp.
  assert (LengthPrefix.ByteSize (LengthPrefix.Build n) = 9) as Hb.
  { etrans; [exact (encode_size (LengthPrefix.Build n) Hn)|exact Hp]. }
  change (LengthPrefix.set_length LengthPrefix.SharedCtor n) with (LengthPrefix.Build n).
  rewrite (serialize_to_array LengthPrefix.ByteSize) by (rewrite ?Hb; simpl; lia).
  assert (length (prefix_of n) = 9%nat) as Hl by (unfold prefix_of, msg_encode, zlen in *; simpl in *; lia).
  rewrite (serialize_to_array WrappedMessage.ByteSize).
  - unfold packet. fold n. rewrite <- Hl at 1.
    refine (write_at_fill (prefix_of n) (msg_encode m) buf _).
    unfold n, zlen in *. lia.
  - rewrite (byte_size_encode m Hm). fold n. lia.
  - unfold zlen. rewrite length_write_at; [unfold zlen in *; lia|].
    unfold prefix_of, msg_encode in Hl. simpl in Hl. rewrite Hl. unfold zlen in *. lia.
  - by rewrite (byte_size_encode m Hm).
Qed.

(** What the receiver makes of the two parts. *)
Lemma parse_prefix n rest : uint64_ok n → n ≠ 0 →
  ParseFromArray LengthPrefix.MergePartialFromCodedStream LengthPrefix.SharedCtor
    (prefix_of n ++ rest) 9 = Some (LengthPrefix.Build n).
Proof.
  intros Hn Hz. pose proof (zlen_prefix n Hn Hz) as Hp.
  refine (parse_encoded_fresh (LengthPrefix.Build n) rest 9 _ _ (eq_sym Hp)); [|simpl; lia].
  split; [done|]. rewrite <- (msg_encode_wire (M:=LengthPrefix.t)) by done.
  unfold prefix_of in Hp. rewrite Hp. unfold int_max. lia.
Qed.

Lemma parse_message m n : sendable m → n = zlen (msg_encode m) →
  ParseFromArray WrappedMessage.MergePartialFromCodedStream WrappedMessage.SharedCtor
    (msg_encode m) n = Some m.
Proof.
  intros Hm ->. pose proof (sendable_size m Hm). destruct Hm as (Hok & _ & _).
  rewrite <- (app_nil_r (msg_encode m)) at 1.
  refine (parse_encoded_fresh m [] _ _ _ eq_refl); [|simpl; lia].
  split; [done|]. rewrite <- (msg_encode_wire (M:=WrappedMessage.t)) by done. lia.
Qed.

(** A packet is that of one message. *)
Lemma packet_unique m m' : sendable m → sendable m' → packet m = packet m' → m = m'.
Proof.
  intros Hm Hm' Heq. unfold packet in Heq.
  pose proof (sendable_size m Hm) as H1. pose proof (sendable_size m' Hm') as H2. unfold int_max in *.
  apply app_inj_1 in Heq as [_ Heq].
  - pose proof (parse_message m _ Hm eq_refl) as Hp. rewrite Heq in Hp.
    rewrite (parse_message m' _ Hm' eq_refl) in Hp. by injection Hp.
  - apply Nat2Z.inj. fold (zlen (prefix_of (zlen (msg_encode m)))) (zlen (prefix_of (zlen (msg_encode m')))).
    rewrite !zlen_prefix; unfold uint64_ok; lia.
Qed.

Lemma zlen_packet m : sendable m → zlen (packet m) = 9 + zlen (msg_encode m).
Proof.
  intros Hm. pose proof (sendable_size m Hm) as Hs. unfold int_max in Hs. unfold packet.
  rewrite zlen_app, zlen_prefix; [lia|unfold uint64_ok; lia|lia].
Qed.

(** A small nested message takes at most six bytes more. *)
Lemma small_chunk {M} `{Msg : !Message M} `{!MessageLaws M} t (m : M) n :
  0 < t ≤ 127 → msg_ok m → zlen (msg_wire m) ≤ n → n ≤ 100 →
  nested_ok m ∧ zlen (message_chunk t m) ≤ n + 6.
Proof.
  intros Ht Hok Hn Hmax. assert (nested_ok m) as Hnest by (split; [done|unfold int_max; lia]).
  split; [done|]. rewrite zlen_message_chunk, message_size by (done || by apply nested_size).
  rewrite msg_size_wire by done. pose proof (zlen_nonneg (msg_wire m)).
  destruct (length_bytes_nonempty (zlen (msg_wire m))) as [_ Hl]; [unfold int_max|]; lia.
Qed.

Lemma small_request r : Request.ok r → zlen (Request.wire r) ≤ 90 →
  sendable (WrappedMessage.Build (WrappedMessage.kRequest r)).
Proof.
  intros Hok Hn. destruct (small_chunk 18 r 90) as [H1 H2]; [lia|done|done|lia|].
  split; [done|]. split; [done|]. rewrite (msg_encode_wire (M:=WrappedMessage.t)) by done.
  simpl. unfold WrappedMessage.wire. simpl. rewrite app_nil_r. unfold int_max. lia.
Qed.

Lemma small_response r : Response.ok r → zlen (Response.wire r) ≤ 90 →
  sendable (WrappedMessage.Build (WrappedMessage.kResponse r)).
Proof.
  intros Hok Hn. destruct (small_chunk 10 r 90) as [H1 H2]; [lia|done|done|lia|].
  split; [done|]. split; [done|]. rewrite (msg_encode_wire (M:=WrappedMessage.t)) by done.
  simpl. unfold WrappedMessage.wire. simpl. rewrite app_nil_r. unfold int_max. lia.
Qed.

(** The requests for what a user has, and the response that holds nothing. *)
Lemma chats_request_fits : sendable (WrappedMessage.Build (WrappedMessage.kRequest
  (Request.Build (Request.kChatsRequest AllMyChatsRequest.SharedCtor)))).
Proof.
  destruct (small_chunk 26 AllMyChatsRequest.SharedCtor 0) as [H1 H2]; [lia|done|done|lia|].
  apply small_request; [done|]. unfold Request.wire. simpl. rewrite app_nil_r. lia.
Qed.

Lemma contacts_request_fits : sendable (WrappedMessage.Build (WrappedMessage.kRequest
  (Request.Build (Request.kContactsRequest AllMyContactsRequest.SharedCtor)))).
Proof.
  destruct (small_chunk 34 AllMyContactsRequest.SharedCtor 0) as [H1 H2]; [lia|done|done|lia|].
  apply small_request; [done|]. unfold Request.wire. simpl. rewrite app_nil_r. lia.
Qed.

Lemma messages_request_fits k : uint64_ok k → sendable (WrappedMessage.Build (WrappedMessage.kRequest
  (Request.Build (Request.kMessagesRequest (MessagesRequest.Build k))))).
Proof.
  intros Hk. destruct (small_chunk 42 (MessagesRequest.Build k) 11) as [H1 H2]; [lia|done| |lia|].
  - simpl. unfold MessagesRequest.wire, uint64_chunk. simpl. rewrite app_nil_r, zlen_chunk by lia.
    pose proof (uint64_bytes_length k Hk). case_match; lia.
  - apply small_request; [done|]. unfold Request.wire. simpl. rewrite app_nil_r. lia.
Qed.

Lemma empty_response_fits :
  sendable (WrappedMessage.Build (WrappedMessage.kResponse Response.SharedCtor)).
Proof. by apply small_response. Qed.

(** Whether a response can be framed is decidable. *)
#[export] Instance nested_ok_dec {M} `{Msg : !Message M} `{!MessageLaws M} (m : M)
  `{!Decision (msg_ok m)} : Decision (nested_ok m).
Proof. unfold nested_ok. apply _. Defined.

#[export] Instance string_ok_dec s : Decision (string_ok s).
Proof. unfold string_ok. apply _. Defined.

Lemma chat_dec (m : Chat.t) : Decision (nested_ok m).
Proof. apply nested_ok_dec. cbn. unfold Chat.ok, uint64_ok. apply _. Defined.

Lemma contact_dec (m : Contact.t) : Decision (nested_ok m).
Proof. apply nested_ok_dec. cbn. unfold Contact.ok, uint64_ok. apply _. Defined.

Lemma message_dec (m : MessageToRecieve.t) : Decision (nested_ok m).
Proof. apply nested_ok_dec. cbn. unfold MessageToRecieve.ok, uint64_ok. apply _. Defined.

#[export] Instance response_dec (r : Response.t) : Decision (nested_ok r).
Proof.
  apply nested_ok_dec. cbn. unfold Response.ok. destruct (Response.msg_ r) as [v|v|v|v|v|]; [..|apply _];
    apply nested_ok_dec; cbn.
  - unfold StatusResponse.ok, int32_ok. apply _.
  - unfold ChatsResponse.ok. apply Forall_dec. apply chat_dec.
  - unfold ContactsResponse.ok. apply Forall_dec. apply contact_dec.
  - unfold MessagesResponse.ok. apply Forall_dec. apply message_dec.
  - unfold LoginResponse.ok. destruct (LoginResponse.optional_profile_ v); [apply contact_dec|apply _].
Defined.

#[export] Instance response_fits_dec (r : Response.t) :
  Decision (sendable (WrappedMessage.Build (WrappedMessage.kResponse r))).
Proof.
  apply and_dec; [exact (response_dec r)|]. apply and_dec; [by left|apply _].
Defined.
End Framing.

(** A concrete message can be framed. *)
Ltac concrete_sendable :=
  split; [repeat split; by apply (bool_decide_unpack _) | split; [done|by vm_compute]].

(** The messages of a concrete run, one after another. *)
Ltac concrete_mails :=
  match goal with |- Forall sendable ?ms =>
    let v := eval vm_compute in ms in replace ms with v by (by vm_compute)
  end;
  repeat (apply Forall_cons_2; [concrete_sendable|]); apply Forall_nil_2.
