(* ===== verification/WireInstance.v ===== *)
(** * An implementation of the protobuf runtime interface

    The published wire format, executable: base-128 varints, little-endian
    [fixed64], length-delimited fields.  It satisfies [WireFormatLaws], so the
    laws are consistent, and the witnesses of the library's theorems run on
    it. *)
From S2P Require Import Prelude Wire.
From Stdlib Require Import Strings.Byte.

(** ** Bytes as numbers *)

Definition byte_of_Z (z : Z) : byte := default x00 (Byte.of_N (Z.to_N z)).
Definition byte_to_Z (b : byte) : Z := Z.of_N (Byte.to_N b).

Lemma byte_to_of_Z z : 0 ≤ z < 256 → byte_to_Z (byte_of_Z z) = z.
Proof.
  intros Hz. unfold byte_to_Z, byte_of_Z.
  destruct (Byte.of_N (Z.to_N z)) as [b|] eqn:Hb; simpl.
  - apply Byte.to_of_N in Hb. lia.
  - apply Byte.of_N_None_iff in Hb. lia.
Qed.

Lemma byte_to_Z_range b : 0 ≤ byte_to_Z b < 256.
Proof. unfold byte_to_Z. pose proof (Byte.to_N_bounded b). lia. Qed.

(** ** Varints and little-endian integers *)

Fixpoint varint (fuel : nat) (v : Z) : bytes :=
  match fuel with
  | O => []
  | S fuel =>
    if v <? 128 then [byte_of_Z v]
    else byte_of_Z (128 + v mod 128) :: varint fuel (v / 128)
  end.

Fixpoint read_varint (fuel : nat) (bs : bytes) : option (Z * bytes) :=
  match fuel, bs with
  | O, _ | _, [] => None
  | S fuel, b :: bs =>
    if byte_to_Z b <? 128 then Some (byte_to_Z b, bs)
    else match read_varint fuel bs with
         | Some (v, bs) => Some (byte_to_Z b - 128 + 128 * v, bs)
         | None => None
         end
  end.

Fixpoint little_endian (n : nat) (v : Z) : bytes :=
  match n with
  | O => []
  | S n => byte_of_Z (v mod 256) :: little_endian n (v / 256)
  end.

Fixpoint read_little_endian (n : nat) (bs : bytes) : option (Z * bytes) :=
  match n, bs with
  | O, _ => Some (0, bs)
  | _, [] => None
  | S n, b :: bs =>
    match read_little_endian n bs with
    | Some (v, bs) => Some (byte_to_Z b + 256 * v, bs)
    | None => None
    end
  end.

Lemma read_varint_app fuel v rest :
  (1 ≤ fuel)%nat → 0 ≤ v < 128 ^ Z.of_nat fuel →
  read_varint fuel (varint fuel v ++ rest) = Some (v, rest).
Proof.
  revert v. induction fuel as [|fuel IH]; intros v Hf Hv; [lia|].
  rewrite Nat2Z.inj_succ, Z.pow_succ_r in Hv by lia. cbn [varint].
  destruct (Z.ltb_spec v 128) as [Hlt|Hge]; cbn [app read_varint].
  - rewrite byte_to_of_Z by lia. by rewrite (proj2 (Z.ltb_lt v 128)).
  - pose proof (Z.mod_pos_bound v 128 ltac:(lia)).
    rewrite byte_to_of_Z by lia.
    rewrite (proj2 (Z.ltb_ge _ 128)) by lia.
    destruct fuel as [|fuel]; [change (128 ^ Z.of_nat 0) with 1 in Hv; lia|].
    rewrite IH by first
      [lia | split; [apply Z.div_pos; lia|apply Z.div_lt_upper_bound; lia]].
    do 2 f_equal. pose proof (Z.div_mod v 128 ltac:(lia)). lia.
Qed.

Lemma read_varint_small fuel b bs :
  byte_to_Z b < 128 → read_varint (S fuel) (b :: bs) = Some (byte_to_Z b, bs).
Proof. intros Hb. simpl. by rewrite (proj2 (Z.ltb_lt _ _)). Qed.

Lemma read_varint_shrinks fuel bs v rest :
  read_varint fuel bs = Some (v, rest) → (length rest < length bs)%nat.
Proof.
  revert bs v rest. induction fuel as [|fuel IH]; intros [|b bs] v rest; try done.
  cbn [read_varint]. destruct (_ <? _); [intros [= <- <-]; simpl; lia|].
  destruct (read_varint fuel bs) as [[v' r']|] eqn:Hr; [|done].
  intros [= <- <-]. apply IH in Hr. simpl. lia.
Qed.

Lemma varint_length fuel v :
  (1 ≤ fuel)%nat → (1 ≤ length (varint fuel v) ≤ fuel)%nat.
Proof.
  intros Hf. destruct fuel as [|fuel]; [lia|]. clear Hf. revert v.
  induction fuel as [|fuel IH]; intros v; cbn [varint].
  - destruct (_ <? _); simpl; lia.
  - destruct (_ <? _); [simpl; lia|]. specialize (IH (v / 128)). cbn [length varint] in *. lia.
Qed.

Lemma read_little_endian_app n v rest :
  0 ≤ v < 256 ^ Z.of_nat n → read_little_endian n (little_endian n v ++ rest) = Some (v, rest).
Proof.
  revert v. induction n as [|n IH]; intros v Hv.
  - change (256 ^ Z.of_nat 0) with 1 in Hv. simpl. do 2 f_equal. lia.
  - rewrite Nat2Z.inj_succ, Z.pow_succ_r in Hv by lia.
    cbn [little_endian app read_little_endian].
    pose proof (Z.mod_pos_bound v 256 ltac:(lia)).
    rewrite IH by (split; [apply Z.div_pos; lia|apply Z.div_lt_upper_bound; lia]).
    rewrite byte_to_of_Z by lia. do 2 f_equal.
    pose proof (Z.div_mod v 256 ltac:(lia)). lia.
Qed.

Lemma read_little_endian_shrinks n bs v rest :
  read_little_endian n bs = Some (v, rest) → (length rest ≤ length bs)%nat.
Proof.
  revert bs v rest. induction n as [|n IH]; intros bs v rest; simpl.
  - by intros [= <- <-].
  - destruct bs as [|b bs]; [done|].
    destruct (read_little_endian n bs) as [[v' r']|] eqn:Hr; [|done].
    intros [= <- <-]. apply IH in Hr. simpl. lia.
Qed.

Lemma little_endian_length n v : length (little_endian n v) = n.
Proof. revert v. induction n as [|n IH]; intros v; simpl; [done|]. by rewrite IH. Qed.

(** ** UTF-8 *)

Definition continuation (b : byte) : bool := (128 <=? byte_to_Z b) && (byte_to_Z b <? 192).

Fixpoint utf8_valid (s : bytes) : bool :=
  match s with
  | [] => true
  | b0 :: s0 =>
    let c := byte_to_Z b0 in
    if c <? 128 then utf8_valid s0
    else match s0 with
    | [] => false
    | b1 :: s1 =>
      let d := byte_to_Z b1 in
      if (194 <=? c) && (c <? 224) then continuation b1 && utf8_valid s1
      else match s1 with
      | [] => false
      | b2 :: s2 =>
        if (224 <=? c) && (c <? 240) then
          continuation b1 && continuation b2 &&
          (if c =? 224 then 160 <=? d else if c =? 237 then d <? 160 else true) &&
          utf8_valid s2
        else match s2 with
        | [] => false
        | b3 :: s3 =>
          (240 <=? c) && (c <? 245) && continuation b1 && continuation b2 &&
          continuation b3 &&
          (if c =? 240 then 144 <=? d else if c =? 244 then d <? 144 else true) &&
          utf8_valid s3
        end
      end
    end
  end.

(** ** The reader *)

Record reader := Reader { r_bytes : bytes; r_depth : nat; r_consumed : bool }.

Definition advance (s : reader) (bs : bytes) : reader := Reader bs (r_depth s) false.
Definition ended (s : reader) : reader := Reader [] (r_depth s) true.

Definition read_with {A} (f : bytes → option (A * bytes)) (s : reader) : option (A * reader) :=
  match f (r_bytes s) with
  | Some (v, bs) => Some (v, advance s bs)
  | None => None
  end.

Definition read_length (bs : bytes) : option (Z * bytes) :=
  match read_varint 5 bs with
  | Some (n, rest) => if n <=? zlen rest then Some (n, rest) else None
  | None => None
  end.

Definition read_delimited (bs : bytes) : option (bytes * bytes) :=
  match read_length bs with
  | Some (n, rest) => Some (take (Z.to_nat n) rest, drop (Z.to_nat n) rest)
  | None => None
  end.

Definition c_read_tag (cutoff : Z) (s : reader) : (Z * bool) * reader :=
  match r_bytes s with
  | [] => ((0, false), ended s)
  | _ =>
    match read_varint 5 (r_bytes s) with
    | Some (t, bs) => ((t, (0 <? t) && (t <=? cutoff)), advance s bs)
    | None => ((0, false), s)
    end
  end.

Definition c_expect_tag (t : Z) (s : reader) : bool * reader :=
  match r_bytes s with
  | b :: bs => if (0 <? t) && (t <? 128) && (byte_to_Z b =? t)
               then (true, advance s bs) else (false, s)
  | [] => (false, s)
  end.

Definition c_expect_at_end (s : reader) : bool * reader :=
  match r_bytes s with [] => (true, ended s) | _ => (false, s) end.

Definition c_read_message {A} (d : nat) (merge : A → reader → parse A reader)
    (m : A) (s : reader) : parse A reader :=
  match read_delimited (r_bytes s) with
  | Some (body, rest) =>
    match merge m (Reader body d false) with
    | Parsed m' s' => if r_consumed s' then Parsed m' (advance s rest) else ParseFailed
    | r => match r with OutOfFuel => OutOfFuel | _ => ParseFailed end
    end
  | None => ParseFailed
  end.

Definition skip_with {A} (f : bytes → option (A * bytes)) (s : reader) : option reader :=
  snd <$> read_with f s.

(** Unknown fields; groups are rejected. *)
Definition c_skip (tag : Z) (s : reader) : option reader :=
  match tag mod 8 with
  | 0 => skip_with (read_varint 10) s
  | 1 => skip_with (read_little_endian 8) s
  | 2 => skip_with read_delimited s
  | 5 => skip_with (read_little_endian 4) s
  | _ => None
  end.

Definition c_tag (t : Z) : bytes := varint 5 t.
Definition c_length (n : Z) : bytes := varint 5 n.
Definition c_enum (v : Z) : bytes := varint 10 (v mod 2 ^ 64).

#[export] Instance wire_format : WireFormat := {|
  stream := reader;
  bytes_left := r_bytes;
  depth := r_depth;
  OpenArray data := Reader data 100 false;
  ReadTagWithCutoff := c_read_tag;
  ExpectTag := c_expect_tag;
  ExpectAtEnd := c_expect_at_end;
  ConsumedEntireMessage := r_consumed;
  IncrementRecursionDepth s :=
    match r_depth s with S d => Some (Reader (r_bytes s) d false) | O => None end;
  UnsafeDecrementRecursionDepth s := Reader (r_bytes s) (S (r_depth s)) (r_consumed s);
  GetTagFieldNumber t := t / 8;
  GetTagWireType t := t mod 8;
  ReadUInt64 := read_with (λ bs, '(v, bs) ← read_varint 10 bs; Some (v mod 2 ^ 64, bs));
  ReadFixed64 := read_with (read_little_endian 8);
  ReadEnum := read_with (λ bs, '(v, bs) ← read_varint 10 bs; Some (to_signed 32 v, bs));
  ReadString := read_with read_delimited;
  ReadMessageNoVirtual A merge m s :=
    match r_depth s with S d => c_read_message d merge m s | O => ParseFailed end;
  ReadMessageNoVirtualNoRecursionDepth A merge m s := c_read_message (r_depth s) merge m s;
  SkipField := c_skip;
  VerifyUtf8String := utf8_valid;
  WriteUInt64ToArray f v t := t ++ c_tag (make_tag f 0) ++ varint 10 v;
  WriteFixed64ToArray f v t := t ++ c_tag (make_tag f 1) ++ little_endian 8 v;
  WriteEnumToArray f v t := t ++ c_tag (make_tag f 0) ++ c_enum v;
  WriteStringToArray f s t := t ++ c_tag (make_tag f 2) ++ c_length (zlen s) ++ s;
  InternalWriteMessageNoVirtualToArray A size write f m t :=
    write m (t ++ c_tag (make_tag f 2) ++ c_length (size m));
  WriteUInt64 f v t := t ++ c_tag (make_tag f 0) ++ varint 10 v;
  WriteFixed64 f v t := t ++ c_tag (make_tag f 1) ++ little_endian 8 v;
  WriteEnum f v t := t ++ c_tag (make_tag f 0) ++ c_enum v;
  WriteStringMaybeAliased f s t := t ++ c_tag (make_tag f 2) ++ c_length (zlen s) ++ s;
  WriteMessageMaybeToArray A size write f m t :=
    write m (t ++ c_tag (make_tag f 2) ++ c_length (size m));
  UInt64Size v := zlen (varint 10 v);
  EnumSize v := zlen (c_enum v);
  StringSize s := zlen (c_length (zlen s)) + zlen s;
  MessageSizeNoVirtual A size m := zlen (c_length (size m)) + size m;
  ParseFromArray A merge m data n :=
    match merge m (Reader (take (Z.to_nat n) data) 100 false) with
    | Parsed m' s => if r_consumed s then Some m' else None
    | _ => None
    end;
  SerializeToArray A size write m off n buf :=
    if size m <=? n then write_at off (write m []) buf else buf
|}.

(** ** The laws *)

#[local] Arguments varint : simpl never.
#[local] Arguments read_varint : simpl never.
#[local] Arguments little_endian : simpl never.
#[local] Arguments read_little_endian : simpl never.

Lemma one_byte_tag t : 0 < t ≤ 127 → c_tag t = [byte_of_Z t].
Proof. intros Ht. unfold c_tag, varint. by rewrite (proj2 (Z.ltb_lt t 128)) by lia. Qed.

Lemma read_varint_tag t rest : 0 < t ≤ 127 → read_varint 5 (c_tag t ++ rest) = Some (t, rest).
Proof. intros Ht. apply read_varint_app; [lia|]. split; [lia|]. apply Z.lt_trans with 128; done || lia. Qed.

Lemma read_varint_uint64 v rest :
  uint64_ok v → read_varint 10 (varint 10 v ++ rest) = Some (v, rest).
Proof.
  intros Hv. apply read_varint_app; [lia|]. unfold uint64_ok in Hv. split; [lia|].
  apply Z.lt_le_trans with (2 ^ 64); [lia|done].
Qed.

Lemma read_length_app n body rest :
  zlen body = n → n ≤ int_max → read_length (c_length n ++ body ++ rest) = Some (n, body ++ rest).
Proof.
  intros Hn Hm. unfold read_length, c_length. unfold int_max in Hm.
  pose proof (zlen_nonneg body). rewrite read_varint_app; [|lia|].
  - rewrite (proj2 (Z.leb_le _ _)); [done|].
    rewrite zlen_app. pose proof (zlen_nonneg rest). lia.
  - split; [lia|]. apply Z.lt_le_trans with (2 ^ 31); [lia|done].
Qed.

Lemma read_delimited_app body rest :
  zlen body ≤ int_max →
  read_delimited (c_length (zlen body) ++ body ++ rest) = Some (body, rest).
Proof.
  intros Hb. unfold read_delimited. rewrite read_length_app by done.
  by rewrite to_nat_zlen, take_app_length, drop_app_length.
Qed.

Lemma read_delimited_shrinks bs body rest :
  read_delimited bs = Some (body, rest) → (length rest ≤ length bs)%nat.
Proof.
  unfold read_delimited, read_length.
  destruct (read_varint 5 bs) as [[n r]|] eqn:Hr; [|done].
  destruct (_ <=? _); [|done]. intros [= <- <-].
  apply read_varint_shrinks in Hr. rewrite length_drop. lia.
Qed.

Lemma c_read_tag_shrinks t b s s' : c_read_tag 127 s = (t, b, s') →
  (length (r_bytes s') ≤ length (r_bytes s))%nat ∧
  (t ≠ 0 → (length (r_bytes s') < length (r_bytes s))%nat).
Proof.
  unfold c_read_tag. destruct (r_bytes s) as [|b0 bs0] eqn:Hb.
  - intros [= <- <- <-]. simpl. split; [lia|done].
  - destruct (read_varint 5 (b0 :: bs0)) as [[t' r]|] eqn:Hr.
    + intros [= <- <- <-]. apply read_varint_shrinks in Hr. simpl in *. lia.
    + intros [= <- <- <-]. rewrite Hb. split; [lia|done].
Qed.

Lemma c_expect_tag_true t s s' : c_expect_tag t s = (true, s') →
  ∃ s1, c_read_tag 127 s = (t, true, s1) ∧ r_bytes s' = r_bytes s1 ∧ r_depth s' = r_depth s1.
Proof.
  unfold c_expect_tag, c_read_tag. destruct (r_bytes s) as [|b bs]; [done|].
  destruct (_ && _ && _) eqn:Ht; [|done]. intros [= <-].
  apply andb_true_iff in Ht as [[H1 H2]%andb_true_iff H3].
  apply Z.eqb_eq in H3. rewrite read_varint_small by lia. rewrite H3, H1.
  rewrite (proj2 (Z.leb_le t 127)) by lia. by eexists.
Qed.

Lemma c_read_message_ok {A} d (merge : A → reader → parse A reader) m m' s body rest :
  zlen body ≤ int_max → r_bytes s = c_length (zlen body) ++ body ++ rest →
  (∀ sub, r_bytes sub = body → r_depth sub = d →
     ∃ sub', merge m sub = Parsed m' sub' ∧ at_end (W := wire_format) d sub') →
  ∃ s', c_read_message d merge m s = Parsed m' s' ∧ r_bytes s' = rest ∧ r_depth s' = r_depth s.
Proof.
  intros Hb Hs Hm. unfold c_read_message. rewrite Hs, read_delimited_app by done.
  destruct (Hm (Reader body d false)) as (sub' & -> & (_ & _ & Hc)); [done..|].
  simpl in Hc. rewrite Hc. by eexists.
Qed.

Lemma c_read_message_total {A} d (merge : A → reader → parse A reader) m s :
  parse_total (W := wire_format) merge →
  shrinks (W := wire_format) s (c_read_message d merge m s).
Proof.
  intros Ht. unfold c_read_message.
  destruct (read_delimited (r_bytes s)) as [[body rest]|] eqn:Hr; [|done].
  specialize (Ht m (Reader body d false)).
  destruct (merge m (Reader body d false)) as [m' s'| |]; try done.
  destruct (r_consumed s'); simpl; [|done]. by eapply read_delimited_shrinks.
Qed.

Lemma read_with_shrinks {A} (f : bytes → option (A * bytes)) v s s' :
  (∀ bs v rest, f bs = Some (v, rest) → (length rest ≤ length bs)%nat) →
  read_with f s = Some (v, s') → (length (r_bytes s') ≤ length (r_bytes s))%nat.
Proof.
  intros Hf. unfold read_with. destruct (f (r_bytes s)) as [[v' bs]|] eqn:Hr; [|done].
  intros [= <- <-]. by apply Hf in Hr.
Qed.

Lemma skip_with_shrinks {A} (f : bytes → option (A * bytes)) s s' :
  (∀ bs v rest, f bs = Some (v, rest) → (length rest ≤ length bs)%nat) →
  skip_with f s = Some s' → (length (r_bytes s') ≤ length (r_bytes s))%nat.
Proof.
  intros Hf. unfold skip_with. destruct (read_with f s) as [[v s1]|] eqn:Hr; [|done].
  intros [= <-]. by eapply read_with_shrinks.
Qed.

Lemma read_varint_shrinks_le fuel bs v rest :
  read_varint fuel bs = Some (v, rest) → (length rest ≤ length bs)%nat.
Proof. intros Hr%read_varint_shrinks. lia. Qed.

Lemma c_skip_shrinks t s s' : c_skip t s = Some s' →
  (length (r_bytes s') ≤ length (r_bytes s))%nat.
Proof.
  unfold c_skip. intros Hs. repeat (case_match; try done);
    (eapply skip_with_shrinks; [|exact Hs]);
    eauto using read_varint_shrinks_le, read_little_endian_shrinks, read_delimited_shrinks.
Qed.

Lemma enum_read_back v : int32_ok v → to_signed 32 (v mod 2 ^ 64) = v.
Proof.
  intros Hv. unfold int32_ok in Hv. unfold to_signed.
  change (32 - 1) with 31. rewrite Zplus_mod.
  rewrite Z.mod_mod_divide by (by exists (2 ^ 32)).
  rewrite <- Zplus_mod, Z.mod_small; lia.
Qed.

#[export] Instance wire_format_laws : WireFormatLaws wire_format.
Proof.
  refine {| tag_bytes := c_tag; uint64_bytes := varint 10;
            fixed64_bytes := little_endian 8; enum_bytes := c_enum;
            length_bytes := c_length |}; try done.
  - intros t Ht. by rewrite one_byte_tag.
  - intros t t' Ht Ht'. rewrite !one_byte_tag by done. intros [= Hb].
    rewrite <- (byte_to_of_Z t), <- (byte_to_of_Z t'), Hb by lia. done.
  - intros t s rest Ht Hs. simpl in *. unfold c_read_tag. rewrite Hs.
    rewrite read_varint_tag by done. rewrite one_byte_tag by done. simpl.
    rewrite (proj2 (Z.ltb_lt 0 t)), (proj2 (Z.leb_le t 127)) by lia. by eexists.
  - intros s Hs. simpl in *. unfold c_read_tag. rewrite Hs. by do 2 eexists.
  - apply c_read_tag_shrinks.
  - apply c_expect_tag_true.
  - intros t s s'. simpl. unfold c_expect_tag. repeat case_match; try done; by intros [= <-].
  - intros s s'. simpl. unfold c_expect_at_end. destruct (r_bytes s); [|done]. by intros [= <-].
  - intros s s'. simpl. unfold c_expect_at_end. destruct (r_bytes s); [done|]. by intros [= <-].
  - intros s d. simpl. intros ->. by eexists.
  - intros s s'. simpl. destruct (r_depth s); [done|]. by intros [= <-].
  - intros v s rest Hv Hs. simpl in *. unfold read_with. rewrite Hs, read_varint_uint64 by done.
    simpl. unfold uint64_ok in Hv. rewrite Z.mod_small by lia. by eexists.
  - intros v s rest Hv Hs. simpl ReadFixed64. unfold read_with. simpl bytes_left in Hs.
    rewrite Hs, read_little_endian_app by exact Hv. by eexists.
  - intros v s rest Hv Hs. simpl in *. unfold read_with, c_enum in *. rewrite Hs.
    rewrite read_varint_uint64 by (apply Z.mod_pos_bound; lia). simpl.
    rewrite enum_read_back by done. by eexists.
  - intros str s rest Hl Hs. simpl in *. unfold read_with.
    rewrite Hs, read_delimited_app by done. by eexists.
  - intros A merge m m' s body rest d Hd Hb Hs Hm. simpl in *. rewrite Hd.
    destruct (c_read_message_ok d merge m m' s body rest) as (s' & Hr & H1 & H2); [done..|].
    exists s'. split; [exact Hr|]. split; simpl; congruence.
  - intros A merge m m' s body rest Hb Hs Hm. simpl in *.
    destruct (c_read_message_ok (r_depth s) merge m m' s body rest)
      as (s' & Hr & H1 & H2); [done..|]. by exists s'.
  - intros v s s'. apply read_with_shrinks. intros bs v1 rest.
    destruct (read_varint 10 bs) as [[v2 r]|] eqn:Hr; [|done].
    intros [= <- <-]. by eapply read_varint_shrinks_le.
  - intros v s s'. apply read_with_shrinks. apply read_little_endian_shrinks.
  - intros v s s'. apply read_with_shrinks. intros bs v1 rest.
    destruct (read_varint 10 bs) as [[v2 r]|] eqn:Hr; [|done].
    intros [= <- <-]. by eapply read_varint_shrinks_le.
  - intros v s s'. apply read_with_shrinks. apply read_delimited_shrinks.
  - apply c_skip_shrinks.
  - intros A merge m s Ht. simpl. destruct (r_depth s) as [|d]; [done|].
    by apply c_read_message_total.
  - intros A merge m s Ht. by apply c_read_message_total.
  - intros f v s rest Hf Hv Hs. simpl in *. unfold c_skip, make_tag, WIRETYPE_VARINT.
    replace ((8 * f + 0) mod 8) with 0 by (rewrite Z.add_0_r, Z.mul_comm, Z.mod_mul; lia).
    unfold skip_with, read_with. rewrite Hs, read_varint_uint64 by done. by eexists.
  - intros n Hn. unfold zlen, c_length. pose proof (varint_length 5 n ltac:(lia)). lia.
  - intros v Hv. unfold zlen. simpl uint64_bytes. pose proof (varint_length 10 v ltac:(lia)). lia.
  - intros A size write m off n buf Hsz Hoff Hlen. simpl.
    by rewrite (proj2 (Z.leb_le (size m) n)) by lia.
Defined.
