(* ===== verification/WireTheorems.v ===== *)
(** * The properties of the protocol messages

    Round trip, sizes, agreement of the serializers, merging and termination
    of the generated code, for the two messages that go over the wire and
    with them for every message they contain. *)
From S2P Require Import Prelude Wire Parser Message Requests Responses Envelope Framing.
From S2P Require Import WireInstance.

Section Theorems.
Context `{W : WireFormat} {L : WireFormatLaws W}.

(** C21: parsing the encoding of a message, whatever bytes follow it in the
    buffer, gives the message back, with every request or response it can
    hold. *)
Theorem message_roundtrip (m : WrappedMessage.t) rest :
  nested_ok m →
  ParseFromArray WrappedMessage.MergePartialFromCodedStream WrappedMessage.SharedCtor
    (WrappedMessage.InternalSerializeWithCachedSizesToArray m [] ++ rest)
    (WrappedMessage.ByteSize m) = Some m.
Proof.
  intros Hm. refine (parse_encoded_fresh m rest _ Hm _ (encode_size m (proj1 Hm))). simpl. lia.
Qed.

(** C26: the size computed by [ByteSize] is the number of bytes both
    serializers write, and they write the same bytes. *)
Theorem serializers_agree (m : WrappedMessage.t) :
  WrappedMessage.ok m →
  WrappedMessage.SerializeWithCachedSizes m [] =
  WrappedMessage.InternalSerializeWithCachedSizesToArray m [] ∧
  zlen (WrappedMessage.InternalSerializeWithCachedSizesToArray m []) = WrappedMessage.ByteSize m.
Proof.
  intros Hm. split.
  - by rewrite WrappedMessage.WrappedMessage_to_stream_wire,
      WrappedMessage.WrappedMessage_to_array_wire.
  - symmetry. exact (encode_size m Hm).
Qed.

(** C25: the parser of the envelope terminates on every input, with a message
    or a failure, and never hands back more input than it got; its recursion
    goes through the parsers of all the nested messages. *)
Theorem parser_terminates (m : WrappedMessage.t) (s : stream) :
  match WrappedMessage.MergePartialFromCodedStream m s with
  | Parsed _ s' => (length (bytes_left s') ≤ length (bytes_left s))%nat
  | ParseFailed => True
  | OutOfFuel => False
  end.
Proof. exact (msg_parse_total (M:=WrappedMessage.t) m s). Qed.

(** Parsing into a message that already holds something merges: what was
    there stays unless the input has another member of the oneof, which then
    takes its place. *)
Theorem parsing_merges (m0 m : WrappedMessage.t) rest :
  nested_ok m →
  ParseFromArray WrappedMessage.MergePartialFromCodedStream m0
    (WrappedMessage.InternalSerializeWithCachedSizesToArray m [] ++ rest)
    (WrappedMessage.ByteSize m) = Some (WrappedMessage.MergeFrom m0 m) ∧
  (WrappedMessage.has_request m = true → WrappedMessage.has_response m0 = true →
   WrappedMessage.MergeFrom m0 m = m).
Proof.
  intros Hm. split.
  - refine (parse_encoded m0 m rest _ Hm _ (encode_size m (proj1 Hm))). simpl. lia.
  - destruct Hm as [Hok _]. destruct m0 as [[| |]], m as [[|r|]]; try done. intros _ _.
    unfold WrappedMessage.MergeFrom. simpl. do 2 f_equal.
    exact (msg_merge_default r (proj1 Hok)).
Qed.

(** A length prefix takes exactly the nine bytes both ends read for it,
    unless the length is 0, when it takes none; nine bytes carry any length
    back. *)
Theorem prefix_size (n : Z) :
  uint64_ok n →
  LengthPrefix.ByteSize (LengthPrefix.Build n) = (if n =? 0 then 0 else 9) ∧
  (n ≠ 0 →
   ParseFromArray LengthPrefix.MergePartialFromCodedStream LengthPrefix.SharedCtor
     (LengthPrefix.InternalSerializeWithCachedSizesToArray (LengthPrefix.Build n) []) 9 =
   Some (LengthPrefix.Build n)).
Proof.
  intros Hn. split.
  - unfold LengthPrefix.ByteSize. simpl. by destruct (n =? 0).
  - intros Hz. rewrite <- (app_nil_r (LengthPrefix.InternalSerializeWithCachedSizesToArray _ _)).
    exact (parse_prefix n [] Hn Hz).
Qed.
End Theorems.

(** ** The properties at concrete inputs *)

(** A response with two chats. *)
Definition chats_message : WrappedMessage.t :=
  WrappedMessage.Build (WrappedMessage.kResponse (Response.Build (Response.kChatsResponse
    (ChatsResponse.Build [Chat.Build 1 [Byte.x61; Byte.x62]; Chat.Build 300 []])))).

Definition chat_request (id : Z) : WrappedMessage.t :=
  WrappedMessage.Build (WrappedMessage.kRequest (Request.Build (Request.kMessagesRequest
    (MessagesRequest.Build id)))).

Lemma chats_message_ok : nested_ok chats_message.
Proof.
  split; [|by vm_compute].
  split; [|by vm_compute]. split; [|by vm_compute].
  apply Forall_cons. split.
  { split; [|by vm_compute]. split; [by vm_compute|]. split; by vm_compute. }
  apply Forall_cons. split; [|by apply Forall_nil].
  split; [|by vm_compute]. split; [by vm_compute|]. split; by vm_compute.
Defined.

Lemma chat_request_ok : nested_ok (chat_request 7).
Proof. repeat (split; [|by vm_compute]). by vm_compute. Defined.

Lemma message_roundtrip_witness :
  ParseFromArray WrappedMessage.MergePartialFromCodedStream WrappedMessage.SharedCtor
    (WrappedMessage.InternalSerializeWithCachedSizesToArray chats_message [] ++ [Byte.xff])
    (WrappedMessage.ByteSize chats_message) = Some chats_message ∧
  WrappedMessage.ByteSize chats_message = 17.
Proof. split; [apply (message_roundtrip chats_message [Byte.xff] chats_message_ok)|by vm_compute]. Defined.

Lemma serializers_agree_witness :
  zlen (WrappedMessage.InternalSerializeWithCachedSizesToArray chats_message []) =
  WrappedMessage.ByteSize chats_message.
Proof. apply (serializers_agree chats_message (proj1 chats_message_ok)). Defined.

Lemma parser_terminates_witness :
  match WrappedMessage.MergePartialFromCodedStream WrappedMessage.SharedCtor
          (OpenArray [Byte.x0a; Byte.xff; Byte.x12]) with
  | Parsed _ s' => (length (bytes_left s') ≤ 3)%nat
  | ParseFailed => True
  | OutOfFuel => False
  end.
Proof. exact (parser_terminates WrappedMessage.SharedCtor (OpenArray [Byte.x0a; Byte.xff; Byte.x12])). Defined.

Lemma parsing_merges_witness :
  ParseFromArray WrappedMessage.MergePartialFromCodedStream chats_message
    (WrappedMessage.InternalSerializeWithCachedSizesToArray (chat_request 7) [] ++ [])
    (WrappedMessage.ByteSize (chat_request 7)) = Some (chat_request 7).
Proof.
  destruct (parsing_merges chats_message (chat_request 7) [] chat_request_ok) as [H1 H2].
  rewrite H1. by rewrite H2.
Defined.

Lemma prefix_size_witness :
  LengthPrefix.ByteSize (LengthPrefix.Build 17) = 9 ∧
  LengthPrefix.ByteSize (LengthPrefix.Build 0) = 0 ∧
  ParseFromArray LengthPrefix.MergePartialFromCodedStream LengthPrefix.SharedCtor
    [Byte.x09; Byte.x11; Byte.x00; Byte.x00; Byte.x00; Byte.x00; Byte.x00; Byte.x00; Byte.x00] 9 =
  Some (LengthPrefix.Build 17).
Proof.
  assert (uint64_ok 17 ∧ uint64_ok 0) as [H17 H0] by (split; split; by vm_compute).
  split; [apply (prefix_size 17 H17)|]. split; [apply (prefix_size 0 H0)|].
  exact (proj2 (prefix_size 17 H17) ltac:(done)).
Defined.
