(* ===== verification/Storage.v ===== *)
(** * The storage contract

    [AbstractStorageConnection] of [server/src/storage/abstract_storage.h]: the
    operations the jobs call, on an explicit storage state [S].  A call
    returns a value or throws; only [login] lets exceptions out. *)
From S2P Require Import Prelude Requests Responses.

Inductive exn : Type :=
| sql_error
| invalid_argument
| runtime_error
| std_exception.

#[export] Instance exn_eq_dec : EqDecision exn.
Proof. solve_decision. Defined.

Class AbstractStorageConnection (S : Type) : Type := {
  registration : bytes → bytes → bytes → S → bool * S;
  login : bytes → bytes → S → (exn + Z * bytes) * S;
  send_message : Z → MessageToSend.t → S → bool * S;
  add_contact : Z → bytes → S → bool * S;
  create_chat : Z → bytes → Z → S → bool * S;
  get_chats : Z → S → ChatsResponse.t * S;
  get_contacts : Z → S → ContactsResponse.t * S;
  get_messages : Z → S → MessagesResponse.t * S
}.

(** One call on the storage. *)
Section Calls.
Context {S : Type} `{AbstractStorageConnection S}.

Inductive storage_call : S → S → Prop :=
| call_registration name email password s : storage_call s (registration name email password s).2
| call_login email password s : storage_call s (login email password s).2
| call_send_message sender mesg s : storage_call s (send_message sender mesg s).2
| call_add_contact user email s : storage_call s (add_contact user email s).2
| call_create_chat user name friend s : storage_call s (create_chat user name friend s).2
| call_get_chats user s : storage_call s (get_chats user s).2
| call_get_contacts user s : storage_call s (get_contacts user s).2
| call_get_messages chat s : storage_call s (get_messages chat s).2.
End Calls.

#[export] Hint Constructors storage_call : elegram.

(** What the rest of the server relies on: an invariant that every call
    keeps, and users that a login designates and that are never removed. *)
Class StorageContract (S : Type) `{AbstractStorageConnection S} : Type := {
  storage_ok : S → Prop;
  is_user : S → Z → Prop;
  storage_call_ok s s' : storage_call s s' → storage_ok s → storage_ok s';
  storage_call_users s s' id : storage_call s s' → is_user s id → is_user s' id;
  login_is_user email password s s' id name :
    storage_ok s → login email password s = (inr (id, name), s') → is_user s' id
}.
