(* ===== verification/Database.v ===== *)
(** * The database: schema, constraints, SQL statements

    The tables of [server/tests/gen_schema.sql] as lists of rows, the
    sequences behind the [SERIAL] columns, and one function per statement
    that [server/src/storage/postgresql_storage.cpp] prepares or executes.  A
    statement either yields its rows or fails (a violated constraint, a value
    out of range of its column); a sequence that was advanced stays advanced
    even then.

    [Pqxx] names what the program relies on outside of the repository: how
    libpqxx passes a string as a text parameter, SHA-256, and the order in
    which PostgreSQL returns rows without [ORDER BY]. *)
From S2P Require Import Prelude Storage.

(** ** Rows and tables *)

Record client_row := ClientRow {
  c_id : Z; c_name : bytes; c_email : bytes; c_password_hash : bytes }.
Record member_row := MemberRow { cc_client_id : Z; cc_chat_id : Z; cc_title : bytes }.
Record message_row := MessageRow {
  m_id : Z; m_sender_id : Z; m_chat_id : Z; m_mesg : bytes }.
Record contact_row := ContactRow { cf_client_id : Z; cf_friend_id : Z }.

Record db := Db {
  Client : list client_row;
  Chat : list Z;
  ClientToChat : list member_row;
  Message : list message_row;
  ClientToContact : list contact_row;
  client_seq : Z;
  chat_seq : Z;
  message_seq : Z
}.

#[export] Instance contact_row_eq_dec : EqDecision contact_row.
Proof. solve_decision. Defined.

(** The empty schema: [SERIAL] sequences start at 1. *)
Definition empty_db : db := Db [] [] [] [] [] 1 1 1.

(** [rollback saved d]: the tables are restored, sequences are not. *)
Definition rollback (saved d : db) : db :=
  Db (Client saved) (Chat saved) (ClientToChat saved) (Message saved)
     (ClientToContact saved) (client_seq d) (chat_seq d) (message_seq d).

(** The same tables, whatever the sequences. *)
Definition same_tables (d d' : db) : Prop :=
  Client d' = Client d ∧ Chat d' = Chat d ∧ ClientToChat d' = ClientToChat d ∧
  Message d' = Message d ∧ ClientToContact d' = ClientToContact d.

#[export] Instance same_tables_equivalence : Equivalence same_tables.
Proof.
  unfold same_tables. split.
  - done.
  - intros d1 d2 (-> & -> & -> & -> & ->). done.
  - intros d1 d2 d3 (-> & -> & -> & -> & ->) (-> & -> & -> & -> & ->). done.
Qed.

(** ** Outside of the repository *)

Class Pqxx : Type := {
  sql_text : bytes → option bytes;
  quote_text : bytes → option bytes;
  SHA256 : bytes → bytes;
  scan : ∀ {A}, list A → list A;
  (** the value read from a column of the first row of an empty result, if
      reading it does not throw *)
  missing_text : option bytes
}.

Class PqxxLaws (P : Pqxx) : Type := {
  (** text that a C string can carry and the database encoding accepts *)
  plain_text : bytes → Prop;
  plain_nul_free s : plain_text s → nul_free s;
  sql_text_plain s : plain_text s → sql_text s = Some s;
  quote_text_plain s : plain_text s → quote_text s = Some s;
  scan_permutation {A} (l : list A) : scan l ≡ₚ l
}.

(** ** Statements *)

Definition stmt (A : Type) : Type := db → option A * db.

Definition int4_max : Z := 2147483647.
Definition int8_max : Z := 9223372036854775807.

(** An unsigned parameter of an [INTEGER] column or expression. *)
Definition int4 (v : Z) : option Z := if v <=? int4_max then Some v else None.

Section Statements.
Context `{P : Pqxx}.

Definition client_ids (d : db) : list Z := c_id <$> Client d.
Definition emails (d : db) : list bytes := c_email <$> Client d.

Definition select {A} (q : db → option (list A)) : stmt (list A) :=
  λ d, (scan <$> q d, d).

(** INSERT INTO Client (name, email, password_hash) VALUES ($1, $2, $3) *)
Definition stmt_registration (name email : bytes) (hash : bytes) : stmt unit := λ d,
  match sql_text name, sql_text email with
  | Some name, Some email =>
    let id := client_seq d in
    if int4_max <? id then (None, d) else
    let d := Db (Client d) (Chat d) (ClientToChat d) (Message d) (ClientToContact d)
                (id + 1) (chat_seq d) (message_seq d) in
    if bool_decide (id ∈ client_ids d) || bool_decide (email ∈ emails d) then (None, d) else
    (Some (), Db (Client d ++ [ClientRow id name email hash]) (Chat d) (ClientToChat d)
                 (Message d) (ClientToContact d) (client_seq d) (chat_seq d) (message_seq d))
  | _, _ => (None, d)
  end.

(** INSERT INTO Message(sender_id, chat_id, mesg) VALUES ($1, $2, $3) *)
Definition stmt_send_message (sender_id chat_id : Z) (mesg : bytes) : stmt unit := λ d,
  match int4 sender_id, int4 chat_id, sql_text mesg with
  | Some sender_id, Some chat_id, Some mesg =>
    let id := message_seq d in
    if int8_max <? id then (None, d) else
    let d := Db (Client d) (Chat d) (ClientToChat d) (Message d) (ClientToContact d)
                (client_seq d) (chat_seq d) (id + 1) in
    if bool_decide (id ∈ m_id <$> Message d) ||
       bool_decide (sender_id ∉ client_ids d) || bool_decide (chat_id ∉ Chat d)
    then (None, d) else
    (Some (), Db (Client d) (Chat d) (ClientToChat d)
                 (Message d ++ [MessageRow id sender_id chat_id mesg]) (ClientToContact d)
                 (client_seq d) (chat_seq d) (message_seq d))
  | _, _, _ => (None, d)
  end.

(** INSERT INTO ClientToContact(client_id, friend_id) VALUES ($1, $2) *)
Definition stmt_add_contact (client_id friend_id : Z) : stmt unit := λ d,
  match int4 client_id, int4 friend_id with
  | Some client_id, Some friend_id =>
    let row := ContactRow client_id friend_id in
    if bool_decide (client_id ∉ client_ids d) || bool_decide (friend_id ∉ client_ids d) ||
       bool_decide (row ∈ ClientToContact d)
    then (None, d) else
    (Some (), Db (Client d) (Chat d) (ClientToChat d) (Message d)
                 (ClientToContact d ++ [row]) (client_seq d) (chat_seq d) (message_seq d))
  | _, _ => (None, d)
  end.

(** SELECT id, name FROM Client WHERE email = $1 *)
Definition stmt_get_user_by_email (email : bytes) : stmt (list (Z * bytes)) :=
  select (λ d, email ← sql_text email;
    Some ((λ r, (c_id r, c_name r)) <$> filter (λ r, c_email r = email) (Client d))).

(** SELECT name, email FROM Client WHERE id = $1 *)
Definition stmt_get_info (id : Z) : stmt (list (bytes * bytes)) :=
  select (λ d, id ← int4 id;
    Some ((λ r, (c_name r, c_email r)) <$> filter (λ r, c_id r = id) (Client d))).

(** WITH Contacts(id) AS (SELECT friend_id FROM ClientToContact WHERE client_id = $1)
    SELECT Client.id, Client.name, Client.email FROM Client, Contacts
    WHERE Client.id = Contacts.id *)
Definition contact_join (d : db) (id : Z) : list (Z * bytes * bytes) :=
  let contacts := cf_friend_id <$> filter (λ r, cf_client_id r = id) (ClientToContact d) in
  c ← contacts;
  (λ r, (c_id r, c_name r, c_email r)) <$> filter (λ r, c_id r = c) (Client d).

Definition stmt_get_contacts (id : Z) : stmt (list (Z * bytes * bytes)) :=
  select (λ d, id ← int4 id; Some (contact_join d id)).

(** SELECT sender_id, mesg FROM Message WHERE chat_id = $1 *)
Definition stmt_get_messages (chat_id : Z) : stmt (list (Z * bytes)) :=
  select (λ d, chat_id ← int4 chat_id;
    Some ((λ r, (m_sender_id r, m_mesg r)) <$> filter (λ r, m_chat_id r = chat_id) (Message d))).

(** SELECT chat_id, title FROM ClientToChat WHERE client_id = $1 *)
Definition stmt_get_chats (client_id : Z) : stmt (list (Z * bytes)) :=
  select (λ d, client_id ← int4 client_id;
    Some ((λ r, (cc_chat_id r, cc_title r)) <$>
          filter (λ r, cc_client_id r = client_id) (ClientToChat d))).

(** SELECT 1 FROM ClientToChat WHERE client_id = $1 AND chat_id = $2 *)
Definition stmt_check_sender_able_to_write_to_chat (client_id chat_id : Z) : stmt (list ()) :=
  select (λ d, client_id ← int4 client_id; chat_id ← int4 chat_id;
    Some ((λ _, ()) <$>
          filter (λ r, cc_client_id r = client_id ∧ cc_chat_id r = chat_id) (ClientToChat d))).

Definition chats_of (d : db) (client_id : Z) : list Z :=
  cc_chat_id <$> filter (λ r, cc_client_id r = client_id) (ClientToChat d).

(** WITH MyChats(chat_id) AS (SELECT chat_id from ClientToChat WHERE client_id = $1),
         FriendChat AS (SELECT chat_id from ClientToChat WHERE client_id = $2)
    SELECT 1 FROM MyChats, FriendChat WHERE MyChats.chat_id = FriendChat.chat_id *)
Definition stmt_check_users_have_common_chat (user_id friend_id : Z) : stmt (list ()) :=
  select (λ d, user_id ← int4 user_id; friend_id ← int4 friend_id;
    Some (mine ← chats_of d user_id; (λ _, ()) <$> filter (λ c, mine = c) (chats_of d friend_id))).

(** INSERT INTO Chat DEFAULT VALUES RETURNING id *)
Definition stmt_create_chat : stmt Z := λ d,
  let id := chat_seq d in
  if int4_max <? id then (None, d) else
  let d := Db (Client d) (Chat d) (ClientToChat d) (Message d) (ClientToContact d)
              (client_seq d) (id + 1) (message_seq d) in
  if bool_decide (id ∈ Chat d) then (None, d) else
  (Some id, Db (Client d) (Chat d ++ [id]) (ClientToChat d) (Message d) (ClientToContact d)
               (client_seq d) (chat_seq d) (message_seq d)).

(** INSERT INTO ClientToChat(client_id, chat_id, title) VALUES($1, $2, $3) *)
Definition stmt_create_chat_connection (client_id chat_id : Z) (title : bytes) : stmt unit := λ d,
  match int4 client_id, int4 chat_id, sql_text title with
  | Some client_id, Some chat_id, Some title =>
    if bool_decide (client_id ∉ client_ids d) || bool_decide (chat_id ∉ Chat d) then (None, d) else
    (Some (), Db (Client d) (Chat d) (ClientToChat d ++ [MemberRow client_id chat_id title])
                 (Message d) (ClientToContact d) (client_seq d) (chat_seq d) (message_seq d))
  | _, _, _ => (None, d)
  end.

(** SELECT id, name, password_hash FROM Client WHERE email = '...' *)
Definition stmt_login (email : bytes) : stmt (list client_row) :=
  select (λ d, email ← quote_text email; Some (filter (λ r, c_email r = email) (Client d))).
End Statements.

(** ** Sequences only advance *)

Definition seq_le (d d' : db) : Prop :=
  client_seq d ≤ client_seq d' ∧ chat_seq d ≤ chat_seq d' ∧ message_seq d ≤ message_seq d'.

#[export] Instance seq_le_preorder : PreOrder seq_le.
Proof. split; [intros d|intros d1 d2 d3]; unfold seq_le; lia. Qed.

(** [unchanged d d']: nothing happened but perhaps to the sequences. *)
Definition unchanged (d d' : db) : Prop := same_tables d d' ∧ seq_le d d'.

#[export] Instance unchanged_preorder : PreOrder unchanged.
Proof.
  split.
  - intros d. split; reflexivity.
  - intros d1 d2 d3 [H1 H2] [H3 H4]. split; by etrans.
Qed.

Lemma rollback_unchanged saved d : seq_le saved d → unchanged saved (rollback saved d).
Proof. intros Hs. by split. Qed.

Lemma rollback_self d : rollback d d = d.
Proof. by destruct d. Qed.

Lemma rollback_rollback saved d d' : rollback (rollback saved d) d' = rollback saved d'.
Proof. done. Qed.

Lemma int4_Some v w : int4 v = Some w → w = v ∧ v ≤ int4_max.
Proof. unfold int4. destruct (Z.leb_spec v int4_max); [|done]. intros [= ->]. lia. Qed.

Lemma int4_ok v : v ≤ int4_max → int4 v = Some v.
Proof. intros Hv. unfold int4. by rewrite (proj2 (Z.leb_le v int4_max)). Qed.

(** ** Well-formed databases

    What the constraints of the schema and the program's own discipline keep
    true of every committed state. *)

Definition member (d : db) (user chat : Z) : Prop :=
  ∃ r, r ∈ ClientToChat d ∧ cc_client_id r = user ∧ cc_chat_id r = chat.

Definition contact (d : db) (user friend : Z) : Prop :=
  ContactRow user friend ∈ ClientToContact d.

Definition members_of (d : db) (chat : Z) : list member_row :=
  filter (λ r, cc_chat_id r = chat) (ClientToChat d).

#[export] Instance member_dec d user chat : Decision (member d user chat).
Proof.
  refine (cast_if (decide (Exists (λ r, cc_client_id r = user ∧ cc_chat_id r = chat)
                             (ClientToChat d))));
    unfold member; rewrite Exists_exists in *; naive_solver.
Defined.

#[export] Instance contact_dec d user friend : Decision (contact d user friend).
Proof. unfold contact. apply _. Defined.

Record clients_ok (d : db) : Prop := {
  ok_client_seq : 1 ≤ client_seq d;
  ok_client_ids : NoDup (client_ids d);
  ok_client_fresh r : r ∈ Client d → 1 ≤ c_id r ≤ int4_max ∧ c_id r < client_seq d;
  ok_emails : NoDup (emails d)
}.

(** Every chat has two members. *)
Record chats_ok (d : db) : Prop := {
  ok_chat_seq : 1 ≤ chat_seq d;
  ok_chats : NoDup (Chat d);
  ok_chat_fresh id : id ∈ Chat d → 1 ≤ id ≤ int4_max ∧ id < chat_seq d;
  ok_member_user r : r ∈ ClientToChat d → cc_client_id r ∈ client_ids d;
  ok_member_chat r : r ∈ ClientToChat d → cc_chat_id r ∈ Chat d;
  ok_two_members id : id ∈ Chat d → length (members_of d id) = 2%nat
}.

(** Being a contact is symmetric and irreflexive. *)
Record contacts_ok (d : db) : Prop := {
  ok_contact_user r : r ∈ ClientToContact d → cf_client_id r ∈ client_ids d;
  ok_contact_unique : NoDup (ClientToContact d);
  ok_contact_sym u v : contact d u v → contact d v u;
  ok_contact_irrefl u : ¬ contact d u u
}.

(** A message was sent by a member of its chat. *)
Record messages_ok (d : db) : Prop := {
  ok_message_seq : 1 ≤ message_seq d;
  ok_message_ids : NoDup (m_id <$> Message d);
  ok_message_fresh r : r ∈ Message d → 1 ≤ m_id r < message_seq d;
  ok_message_member r : r ∈ Message d → member d (m_sender_id r) (m_chat_id r)
}.

(** Two users share at most one chat. *)
Definition one_chat (d : db) : Prop :=
  ∀ u v c1 c2, u ≠ v →
    member d u c1 → member d v c1 → member d u c2 → member d v c2 → c1 = c2.

(** What holds of the tables whatever transactions run side by side... *)
Record tables_ok (d : db) : Prop := {
  ok_clients :> clients_ok d;
  ok_chats_of :> chats_ok d;
  ok_contacts :> contacts_ok d;
  ok_messages :> messages_ok d
}.

(** ... and what holds of them if transactions follow one another. *)
Record db_ok (d : db) : Prop := {
  ok_tables :> tables_ok d;
  ok_one_chat : one_chat d
}.

#[export] Hint Extern 0 (tables_ok _) => apply ok_tables; assumption : core.

Lemma db_ok_empty : db_ok empty_db.
Proof.
  split; [split; split|]; simpl; try apply NoDup_nil_2; unfold one_chat, member, contact; simpl;
    set_solver.
Qed.

(** The invariants of the tables an operation does not touch. *)
Lemma clients_ok_mono d d' :
  Client d' = Client d → client_seq d ≤ client_seq d' → clients_ok d → clients_ok d'.
Proof.
  intros HC Hs [? ? Hf ?]. split; unfold client_ids, emails; rewrite ?HC; try done; [lia|].
  intros r Hr. specialize (Hf r Hr). lia.
Qed.

Lemma chats_ok_mono d d' :
  client_ids d ⊆ client_ids d' → Chat d' = Chat d → ClientToChat d' = ClientToChat d →
  chat_seq d ≤ chat_seq d' → chats_ok d → chats_ok d'.
Proof.
  intros HC HCh HM Hs [? ? Hf ? ? ?].
  split; unfold members_of, member in *; rewrite ?HCh, ?HM; try done; [lia| |auto].
  intros id Hid. specialize (Hf id Hid). lia.
Qed.

Lemma contacts_ok_mono d d' :
  client_ids d ⊆ client_ids d' → ClientToContact d' = ClientToContact d →
  contacts_ok d → contacts_ok d'.
Proof. intros HC HCo []. split; unfold contact in *; rewrite ?HCo; auto. Qed.

Lemma messages_ok_mono d d' :
  (∀ u c, member d u c → member d' u c) → Message d' = Message d →
  message_seq d ≤ message_seq d' → messages_ok d → messages_ok d'.
Proof.
  intros Hm HM Hs [? ? Hf ?]. split; rewrite ?HM; try done; [lia| |auto].
  intros r Hr. specialize (Hf r Hr). lia.
Qed.

Lemma one_chat_mono d d' : ClientToChat d' = ClientToChat d → one_chat d → one_chat d'.
Proof. unfold one_chat, member. by intros ->. Qed.

Lemma tables_ok_unchanged d d' : unchanged d d' → tables_ok d → tables_ok d'.
Proof.
  intros [(H1 & H2 & H3 & H4 & H5) (Hs1 & Hs2 & Hs3)] [Hcl Hch Hco Hme].
  assert (client_ids d ⊆ client_ids d') as Hids by (unfold client_ids; by rewrite H1).
  split; [by eapply clients_ok_mono|by eapply chats_ok_mono|by eapply contacts_ok_mono|].
  eapply messages_ok_mono; [|done..]. unfold member. by rewrite H3.
Qed.

Lemma db_ok_unchanged d d' : unchanged d d' → db_ok d → db_ok d'.
Proof.
  intros Hu [Ht Hone]. split; [by eapply tables_ok_unchanged|].
  revert Hone. apply one_chat_mono, Hu.
Qed.
