(* ===== verification/Postgres.v ===== *)
(** * The PostgreSQL storage

    [PostgresStorageConnection] of [server/src/storage/postgresql_storage.cpp].
    Each operation is one transaction on a connection: a state and exception
    monad over the tables as this transaction sees them, the tables last
    committed, and a fault schedule.  [fault := Some (n, b)] breaks the
    connection at the [n]-th statement from now; if that statement is the
    commit, [b] says whether the server had already committed (the
    "in doubt" case of libpqxx). *)
From S2P Require Import Prelude Requests Responses Storage Database.

(** ** Connections and transactions *)

Record conn := Conn {
  tables : db;
  committed : db;
  fault : option (nat * bool)
}.

Definition M (A : Type) : Type := conn → (exn + A) * conn.

Definition m_ret {A} (x : A) : M A := λ c, (inr x, c).
Definition m_throw {A} (e : exn) : M A := λ c, (inl e, c).
Definition m_bind {A B} (m : M A) (f : A → M B) : M B := λ c,
  match m c with
  | (inr x, c) => f x c
  | (inl e, c) => (inl e, c)
  end.
Definition m_catch {A} (m : M A) (h : exn → M A) : M A := λ c,
  match m c with
  | (inr x, c) => (inr x, c)
  | (inl e, c) => h e c
  end.

Notation "'LET' x ':=' m 'IN' k" := (m_bind m (λ x, k))
  (at level 100, x pattern, m at level 99, k at level 200, right associativity) : elegram_scope.
Notation "m ';;;' k" := (m_bind m (λ _, k))
  (at level 100, k at level 200, right associativity) : elegram_scope.

(** One exchange with the server; a broken connection is not a [sql_error]. *)
Definition tick : M unit := λ c,
  match fault c with
  | Some (O, _) => (inl std_exception, Conn (tables c) (committed c) None)
  | Some (S n, b) => (inr (), Conn (tables c) (committed c) (Some (n, b)))
  | None => (inr (), c)
  end.

(** [txn.prepared("...")(...).exec()]. *)
Definition exec {A} (s : stmt A) : M A :=
  tick ;;; λ c,
    match s (tables c) with
    | (Some x, d) => (inr x, Conn d (committed c) (fault c))
    | (None, d) => (inl sql_error, Conn d (committed c) (fault c))
    end.

(** [txn.commit()]. *)
Definition commit : M unit := λ c,
  match fault c with
  | Some (O, false) => (inl std_exception, Conn (tables c) (committed c) None)
  | Some (O, true) => (inl std_exception, Conn (tables c) (tables c) None)
  | Some (S n, b) => (inr (), Conn (tables c) (tables c) (Some (n, b)))
  | None => (inr (), Conn (tables c) (tables c) None)
  end.

(** The scope of a [pqxx::work]: its constructor begins the transaction,
    its destructor rolls back what was not committed. *)
Definition with_work {A} (body : M A) : M A := λ c,
  match (tick ;;; body) (Conn (tables c) (tables c) (fault c)) with
  | (r, c) => (r, Conn (rollback (committed c) (tables c)) (committed c) (fault c))
  end.

(** [as<uint64_t>()] throws on a negative number. *)
Definition as_uint64 (v : Z) : M Z := if v <? 0 then m_throw std_exception else m_ret v.

(** The body of an operation that reports failure by [false]. *)
Definition false_on_error (m : M bool) : M bool := m_catch m (λ _, m_ret false).

Section Operations.
Context `{P : Pqxx}.

(** [server/src/hashing/hashing.cpp] *)
Definition hash_password (password : bytes) : bytes := SHA256 password.

Definition can_write (sender_id chat_id : Z) : M bool :=
  false_on_error (
    LET r := exec (stmt_check_sender_able_to_write_to_chat sender_id chat_id) IN
    m_ret (negb (bool_decide (r = [])))).

Definition pg_registration (name email password : bytes) : M bool :=
  false_on_error (with_work (
    exec (stmt_registration name email (hash_password password)) ;;;
    commit ;;;
    m_ret true)).

Definition pg_login (email password : bytes) : M (Z * bytes) :=
  m_catch
    (with_work (
      LET r := exec (stmt_login email) IN
      match r with
      | [] => m_throw invalid_argument
      | row :: rest =>
        if bool_decide (rest = []) &&
           negb (bool_decide (c_password_hash row = hash_password password))
        then m_throw invalid_argument
        else LET id := as_uint64 (c_id row) IN m_ret (id, c_name row)
      end))
    (λ e, m_throw (if decide (e = sql_error) then runtime_error else e)).

Definition pg_send_message (sender_id : Z) (mesg : MessageToSend.t) : M bool :=
  false_on_error (with_work (
    LET ok := can_write sender_id (MessageToSend.chat_id mesg) IN
    if negb ok then m_throw invalid_argument else
    exec (stmt_send_message sender_id (MessageToSend.chat_id mesg) (MessageToSend.text mesg)) ;;;
    commit ;;;
    m_ret true)).

Definition pg_add_contact (user_id : Z) (email : bytes) : M bool :=
  false_on_error (with_work (
    LET req := exec (stmt_get_user_by_email email) IN
    match req with
    | [] => m_ret false
    | (id, _) :: _ =>
      LET contact_id := as_uint64 id IN
      exec (stmt_add_contact user_id contact_id) ;;;
      exec (stmt_add_contact contact_id user_id) ;;;
      commit ;;;
      m_ret true
    end)).

(** The bytes of the string literal ["Chat with "]. *)
Definition chat_with : bytes :=
  [Byte.x43; Byte.x68; Byte.x61; Byte.x74; Byte.x20;
   Byte.x77; Byte.x69; Byte.x74; Byte.x68; Byte.x20].

(** [( *friend_info_req.begin())["name"].as<std::string>()]: on an empty
    result the runtime decides. *)
Definition first_name (rows : list (bytes * bytes)) : M bytes :=
  match rows with
  | (name, _) :: _ => m_ret name
  | [] => match missing_text with Some name => m_ret name | None => m_throw std_exception end
  end.

Definition pg_create_chat (user_id : Z) (user_name : bytes) (friend_id : Z) : M bool :=
  false_on_error (with_work (
    LET req := exec (stmt_check_users_have_common_chat user_id friend_id) IN
    if negb (bool_decide (req = [])) then m_ret false else
    LET id := exec stmt_create_chat IN
    LET chat_id := as_uint64 id IN
    LET friend_info_req := exec (stmt_get_info friend_id) IN
    LET name := first_name friend_info_req IN
    let users_title := chat_with ++ name in
    let friends_title := chat_with ++ user_name in
    exec (stmt_create_chat_connection user_id chat_id users_title) ;;;
    exec (stmt_create_chat_connection friend_id chat_id friends_title) ;;;
    commit ;;;
    m_ret true)).

(** The loops that fill a response row by row; [acc] is [*resp].  A
    throwing conversion leaves what was added so far, the element under
    construction included. *)
Fixpoint fill {Row Resp} (add : Resp → Row → Resp) (id : Row → Z)
    (partial : Resp → Row → Resp) (rows : list Row) (acc : Resp) : Resp :=
  match rows with
  | [] => acc
  | row :: rows =>
    if id row <? 0 then partial acc row else fill add id partial rows (add acc row)
  end.

Definition add_chat_row (resp : ChatsResponse.t) (row : Z * bytes) : ChatsResponse.t :=
  ChatsResponse.add_chats resp
    (Chat.set_title (Chat.set_chat_id Chat.SharedCtor (fst row)) (snd row)).

Definition add_contact_row (resp : ContactsResponse.t) (row : Z * bytes * bytes)
    : ContactsResponse.t :=
  ContactsResponse.add_contacts resp
    (Contact.set_email (Contact.set_name (Contact.set_user_id Contact.SharedCtor
       (fst (fst row))) (snd (fst row))) (snd row)).

Definition add_message_row (resp : MessagesResponse.t) (row : Z * bytes) : MessagesResponse.t :=
  MessagesResponse.add_messages resp
    (MessageToRecieve.set_text
       (MessageToRecieve.set_sender_id MessageToRecieve.SharedCtor (fst row)) (snd row)).

(** A query whose transaction commits before its rows are read. *)
Definition query {Row} (s : stmt (list Row)) : M (list Row) :=
  m_catch (with_work (LET r := exec s IN commit ;;; m_ret r)) (λ _, m_ret []).

Definition pg_get_chats (user_id : Z) : M ChatsResponse.t :=
  LET r := query (stmt_get_chats user_id) IN
  m_ret (fill add_chat_row fst
           (λ resp _, ChatsResponse.add_chats resp Chat.SharedCtor)
           r ChatsResponse.SharedCtor).

Definition pg_get_contacts (user_id : Z) : M ContactsResponse.t :=
  LET r := query (stmt_get_contacts user_id) IN
  m_ret (fill add_contact_row (λ row, fst (fst row))
           (λ resp _, ContactsResponse.add_contacts resp Contact.SharedCtor)
           r ContactsResponse.SharedCtor).

Definition pg_get_messages (chat_id : Z) : M MessagesResponse.t :=
  LET r := query (stmt_get_messages chat_id) IN
  m_ret (fill add_message_row fst
           (λ resp _, MessagesResponse.add_messages resp MessageToRecieve.SharedCtor)
           r MessagesResponse.SharedCtor).
End Operations.

(** ** The implementation of the contract

    Operations that never throw are run for their value. *)
Definition run_or {A} (dflt : A) (m : M A) (c : conn) : A * conn :=
  match m c with
  | (inr x, c) => (x, c)
  | (inl _, c) => (dflt, c)
  end.

#[export] Instance postgres_storage `{P : Pqxx} : AbstractStorageConnection conn := {|
  registration name email password := run_or false (pg_registration name email password);
  login := pg_login;
  send_message sender mesg := run_or false (pg_send_message sender mesg);
  add_contact user email := run_or false (pg_add_contact user email);
  create_chat user name friend := run_or false (pg_create_chat user name friend);
  get_chats user := run_or ChatsResponse.SharedCtor (pg_get_chats user);
  get_contacts user := run_or ContactsResponse.SharedCtor (pg_get_contacts user);
  get_messages chat := run_or MessagesResponse.SharedCtor (pg_get_messages chat)
|}.
