(* ===== verification/Transactions.v ===== *)
(** * Reasoning about transactions

    Triples for the state and exception monad of [Postgres.v], and what a
    whole operation does to the tables whatever the fault schedule: a rule
    per primitive, the rules of a [pqxx::work] scope, and [outcome], the
    contract that every operation answering [bool] is shown to meet. *)
From S2P Require Import Prelude Storage Database Postgres.

(** [triple P m Q X]: from a connection in [P], [m] returns [a] in [Q a] or
    throws in [X]. *)
Definition triple {A} (P : conn → Prop) (m : M A) (Q : A → conn → Prop) (X : conn → Prop) : Prop :=
  ∀ c, P c → match m c with (inr a, c') => Q a c' | (inl _, c') => X c' end.

(** The fault schedule can leave a commit in doubt. *)
Definition in_doubt (c : conn) : Prop := ∃ n, fault c = Some (n, true).

Section Rules.
Context {A B : Type}.
Implicit Types (P : conn → Prop) (X : conn → Prop).

Lemma triple_conseq P P' (m : M A) Q Q' X X' :
  triple P' m Q' X' → (∀ c, P c → P' c) → (∀ a c, Q' a c → Q a c) → (∀ c, X' c → X c) →
  triple P m Q X.
Proof. intros Ht HP HQ HX c Hc. specialize (Ht c (HP c Hc)). destruct (m c) as [[e|a] c']; auto. Qed.

Lemma triple_ret P (x : A) Q X : (∀ c, P c → Q x c) → triple P (m_ret x) Q X.
Proof. intros H c Hc. simpl. auto. Qed.

Lemma triple_throw P e (Q : A → conn → Prop) X : (∀ c, P c → X c) → triple P (m_throw e) Q X.
Proof. intros H c Hc. simpl. auto. Qed.

Lemma triple_bind P (m : M A) (f : A → M B) R Q X :
  triple P m R X → (∀ a, triple (R a) (f a) Q X) → triple P (m_bind m f) Q X.
Proof.
  intros Hm Hf c Hc. specialize (Hm c Hc). unfold m_bind.
  destruct (m c) as [[e|a] c']; [done|]. by apply Hf.
Qed.

Lemma triple_catch P (m : M A) h Q X X' :
  triple P m Q X' → (∀ e, triple X' (h e) Q X) → triple P (m_catch m h) Q X.
Proof.
  intros Hm Hh c Hc. specialize (Hm c Hc). unfold m_catch.
  destruct (m c) as [[e|a] c']; [|done]. by apply Hh.
Qed.
End Rules.

(** ** Inside a transaction

    [D] says that the schedule allows doubt, [saved] is the last committed
    database, [T] what is known of the tables the transaction sees. *)
Section Work.
Context (D : Prop) (saved : db).
Implicit Types (T : db → Prop).

(** The transaction is open. *)
Definition work_open T (c : conn) : Prop :=
  (in_doubt c → D) ∧ committed c = saved ∧ seq_le saved (tables c) ∧ T (tables c).

(** It is over: nothing was committed, or what [T] describes was, perhaps
    without the program knowing. *)
Definition work_lost T (c : conn) : Prop :=
  committed c = saved ∧ seq_le saved (tables c) ∨
  D ∧ committed c = tables c ∧ T (tables c).

Definition work_done T (c : conn) : Prop := committed c = tables c ∧ T (tables c).

Lemma triple_tick T E :
  triple (work_open T) tick (λ _, work_open T) (work_lost E).
Proof.
  intros c (Hd & Hc & Hs & HT). unfold tick, work_open, work_lost, in_doubt in *.
  destruct (fault c) as [[[|n] b]|] eqn:Hf; simpl.
  - by left.
  - split; [|done]. intros [k [= -> ->]]. eauto.
  - split; [|done]. rewrite Hf. by intros [].
Qed.

(** The tables after a statement that returned [x]. *)
Definition after {A} (s : stmt A) T (x : A) (d' : db) : Prop := ∃ d, T d ∧ s d = (Some x, d').

Lemma triple_exec {A} (s : stmt A) T E :
  (∀ d, seq_le d (s d).2) →
  triple (work_open T) (exec s) (λ x, work_open (after s T x)) (work_lost E).
Proof.
  intros Hseq. unfold exec. eapply triple_bind; [apply triple_tick|].
  intros _ c (Hd & Hc & Hle & HT). specialize (Hseq (tables c)).
  destruct (s (tables c)) as [[x|] d'] eqn:Hx; simpl in *.
  - refine (conj Hd (conj Hc (conj _ _))); simpl; [by etrans|]. by exists (tables c).
  - left. split; [done|]. by etrans.
Qed.

Lemma triple_commit T : triple (work_open T) commit (λ _, work_done T) (work_lost T).
Proof.
  intros c (Hd & Hc & Hs & HT). unfold commit, work_done, work_lost, in_doubt in *.
  destruct (fault c) as [[[|n] [|]]|] eqn:Hf; simpl; auto.
  right. split; [|done]. eauto.
Qed.
End Work.

(** [outcome D E d r d']: an operation on tables [d] answered [r] and left
    [d'].  [true] means that its effect [E] took place; [false] that nothing
    happened, or, if the schedule allows doubt, that the server committed and
    the connection broke before it could say so. *)
Definition outcome (D : Prop) (E : db → db → Prop) (d : db) (r : bool) (d' : db) : Prop :=
  if r then E d d' else unchanged d d' ∨ D ∧ E d d'.

(** What the body of an operation must establish. *)
Definition work_body (D : Prop) (E : db → db → Prop) (d : db) (body : M bool) : Prop :=
  triple (work_open D d (eq d)) body
    (λ r c, if r then work_done (E d) c else work_lost D d (E d) c)
    (work_lost D d (E d)).

Lemma lost_unchanged D d T c : work_lost D d T c →
  unchanged d (rollback (committed c) (tables c)) ∨ D ∧ T (rollback (committed c) (tables c)).
Proof.
  intros [[-> Hs]|(HD & -> & HT)].
  - left. by apply rollback_unchanged.
  - right. by rewrite rollback_self.
Qed.

Lemma operation_outcome E (body : M bool) c :
  (∀ D d, work_body D E d body) →
  ∃ r c', false_on_error (with_work body) c = (inr r, c') ∧
          outcome (in_doubt c) E (tables c) r (tables c').
Proof.
  intros Hbody. set (d := tables c). set (c0 := Conn d d (fault c)).
  assert (work_open (in_doubt c) d (eq d) c0) as Hopen.
  { split; [done|]. split; [done|]. by split. }
  pose proof (triple_bind _ tick (λ _, body) _ _ _
                (triple_tick (in_doubt c) d (eq d) (E d))
                (λ _, Hbody (in_doubt c) d) c0 Hopen) as Hrun.
  unfold false_on_error, m_catch, with_work. fold d c0.
  assert (∀ c1 : conn, work_lost (in_doubt c) d (E d) c1 →
    outcome (in_doubt c) E d false (rollback (committed c1) (tables c1))) as Hlost.
  { intros c1. apply lost_unchanged. }
  destruct ((tick ;;; body) c0) as [[e|r] c1].
  - eexists _, _. split; [done|]. by apply Hlost.
  - eexists _, _. split; [done|]. destruct r; [|by apply Hlost].
    destruct Hrun as [Heq HE]. simpl. by rewrite Heq, rollback_self.
Qed.

Lemma open_lost D d T E c : work_open D d T c → work_lost D d E c.
Proof. intros (_ & Hc & Hs & _). by left. Qed.

Lemma done_conseq (T E : db → Prop) c : work_done T c → (∀ d, T d → E d) → work_done E c.
Proof. intros [Hc HT] H. split; auto. Qed.

Lemma lost_conseq D d (T E : db → Prop) c :
  work_lost D d T c → (∀ d, T d → E d) → work_lost D d E c.
Proof. unfold work_lost. intros [H|(HD & Hc & HT)] HE; auto. Qed.

#[export] Hint Resolve open_lost done_conseq lost_conseq : elegram.

Lemma triple_as_uint64 D d v T E :
  triple (work_open D d T) (as_uint64 v)
    (λ x, work_open D d (λ d', T d' ∧ x = v ∧ 0 ≤ v)) (work_lost D d E).
Proof.
  unfold as_uint64. destruct (Z.ltb_spec v 0).
  - apply triple_throw. eauto with elegram.
  - apply triple_ret. intros c (H1 & H2 & H3 & H4). by split_and!.
Qed.

(** A transaction ends with its commit and the answer [true]. *)
Lemma triple_commit_true D d (T E : db → Prop) :
  (∀ d', T d' → E d') →
  triple (work_open D d T) (commit ;;; m_ret true)
    (λ r c, if r : bool then work_done E c else work_lost D d E c) (work_lost D d E).
Proof.
  intros HE. apply (triple_bind _ _ _ (λ _, work_done E)).
  - eapply triple_conseq; [apply triple_commit|done| |].
    + intros [] c H. exact (done_conseq _ _ _ H HE).
    + intros c H. exact (lost_conseq _ _ _ _ _ H HE).
  - intros _. by apply triple_ret.
Qed.

(** One statement of a body. *)
Ltac work_exec :=
  eapply triple_bind; [apply triple_exec; auto with elegram|]; simpl.
