(* ===== verification/Effects.v ===== *)
(** * What the operations of the storage do to the database

    The effect of each operation of [PostgresStorageConnection] that writes,
    as a relation between databases, and the proof that the operation has
    that effect or none, under every fault schedule. *)
From S2P Require Import Prelude Requests Responses Storage Database Postgres Transactions.

Section Effects.
Context `{P : Pqxx} {L : PqxxLaws P}.

(** ** The effects *)

(** A new client, with the next identifier. *)
Definition registered (name email password : bytes) (d d' : db) : Prop :=
  ∃ n e, sql_text name = Some n ∧ sql_text email = Some e ∧
    e ∉ emails d ∧ client_seq d ∉ client_ids d ∧ client_seq d ≤ int4_max ∧
    d' = Db (Client d ++ [ClientRow (client_seq d) n e (hash_password password)]) (Chat d)
            (ClientToChat d) (Message d) (ClientToContact d)
            (client_seq d + 1) (chat_seq d) (message_seq d).

(** A new message of a member of the chat. *)
Definition message_sent (sender : Z) (mesg : MessageToSend.t) (d d' : db) : Prop :=
  ∃ text, sql_text (MessageToSend.text mesg) = Some text ∧
    member d sender (MessageToSend.chat_id mesg) ∧
    sender ∈ client_ids d ∧ MessageToSend.chat_id mesg ∈ Chat d ∧
    message_seq d ∉ m_id <$> Message d ∧ message_seq d ≤ int8_max ∧
    d' = Db (Client d) (Chat d) (ClientToChat d)
            (Message d ++ [MessageRow (message_seq d) sender (MessageToSend.chat_id mesg) text])
            (ClientToContact d) (client_seq d) (chat_seq d) (message_seq d + 1).

(** Two different users become contacts of each other. *)
Definition befriended (user : Z) (email : bytes) (d d' : db) : Prop :=
  ∃ r e, sql_text email = Some e ∧ r ∈ Client d ∧ c_email r = e ∧
    user ≠ c_id r ∧ user ∈ client_ids d ∧ ¬ contact d user (c_id r) ∧ ¬ contact d (c_id r) user ∧
    d' = Db (Client d) (Chat d) (ClientToChat d) (Message d)
            (ClientToContact d ++ [ContactRow user (c_id r); ContactRow (c_id r) user])
            (client_seq d) (chat_seq d) (message_seq d).

(** A new chat with two members who had none in common. *)
Definition chat_created (user : Z) (user_name : bytes) (friend : Z) (d d' : db) : Prop :=
  ∃ r ut ft, r ∈ Client d ∧ c_id r = friend ∧
    sql_text (chat_with ++ c_name r) = Some ut ∧ sql_text (chat_with ++ user_name) = Some ft ∧
    (∀ c, member d user c → member d friend c → False) ∧
    user ∈ client_ids d ∧ chat_seq d ∉ Chat d ∧ chat_seq d ≤ int4_max ∧
    d' = Db (Client d) (Chat d ++ [chat_seq d])
            (ClientToChat d ++ [MemberRow user (chat_seq d) ut; MemberRow friend (chat_seq d) ft])
            (Message d) (ClientToContact d) (client_seq d) (chat_seq d + 1) (message_seq d).

(** ** Statements that succeed *)

Lemma select_Some {A} (q : db → option (list A)) d l d' :
  select q d = (Some l, d') ↔ (∃ l0, q d = Some l0 ∧ l = scan l0) ∧ d' = d.
Proof.
  unfold select. destruct (q d) as [l0|]; simpl.
  - split; [intros [= <- <-]; eauto|]. by intros [(? & [= ->] & ->) ->].
  - split; [done|]. by intros [(? & ? & _) _].
Qed.

Lemma select_same {A} (q : db → option (list A)) d : (select q d).2 = d.
Proof. done. Qed.

Lemma stmt_registration_Some name email hash d d' :
  stmt_registration name email hash d = (Some (), d') ↔
  ∃ n e, sql_text name = Some n ∧ sql_text email = Some e ∧
    e ∉ emails d ∧ client_seq d ∉ client_ids d ∧ client_seq d ≤ int4_max ∧
    d' = Db (Client d ++ [ClientRow (client_seq d) n e hash]) (Chat d)
            (ClientToChat d) (Message d) (ClientToContact d)
            (client_seq d + 1) (chat_seq d) (message_seq d).
Proof.
  unfold stmt_registration. split.
  - case_matches. intros [= <-]. apply orb_false_iff in H2 as [?%bool_decide_eq_false ?%bool_decide_eq_false].
    apply Z.ltb_ge in H1. eexists _, _. repeat split; done.
  - intros (n & e & -> & -> & He & Hid & Hs & ->).
    rewrite (proj2 (Z.ltb_ge _ _)) by done. cbn [client_ids emails Client].
    by rewrite !bool_decide_eq_false_2.
Qed.

Lemma stmt_send_message_Some sender chat mesg d d' :
  stmt_send_message sender chat mesg d = (Some (), d') ↔
  ∃ text, sender ≤ int4_max ∧ chat ≤ int4_max ∧ sql_text mesg = Some text ∧
    sender ∈ client_ids d ∧ chat ∈ Chat d ∧
    message_seq d ∉ m_id <$> Message d ∧ message_seq d ≤ int8_max ∧
    d' = Db (Client d) (Chat d) (ClientToChat d)
            (Message d ++ [MessageRow (message_seq d) sender chat text])
            (ClientToContact d) (client_seq d) (chat_seq d) (message_seq d + 1).
Proof.
  unfold stmt_send_message. split.
  - case_matches. intros [= <-].
    apply orb_false_iff in H3 as [[?%bool_decide_eq_false ?%bool_decide_eq_false]%orb_false_iff ?%bool_decide_eq_false].
    apply Z.ltb_ge in H2. apply int4_Some in H as [-> ?], H0 as [-> ?].
    eexists. repeat split; try done; by apply dec_stable.
  - intros (text & Hs & Hc & -> & Hsid & Hcid & Hid & Hseq & ->).
    rewrite !int4_ok by done. rewrite (proj2 (Z.ltb_ge _ _)) by done.
    cbn [client_ids Client Message Chat]. rewrite !bool_decide_eq_false_2; [done|tauto..|done].
Qed.

Lemma stmt_add_contact_Some user friend d d' :
  stmt_add_contact user friend d = (Some (), d') ↔
  user ≤ int4_max ∧ friend ≤ int4_max ∧
  user ∈ client_ids d ∧ friend ∈ client_ids d ∧ ¬ contact d user friend ∧
  d' = Db (Client d) (Chat d) (ClientToChat d) (Message d)
          (ClientToContact d ++ [ContactRow user friend])
          (client_seq d) (chat_seq d) (message_seq d).
Proof.
  unfold stmt_add_contact, contact. split.
  - case_matches. intros [= <-].
    apply orb_false_iff in H1 as [[?%bool_decide_eq_false ?%bool_decide_eq_false]%orb_false_iff ?%bool_decide_eq_false].
    apply int4_Some in H as [-> ?], H0 as [-> ?].
    repeat split; try done; by apply dec_stable.
  - intros (Hu & Hf & Hui & Hfi & Hc & ->).
    rewrite !int4_ok by done. rewrite !bool_decide_eq_false_2; [done|done|tauto..].
Qed.

Lemma stmt_create_chat_Some d id d' :
  stmt_create_chat d = (Some id, d') ↔
  id = chat_seq d ∧ id ∉ Chat d ∧ id ≤ int4_max ∧
  d' = Db (Client d) (Chat d ++ [id]) (ClientToChat d) (Message d) (ClientToContact d)
          (client_seq d) (id + 1) (message_seq d).
Proof.
  unfold stmt_create_chat. split.
  - case_matches. intros [= <- <-].
    apply bool_decide_eq_false in H0. apply Z.ltb_ge in H. done.
  - intros (-> & Hid & Hs & ->). rewrite (proj2 (Z.ltb_ge _ _)) by done.
    cbn [Chat]. by rewrite bool_decide_eq_false_2.
Qed.

Lemma stmt_create_chat_connection_Some user chat title d d' :
  stmt_create_chat_connection user chat title d = (Some (), d') ↔
  ∃ t, user ≤ int4_max ∧ chat ≤ int4_max ∧ sql_text title = Some t ∧
    user ∈ client_ids d ∧ chat ∈ Chat d ∧
    d' = Db (Client d) (Chat d) (ClientToChat d ++ [MemberRow user chat t])
            (Message d) (ClientToContact d) (client_seq d) (chat_seq d) (message_seq d).
Proof.
  unfold stmt_create_chat_connection. split.
  - case_matches. intros [= <-].
    apply orb_false_iff in H2 as [?%bool_decide_eq_false ?%bool_decide_eq_false].
    apply int4_Some in H as [-> ?], H0 as [-> ?].
    eexists. repeat split; try done; by apply dec_stable.
  - intros (t & Hu & Hc & -> & Hui & Hci & ->).
    rewrite !int4_ok by done. rewrite !bool_decide_eq_false_2; [done|tauto..].
Qed.

(** Rows a query returns. *)
Lemma elem_of_scan {A} (x : A) l : x ∈ scan l ↔ x ∈ l.
Proof. by rewrite scan_permutation. Qed.

Lemma scan_nil {A} (l : list A) : scan l = [] ↔ l = [].
Proof.
  split; intros H.
  - apply Permutation_nil. by rewrite <- H, scan_permutation.
  - apply Permutation_nil. by rewrite H, scan_permutation.
Qed.

Lemma elem_of_rows {A B} (f : A → B) (Q : A → Prop) `{∀ x, Decision (Q x)} y l :
  y ∈ scan (f <$> filter Q l) ↔ ∃ x, y = f x ∧ Q x ∧ x ∈ l.
Proof.
  rewrite elem_of_scan, list_elem_of_fmap. by setoid_rewrite list_elem_of_filter.
Qed.

Lemma rows_nil {A B} (f : A → B) (Q : A → Prop) `{∀ x, Decision (Q x)} l :
  scan (f <$> filter Q l) = [] ↔ ∀ x, x ∈ l → ¬ Q x.
Proof.
  rewrite scan_nil. split.
  - intros Hf%fmap_nil_inv x Hx HQ. apply (not_elem_of_nil x). rewrite <- Hf.
    by apply list_elem_of_filter.
  - intros Hn. destruct (filter Q l) as [|x l'] eqn:Hf; [done|].
    assert (x ∈ filter Q l) as [HQ Hx]%list_elem_of_filter by (rewrite Hf; left).
    by destruct (Hn x).
Qed.

Lemma user_by_email_rows email d l d' :
  stmt_get_user_by_email email d = (Some l, d') →
  d' = d ∧ ∃ e, sql_text email = Some e ∧
    ∀ id name, (id, name) ∈ l ↔ ∃ r, r ∈ Client d ∧ c_email r = e ∧ c_id r = id ∧ c_name r = name.
Proof.
  intros [(l0 & Hq & ->) ->]%select_Some. split; [done|]. revert Hq.
  destruct (sql_text email) as [e|]; [|done]. intros [= <-]. exists e. split; [done|].
  intros id name. rewrite elem_of_rows. naive_solver.
Qed.

Lemma info_rows id d l d' :
  stmt_get_info id d = (Some l, d') →
  d' = d ∧ ∀ name email, (name, email) ∈ l ↔
    ∃ r, r ∈ Client d ∧ c_id r = id ∧ c_name r = name ∧ c_email r = email.
Proof.
  intros [(l0 & Hq & ->) ->]%select_Some. split; [done|]. revert Hq.
  unfold mbind, option_bind. case_matches. intros [= <-]. apply int4_Some in H as [-> _].
  intros name email. rewrite elem_of_rows. naive_solver.
Qed.

Lemma able_to_write_rows user chat d l d' :
  stmt_check_sender_able_to_write_to_chat user chat d = (Some l, d') →
  d' = d ∧ (l ≠ [] ↔ member d user chat).
Proof.
  intros [(l0 & Hq & ->) ->]%select_Some. split; [done|]. revert Hq.
  unfold mbind, option_bind. case_matches. intros [= <-].
  apply int4_Some in H as [-> _], H0 as [-> _]. rewrite rows_nil. split.
  - intros Hn. destruct (decide (member d user chat)) as [|Hm]; [done|]. destruct Hn.
    intros x Hx [? ?]. apply Hm. by exists x.
  - intros (r & Hr & H1 & H2) Hn. by apply (Hn r).
Qed.

Lemma common_chat_rows user friend d l d' :
  stmt_check_users_have_common_chat user friend d = (Some l, d') →
  d' = d ∧ (l = [] ↔ ∀ c, member d user c → member d friend c → False).
Proof.
  intros [(l0 & Hq & ->) ->]%select_Some. split; [done|]. revert Hq.
  unfold mbind at 1 2, option_bind. case_matches. intros [= <-].
  apply int4_Some in H as [-> _], H0 as [-> _]. rewrite scan_nil.
  assert (∀ u c, c ∈ chats_of d u ↔ member d u c) as Hch.
  { intros u c. unfold chats_of, member. rewrite list_elem_of_fmap.
    setoid_rewrite list_elem_of_filter. naive_solver. }
  assert (∀ x : (), x ∈ (mine ← chats_of d user;
            (λ _, ()) <$> filter (λ c, mine = c) (chats_of d friend)) ↔
          ∃ c, member d user c ∧ member d friend c) as Hin.
  { intros []. rewrite list_elem_of_bind. split.
    - intros (c & (c2 & _ & [<- Hf]%list_elem_of_filter)%list_elem_of_fmap & Hc).
      exists c. by rewrite <- !Hch.
    - intros (c & Hu%Hch & Hf%Hch). exists c. split; [|done].
      apply list_elem_of_fmap. exists c. by rewrite list_elem_of_filter. }
  revert Hin. generalize (mine ← chats_of d user;
            (λ _, ()) <$> filter (λ c, mine = c) (chats_of d friend)).
  intros [|[] l] Hin; split.
  - intros _ c H1 H2. apply (not_elem_of_nil ()). apply Hin. eauto.
  - done.
  - done.
  - intros Hn. destruct (proj1 (Hin ())) as (c & H1 & H2); [left|]. by destruct (Hn c).
Qed.

(** Statements never move a sequence backwards. *)
Ltac sequences_advance := intros; unfold seq_le; case_matches; simpl; lia.

Lemma select_seq_le {A} (q : db → option (list A)) d : seq_le d (select q d).2.
Proof. sequences_advance. Qed.

Lemma stmt_registration_seq_le name email hash d :
  seq_le d (stmt_registration name email hash d).2.
Proof. unfold stmt_registration. sequences_advance. Qed.

Lemma stmt_send_message_seq_le sender chat mesg d :
  seq_le d (stmt_send_message sender chat mesg d).2.
Proof. unfold stmt_send_message. sequences_advance. Qed.

Lemma stmt_add_contact_seq_le user friend d : seq_le d (stmt_add_contact user friend d).2.
Proof. unfold stmt_add_contact. sequences_advance. Qed.

Lemma stmt_create_chat_seq_le d : seq_le d (stmt_create_chat d).2.
Proof. unfold stmt_create_chat. sequences_advance. Qed.

Lemma stmt_create_chat_connection_seq_le user chat title d :
  seq_le d (stmt_create_chat_connection user chat title d).2.
Proof. unfold stmt_create_chat_connection. sequences_advance. Qed.

#[local] Hint Resolve select_seq_le stmt_registration_seq_le stmt_send_message_seq_le
  stmt_add_contact_seq_le stmt_create_chat_seq_le stmt_create_chat_connection_seq_le : elegram.
#[local] Hint Extern 2 (seq_le _ _) => apply select_seq_le : elegram.

(** ** Each body has its effect *)

Lemma registration_body name email password D d :
  work_body D (registered name email password) d
    (exec (stmt_registration name email (hash_password password)) ;;; commit ;;; m_ret true).
Proof.
  work_exec. intros []. apply triple_commit_true.
  intros d' (? & <- & H). by apply stmt_registration_Some.
Qed.

Lemma triple_can_write sender chat D d T E X :
  triple (work_open D d T) (can_write sender chat)
    (λ r c, if r : bool then work_open D d (λ d', T d' ∧ member d' sender chat) c
            else work_lost D d E c) X.
Proof.
  unfold can_write, false_on_error. eapply triple_catch; [work_exec|].
  - intros l. apply triple_ret. intros c Hopen.
    case_bool_decide as Hl; simpl; [eauto with elegram|].
    destruct Hopen as (H1 & H2 & H3 & (d' & HT & [Ht Hm]%able_to_write_rows)).
    refine (conj H1 (conj H2 (conj H3 _))). rewrite Ht. split; [done|]. by apply Hm.
  - intros e. by apply triple_ret.
Qed.

Lemma send_message_body sender mesg D d :
  work_body D (message_sent sender mesg) d
    (LET ok := can_write sender (MessageToSend.chat_id mesg) IN
     if negb ok then m_throw invalid_argument else
     exec (stmt_send_message sender (MessageToSend.chat_id mesg) (MessageToSend.text mesg)) ;;;
     commit ;;; m_ret true).
Proof.
  eapply triple_bind; [apply triple_can_write|]. intros [|]; simpl; [|by apply triple_throw].
  work_exec. intros []. apply triple_commit_true.
  intros d' (? & (<- & Hm) & (text & _ & _ & H)%stmt_send_message_Some).
  exists text. tauto.
Qed.

Lemma add_contact_body user email D d :
  work_body D (befriended user email) d
    (LET req := exec (stmt_get_user_by_email email) IN
     match req with
     | [] => m_ret false
     | (id, _) :: _ =>
       LET contact_id := as_uint64 id IN
       exec (stmt_add_contact user contact_id) ;;;
       exec (stmt_add_contact contact_id user) ;;;
       commit ;;;
       m_ret true
     end).
Proof.
  work_exec. intros [|[id name] rest].
  { apply triple_ret. eauto with elegram. }
  eapply triple_bind; [apply triple_as_uint64|]. intros contact_id.
  work_exec. intros []. work_exec. intros []. apply triple_commit_true.
  intros d2 (d1 & (d0 & ((d' & <- & (-> & e & He & Hrows)%user_by_email_rows) & -> & _) & H1) & H2).
  destruct (proj1 (Hrows id name)) as (r & Hr & Hre & Hri & _); [left|].
  apply stmt_add_contact_Some in H1 as (_ & _ & Hu & _ & Hc1 & ->).
  apply stmt_add_contact_Some in H2 as (_ & _ & _ & _ & Hc2 & ->).
  unfold contact in Hc2. cbn in Hc2 |- *. exists r, e. subst id.
  rewrite elem_of_app, list_elem_of_singleton in Hc2.
  split_and!; try done; [|tauto|by rewrite <- app_assoc].
  intros ->. by destruct Hc2; right.
Qed.

Lemma triple_first_name rows D d T E :
  triple (work_open D d T) (first_name rows)
    (λ x, work_open D d (λ d', T d' ∧ (rows = [] ∨ ∃ email, (x, email) ∈ rows)))
    (work_lost D d E).
Proof.
  unfold first_name. destruct rows as [|[name email] rows].
  - destruct missing_text; [apply triple_ret|apply triple_throw; eauto with elegram].
    intros c (H1 & H2 & H3 & H4). split_and!; auto.
  - apply triple_ret. intros c (H1 & H2 & H3 & H4). split_and!; try done.
    right. exists email. left.
Qed.

Lemma create_chat_body user user_name friend D d :
  work_body D (chat_created user user_name friend) d
    (LET req := exec (stmt_check_users_have_common_chat user friend) IN
     if negb (bool_decide (req = [])) then m_ret false else
     LET id := exec stmt_create_chat IN
     LET chat_id := as_uint64 id IN
     LET friend_info_req := exec (stmt_get_info friend) IN
     LET name := first_name friend_info_req IN
     let users_title := chat_with ++ name in
     let friends_title := chat_with ++ user_name in
     exec (stmt_create_chat_connection user chat_id users_title) ;;;
     exec (stmt_create_chat_connection friend chat_id friends_title) ;;;
     commit ;;;
     m_ret true).
Proof.
  work_exec. intros req. case_bool_decide as Hreq; simpl;
    [|apply triple_ret; eauto with elegram].
  work_exec. intros id. eapply triple_bind; [apply triple_as_uint64|]. intros chat_id.
  work_exec. intros rows. eapply triple_bind; [apply triple_first_name|]. intros name.
  work_exec. intros []. work_exec. intros []. apply triple_commit_true.
  intros d5 (d4 & (d3 & ((d2 & ((d1 & (d0 & <- & Hcommon) & Hchat) & -> & _) & Hinfo) & Hname)
    & H1) & H2).
  apply common_chat_rows in Hcommon as [-> Hcommon].
  apply stmt_create_chat_Some in Hchat as (-> & Hfresh & Hmax & ->).
  apply info_rows in Hinfo as [-> Hinfo].
  apply stmt_create_chat_connection_Some in H1 as (ut & _ & _ & Hut & Hu & _ & ->).
  apply stmt_create_chat_connection_Some in H2 as (ft & _ & _ & Hft & Hf & _ & ->).
  cbn in *.
  assert (∃ r, r ∈ Client d ∧ c_id r = friend ∧ c_name r = name) as (r & Hr & Hrid & Hrn).
  { destruct Hname as [->|(email & Hin)].
    - apply list_elem_of_fmap in Hf as (r & -> & Hr).
      destruct (not_elem_of_nil (c_name r, c_email r)). apply Hinfo. eauto.
    - apply Hinfo in Hin as (r & ? & ? & ? & ?). eauto. }
  exists r, ut, ft. subst name. split_and!; try done; [by apply Hcommon|].
  by rewrite <- app_assoc.
Qed.
End Effects.
