(* ===== verification/Growth.v ===== *)
(** * The rows a transaction adds

    No statement of the program updates or deletes: all a transaction can do
    to the tables is to add [rows] to them.  The effects of [Effects.v] are
    stated here for rows added to tables that other transactions may have
    filled meanwhile (the identifier of a new row is fresh, and not
    necessarily the next one), and each keeps the tables well formed. *)
From S2P Require Import Prelude Requests Responses Storage Database Postgres Transactions.
From S2P Require Import Effects.

Record rows := Rows {
  new_clients : list client_row;
  new_chats : list Z;
  new_members : list member_row;
  new_messages : list message_row;
  new_contacts : list contact_row
}.

Definition no_rows : rows := Rows [] [] [] [] [].

(** Tables with the rows added. *)
Definition add_rows (d : db) (r : rows) : db :=
  Db (Client d ++ new_clients r) (Chat d ++ new_chats r) (ClientToChat d ++ new_members r)
     (Message d ++ new_messages r) (ClientToContact d ++ new_contacts r)
     (client_seq d) (chat_seq d) (message_seq d).

Lemma add_no_rows d : add_rows d no_rows = d.
Proof. destruct d. unfold add_rows. simpl. by rewrite !app_nil_r. Qed.

(** Rows added after others. *)
Definition and_then (r r' : rows) : rows :=
  Rows (new_clients r ++ new_clients r') (new_chats r ++ new_chats r')
       (new_members r ++ new_members r') (new_messages r ++ new_messages r')
       (new_contacts r ++ new_contacts r').

Lemma add_and_then d r r' : add_rows (add_rows d r) r' = add_rows d (and_then r r').
Proof. unfold add_rows. simpl. by rewrite !app_assoc. Qed.

(** ** Statements and the constraints of the schema *)

(** The [PRIMARY KEY] and [UNIQUE] constraints. *)
Record keys_ok (d : db) : Prop := {
  key_client : NoDup (client_ids d);
  key_email : NoDup (emails d);
  key_chat : NoDup (Chat d);
  key_message : NoDup (m_id <$> Message d);
  key_contact : NoDup (ClientToContact d)
}.

Lemma tables_ok_keys d : tables_ok d → keys_ok d.
Proof. intros [[] [] [] []]. by split. Qed.

Lemma keys_ok_same d d' : same_tables d d' → keys_ok d → keys_ok d'.
Proof.
  intros (H1 & H2 & H3 & H4 & H5) [].
  split; unfold client_ids, emails; by rewrite ?H1, ?H2, ?H4, ?H5.
Qed.

(** Rows with no key in common: of two transactions that insert the same
    key, PostgreSQL lets the second one wait for the end of the first. *)
Definition apart {A} (l k : list A) : Prop := Forall (λ x, x ∉ k) l.

Definition rows_apart (r r' : rows) : Prop :=
  apart (c_id <$> new_clients r) (c_id <$> new_clients r') ∧
  apart (c_email <$> new_clients r) (c_email <$> new_clients r') ∧
  apart (new_chats r) (new_chats r') ∧
  apart (m_id <$> new_messages r) (m_id <$> new_messages r') ∧
  apart (new_contacts r) (new_contacts r').

#[export] Instance rows_apart_dec r r' : Decision (rows_apart r r').
Proof. unfold rows_apart, apart. apply _. Defined.

Lemma apart_sym {A} (l k : list A) : apart l k → apart k l.
Proof. unfold apart. rewrite !Forall_forall. intros H x Hx Hl. by apply (H x). Qed.

Lemma rows_apart_sym r r' : rows_apart r r' → rows_apart r' r.
Proof. intros (?&?&?&?&?). split_and!; by apply apart_sym. Qed.

Lemma rows_apart_nil r : rows_apart no_rows r.
Proof. split_and!; apply Forall_nil_2. Qed.

Lemma NoDup_apart {A} (l k k' : list A) :
  NoDup (l ++ k) → NoDup (l ++ k') → apart k k' → NoDup ((l ++ k) ++ k').
Proof.
  unfold apart. rewrite Forall_forall, !NoDup_app. intros (H1 & H2 & H3) (_ & H4 & H5) H.
  split_and!; try done. intros x [Hx|Hx]%elem_of_app; [by apply H4|by apply H].
Qed.

Lemma keys_ok_apart d r r' :
  keys_ok (add_rows d r) → keys_ok (add_rows d r') → rows_apart r r' →
  keys_ok (add_rows (add_rows d r) r').
Proof.
  intros [] [] (? & ? & ? & ? & ?). split; unfold client_ids, emails in *; simpl in *;
    rewrite ?fmap_app in *; by apply NoDup_apart.
Qed.

(** The keys of one more row are new. *)
Lemma key_of_client d r : keys_ok (add_rows d (Rows [r] [] [] [] [])) →
  c_id r ∉ client_ids d ∧ c_email r ∉ emails d.
Proof.
  intros [Hid He _ _ _]. unfold client_ids, emails in *. simpl in *.
  rewrite fmap_app, NoDup_app in Hid. rewrite fmap_app, NoDup_app in He. simpl in *. set_solver.
Qed.

Lemma key_of_chat d id l : keys_ok (add_rows d (Rows [] [id] l [] [])) → id ∉ Chat d.
Proof. intros [_ _ Hid _ _]. simpl in *. rewrite NoDup_app in Hid. set_solver. Qed.

Lemma key_of_message d r : keys_ok (add_rows d (Rows [] [] [] [r] [])) → m_id r ∉ m_id <$> Message d.
Proof.
  intros [_ _ _ Hid _]. simpl in *. rewrite fmap_app, NoDup_app in Hid. simpl in *. set_solver.
Qed.

Lemma key_of_contacts d l : keys_ok (add_rows d (Rows [] [] [] [] l)) →
  NoDup l ∧ ∀ r, r ∈ l → r ∉ ClientToContact d.
Proof. intros [_ _ _ _ Hid]. simpl in *. rewrite NoDup_app in Hid. set_solver. Qed.

(** A statement adds rows, within the constraints, and may advance the
    sequences. *)
Definition inserts {A} (s : stmt A) : Prop :=
  ∀ d, seq_le d (s d).2 ∧ (keys_ok d → keys_ok (s d).2) ∧
       ∃ r, same_tables (add_rows d r) (s d).2.

Section Inserts.
Context `{P : Pqxx} {L : PqxxLaws P}.

Lemma inserts_nothing d : seq_le d d ∧ (keys_ok d → keys_ok d) ∧
  ∃ r, same_tables (add_rows d r) d.
Proof. split_and!; [done|done|]. exists no_rows. by rewrite add_no_rows. Qed.

(** A statement that fails may have drawn a number. *)
Lemma inserts_failed d d' : seq_le d d' → same_tables d d' →
  seq_le d d' ∧ (keys_ok d → keys_ok d') ∧ ∃ r, same_tables (add_rows d r) d'.
Proof.
  intros Hs Ht. split_and!; [done|by apply keys_ok_same|]. exists no_rows. by rewrite add_no_rows.
Qed.

Lemma select_inserts {A} (q : db → option (list A)) : inserts (select q).
Proof. intros d. apply inserts_nothing. Qed.

Ltac failed_insert :=
  apply inserts_failed; [unfold seq_le; simpl; lia|by split_and!].

Lemma stmt_registration_inserts name email hash : inserts (stmt_registration name email hash).
Proof.
  intros d. unfold stmt_registration.
  destruct (sql_text name) as [n|]; [|apply inserts_nothing].
  destruct (sql_text email) as [e|]; [|apply inserts_nothing].
  destruct (_ <? _); [apply inserts_nothing|].
  destruct (_ || _) eqn:Hk; [failed_insert|].
  apply orb_false_iff in Hk as [?%bool_decide_eq_false ?%bool_decide_eq_false].
  split_and!; [unfold seq_le; simpl; lia| |].
  - intros []. split; unfold client_ids, emails in *; simpl in *; rewrite ?fmap_app; try done;
      apply NoDup_app; (split_and!; [done|set_solver|apply NoDup_singleton]).
  - exists (Rows [ClientRow (client_seq d) n e hash] [] [] [] []). split_and!; simpl;
      by rewrite ?app_nil_r.
Qed.

Lemma stmt_send_message_inserts sender chat mesg : inserts (stmt_send_message sender chat mesg).
Proof.
  intros d. unfold stmt_send_message.
  destruct (int4 sender) as [s|]; [|apply inserts_nothing].
  destruct (int4 chat) as [c|]; [|apply inserts_nothing].
  destruct (sql_text mesg) as [t|]; [|apply inserts_nothing].
  destruct (_ <? _); [apply inserts_nothing|].
  destruct (_ || _) eqn:Hk; [failed_insert|].
  apply orb_false_iff in Hk as [[?%bool_decide_eq_false _]%orb_false_iff _].
  split_and!; [unfold seq_le; simpl; lia| |].
  - intros []. split; unfold client_ids, emails in *; simpl in *; rewrite ?fmap_app; try done.
    apply NoDup_app; (split_and!; [done|set_solver|apply NoDup_singleton]).
  - exists (Rows [] [] [] [MessageRow (message_seq d) s c t] []). split_and!; simpl;
      by rewrite ?app_nil_r.
Qed.

Lemma stmt_add_contact_inserts user friend : inserts (stmt_add_contact user friend).
Proof.
  intros d. unfold stmt_add_contact.
  destruct (int4 user) as [u|]; [|apply inserts_nothing].
  destruct (int4 friend) as [f|]; [|apply inserts_nothing].
  destruct (_ || _) eqn:Hk; [apply inserts_nothing|].
  apply orb_false_iff in Hk as [_ ?%bool_decide_eq_false].
  split_and!; [done| |].
  - intros []. split; unfold client_ids, emails in *; simpl in *; try done.
    apply NoDup_app; (split_and!; [done|set_solver|apply NoDup_singleton]).
  - exists (Rows [] [] [] [] [ContactRow u f]). split_and!; simpl; by rewrite ?app_nil_r.
Qed.

Lemma stmt_create_chat_inserts : inserts stmt_create_chat.
Proof.
  intros d. unfold stmt_create_chat. destruct (_ <? _); [apply inserts_nothing|].
  case_bool_decide as Hk; [failed_insert|].
  split_and!; [unfold seq_le; simpl; lia| |].
  - intros []. split; unfold client_ids, emails in *; simpl in *; try done.
    apply NoDup_app; (split_and!; [done|set_solver|apply NoDup_singleton]).
  - exists (Rows [] [chat_seq d] [] [] []). split_and!; simpl; by rewrite ?app_nil_r.
Qed.

Lemma stmt_create_chat_connection_inserts user chat title :
  inserts (stmt_create_chat_connection user chat title).
Proof.
  intros d. unfold stmt_create_chat_connection.
  destruct (int4 user) as [u|]; [|apply inserts_nothing].
  destruct (int4 chat) as [c|]; [|apply inserts_nothing].
  destruct (sql_text title) as [t|]; [|apply inserts_nothing].
  destruct (_ || _); [apply inserts_nothing|].
  split_and!; [done| |].
  - intros []. by split.
  - exists (Rows [] [] [MemberRow u c t] [] []). split_and!; simpl; by rewrite ?app_nil_r.
Qed.
End Inserts.

#[export] Hint Resolve select_inserts stmt_registration_inserts stmt_send_message_inserts
  stmt_add_contact_inserts stmt_create_chat_inserts stmt_create_chat_connection_inserts : elegram.
#[export] Hint Extern 2 (inserts _) => apply select_inserts : elegram.

(** ** The effects, as rows *)

Section Effects.
Context `{P : Pqxx} {L : PqxxLaws P}.

(** A client with an identifier and an email nobody has. *)
Definition adds_client (name email password : bytes) (d : db) (r : rows) : Prop :=
  ∃ id n e, sql_text name = Some n ∧ sql_text email = Some e ∧
    e ∉ emails d ∧ id ∉ client_ids d ∧ 1 ≤ id ≤ int4_max ∧ id < client_seq d ∧
    r = Rows [ClientRow id n e (hash_password password)] [] [] [] [].

(** A message of a member of the chat. *)
Definition adds_message (sender : Z) (mesg : MessageToSend.t) (d : db) (r : rows) : Prop :=
  ∃ id text, sql_text (MessageToSend.text mesg) = Some text ∧
    member d sender (MessageToSend.chat_id mesg) ∧
    id ∉ m_id <$> Message d ∧ 1 ≤ id < message_seq d ∧
    r = Rows [] [] [] [MessageRow id sender (MessageToSend.chat_id mesg) text] [].

(** Two different users, in both directions. *)
Definition adds_contact (user : Z) (email : bytes) (d : db) (r : rows) : Prop :=
  ∃ f e, sql_text email = Some e ∧ f ∈ Client d ∧ c_email f = e ∧
    user ≠ c_id f ∧ user ∈ client_ids d ∧ ¬ contact d user (c_id f) ∧ ¬ contact d (c_id f) user ∧
    r = Rows [] [] [] [] [ContactRow user (c_id f); ContactRow (c_id f) user].

(** A chat of two users, who may have one already.  Its title for the first
    one is the name of the other, unless the other registered between the
    query for the name and the insertion. *)
Definition friend_name (f : client_row) (name : bytes) : Prop :=
  name = c_name f ∨ missing_text = Some name.

Definition adds_chat (user : Z) (user_name : bytes) (friend : Z) (d : db) (r : rows) : Prop :=
  ∃ f id name ut ft, f ∈ Client d ∧ c_id f = friend ∧ friend_name f name ∧
    sql_text (chat_with ++ name) = Some ut ∧ sql_text (chat_with ++ user_name) = Some ft ∧
    user ∈ client_ids d ∧ id ∉ Chat d ∧ 1 ≤ id ≤ int4_max ∧ id < chat_seq d ∧
    r = Rows [] [id] [MemberRow user id ut; MemberRow friend id ft] [] [].

Definition adds_nothing (d : db) (r : rows) : Prop := r = no_rows.

Lemma NoDup_snoc {A} (l : list A) x : NoDup l → x ∉ l → NoDup (l ++ [x]).
Proof.
  intros Hl Hx. apply NoDup_app. split_and!; [done| |apply NoDup_singleton].
  intros y Hy ->%list_elem_of_singleton. done.
Qed.

Lemma elem_of_snoc {A} (l : list A) x y : x ∈ l ++ [y] ↔ x ∈ l ∨ x = y.
Proof. by rewrite elem_of_app, list_elem_of_singleton. Qed.

Lemma subseteq_client_ids d l : client_ids d ⊆ c_id <$> Client d ++ l.
Proof. unfold client_ids. rewrite fmap_app. set_solver. Qed.

Lemma adds_client_ok name email password d r :
  adds_client name email password d r → tables_ok d → tables_ok (add_rows d r).
Proof.
  intros (id & n & e & _ & _ & He & Hid & Hmax & Hlt & ->) [[Hseq Hids Hfresh Hemails] Hch Hco Hme].
  split.
  - split; unfold client_ids, emails in *; simpl; rewrite ?fmap_app;
      [lia|by apply NoDup_snoc| |by apply NoDup_snoc].
    intros r [Hr| ->]%elem_of_snoc; [specialize (Hfresh r Hr)|]; simpl; lia.
  - revert Hch. apply chats_ok_mono; simpl; rewrite ?app_nil_r; try done.
    apply subseteq_client_ids.
  - revert Hco. apply contacts_ok_mono; simpl; rewrite ?app_nil_r; try done.
    apply subseteq_client_ids.
  - revert Hme. apply messages_ok_mono; unfold member; simpl; by rewrite ?app_nil_r.
Qed.

Lemma adds_message_ok sender mesg d r :
  adds_message sender mesg d r → tables_ok d → tables_ok (add_rows d r).
Proof.
  intros (id & text & _ & Hm & Hid & Hlt & ->) [Hcl Hch Hco [Hseq Hids Hfresh Hmem]].
  split.
  - revert Hcl. apply clients_ok_mono; simpl; by rewrite ?app_nil_r.
  - revert Hch. apply chats_ok_mono; unfold client_ids; simpl; by rewrite ?app_nil_r.
  - revert Hco. apply contacts_ok_mono; unfold client_ids; simpl; by rewrite ?app_nil_r.
  - split; unfold member in *; simpl; rewrite ?fmap_app, ?app_nil_r; [lia|by apply NoDup_snoc| |].
    + intros r [Hr| ->]%elem_of_snoc; [specialize (Hfresh r Hr)|]; simpl; lia.
    + intros r [Hr| ->]%elem_of_snoc; [by apply Hmem|done].
Qed.

Lemma adds_contact_ok user email d r :
  adds_contact user email d r → tables_ok d → tables_ok (add_rows d r).
Proof.
  intros (f & e & _ & Hf & _ & Hne & Hu & Hc1 & Hc2 & ->) [Hcl Hch [Huser Hnd Hsym Hirr] Hme].
  unfold contact in *. split.
  - revert Hcl. apply clients_ok_mono; simpl; by rewrite ?app_nil_r.
  - revert Hch. apply chats_ok_mono; unfold client_ids; simpl; by rewrite ?app_nil_r.
  - split; unfold contact, client_ids; simpl; rewrite ?app_nil_r.
    + intros r [Hr|[-> | [-> | []%elem_of_nil]%elem_of_cons]%elem_of_cons]%elem_of_app;
        [by apply Huser|done|].
      apply list_elem_of_fmap. eauto.
    + apply NoDup_app. split_and!; [done|set_solver|].
      apply NoDup_cons. split; [|apply NoDup_singleton].
      intros [= ? ?]%list_elem_of_singleton. done.
    + intros u v. specialize (Hsym u v). set_solver.
    + intros u. specialize (Hirr u). set_solver.
  - revert Hme. apply messages_ok_mono; unfold member; simpl; by rewrite ?app_nil_r.
Qed.

Lemma members_of_app d d' l chat :
  ClientToChat d' = ClientToChat d ++ l →
  members_of d' chat = members_of d chat ++ filter (λ r, cc_chat_id r = chat) l.
Proof. intros H. unfold members_of. by rewrite H, filter_app. Qed.

Lemma adds_chat_two_members user user_name friend d r :
  chats_ok d → adds_chat user user_name friend d r →
  ∀ id, id ∈ Chat (add_rows d r) → length (members_of (add_rows d r) id) = 2%nat.
Proof.
  intros [_ _ _ _ Hmc Htwo] (f & id & name & ut & ft & _ & _ & _ & _ & _ & _ & Hid & _ & _ & ->) i Hin.
  erewrite members_of_app by done. cbn [new_members]. rewrite !filter_cons, filter_nil. simpl.
  apply elem_of_snoc in Hin as [Hin| ->].
  - rewrite !decide_False by (by intros ->). rewrite app_nil_r. auto.
  - rewrite !decide_True by done. rewrite length_app.
    destruct (members_of d id) as [|m l] eqn:Hm; [done|].
    assert (m ∈ members_of d id) as [Hr ?]%list_elem_of_filter by (rewrite Hm; left).
    destruct Hid. subst id. auto.
Qed.

Lemma adds_chat_ok user user_name friend d r :
  adds_chat user user_name friend d r → tables_ok d → tables_ok (add_rows d r).
Proof.
  intros Hc [Hcl Hch Hco Hme]. pose proof (adds_chat_two_members _ _ _ _ _ Hch Hc) as Htwo.
  destruct Hc as (f & id & name & ut & ft & Hf & <- & _ & _ & _ & Hu & Hid & Hmax & Hlt & ->).
  split.
  - revert Hcl. apply clients_ok_mono; simpl; by rewrite ?app_nil_r.
  - destruct Hch as [Hseq Hnd Hfresh Hmu Hmc _].
    split; unfold client_ids in *; simpl in *; rewrite ?app_nil_r; try done.
    + by apply NoDup_snoc.
    + intros i [Hin| ->]%elem_of_snoc; [specialize (Hfresh i Hin)|]; lia.
    + intros r [Hr|[-> |[-> |[]%elem_of_nil]%elem_of_cons]%elem_of_cons]%elem_of_app;
        [by apply Hmu|done|].
      apply list_elem_of_fmap. eauto.
    + intros r [Hr|Hr]%elem_of_app; apply elem_of_snoc; [left; auto|right]. set_solver.
  - revert Hco. apply contacts_ok_mono; unfold client_ids; simpl; by rewrite ?app_nil_r.
  - revert Hme. apply messages_ok_mono; unfold member; simpl; rewrite ?app_nil_r; try done.
    set_solver.
Qed.

(** Who is a member after a chat was added. *)
Lemma adds_chat_member user user_name friend d r u c :
  adds_chat user user_name friend d r →
  member (add_rows d r) u c ↔
  member d u c ∨ c ∈ new_chats r ∧ (u = user ∨ u = friend).
Proof.
  intros (f & id & name & ut & ft & _ & _ & _ & _ & _ & _ & _ & _ & _ & ->). unfold member. simpl.
  rewrite list_elem_of_singleton. split.
  - intros (r & [Hr|Hr]%elem_of_app & <- & <-); [by left; exists r|].
    apply elem_of_cons in Hr as [-> |[-> |[]%elem_of_nil]%elem_of_cons]; auto.
  - intros [(r & Hr & ? & ?)|[-> [-> | ->]]].
    + exists r. set_solver.
    + exists (MemberRow user id ut). set_solver.
    + exists (MemberRow friend id ft). set_solver.
Qed.

(** The chat is the only one of its members if they had none. *)
Lemma adds_chat_one_chat user user_name friend d r :
  chats_ok d → one_chat d → adds_chat user user_name friend d r →
  (∀ c, member d user c → member d friend c → False) → one_chat (add_rows d r).
Proof.
  intros Hok Hone Hc Hcommon u v c1 c2 Huv. specialize (Hone u v c1 c2 Huv).
  rewrite !(adds_chat_member _ _ _ _ _ _ _ Hc).
  destruct Hc as (f & id & name & ut & ft & _ & _ & _ & _ & _ & _ & Hid & _ & _ & ->). simpl.
  rewrite !list_elem_of_singleton.
  assert (∀ w c, member d w c → c = id → False) as Hold.
  { intros w c (m & Hm & _ & <-) Heq. apply Hid. rewrite <- Heq. by apply (ok_member_chat d Hok). }
  assert (∀ c, u = user ∨ u = friend → v = user ∨ v = friend →
    member d u c → member d v c → False) as Hno.
  { intros c [-> | ->] [-> | ->] ??; by (destruct (Hcommon c) || destruct Huv). }
  intros [H1|[-> H1]] [H2|[He H2]] [H3|[-> H3]] [H4|[He' H4]]; auto;
    exfalso; eauto.
Qed.
End Effects.
