(* ===== verification/Invariants.v ===== *)
(** * The invariant of the database under every operation

    Each effect of [Effects.v] adds rows as in [Growth.v] and keeps [db_ok], so
    every operation does, under every fault schedule. *)
From S2P Require Import Prelude Requests Responses Storage Database Postgres Transactions.
From S2P Require Import Effects Growth.

Section Invariants.
Context `{P : Pqxx} {L : PqxxLaws P}.

Lemma fresh_client d : tables_ok d → client_seq d ∉ client_ids d.
Proof.
  intros Hok Hin. apply list_elem_of_fmap in Hin as (r & Hid & Hr).
  pose proof (ok_client_fresh d Hok r Hr). lia.
Qed.

Lemma fresh_chat d : tables_ok d → chat_seq d ∉ Chat d.
Proof. intros Hok Hin. pose proof (ok_chat_fresh d Hok _ Hin). lia. Qed.

Lemma fresh_message d : tables_ok d → message_seq d ∉ m_id <$> Message d.
Proof.
  intros Hok Hin. apply list_elem_of_fmap in Hin as (r & Hid & Hr).
  pose proof (ok_message_fresh d Hok r Hr). lia.
Qed.

Lemma member_is_user d u c : tables_ok d → member d u c → u ∈ client_ids d.
Proof. intros Hok (r & Hr & <- & _). by apply (ok_member_user d Hok). Qed.

Lemma member_is_chat d u c : tables_ok d → member d u c → c ∈ Chat d.
Proof. intros Hok (r & Hr & _ & <-). by apply (ok_member_chat d Hok). Qed.

(** Each effect adds the rows of [Growth.v]; between the statement that draws
    a number and the commit only the sequences move. *)
Definition advanced (E : db → rows → Prop) (d d' : db) : Prop :=
  ∃ r, E (rollback d d') r ∧ d' = add_rows (rollback d d') r.

Lemma registered_adds name email password d d' :
  registered name email password d d' → clients_ok d →
  advanced (adds_client name email password) d d'.
Proof.
  intros (n & e & Hn & He & Hnin & Hid & Hmax & ->) Hok. pose proof (ok_client_seq d Hok).
  eexists. split.
  - exists (client_seq d), n, e. split_and!; try done; simpl; lia.
  - unfold add_rows. simpl. by rewrite !app_nil_r.
Qed.

Lemma message_sent_adds sender mesg d d' :
  message_sent sender mesg d d' → messages_ok d → advanced (adds_message sender mesg) d d'.
Proof.
  intros (text & Ht & Hm & _ & _ & Hid & _ & ->) Hok. pose proof (ok_message_seq d Hok).
  eexists. split.
  - exists (message_seq d), text. split_and!; try done; simpl; lia.
  - unfold add_rows. simpl. by rewrite !app_nil_r.
Qed.

Lemma befriended_adds user email d d' :
  befriended user email d d' → advanced (adds_contact user email) d d'.
Proof.
  intros (f & e & He & Hf & Hfe & Hne & Hu & H1 & H2 & ->). eexists. split.
  - exists f, e. by split_and!.
  - unfold add_rows. simpl. by rewrite !app_nil_r.
Qed.

Lemma chat_created_adds user user_name friend d d' :
  chat_created user user_name friend d d' → chats_ok d →
  advanced (adds_chat user user_name friend) d d'.
Proof.
  intros (f & ut & ft & Hf & Hfid & Hut & Hft & _ & Hu & Hid & Hmax & ->) Hok.
  pose proof (ok_chat_seq d Hok). eexists. split.
  - exists f, (chat_seq d), (c_name f), ut, ft. split_and!; try done; simpl; try lia. by left.
  - unfold add_rows. simpl. by rewrite !app_nil_r.
Qed.

(** So an effect keeps the tables well formed if its rows do. *)
Lemma advanced_ok E d d' :
  (∀ d r, E d r → tables_ok d → tables_ok (add_rows d r)) →
  seq_le d d' → advanced E d d' → tables_ok d → tables_ok d'.
Proof.
  intros HE Hs (r & HEr & ->) Hok. apply HE; [done|].
  apply (tables_ok_unchanged d); [|done]. by apply rollback_unchanged.
Qed.

Lemma registered_ok name email password d d' :
  registered name email password d d' → db_ok d → db_ok d'.
Proof.
  intros Hr [Hok Hone]. split.
  - apply (advanced_ok (adds_client name email password) d); [exact (adds_client_ok _ _ _)| | |done].
    + destruct Hr as (?&?&_&_&_&_&_&->). unfold seq_le. simpl. lia.
    + apply registered_adds; [done|apply Hok].
  - destruct Hr as (?&?&_&_&_&_&_&->). by apply (one_chat_mono d).
Qed.

Lemma message_sent_ok sender mesg d d' :
  message_sent sender mesg d d' → db_ok d → db_ok d'.
Proof.
  intros Hm [Hok Hone]. split.
  - apply (advanced_ok (adds_message sender mesg) d); [exact (adds_message_ok _ _)| | |done].
    + destruct Hm as (?&_&_&_&_&_&_&->). unfold seq_le. simpl. lia.
    + apply message_sent_adds; [done|apply Hok].
  - destruct Hm as (?&_&_&_&_&_&_&->). by apply (one_chat_mono d).
Qed.

Lemma befriended_ok user email d d' :
  befriended user email d d' → db_ok d → db_ok d'.
Proof.
  intros Hb [Hok Hone]. split.
  - apply (advanced_ok (adds_contact user email) d); [exact (adds_contact_ok _ _)| | |done].
    + destruct Hb as (?&?&_&_&_&_&_&_&_&->). unfold seq_le. simpl. lia.
    + by apply befriended_adds.
  - destruct Hb as (?&?&_&_&_&_&_&_&_&->). by apply (one_chat_mono d).
Qed.

(** The members after a chat was created. *)
Lemma chat_created_member user user_name friend d d' u c :
  chat_created user user_name friend d d' → chats_ok d →
  member d' u c ↔ member d u c ∨ c = chat_seq d ∧ (u = user ∨ u = friend).
Proof.
  intros Hc Hok. destruct (chat_created_adds _ _ _ _ _ Hc Hok) as (r & Hr & Heq).
  assert (∀ x, x ∈ new_chats r ↔ x = chat_seq d) as Hnew.
  { destruct Hc as (?&?&?&_&_&_&_&_&_&_&_&Hd).
    apply (f_equal Chat) in Hd, Heq. rewrite Heq in Hd. simpl in Hd.
    intros y. apply app_inv_head in Hd. rewrite Hd. apply list_elem_of_singleton. }
  rewrite Heq, (adds_chat_member _ _ _ _ _ _ _ Hr), Hnew. done.
Qed.

Lemma chat_created_one_chat user user_name friend d d' :
  chats_ok d → one_chat d → chat_created user user_name friend d d' → one_chat d'.
Proof.
  intros Hok Hone Hc. destruct (chat_created_adds _ _ _ _ _ Hc Hok) as (r & Hr & ->).
  destruct Hc as (f & ut & ft & _ & _ & _ & _ & Hcommon & _ & _ & _ & Hd).
  apply (adds_chat_one_chat user user_name friend); try done.
  revert Hok. apply chats_ok_mono; try done. rewrite Hd. simpl. lia.
Qed.

Lemma chat_created_ok user user_name friend d d' :
  chat_created user user_name friend d d' → db_ok d → db_ok d'.
Proof.
  intros Hc [Hok Hone]. split.
  - apply (advanced_ok (adds_chat user user_name friend) d); [exact (adds_chat_ok _ _ _)| | |done].
    + destruct Hc as (?&?&?&_&_&_&_&_&_&_&_&->). unfold seq_le. simpl. lia.
    + apply chat_created_adds; [done|apply Hok].
  - by apply (chat_created_one_chat user user_name friend d); [apply Hok|..].
Qed.
End Invariants.
