(* ===== verification/Completeness.v ===== *)
(** * What the operations do when nothing fails

    On a connection that stays up, each operation has its effect whenever
    the effect is possible, and the answer of a query is determined by the
    tables. *)
From S2P Require Import Prelude Requests Responses Storage Database Postgres Transactions.
From S2P Require Import Effects Growth Invariants.

(** A connection that stays up. *)
Definition healthy (d : db) : conn := Conn d d None.

Section Running.
Context {A B : Type}.

Lemma run_exec (s : stmt A) (k : A → M B) x d d' saved :
  s d = (Some x, d') →
  m_bind (exec s) k (Conn d saved None) = k x (Conn d' saved None).
Proof. intros Hs. unfold exec, tick, m_bind. simpl. by rewrite Hs. Qed.

Lemma run_exec_fail (s : stmt A) (k : A → M B) d d' saved :
  s d = (None, d') →
  m_bind (exec s) k (Conn d saved None) = (inl sql_error, Conn d' saved None).
Proof. intros Hs. unfold exec, tick, m_bind. simpl. by rewrite Hs. Qed.

Lemma run_uint64 (k : Z → M B) v c : 0 ≤ v → m_bind (as_uint64 v) k c = k v c.
Proof. intros Hv. unfold m_bind, as_uint64. destruct (Z.ltb_spec v 0); [lia|done]. Qed.

(** A body that commits leaves what it did, one that does not leaves the
    saved tables. *)
Lemma run_work_committed (body : M A) d x d' :
  body (healthy d) = (inr x, healthy d') →
  with_work body (healthy d) = (inr x, healthy d').
Proof.
  unfold healthy, with_work, m_bind. simpl. intros ->. simpl. by rewrite rollback_self.
Qed.
End Running.

Lemma NoDup_fmap_eq {A B} (f : A → B) l x y :
  NoDup (f <$> l) → x ∈ l → y ∈ l → f x = f y → x = y.
Proof.
  induction l as [|z l IH]; [by intros _ []%elem_of_nil|].
  rewrite fmap_cons, NoDup_cons. intros [Hz Hnd] Hx Hy Heq.
  apply elem_of_cons in Hx as [-> |Hx], Hy as [-> |Hy]; auto.
  - destruct Hz. rewrite Heq. by apply list_elem_of_fmap_2.
  - destruct Hz. rewrite <- Heq. by apply list_elem_of_fmap_2.
Qed.

Lemma email_unique d r r' : tables_ok d → r ∈ Client d → r' ∈ Client d → c_email r = c_email r' → r = r'.
Proof. intros Hok. apply NoDup_fmap_eq, (ok_emails d Hok). Qed.

Lemma id_unique d r r' : tables_ok d → r ∈ Client d → r' ∈ Client d → c_id r = c_id r' → r = r'.
Proof. intros Hok. apply NoDup_fmap_eq, (ok_client_ids d Hok). Qed.

Lemma user_int4 d u : tables_ok d → u ∈ client_ids d → 1 ≤ u ≤ int4_max.
Proof.
  intros Hok (r & -> & Hr)%list_elem_of_fmap. pose proof (ok_client_fresh d Hok r Hr). lia.
Qed.

Lemma chat_int4 d c : tables_ok d → c ∈ Chat d → 1 ≤ c ≤ int4_max.
Proof. intros Hok Hc. pose proof (ok_chat_fresh d Hok c Hc). lia. Qed.

Section Completeness.
Context `{P : Pqxx} {L : PqxxLaws P}.

Lemma run_registration name email password d d' :
  registered name email password d d' →
  pg_registration name email password (healthy d) = (inr true, healthy d').
Proof.
  intros Hr%stmt_registration_Some. unfold pg_registration, false_on_error, m_catch.
  erewrite run_work_committed; [done|]. unfold healthy. by erewrite run_exec.
Qed.

(** A query in a transaction that goes on. *)
Lemma run_rows {X A} (q : db → option (list X)) (k : list X → M A) l d saved :
  q d = Some l → m_bind (exec (select q)) k (Conn d saved None) = k (scan l) (Conn d saved None).
Proof. intros Hq. apply run_exec. unfold select. by rewrite Hq. Qed.

Lemma run_can_write {A} sender chat (k : bool → M A) d saved :
  db_ok d → member d sender chat →
  m_bind (can_write sender chat) k (Conn d saved None) = k true (Conn d saved None).
Proof.
  intros Hok Hm. unfold m_bind at 1, can_write, false_on_error, m_catch.
  pose proof (user_int4 d sender Hok (member_is_user d _ _ Hok Hm)).
  pose proof (chat_int4 d chat Hok (member_is_chat d _ _ Hok Hm)).
  unfold stmt_check_sender_able_to_write_to_chat.
  erewrite run_rows; [|rewrite !int4_ok by lia; reflexivity]. simpl.
  rewrite bool_decide_eq_false_2; [done|]. rewrite rows_nil. intros Hn.
  destruct Hm as (r & Hr & H1 & H2). by apply (Hn r).
Qed.

Lemma run_send_message sender mesg d d' :
  db_ok d → message_sent sender mesg d d' →
  pg_send_message sender mesg (healthy d) = (inr true, healthy d').
Proof.
  intros Hok (text & Ht & Hm & Hs & Hc & Hid & Hmax & Hd').
  unfold pg_send_message, false_on_error, m_catch.
  erewrite run_work_committed; [done|]. unfold healthy.
  rewrite run_can_write by done. simpl. erewrite run_exec; [done|].
  apply stmt_send_message_Some. exists text.
  pose proof (user_int4 d sender Hok Hs). pose proof (chat_int4 d _ Hok Hc).
  split_and!; done || lia.
Qed.

Lemma filter_unique {A} (Q : A → Prop) `{∀ x, Decision (Q x)} l r :
  NoDup l → r ∈ l → Q r → (∀ x, x ∈ l → Q x → x = r) → filter Q l = [r].
Proof.
  intros Hnd Hr HQ Huniq. apply Permutation_singleton_r. apply NoDup_Permutation.
  - by apply NoDup_filter.
  - apply NoDup_singleton.
  - intros x. rewrite list_elem_of_filter, list_elem_of_singleton. split.
    + intros [? ?]. by apply Huniq.
    + by intros ->.
Qed.

Lemma clients_NoDup d : tables_ok d → NoDup (Client d).
Proof. intros Hok. apply (NoDup_fmap_1 c_id), (ok_client_ids d Hok). Qed.

Lemma filter_email d r e : tables_ok d → r ∈ Client d → c_email r = e →
  filter (λ r, c_email r = e) (Client d) = [r].
Proof.
  intros Hok Hr <-. apply filter_unique; try done; [by apply clients_NoDup|].
  intros x Hx. by apply (email_unique d).
Qed.

Lemma filter_id d r i : tables_ok d → r ∈ Client d → c_id r = i →
  filter (λ r, c_id r = i) (Client d) = [r].
Proof.
  intros Hok Hr <-. apply filter_unique; try done; [by apply clients_NoDup|].
  intros x Hx. by apply (id_unique d).
Qed.

Lemma scan_singleton {A} (x : A) : scan [x] = [x].
Proof. apply Permutation_singleton_r, scan_permutation. Qed.

Lemma run_add_contact user email d d' :
  db_ok d → befriended user email d d' →
  pg_add_contact user email (healthy d) = (inr true, healthy d').
Proof.
  intros Hok (r & e & He & Hr & Hre & Hne & Hu & Hc1 & Hc2 & Hd').
  unfold pg_add_contact, false_on_error, m_catch.
  pose proof (ok_client_fresh d Hok r Hr) as Hid. pose proof (user_int4 d user Hok Hu).
  assert (c_id r ∈ client_ids d) as Hru by (apply list_elem_of_fmap; eauto).
  erewrite run_work_committed; [done|]. unfold healthy, stmt_get_user_by_email.
  erewrite run_rows; [|rewrite He; simpl; by rewrite (filter_email d r e)].
  rewrite fmap_cons, fmap_nil, scan_singleton, run_uint64 by lia.
  erewrite run_exec by (apply stmt_add_contact_Some; split_and!; try done; lia).
  erewrite run_exec; [done|]. apply stmt_add_contact_Some. rewrite Hd'. cbn.
  split_and!; try done; try lia.
  - unfold contact in *. cbn. rewrite elem_of_snoc. intros [?|[= ? ?]]; done.
  - by rewrite <- app_assoc.
Qed.

Lemma run_create_chat user user_name friend d d' :
  db_ok d → chat_created user user_name friend d d' →
  pg_create_chat user user_name friend (healthy d) = (inr true, healthy d').
Proof.
  intros Hok (r & ut & ft & Hr & Hrf & Hut & Hft & Hcommon & Hu & Hid & Hmax & Hd').
  unfold pg_create_chat, false_on_error, m_catch.
  assert (friend ∈ client_ids d) as Hf by (apply list_elem_of_fmap; eauto).
  pose proof (user_int4 d user Hok Hu). pose proof (user_int4 d friend Hok Hf).
  pose proof (ok_chat_seq d Hok).
  erewrite run_work_committed; [done|]. unfold healthy.
  destruct (stmt_check_users_have_common_chat user friend d) as [[l|] d0] eqn:Hl.
  2: { unfold stmt_check_users_have_common_chat, select in Hl.
       by rewrite !int4_ok in Hl by lia. }
  destruct (common_chat_rows _ _ _ _ _ Hl) as [-> Hnil].
  erewrite run_exec by done. rewrite bool_decide_eq_true_2 by (by apply Hnil). simpl.
  erewrite run_exec by (by apply stmt_create_chat_Some).
  rewrite run_uint64 by lia. unfold stmt_get_info.
  erewrite run_rows; [|rewrite int4_ok by lia; simpl; by rewrite (filter_id d r friend)].
  rewrite fmap_cons, fmap_nil, scan_singleton. simpl first_name. unfold m_bind at 1, m_ret at 1.
  erewrite run_exec.
  2: { apply stmt_create_chat_connection_Some. exists ut.
       split_and!; try done; try lia. apply elem_of_snoc. by right. }
  erewrite run_exec; [done|]. apply stmt_create_chat_connection_Some. exists ft.
  rewrite Hd'. cbn. split_and!; try done; try lia.
  - apply elem_of_snoc. by right.
  - by rewrite <- app_assoc.
Qed.
End Completeness.
