(* ===== verification/PostgresSpec.v ===== *)
(** * The PostgreSQL storage meets its contract

    The properties of [PostgresStorageConnection], through the operations of
    the instance [postgres_storage]. *)
From S2P Require Import Prelude Requests Responses Storage Database Postgres Transactions.
From S2P Require Import Effects Growth Invariants Completeness.

(** ** Operations that only read *)

Section ReadOnly.
Definition reading (d : db) (c : conn) : Prop := tables c = d ∧ committed c = d.

Definition reads_only {A} (m : M A) : Prop := ∀ d, triple (reading d) m (λ _, reading d) (reading d).

Lemma reads_only_bind {A B} (m : M A) (f : A → M B) :
  reads_only m → (∀ a, reads_only (f a)) → reads_only (m_bind m f).
Proof. intros Hm Hf d. eapply triple_bind; [apply Hm|]. intros a. apply Hf. Qed.

Lemma reads_only_ret {A} (x : A) : reads_only (m_ret x).
Proof. intros d. by apply triple_ret. Qed.

Lemma reads_only_throw {A} e : reads_only (@m_throw A e).
Proof. intros d. by apply triple_throw. Qed.

Lemma reads_only_catch {A} (m : M A) h :
  reads_only m → (∀ e, reads_only (h e)) → reads_only (m_catch m h).
Proof. intros Hm Hh d. eapply triple_catch; [apply Hm|]. intros e. apply Hh. Qed.

Lemma reads_only_tick : reads_only tick.
Proof. intros d c [? ?]. unfold tick. by destruct (fault c) as [[[|n] b]|]. Qed.

Lemma reads_only_commit : reads_only commit.
Proof.
  intros d c [? ?]. unfold commit, reading.
  by destruct (fault c) as [[[|n] [|]]|]; simpl; subst.
Qed.

Lemma reads_only_select `{Pqxx} {A} (q : db → option (list A)) : reads_only (exec (select q)).
Proof.
  apply reads_only_bind; [apply reads_only_tick|]. intros _ d c [? ?].
  unfold select. by destruct (q (tables c)).
Qed.


Lemma reads_only_uint64 v : reads_only (as_uint64 v).
Proof. unfold as_uint64. case_match; [apply reads_only_throw|apply reads_only_ret]. Qed.

Lemma reads_only_work {A} (m : M A) c :
  reads_only m → tables (with_work m c).2 = tables c.
Proof.
  intros Hm. unfold with_work.
  pose proof (reads_only_bind _ _ reads_only_tick (λ _, Hm) (tables c)
                (Conn (tables c) (tables c) (fault c)) (conj eq_refl eq_refl)) as H.
  destruct ((tick ;;; m) _) as [[e|a] c']; simpl in *; destruct H as [-> ->];
    by rewrite rollback_self.
Qed.
End ReadOnly.

#[export] Hint Resolve reads_only_bind reads_only_ret reads_only_throw reads_only_catch
  reads_only_tick reads_only_commit reads_only_uint64 : elegram.
#[export] Hint Extern 2 (reads_only (exec _)) => apply reads_only_select : elegram.

Section Spec.
Context `{P : Pqxx} {L : PqxxLaws P}.

(** ** Logging in *)

(** The answer of a login on a connection that stays up. *)
Definition login_answer (d : db) (email password : bytes) : exn + Z * bytes :=
  match filter (λ r, c_email r = email) (Client d) with
  | [] => inl invalid_argument
  | r :: _ =>
      if decide (c_password_hash r = SHA256 password) then inr (c_id r, c_name r)
      else inl invalid_argument
  end.

Lemma filter_nil_or_unique d e : tables_ok d →
  filter (λ r, c_email r = e) (Client d) = [] ∨
  ∃ r, r ∈ Client d ∧ c_email r = e ∧ filter (λ r, c_email r = e) (Client d) = [r].
Proof.
  intros Hok. destruct (filter _ _) as [|r l] eqn:Hf; [by left|right].
  assert (r ∈ filter (λ r, c_email r = e) (Client d)) as [He Hr]%list_elem_of_filter
    by (rewrite Hf; left).
  exists r. split_and!; try done. rewrite <- Hf. by apply filter_email.
Qed.

Lemma login_answer_cases d e password :
  login_answer d e password = inl invalid_argument ∨
  ∃ r, r ∈ Client d ∧ c_email r = e ∧ c_password_hash r = SHA256 password ∧
       login_answer d e password = inr (c_id r, c_name r).
Proof.
  unfold login_answer. destruct (filter _ _) as [|r l] eqn:Hf; [by left|].
  case_decide; [right|by left].
  assert (r ∈ filter (λ r, c_email r = e) (Client d)) as [He Hr]%list_elem_of_filter
    by (rewrite Hf; left). eauto.
Qed.

Definition login_rows {A} (password : bytes) (r : list client_row) (k : client_row → M A) : M A :=
  match r with
  | [] => m_throw invalid_argument
  | row :: rest =>
    if bool_decide (rest = []) && negb (bool_decide (c_password_hash row = hash_password password))
    then m_throw invalid_argument
    else k row
  end.

Lemma run_login_rows d e password c :
  tables_ok d →
  (login_rows password (scan (filter (λ r, c_email r = e) (Client d)))
     (λ row, LET id := as_uint64 (c_id row) IN m_ret (id, c_name row))) c =
  (login_answer d e password, c).
Proof.
  intros Hok. unfold login_answer, login_rows.
  destruct (filter_nil_or_unique d e Hok) as [->|(r & Hr & Hre & ->)].
  - by rewrite (proj2 (scan_nil []) eq_refl).
  - rewrite scan_singleton. cbv beta iota.
    pose proof (ok_client_fresh d Hok r Hr). unfold hash_password.
    rewrite (bool_decide_eq_true_2 ([] = [])) by done. rewrite andb_true_l. case_decide.
    + rewrite bool_decide_eq_true_2 by done. simpl. by rewrite run_uint64 by lia.
    + by rewrite bool_decide_eq_false_2.
Qed.

Lemma run_login d email password e :
  db_ok d → quote_text email = Some e →
  pg_login email password (healthy d) = (login_answer d e password, healthy d).
Proof.
  intros Hok He. unfold pg_login, with_work, m_catch, stmt_login. cbn [tables committed fault healthy].
  unfold m_bind at 1. cbn [tick fault].
  erewrite run_rows; [|by rewrite He].
  rewrite (run_login_rows d e password _ Hok).
  destruct (login_answer_cases d e password) as [->|(r & _ & _ & _ & ->)]; simpl;
    by rewrite rollback_self.
Qed.

Lemma login_reads email password c : tables (login email password c).2 = tables c.
Proof.
  cbn [login postgres_storage]. unfold pg_login, m_catch.
  pose proof (reads_only_work (LET r := exec (stmt_login email) IN
        match r with
        | [] => m_throw invalid_argument
        | row :: rest =>
          if bool_decide (rest = []) &&
             negb (bool_decide (c_password_hash row = hash_password password))
          then m_throw invalid_argument
          else LET id := as_uint64 (c_id row) IN m_ret (id, c_name row)
        end) c) as Hw.
  destruct (with_work _ c) as [[ex|x] c']; simpl in *; apply Hw;
    (apply reads_only_bind; [auto with elegram|]; intros [|row rest]; [auto with elegram|];
     case_match; auto with elegram).
Qed.
Lemma triple_select {A} (q : db → option (list A)) d :
  triple (reading d) (exec (select q))
    (λ l c, reading d c ∧ ∃ l0, q d = Some l0 ∧ l = scan l0) (λ _, True).
Proof.
  intros c [Ht Hc]. unfold exec, m_bind, tick, select, reading.
  destruct (fault c) as [[[|n] b]|]; simpl; rewrite ?Ht; try done;
    destruct (q d); simpl; eauto.
Qed.

(** A login that succeeds, whatever breaks, answers with the user whose
    email and password were given. *)
Lemma login_sound email password c :
  db_ok (tables c) →
  match (pg_login email password c).1 with
  | inr (id, name) => ∃ e, quote_text email = Some e ∧
      login_answer (tables c) e password = inr (id, name)
  | inl _ => True
  end.
Proof.
  intros Hok. set (d := tables c) in *.
  assert (triple (reading d) (tick ;;; LET r := exec (stmt_login email) IN
      login_rows password r (λ row, LET id := as_uint64 (c_id row) IN m_ret (id, c_name row)))
    (λ x _, ∃ e, quote_text email = Some e ∧ login_answer d e password = inr x)
    (λ _, True)) as Ht.
  { eapply triple_bind; [by eapply triple_conseq; [apply (reads_only_tick d)|..]|]. intros [].
    eapply triple_bind; [apply triple_select|].
    intros l c1 [_ (l0 & Hq & Hl)]. revert Hq.
    destruct (quote_text email) as [e|]; [|done]. intros [= <-]. rewrite Hl.
    rewrite run_login_rows by done.
    destruct (login_answer_cases d e password) as [Ha|(r & _ & _ & _ & Ha)]; rewrite Ha; eauto. }
  specialize (Ht (Conn d d (fault c)) (conj eq_refl eq_refl)).
  unfold pg_login, m_catch, with_work. fold d. unfold login_rows in Ht.
  destruct ((tick ;;; _) (Conn d d (fault c))) as [[ex|[id name]] c']; [done|]. exact Ht.
Qed.

(** ** Queries *)

(** The answer of a query: its rows in some order, or none if the connection
    broke; the tables are what they were. *)
Definition query_answer {A} (c : conn) (rows : list A) (answer : list A) (c' : conn) : Prop :=
  tables c' = tables c ∧ (answer ≡ₚ rows ∨ answer = [] ∧ fault c ≠ None).

Lemma query_rows {Row} (q : db → option (list Row)) c :
  ∃ rows c', query (select q) c = (inr rows, c') ∧ tables c' = tables c ∧
    ((∃ l, q (tables c) = Some l ∧ rows = scan l) ∨
     rows = [] ∧ (fault c ≠ None ∨ q (tables c) = None)).
Proof.
  unfold query, with_work, exec, m_catch, m_bind, tick, commit, select, m_ret.
  destruct c as [d com f]. simpl.
  destruct f as [[[|[|[|n]]] [|]]|]; simpl; try destruct (q d) as [l|]; simpl;
    eexists _, _; (split; [done|]); simpl; rewrite ?rollback_self; (split; [done|]);
    first [by left; eauto | by right; split; [|left] | by right; split; [|right]].
Qed.

Lemma fill_all {Row Resp} (add : Resp → Row → Resp) id partial rows acc :
  (∀ row, row ∈ rows → 0 ≤ id row) → fill add id partial rows acc = fold_left add rows acc.
Proof.
  revert acc. induction rows as [|row rows IH]; intros acc Hid; simpl; [done|].
  destruct (Z.ltb_spec (id row) 0) as [Hneg|_].
  - specialize (Hid row ltac:(left)). lia.
  - apply IH. intros r Hr. apply Hid. by right.
Qed.

(** The elements a row becomes. *)
Definition chat_of_row (row : Z * bytes) : Chat.t :=
  {| Chat.chat_id := row.1; Chat.title := row.2 |}.
Definition contact_of_row (row : Z * bytes * bytes) : Contact.t :=
  {| Contact.user_id := row.1.1; Contact.name := row.1.2; Contact.email := row.2 |}.
Definition message_of_row (row : Z * bytes) : MessageToRecieve.t :=
  {| MessageToRecieve.sender_id := row.1; MessageToRecieve.text := row.2 |}.

Lemma fold_add_chats rows acc :
  ChatsResponse.chats (fold_left add_chat_row rows acc) =
  ChatsResponse.chats acc ++ (chat_of_row <$> rows).
Proof.
  revert acc. induction rows as [|row rows IH]; intros [l]; simpl; [by rewrite app_nil_r|].
  rewrite IH. simpl. by rewrite <- app_assoc.
Qed.

Lemma fold_add_contacts rows acc :
  ContactsResponse.contacts (fold_left add_contact_row rows acc) =
  ContactsResponse.contacts acc ++ (contact_of_row <$> rows).
Proof.
  revert acc. induction rows as [|row rows IH]; intros [l]; simpl; [by rewrite app_nil_r|].
  rewrite IH. simpl. by rewrite <- app_assoc.
Qed.

Lemma fold_add_messages rows acc :
  MessagesResponse.messages (fold_left add_message_row rows acc) =
  MessagesResponse.messages acc ++ (message_of_row <$> rows).
Proof.
  revert acc. induction rows as [|row rows IH]; intros [l]; simpl; [by rewrite app_nil_r|].
  rewrite IH. simpl. by rewrite <- app_assoc.
Qed.

(** The rows of each query. *)
Definition chat_rows (d : db) (user : Z) : list (Z * bytes) :=
  (λ r, (cc_chat_id r, cc_title r)) <$> filter (λ r, cc_client_id r = user) (ClientToChat d).
Definition message_rows (d : db) (chat : Z) : list (Z * bytes) :=
  (λ r, (m_sender_id r, m_mesg r)) <$> filter (λ r, m_chat_id r = chat) (Message d).
Definition contact_rows (d : db) (user : Z) : list (Z * bytes * bytes) :=
  (λ r, (c_id r, c_name r, c_email r)) <$> filter (λ r, contact d user (c_id r)) (Client d).

Lemma filter_out {A} (Q : A → Prop) `{∀ x, Decision (Q x)} l :
  (∀ x, x ∈ l → ¬ Q x) → filter Q l = [].
Proof.
  intros Hn. destruct (filter Q l) as [|x k] eqn:Hf; [done|].
  assert (x ∈ filter Q l) as [HQ Hx]%list_elem_of_filter by (rewrite Hf; left).
  by destruct (Hn x).
Qed.

Lemma int4_None v : int4 v = None → int4_max < v.
Proof. unfold int4. destruct (Z.leb_spec v int4_max); done. Qed.

(** A query on [int4] rows answers even if its parameter is out of range:
    nothing matches it. *)
Lemma int4_rows {Row} (rows : Z → list Row) v :
  (int4_max < v → rows v = []) →
  (∃ l, (v ← int4 v; Some (rows v)) = Some l ∧ l = rows v) ∨
  (v ← int4 v; Some (rows v)) = None ∧ rows v = [].
Proof.
  intros Hout. destruct (int4 v) as [w|] eqn:Hv.
  - apply int4_Some in Hv as [-> _]. left. simpl. eauto.
  - right. split; [done|]. by apply Hout, int4_None.
Qed.

Lemma query_int4_rows {Row Elt} (rows : db → Z → list Row) (f : Row → Elt) v c :
  (int4_max < v → rows (tables c) v = []) →
  ∃ l c', query (select (λ d, v ← int4 v; Some (rows d v))) c = (inr l, c') ∧
    (∀ row, row ∈ l → row ∈ rows (tables c) v) ∧
    query_answer c (f <$> rows (tables c) v) (f <$> l) c'.
Proof.
  intros Hout. destruct (query_rows (λ d, v ← int4 v; Some (rows d v)) c)
    as (l & c' & -> & Ht & Hrows).
  exists l, c'. split; [done|]. unfold query_answer.
  pose proof (int4_rows (rows (tables c)) v Hout) as Hint.
  destruct Hrows as [(k & Hk & ->)|[-> Hnone]].
  - destruct Hint as [(k' & Hk' & ->)|[Hk' _]]; rewrite Hk in Hk'; [|done].
    injection Hk' as ->. split.
    + intros row. by rewrite elem_of_scan.
    + split; [done|]. left. by rewrite scan_permutation.
  - split; [by intros row []%elem_of_nil|]. split; [done|].
    destruct Hnone as [Hf|Hn]; [by right|left].
    destruct Hint as [(k' & Hk' & ->)|[_ Hk']]; [by rewrite Hn in Hk'|]. by rewrite Hk'.
Qed.

Lemma contact_join_rows d user : tables_ok d → contact_join d user ≡ₚ contact_rows d user.
Proof.
  intros Hok. unfold contact_join, contact_rows. apply NoDup_Permutation.
  - apply NoDup_bind.
    + intros c1 c2 y _ _ (r1 & Hy & [H1 _]%list_elem_of_filter)%list_elem_of_fmap
        (r2 & Hy' & [H2 _]%list_elem_of_filter)%list_elem_of_fmap. congruence.
    + intros c _. apply NoDup_fmap_2_strong; [|by apply NoDup_filter, clients_NoDup].
      intros r1 r2 [_ H1]%list_elem_of_filter [_ H2]%list_elem_of_filter [= He _ _].
      by apply (id_unique d).
    + apply NoDup_fmap_2_strong; [|apply NoDup_filter, (ok_contact_unique d Hok)].
      intros [u1 f1] [u2 f2] [H1 _]%list_elem_of_filter [H2 _]%list_elem_of_filter.
      cbn in *. congruence.
  - apply NoDup_fmap_2_strong; [|by apply NoDup_filter, clients_NoDup].
    intros r1 r2 [_ H1]%list_elem_of_filter [_ H2]%list_elem_of_filter [= He _ _].
    by apply (id_unique d).
  - intros y. rewrite list_elem_of_bind, list_elem_of_fmap.
    setoid_rewrite list_elem_of_fmap. setoid_rewrite list_elem_of_filter. split.
    + intros (c & (r & -> & <- & Hr) & ([u f] & Hid & Hu & Hf)). exists r.
      simpl in *. subst. by split_and!.
    + intros (r & -> & Hc & Hr). exists (c_id r). split; [by exists r|].
      exists (ContactRow user (c_id r)). by split_and!.
Qed.

(** Sequences do not matter. *)
Lemma chat_rows_same d d' user : same_tables d d' → chat_rows d' user = chat_rows d user.
Proof. intros (_ & _ & Hm & _). unfold chat_rows. by rewrite Hm. Qed.

Lemma contact_rows_same d d' user : same_tables d d' → contact_rows d' user = contact_rows d user.
Proof.
  intros (Hc & _ & _ & _ & Hf). unfold contact_rows, contact. rewrite Hc. f_equal.
  apply list_filter_iff. intros r. by rewrite Hf.
Qed.

Lemma message_rows_same d d' chat : same_tables d d' → message_rows d' chat = message_rows d chat.
Proof. intros (_ & _ & _ & Hm & _). unfold message_rows. by rewrite Hm. Qed.

(** No row matches a parameter no identifier can have. *)
Lemma chat_rows_out d user : tables_ok d → int4_max < user → chat_rows d user = [].
Proof.
  intros Hok Hu. unfold chat_rows. rewrite filter_out; [done|]. intros r Hr <-.
  pose proof (user_int4 d _ Hok (ok_member_user d Hok r Hr)). lia.
Qed.

Lemma message_rows_out d chat : tables_ok d → int4_max < chat → message_rows d chat = [].
Proof.
  intros Hok Hc. unfold message_rows. rewrite filter_out; [done|]. intros r Hr <-.
  pose proof (chat_int4 d _ Hok (member_is_chat d _ _ Hok (ok_message_member d Hok r Hr))). lia.
Qed.

Lemma contact_join_out d user : tables_ok d → int4_max < user → contact_join d user = [].
Proof.
  intros Hok Hu. unfold contact_join. rewrite filter_out; [done|]. intros r Hr <-.
  pose proof (user_int4 d _ Hok (ok_contact_user d Hok r Hr)). lia.
Qed.

Lemma chat_rows_ids d user row : tables_ok d → row ∈ chat_rows d user → 0 ≤ row.1.
Proof.
  intros Hok (r & -> & [_ Hr]%list_elem_of_filter)%list_elem_of_fmap.
  pose proof (chat_int4 d _ Hok (ok_member_chat d Hok r Hr)). simpl. lia.
Qed.

Lemma message_rows_ids d chat row : tables_ok d → row ∈ message_rows d chat → 0 ≤ row.1.
Proof.
  intros Hok (r & -> & [_ Hr]%list_elem_of_filter)%list_elem_of_fmap.
  pose proof (user_int4 d _ Hok (member_is_user d _ _ Hok (ok_message_member d Hok r Hr))).
  simpl. lia.
Qed.

Lemma contact_rows_ids d user row : tables_ok d → row ∈ contact_join d user → 0 ≤ row.1.1.
Proof.
  intros Hok. rewrite contact_join_rows by done.
  intros (r & -> & [_ Hr]%list_elem_of_filter)%list_elem_of_fmap.
  pose proof (ok_client_fresh d Hok r Hr). simpl. lia.
Qed.
End Spec.

(** ** The contract *)

Section Contract.
Context `{P : Pqxx} {L : PqxxLaws P}.

Lemma run_or_outcome E (m : M bool) c :
  (∃ r c', m c = (inr r, c') ∧ outcome (in_doubt c) E (tables c) r (tables c')) →
  outcome (in_doubt c) E (tables c) (run_or false m c).1 (tables (run_or false m c).2).
Proof. unfold run_or. by intros (r & c' & -> & Ho). Qed.

Lemma registration_outcome name email password c :
  outcome (in_doubt c) (registered name email password) (tables c)
    (registration name email password c).1 (tables (registration name email password c).2).
Proof. apply run_or_outcome, operation_outcome. intros. apply registration_body. Qed.

Lemma send_message_outcome sender mesg c :
  outcome (in_doubt c) (message_sent sender mesg) (tables c)
    (send_message sender mesg c).1 (tables (send_message sender mesg c).2).
Proof. apply run_or_outcome, operation_outcome. intros. apply send_message_body. Qed.

Lemma add_contact_outcome user email c :
  outcome (in_doubt c) (befriended user email) (tables c)
    (add_contact user email c).1 (tables (add_contact user email c).2).
Proof. apply run_or_outcome, operation_outcome. intros. apply add_contact_body. Qed.

Lemma create_chat_outcome user name friend c :
  outcome (in_doubt c) (chat_created user name friend) (tables c)
    (create_chat user name friend c).1 (tables (create_chat user name friend c).2).
Proof. apply run_or_outcome, operation_outcome. intros. apply create_chat_body. Qed.

Lemma get_chats_reads user c : tables (get_chats user c).2 = tables c.
Proof.
  cbn [get_chats postgres_storage]. unfold run_or, pg_get_chats, m_bind.
  destruct (query_rows (λ d, user ← int4 user; Some (chat_rows d user)) c) as (l & c' & Hq & Ht & _).
  unfold stmt_get_chats. unfold chat_rows in Hq. rewrite Hq. done.
Qed.

Lemma get_contacts_reads user c : tables (get_contacts user c).2 = tables c.
Proof.
  cbn [get_contacts postgres_storage]. unfold run_or, pg_get_contacts, m_bind.
  destruct (query_rows (λ d, user ← int4 user; Some (contact_join d user)) c)
    as (l & c' & Hq & Ht & _).
  unfold stmt_get_contacts. rewrite Hq. done.
Qed.

Lemma get_messages_reads chat c : tables (get_messages chat c).2 = tables c.
Proof.
  cbn [get_messages postgres_storage]. unfold run_or, pg_get_messages, m_bind.
  destruct (query_rows (λ d, chat ← int4 chat; Some (message_rows d chat)) c)
    as (l & c' & Hq & Ht & _).
  unfold stmt_get_messages. unfold message_rows in Hq. rewrite Hq. done.
Qed.

(** What one call does to the tables. *)
Lemma call_effect c c' : storage_call c c' →
  unchanged (tables c) (tables c') ∨
  (∃ name email password, registered name email password (tables c) (tables c')) ∨
  (∃ sender mesg, message_sent sender mesg (tables c) (tables c')) ∨
  (∃ user email, befriended user email (tables c) (tables c')) ∨
  (∃ user name friend, chat_created user name friend (tables c) (tables c')).
Proof.
  assert (∀ (D : Prop) E d (r : bool) d',
    outcome D E d r d' → unchanged d d' ∨ E d d') as Hout.
  { intros D E d r d'. unfold outcome. destruct r; tauto. }
  destruct 1.
  - destruct (Hout _ _ _ _ _ (registration_outcome name email password s)); eauto 10.
  - left. rewrite login_reads. reflexivity.
  - destruct (Hout _ _ _ _ _ (send_message_outcome sender mesg s)); eauto 10.
  - destruct (Hout _ _ _ _ _ (add_contact_outcome user email s)); eauto 10.
  - destruct (Hout _ _ _ _ _ (create_chat_outcome user name friend s)); eauto 10.
  - left. rewrite get_chats_reads. reflexivity.
  - left. rewrite get_contacts_reads. reflexivity.
  - left. rewrite get_messages_reads. reflexivity.
Qed.

Lemma call_keeps_ok c c' : storage_call c c' → db_ok (tables c) → db_ok (tables c').
Proof.
  intros [H|[(?&?&?&H)|[(?&?&H)|[(?&?&H)|(?&?&?&H)]]]]%call_effect;
    eauto using db_ok_unchanged, registered_ok, message_sent_ok, befriended_ok, chat_created_ok.
Qed.

Lemma call_keeps_users c c' : storage_call c c' → client_ids (tables c) ⊆ client_ids (tables c').
Proof.
  intros Hcall. assert (∃ l, Client (tables c') = Client (tables c) ++ l) as [l Hl].
  { apply call_effect in Hcall as [[[-> _] _]|[(?&?&?&H)|[(?&?&H)|[(?&?&H)|(?&?&?&H)]]]].
    - exists []. by rewrite app_nil_r.
    - destruct H as (?&?&?&?&?&?&?& ->). by eexists.
    - destruct H as (?&?&?&?&?&?&?& ->). exists []. by rewrite app_nil_r.
    - destruct H as (?&?&?&?&?&?&?&?&?& ->). exists []. by rewrite app_nil_r.
    - destruct H as (?&?&?&?&?&?&?&?&?&?&?& ->). exists []. by rewrite app_nil_r. }
  unfold client_ids. rewrite Hl, fmap_app. apply list_subseteq_app_l. done.
Qed.

#[export] Instance postgres_contract : StorageContract conn.
Proof.
  refine {| storage_ok c := db_ok (tables c); is_user c id := id ∈ client_ids (tables c) |}.
  - exact call_keeps_ok.
  - intros s s' id Hc. by apply call_keeps_users.
  - intros email password s s' id name Hok Hl.
    pose proof (login_sound email password s Hok) as Hs.
    pose proof (login_reads email password s) as Ht.
    cbn [login postgres_storage] in Hl, Ht. rewrite Hl in Hs, Ht. simpl in *. rewrite Ht.
    destruct Hs as (e & _ & Ha).
    destruct (login_answer_cases (tables s) e password) as [He|(r & Hr & _ & _ & He)];
      rewrite Ha in He; [done|].
    injection He as -> _. apply list_elem_of_fmap. eauto.
Defined.
End Contract.
