(* ===== verification/StorageTheorems.v ===== *)
(** * The properties of the storage

    What [PostgresStorageConnection] guarantees to the jobs of the server,
    with a concrete instance of what it relies on ([plain_pqxx]). *)
From S2P Require Import Prelude Requests Responses Storage Database Postgres Transactions.
From S2P Require Import Effects Growth Invariants Completeness PostgresSpec.

(** ** A concrete library: text without NUL, rows in insertion order *)

Definition text_without_nul (s : bytes) : option bytes :=
  if decide (Byte.x00 ∈ s) then None else Some s.

Definition plain_pqxx : Pqxx := {|
  sql_text := text_without_nul;
  quote_text := text_without_nul;
  SHA256 s := rev s;
  scan A l := l;
  missing_text := None
|}.

Lemma plain_pqxx_laws : PqxxLaws plain_pqxx.
Proof.
  refine {| plain_text := nul_free : bytes → Prop |}.
  - done.
  - intros s Hs. simpl. unfold text_without_nul. by rewrite decide_False.
  - intros s Hs. simpl. unfold text_without_nul. by rewrite decide_False.
  - done.
Defined.

(** Two users who are contacts and share a chat with one message. *)
Definition sample_db : db := {|
  Client := [ClientRow 1 [Byte.x61] [Byte.x41] [Byte.x70]; ClientRow 2 [Byte.x62] [Byte.x42] [Byte.x71];
             ClientRow 3 [Byte.x63] [Byte.x43] [Byte.x72]];
  Chat := [1];
  ClientToChat := [MemberRow 1 1 [Byte.x62]; MemberRow 2 1 [Byte.x61]];
  Message := [MessageRow 1 2 1 [Byte.x68; Byte.x69]];
  ClientToContact := [ContactRow 1 2; ContactRow 2 1];
  client_seq := 4; chat_seq := 2; message_seq := 2 |}.

(** Membership in the lists of a concrete database. *)
Ltac enumerate :=
  repeat match goal with
  | H : _ ∈ [] |- _ => by apply elem_of_nil in H
  | H : _ ∈ _ :: _ |- _ => apply elem_of_cons in H as [H|H]
  end.

Lemma sample_db_ok : db_ok sample_db.
Proof.
  split; [split; split|].
  - simpl. lia.
  - by apply (bool_decide_unpack _).
  - intros r Hr. simpl in Hr. enumerate; subst; simpl; unfold int4_max; lia.
  - by apply (bool_decide_unpack _).
  - simpl. lia.
  - by apply (bool_decide_unpack _).
  - intros r Hr. simpl in Hr. enumerate; subst; simpl; unfold int4_max; lia.
  - intros r Hr. simpl in Hr. enumerate; subst; by apply (bool_decide_unpack _).
  - intros r Hr. simpl in Hr. enumerate; subst; by apply (bool_decide_unpack _).
  - intros r Hr. simpl in Hr. by enumerate; subst.
  - intros r Hr. simpl in Hr. enumerate; subst; by apply (bool_decide_unpack _).
  - by apply (bool_decide_unpack _).
  - unfold contact. intros u v Hr. simpl in *. enumerate; injection Hr as -> ->; set_solver.
  - unfold contact. intros u Hr. simpl in *. enumerate; injection Hr as H1 H2; lia.
  - simpl. lia.
  - by apply (bool_decide_unpack _).
  - intros r Hr. simpl in Hr. enumerate; subst; simpl; lia.
  - intros r Hr. simpl in Hr. enumerate; subst; by apply (bool_decide_unpack _).
  - intros u v c1 c2 _ (r1 & H1 & _ & <-) _ (r2 & H2 & _ & <-) _. simpl in H1, H2.
    by enumerate; subst.
Qed.

Section Answers.
Context `{P : Pqxx} {L : PqxxLaws P}.

(** On a connection that stays up [true] comes with the effect and a clean
    connection. *)
Lemma registration_true name email password d :
  (registration name email password (healthy d)).1 = true →
  ∃ d', registered name email password d d' ∧
        registration name email password (healthy d) = (true, healthy d').
Proof.
  intros Hr. pose proof (registration_outcome name email password (healthy d)) as Ho.
  rewrite Hr in Ho. eexists. split; [exact Ho|].
  cbn [registration postgres_storage] in Ho |- *. unfold run_or at 1.
  cbn [tables healthy] in Ho. by rewrite (run_registration _ _ _ d _ Ho).
Qed.

(** An answer [true] of a healthy connection is exactly a possible effect. *)
Lemma answer_exact {E : db → db → Prop} {d b c'} (run : conn → bool * conn) :
  run (healthy d) = (b, c') →
  outcome (in_doubt (healthy d)) E d b (tables c') →
  (∀ d', E d d' → run (healthy d) = (true, healthy d')) →
  (b = true ↔ ∃ d', E d d') ∧ (b = false → unchanged d (tables c')).
Proof.
  intros Hrun Ho Hcomplete. unfold outcome in Ho. split; [split|].
  - intros ->. eauto.
  - intros (d' & He). specialize (Hcomplete d' He). rewrite Hrun in Hcomplete. by simplify_eq.
  - intros ->. by destruct Ho as [Ho|[[n [=]] _]].
Qed.

Lemma send_message_answer d sender mesg :
  db_ok d →
  ((send_message sender mesg (healthy d)).1 = true ↔ ∃ d', message_sent sender mesg d d').
Proof.
  intros Hok. pose proof (send_message_outcome sender mesg (healthy d)) as Ho.
  destruct (send_message sender mesg (healthy d)) as [b c'] eqn:Hrun.
  apply (answer_exact (send_message sender mesg) Hrun Ho). intros d' He.
  cbn [send_message postgres_storage]. unfold run_or. by rewrite (run_send_message _ _ d d').
Qed.

Lemma add_contact_answer d user email :
  db_ok d →
  ((add_contact user email (healthy d)).1 = true ↔ ∃ d', befriended user email d d').
Proof.
  intros Hok. pose proof (add_contact_outcome user email (healthy d)) as Ho.
  destruct (add_contact user email (healthy d)) as [b c'] eqn:Hrun.
  apply (answer_exact (add_contact user email) Hrun Ho). intros d' He.
  cbn [add_contact postgres_storage]. unfold run_or. by rewrite (run_add_contact _ _ d d').
Qed.

Lemma create_chat_answer d user name friend :
  db_ok d →
  ((create_chat user name friend (healthy d)).1 = true ↔ ∃ d', chat_created user name friend d d').
Proof.
  intros Hok. pose proof (create_chat_outcome user name friend (healthy d)) as Ho.
  destruct (create_chat user name friend (healthy d)) as [b c'] eqn:Hrun.
  apply (answer_exact (create_chat user name friend) Hrun Ho). intros d' He.
  cbn [create_chat postgres_storage]. unfold run_or. by rewrite (run_create_chat _ _ _ d d').
Qed.

(** The answers of the three queries. *)
Lemma get_chats_rows c user :
  db_ok (tables c) →
  query_answer c (chat_of_row <$> chat_rows (tables c) user)
    (ChatsResponse.chats (get_chats user c).1) (get_chats user c).2.
Proof.
  intros Hok. destruct (query_int4_rows chat_rows chat_of_row user c) as (l & c' & Hq & Hin & Hans);
    [by apply chat_rows_out|].
  cbn [get_chats postgres_storage]. unfold run_or, pg_get_chats, m_bind, stmt_get_chats.
  unfold chat_rows at 1 in Hq. rewrite Hq. cbn [m_ret fst snd].
  rewrite fill_all by (intros row Hrow; eapply (chat_rows_ids (tables c)); eauto).
  by rewrite fold_add_chats.
Qed.

Lemma get_contacts_rows c user :
  db_ok (tables c) →
  query_answer c (contact_of_row <$> contact_rows (tables c) user)
    (ContactsResponse.contacts (get_contacts user c).1) (get_contacts user c).2.
Proof.
  intros Hok. destruct (query_int4_rows contact_join contact_of_row user c)
    as (l & c' & Hq & Hin & Hans); [by apply contact_join_out|].
  cbn [get_contacts postgres_storage]. unfold run_or, pg_get_contacts, m_bind, stmt_get_contacts.
  rewrite Hq. cbn [m_ret fst snd].
  rewrite fill_all by (intros row Hrow; eapply (contact_rows_ids (tables c)); eauto).
  rewrite fold_add_contacts. unfold query_answer in *. by rewrite <- contact_join_rows.
Qed.

Lemma get_messages_rows c chat :
  db_ok (tables c) →
  query_answer c (message_of_row <$> message_rows (tables c) chat)
    (MessagesResponse.messages (get_messages chat c).1) (get_messages chat c).2.
Proof.
  intros Hok. destruct (query_int4_rows message_rows message_of_row chat c)
    as (l & c' & Hq & Hin & Hans); [by apply message_rows_out|].
  cbn [get_messages postgres_storage]. unfold run_or, pg_get_messages, m_bind, stmt_get_messages.
  unfold message_rows at 1 in Hq. rewrite Hq. cbn [m_ret fst snd].
  rewrite fill_all by (intros row Hrow; eapply (message_rows_ids (tables c)); eauto).
  by rewrite fold_add_messages.
Qed.
End Answers.

(** ** Properties *)

Section Theorems.
Context `{P : Pqxx} {L : PqxxLaws P}.

(** C20: each of the four operations that write is one transaction.  Whatever
    exchange with the server breaks, the operation answers; if it answers
    [true] its whole effect is in the tables; if it answers [false] either the
    tables are untouched or the commit itself was left in doubt by the broken
    connection, and then the whole effect is there.  No partial effect
    (a one-sided contact, a chat with one member) is ever left. *)
Theorem writes_are_atomic (c : conn) :
  (∀ name email password,
    outcome (in_doubt c) (registered name email password) (tables c)
      (registration name email password c).1 (tables (registration name email password c).2)) ∧
  (∀ sender mesg,
    outcome (in_doubt c) (message_sent sender mesg) (tables c)
      (send_message sender mesg c).1 (tables (send_message sender mesg c).2)) ∧
  (∀ user email,
    outcome (in_doubt c) (befriended user email) (tables c)
      (add_contact user email c).1 (tables (add_contact user email c).2)) ∧
  (∀ user name friend,
    outcome (in_doubt c) (chat_created user name friend) (tables c)
      (create_chat user name friend c).1 (tables (create_chat user name friend c).2)).
Proof.
  split_and!; intros.
  - apply registration_outcome.
  - apply send_message_outcome.
  - apply add_contact_outcome.
  - apply create_chat_outcome.
Qed.

(** Along any sequence of storage calls, under any schedule of broken
    exchanges, the database stays well formed (identifiers and emails unique,
    every reference valid, every chat with two members, at most one chat for
    two users, contacts symmetric, messages sent by members), and no
    registered user disappears. *)
Theorem calls_keep_database (c c' : conn) :
  rtc storage_call c c' → db_ok (tables c) →
  db_ok (tables c') ∧ client_ids (tables c) ⊆ client_ids (tables c').
Proof.
  induction 1 as [c|c1 c2 c3 Hcall _ IH]; intros Hok; [done|].
  destruct IH as [Hok' Hids]; [by eapply call_keeps_ok|].
  split; [done|]. etrans; [by apply call_keeps_users|done].
Qed.

(** C32: a registration with a name and an email the database accepts
    succeeds exactly when the email is not taken, and then adds one client
    with the next identifier and the hash of the password. *)
Theorem registration_exact d name email password :
  db_ok d → plain_text name → plain_text email → client_seq d ≤ int4_max →
  if decide (email ∈ emails d)
  then (registration name email password (healthy d)).1 = false ∧
       same_tables d (tables (registration name email password (healthy d)).2)
  else registration name email password (healthy d) =
       (true, healthy (Db (Client d ++ [ClientRow (client_seq d) name email (SHA256 password)])
                          (Chat d) (ClientToChat d) (Message d) (ClientToContact d)
                          (client_seq d + 1) (chat_seq d) (message_seq d))).
Proof.
  intros Hok Hn He Hs. case_decide as Hin.
  - pose proof (registration_outcome name email password (healthy d)) as Ho.
    unfold outcome in Ho. destruct (registration name email password (healthy d)).1.
    + destruct Ho as (n & e & _ & Hse & Hnin & _). rewrite sql_text_plain in Hse by done.
      by simplify_eq.
    + destruct Ho as [[Ht _]|[[k [=]] _]]. by split.
  - cbn [registration postgres_storage]. unfold run_or.
    erewrite run_registration; [done|]. exists name, email.
    rewrite !sql_text_plain by done. split_and!; try done. by apply fresh_client.
Qed.

(** C33: on a connection that stays up a login answers with the identifier
    and name of the client that has this email and the hash of this password,
    throws [invalid_argument] if there is none, and leaves the tables. *)
Theorem login_exact d email password :
  db_ok d → plain_text email →
  (∃ answer, login email password (healthy d) = (answer, healthy d) ∧
     (answer = inl invalid_argument ∨ ∃ id name, answer = inr (id, name)) ∧
     ∀ id name, answer = inr (id, name) ↔
       ∃ r, r ∈ Client d ∧ c_email r = email ∧ c_password_hash r = SHA256 password ∧
            c_id r = id ∧ c_name r = name).
Proof.
  intros Hok He. exists (login_answer d email password).
  split; [by apply run_login; [|apply quote_text_plain]|].
  destruct (login_answer_cases d email password) as [Ha|(r & Hr & Hre & Hrh & Ha)]; rewrite Ha.
  - split; [by left|]. intros id name. split; [done|]. intros (r & Hr & Hre & Hrh & _).
    unfold login_answer in Ha. rewrite (filter_email d r) in Ha by done.
    by rewrite decide_True in Ha.
  - split; [eauto|]. intros id name. split.
    + intros [= <- <-]. eauto 6.
    + intros (r' & Hr' & Hre' & _ & <- & <-).
      by rewrite (email_unique d r r') by (done || congruence).
Qed.

(** No fault of the connection lets a wrong password through: whenever
    a login answers with a user, that user has the email and the hash of the
    password. *)
Theorem login_needs_password c email password id name :
  db_ok (tables c) → (login email password c).1 = inr (id, name) →
  ∃ r e, quote_text email = Some e ∧ r ∈ Client (tables c) ∧ c_email r = e ∧
    c_password_hash r = SHA256 password ∧ c_id r = id ∧ c_name r = name.
Proof.
  intros Hok Hl. pose proof (login_sound email password c Hok) as Hs.
  cbn [login postgres_storage] in Hl. rewrite Hl in Hs. destruct Hs as (e & He & Ha).
  destruct (login_answer_cases (tables c) e password) as [H|(r & ? & ? & ? & H)];
    rewrite H in Ha; simplify_eq; eauto 8.
Qed.

(** A user who registered can log in with his password, as the name he
    gave, and with a password of another hash he cannot. *)
Theorem register_then_login d name email password password' :
  db_ok d → plain_text name → plain_text email →
  (registration name email password (healthy d)).1 = true →
  (login email password' (registration name email password (healthy d)).2).1 =
  if decide (SHA256 password = SHA256 password') then inr (client_seq d, name)
  else inl invalid_argument.
Proof.
  intros Hok Hn He Hr. destruct (registration_true _ _ _ _ Hr) as (d' & Ho & ->).
  pose proof (registered_ok _ _ _ _ _ Ho Hok) as Hok'. cbn [snd login postgres_storage].
  rewrite (run_login _ email password' email) by (done || by apply quote_text_plain).
  destruct Ho as (n & e & Hsn & Hse & _ & _ & _ & Hd). simpl. unfold login_answer.
  rewrite sql_text_plain in Hsn, Hse by done. injection Hsn as <-. injection Hse as <-.
  rewrite (filter_email d' (ClientRow (client_seq d) name email (hash_password password)));
    [done|done| |done].
  rewrite Hd. simpl. apply elem_of_snoc. by right.
Qed.

(** C29: a message is stored exactly when its sender is a member of the chat. *)
Theorem send_message_exact d sender mesg :
  db_ok d → plain_text (MessageToSend.text mesg) → message_seq d ≤ int8_max →
  (send_message sender mesg (healthy d)).1 = true ↔
  member d sender (MessageToSend.chat_id mesg).
Proof.
  intros Hok Ht Hs. rewrite send_message_answer by done. split.
  - by intros (d' & text & _ & Hm & _).
  - intros Hm. eexists _, (MessageToSend.text mesg). rewrite sql_text_plain by done.
    split_and!; try done; [by eapply member_is_user|by eapply member_is_chat|].
    by apply fresh_message.
Qed.

(** C31: a contact is added exactly when the email is that of another user who
    is not a contact yet. *)
Theorem add_contact_exact d user email :
  db_ok d → plain_text email → user ∈ client_ids d →
  (add_contact user email (healthy d)).1 = true ↔
  ∃ r, r ∈ Client d ∧ c_email r = email ∧ c_id r ≠ user ∧ ¬ contact d user (c_id r).
Proof.
  intros Hok He Hu. rewrite add_contact_answer by done. split.
  - intros (d' & r & e & Hse & Hr & Hre & Hne & _ & Hc & _).
    rewrite sql_text_plain in Hse by done. simplify_eq. eauto 6.
  - intros (r & Hr & Hre & Hne & Hc). eexists _, r, email.
    rewrite sql_text_plain by done. split_and!; try done.
    intros Hc'. by apply Hc, (ok_contact_sym d Hok).
Qed.

(** C30: a chat is created exactly when both users exist and share none; it
    then has these two members and nobody else joins or leaves a chat. *)
Theorem create_chat_exact d user name friend :
  db_ok d → plain_text (chat_with ++ name) →
  (∀ r, r ∈ Client d → plain_text (chat_with ++ c_name r)) → chat_seq d ≤ int4_max →
  user ∈ client_ids d →
  ((create_chat user name friend (healthy d)).1 = true ↔
   friend ∈ client_ids d ∧ ∀ c, member d user c → member d friend c → False) ∧
  ((create_chat user name friend (healthy d)).1 = true →
   ∀ u c, member (tables (create_chat user name friend (healthy d)).2) u c ↔
          member d u c ∨ c = chat_seq d ∧ (u = user ∨ u = friend)).
Proof.
  intros Hok Hn Hnames Hs Hu. split.
  - rewrite create_chat_answer by done. split.
    + intros (d' & r & ut & ft & Hr & <- & _ & _ & Hno & _). split; [|done].
      apply list_elem_of_fmap. eauto.
    + intros [(r & -> & Hr)%list_elem_of_fmap Hno].
      eexists _, r, (chat_with ++ c_name r), (chat_with ++ name).
      rewrite !sql_text_plain by auto. split_and!; try done. by apply fresh_chat.
  - intros Htrue. pose proof (create_chat_outcome user name friend (healthy d)) as Ho.
    rewrite Htrue in Ho. intros u c. eapply chat_created_member; [done|apply Hok].
Qed.

(** C34: the three queries leave the tables as they are and answer, in some
    order, the chats of the user with the titles the user sees, his contacts
    with their identifiers, names and emails, and the messages of the chat with their senders;
    only a broken connection makes them answer nothing instead. *)
Theorem queries_answer_tables c user chat :
  db_ok (tables c) →
  query_answer c (chat_of_row <$> chat_rows (tables c) user)
    (ChatsResponse.chats (get_chats user c).1) (get_chats user c).2 ∧
  query_answer c (contact_of_row <$> contact_rows (tables c) user)
    (ContactsResponse.contacts (get_contacts user c).1) (get_contacts user c).2 ∧
  query_answer c (message_of_row <$> message_rows (tables c) chat)
    (MessagesResponse.messages (get_messages chat c).1) (get_messages chat c).2.
Proof.
  intros Hok. split_and!; [by apply get_chats_rows|by apply get_contacts_rows|
                           by apply get_messages_rows].
Qed.
End Theorems.

(** ** The properties at concrete inputs *)

Section Witnesses.
#[local] Existing Instance plain_pqxx.
#[local] Existing Instance plain_pqxx_laws.

(** The commit of a new contact breaks after the server took it: the answer
    is [false] and both directions are stored. *)
Definition doubtful : conn := Conn sample_db sample_db (Some (4%nat, true)).

Definition sample_after_contact : db :=
  Db (Client sample_db) (Chat sample_db) (ClientToChat sample_db) (Message sample_db)
     (ClientToContact sample_db ++ [ContactRow 1 3; ContactRow 3 1]) 4 2 2.

Lemma writes_are_atomic_witness :
  (add_contact 1 [Byte.x43] doubtful).1 = false ∧
  tables (add_contact 1 [Byte.x43] doubtful).2 = sample_after_contact ∧
  outcome (in_doubt doubtful) (befriended 1 [Byte.x43]) (tables doubtful)
    (add_contact 1 [Byte.x43] doubtful).1 (tables (add_contact 1 [Byte.x43] doubtful).2).
Proof.
  split; [reflexivity|]. split; [reflexivity|].
  destruct (writes_are_atomic doubtful) as (_ & _ & H & _). apply H.
Defined.

Lemma calls_keep_database_witness :
  db_ok (tables (create_chat 3 [Byte.x63] 1 (add_contact 1 [Byte.x43] doubtful).2).2) ∧
  client_ids sample_db ⊆
  client_ids (tables (create_chat 3 [Byte.x63] 1 (add_contact 1 [Byte.x43] doubtful).2).2).
Proof.
  apply (calls_keep_database doubtful).
  - eapply rtc_l; [apply call_add_contact|]. eapply rtc_l; [apply call_create_chat|].
    apply rtc_refl.
  - exact sample_db_ok.
Defined.

Lemma plain_bytes s : Byte.x00 ∉ s → plain_text s.
Proof. done. Defined.

Lemma registration_exact_witness :
  registration [Byte.x64] [Byte.x44] [Byte.x31; Byte.x32] (healthy sample_db) =
  (true, healthy (Db (Client sample_db ++ [ClientRow 4 [Byte.x64] [Byte.x44] [Byte.x32; Byte.x31]])
                     [1] (ClientToChat sample_db) (Message sample_db)
                     (ClientToContact sample_db) 5 2 2)) ∧
  (registration [Byte.x64] [Byte.x41] [Byte.x31] (healthy sample_db)).1 = false ∧
  same_tables sample_db (tables (registration [Byte.x64] [Byte.x41] [Byte.x31] (healthy sample_db)).2).
Proof.
  split.
  - pose proof (registration_exact sample_db [Byte.x64] [Byte.x44] [Byte.x31; Byte.x32]
      sample_db_ok ltac:(apply plain_bytes; set_solver) ltac:(apply plain_bytes; set_solver)
      ltac:(done)) as H.
    rewrite decide_False in H by (by apply (bool_decide_unpack _)). exact H.
  - pose proof (registration_exact sample_db [Byte.x64] [Byte.x41] [Byte.x31]
      sample_db_ok ltac:(apply plain_bytes; set_solver) ltac:(apply plain_bytes; set_solver)
      ltac:(done)) as H.
    rewrite decide_True in H by (by apply (bool_decide_unpack _)). exact H.
Defined.

Lemma login_exact_witness :
  login [Byte.x42] [Byte.x71] (healthy sample_db) = (inr (2, [Byte.x62]), healthy sample_db) ∧
  ∃ answer, login [Byte.x42] [Byte.x71] (healthy sample_db) = (answer, healthy sample_db) ∧
    (answer = inl invalid_argument ∨ ∃ id name, answer = inr (id, name)).
Proof.
  split; [reflexivity|].
  destruct (login_exact sample_db [Byte.x42] [Byte.x71] sample_db_ok) as (a & H1 & H2 & _);
    [apply plain_bytes; set_solver|by exists a].
Defined.

Lemma login_needs_password_witness :
  ∃ r e, quote_text [Byte.x42] = Some e ∧ r ∈ Client sample_db ∧ c_email r = e ∧
    c_password_hash r = SHA256 [Byte.x71] ∧ c_id r = 2 ∧ c_name r = [Byte.x62].
Proof.
  apply (login_needs_password (healthy sample_db)); [exact sample_db_ok|reflexivity].
Defined.

Lemma register_then_login_witness :
  (login [Byte.x44] [Byte.x31; Byte.x32]
    (registration [Byte.x64] [Byte.x44] [Byte.x31; Byte.x32] (healthy sample_db)).2).1 =
  inr (4, [Byte.x64]).
Proof.
  rewrite (register_then_login sample_db);
    [reflexivity|exact sample_db_ok|apply plain_bytes; set_solver..|reflexivity].
Defined.

Lemma send_message_exact_witness :
  (send_message 1 (MessageToSend.Build 1 [Byte.x79]) (healthy sample_db)).1 = true ∧
  (send_message 3 (MessageToSend.Build 1 [Byte.x79]) (healthy sample_db)).1 ≠ true.
Proof.
  split.
  - apply send_message_exact; [exact sample_db_ok|apply plain_bytes; set_solver|done|].
    by apply (bool_decide_unpack _).
  - rewrite send_message_exact; [|exact sample_db_ok|apply plain_bytes; set_solver|done].
    by apply (bool_decide_unpack _).
Defined.

Lemma add_contact_exact_witness :
  (add_contact 1 [Byte.x43] (healthy sample_db)).1 = true.
Proof.
  apply add_contact_exact; [exact sample_db_ok|apply plain_bytes; set_solver| |].
  - by apply (bool_decide_unpack _).
  - exists (ClientRow 3 [Byte.x63] [Byte.x43] [Byte.x72]).
    split_and!; [simpl; set_solver|done|done|by apply (bool_decide_unpack _)].
Defined.

Lemma chat_with_plain name : Byte.x00 ∉ name → plain_text (chat_with ++ name).
Proof. intros H. apply plain_bytes. unfold chat_with. set_solver. Defined.

Lemma create_chat_exact_witness :
  (create_chat 3 [Byte.x63] 1 (healthy sample_db)).1 = true ∧
  (create_chat 2 [Byte.x62] 1 (healthy sample_db)).1 ≠ true.
Proof.
  split.
  - apply create_chat_exact; [exact sample_db_ok|apply chat_with_plain; set_solver| |done| |].
    + intros r Hr. simpl in Hr. enumerate; subst; apply chat_with_plain; set_solver.
    + by apply (bool_decide_unpack _).
    + split; [by apply (bool_decide_unpack _)|].
      intros c (r & Hr & H3 & _) _. simpl in Hr. enumerate; by subst.
  - rewrite (proj1 (create_chat_exact sample_db 2 [Byte.x62] 1 sample_db_ok
      ltac:(apply chat_with_plain; set_solver)
      ltac:(intros r Hr; simpl in Hr; enumerate; subst; apply chat_with_plain; set_solver)
      ltac:(done) ltac:(by apply (bool_decide_unpack _)))).
    intros [_ Hno]. apply (Hno 1); by apply (bool_decide_unpack _).
Defined.

Lemma queries_answer_tables_witness :
  query_answer (healthy sample_db) [Chat.Build 1 [Byte.x61]]
    (ChatsResponse.chats (get_chats 2 (healthy sample_db)).1) (get_chats 2 (healthy sample_db)).2 ∧
  MessagesResponse.messages (get_messages 1 (healthy sample_db)).1 =
    [MessageToRecieve.Build 2 [Byte.x68; Byte.x69]].
Proof.
  split; [|reflexivity].
  apply (queries_answer_tables (healthy sample_db) 2 1 sample_db_ok).
Defined.
End Witnesses.
