(* ===== verification/Programs.v ===== *)
(** * The operations of the storage, one exchange at a time

    [Postgres.v] gives the meaning of a whole operation on a connection that
    nobody else uses.  Here the same operations are programs: trees whose
    nodes are the exchanges with the database server (the begin of a
    transaction, a statement, the commit) and whose branches are what the
    exchange can answer, an exception included.  [transaction] runs a program
    alone; [Interleaving.v] runs several of them side by side. *)
From S2P Require Import Prelude Requests Responses Storage Database Postgres.

Inductive prog (A : Type) : Type :=
| Ret (x : A)
| Raise (e : exn)
| Begin (k : exn + unit → prog A)
| Query {B : Type} (s : stmt B) (k : exn + B → prog A)
| Commit (k : exn + unit → prog A).
Arguments Ret {A}.
Arguments Raise {A}.
Arguments Begin {A}.
Arguments Query {A B}.
Arguments Commit {A}.

Fixpoint p_bind {A B} (p : prog A) (f : A → prog B) : prog B :=
  match p with
  | Ret x => f x
  | Raise e => Raise e
  | Begin k => Begin (λ r, p_bind (k r) f)
  | Query s k => Query s (λ r, p_bind (k r) f)
  | Commit k => Commit (λ r, p_bind (k r) f)
  end.

Fixpoint p_catch {A} (p : prog A) (h : exn → prog A) : prog A :=
  match p with
  | Ret x => Ret x
  | Raise e => h e
  | Begin k => Begin (λ r, p_catch (k r) h)
  | Query s k => Query s (λ r, p_catch (k r) h)
  | Commit k => Commit (λ r, p_catch (k r) h)
  end.

(** An exception of an exchange leaves the program. *)
Definition or_raise {A B} (f : A → prog B) (r : exn + A) : prog B :=
  match r with inr x => f x | inl e => Raise e end.

Definition p_query {A} (s : stmt A) : prog A := Query s (or_raise Ret).
Definition p_commit : prog unit := Commit (or_raise Ret).
Definition p_work {A} (body : prog A) : prog A := Begin (or_raise (λ _, body)).
Definition p_false_on_error (p : prog bool) : prog bool := p_catch p (λ _, Ret false).
Definition p_uint64 (v : Z) : prog Z := if v <? 0 then Raise std_exception else Ret v.

Notation "'DO' x '<-' m 'THEN' k" := (p_bind m (λ x, k))
  (at level 100, x pattern, m at level 99, k at level 200, right associativity) : elegram_scope.
Notation "m '>>>' k" := (p_bind m (λ _, k))
  (at level 100, k at level 200, right associativity) : elegram_scope.

Section Operations.
Context `{P : Pqxx}.

Definition tx_registration (name email password : bytes) : prog bool :=
  p_false_on_error (p_work (
    p_query (stmt_registration name email (hash_password password)) >>>
    p_commit >>>
    Ret true)).

Definition tx_login (email password : bytes) : prog (Z * bytes) :=
  p_catch
    (p_work (
      DO r <- p_query (stmt_login email) THEN
      match r with
      | [] => Raise invalid_argument
      | row :: rest =>
        if bool_decide (rest = []) &&
           negb (bool_decide (c_password_hash row = hash_password password))
        then Raise invalid_argument
        else DO id <- p_uint64 (c_id row) THEN Ret (id, c_name row)
      end))
    (λ e, Raise (if decide (e = sql_error) then runtime_error else e)).

Definition tx_can_write (sender_id chat_id : Z) : prog bool :=
  p_false_on_error (
    DO r <- p_query (stmt_check_sender_able_to_write_to_chat sender_id chat_id) THEN
    Ret (negb (bool_decide (r = [])))).

Definition tx_send_message (sender_id : Z) (mesg : MessageToSend.t) : prog bool :=
  p_false_on_error (p_work (
    DO ok <- tx_can_write sender_id (MessageToSend.chat_id mesg) THEN
    if negb ok then Raise invalid_argument else
    p_query (stmt_send_message sender_id (MessageToSend.chat_id mesg) (MessageToSend.text mesg)) >>>
    p_commit >>>
    Ret true)).

Definition tx_add_contact (user_id : Z) (email : bytes) : prog bool :=
  p_false_on_error (p_work (
    DO req <- p_query (stmt_get_user_by_email email) THEN
    match req with
    | [] => Ret false
    | (id, _) :: _ =>
      DO contact_id <- p_uint64 id THEN
      p_query (stmt_add_contact user_id contact_id) >>>
      p_query (stmt_add_contact contact_id user_id) >>>
      p_commit >>>
      Ret true
    end)).

Definition tx_first_name (rows : list (bytes * bytes)) : prog bytes :=
  match rows with
  | (name, _) :: _ => Ret name
  | [] => match missing_text with Some name => Ret name | None => Raise std_exception end
  end.

Definition tx_create_chat (user_id : Z) (user_name : bytes) (friend_id : Z) : prog bool :=
  p_false_on_error (p_work (
    DO req <- p_query (stmt_check_users_have_common_chat user_id friend_id) THEN
    if negb (bool_decide (req = [])) then Ret false else
    DO id <- p_query stmt_create_chat THEN
    DO chat_id <- p_uint64 id THEN
    DO friend_info_req <- p_query (stmt_get_info friend_id) THEN
    DO name <- tx_first_name friend_info_req THEN
    let users_title := chat_with ++ name in
    let friends_title := chat_with ++ user_name in
    p_query (stmt_create_chat_connection user_id chat_id users_title) >>>
    p_query (stmt_create_chat_connection friend_id chat_id friends_title) >>>
    p_commit >>>
    Ret true)).

Definition tx_query {Row} (s : stmt (list Row)) : prog (list Row) :=
  p_catch (p_work (DO r <- p_query s THEN p_commit >>> Ret r)) (λ _, Ret []).

Definition tx_get_chats (user_id : Z) : prog ChatsResponse.t :=
  DO r <- tx_query (stmt_get_chats user_id) THEN
  Ret (fill add_chat_row fst (λ resp _, ChatsResponse.add_chats resp Chat.SharedCtor)
         r ChatsResponse.SharedCtor).

Definition tx_get_contacts (user_id : Z) : prog ContactsResponse.t :=
  DO r <- tx_query (stmt_get_contacts user_id) THEN
  Ret (fill add_contact_row (λ row, fst (fst row))
         (λ resp _, ContactsResponse.add_contacts resp Contact.SharedCtor)
         r ContactsResponse.SharedCtor).

Definition tx_get_messages (chat_id : Z) : prog MessagesResponse.t :=
  DO r <- tx_query (stmt_get_messages chat_id) THEN
  Ret (fill add_message_row fst
         (λ resp _, MessagesResponse.add_messages resp MessageToRecieve.SharedCtor)
         r MessagesResponse.SharedCtor).

(** A call on the storage and its answer. *)
Inductive storage_op : Type :=
| Registration (name email password : bytes)
| Login (email password : bytes)
| SendMessage (sender_id : Z) (mesg : MessageToSend.t)
| AddContact (user_id : Z) (email : bytes)
| CreateChat (user_id : Z) (user_name : bytes) (friend_id : Z)
| GetChats (user_id : Z)
| GetContacts (user_id : Z)
| GetMessages (chat_id : Z).

Inductive answer : Type :=
| Status (accepted : bool)
| UserFound (id : Z) (name : bytes)
| Chats (resp : ChatsResponse.t)
| Contacts (resp : ContactsResponse.t)
| Messages (resp : MessagesResponse.t).

Definition p_map {A B} (f : A → B) (p : prog A) : prog B := DO x <- p THEN Ret (f x).

Definition program (op : storage_op) : prog answer :=
  match op with
  | Registration name email password => p_map Status (tx_registration name email password)
  | Login email password => p_map (λ r, UserFound r.1 r.2) (tx_login email password)
  | SendMessage sender_id mesg => p_map Status (tx_send_message sender_id mesg)
  | AddContact user_id email => p_map Status (tx_add_contact user_id email)
  | CreateChat user_id user_name friend_id =>
      p_map Status (tx_create_chat user_id user_name friend_id)
  | GetChats user_id => p_map Chats (tx_get_chats user_id)
  | GetContacts user_id => p_map Contacts (tx_get_contacts user_id)
  | GetMessages chat_id => p_map Messages (tx_get_messages chat_id)
  end.

(** The same call through the storage of [Postgres.v]. *)
Definition perform (op : storage_op) (c : conn) : (exn + answer) * conn :=
  match op with
  | Registration name email password =>
      let '(r, c) := registration name email password c in (inr (Status r), c)
  | Login email password =>
      match login email password c with
      | (inr (id, name), c) => (inr (UserFound id name), c)
      | (inl e, c) => (inl e, c)
      end
  | SendMessage sender_id mesg =>
      let '(r, c) := send_message sender_id mesg c in (inr (Status r), c)
  | AddContact user_id email =>
      let '(r, c) := add_contact user_id email c in (inr (Status r), c)
  | CreateChat user_id user_name friend_id =>
      let '(r, c) := create_chat user_id user_name friend_id c in (inr (Status r), c)
  | GetChats user_id => let '(r, c) := get_chats user_id c in (inr (Chats r), c)
  | GetContacts user_id => let '(r, c) := get_contacts user_id c in (inr (Contacts r), c)
  | GetMessages chat_id => let '(r, c) := get_messages chat_id c in (inr (Messages r), c)
  end.
End Operations.

(** ** A program alone *)

Fixpoint run_prog {A} (p : prog A) : M A := λ c,
  match p with
  | Ret x => (inr x, c)
  | Raise e => (inl e, c)
  | Begin k => let '(r, c) := tick c in run_prog (k r) c
  | Query s k => let '(r, c) := exec s c in run_prog (k r) c
  | Commit k => let '(r, c) := commit c in run_prog (k r) c
  end.

(** At its end what was not committed is rolled back. *)
Definition close (c : conn) : conn :=
  Conn (rollback (committed c) (tables c)) (committed c) (fault c).

Definition transaction {A} (p : prog A) : M A := λ c,
  let '(r, c) := run_prog p (Conn (tables c) (tables c) (fault c)) in (r, close c).

Section Alone.
Context {A B : Type}.

Lemma run_p_bind (p : prog A) (f : A → prog B) c :
  run_prog (p_bind p f) c = m_bind (run_prog p) (λ x, run_prog (f x)) c.
Proof.
  revert c. unfold m_bind. induction p as [x|e|k IH|X s k IH|k IH]; intros c; simpl; try done.
  - destruct (tick c) as [r c']. apply IH.
  - destruct (exec s c) as [r c']. apply IH.
  - destruct (commit c) as [r c']. apply IH.
Qed.

Lemma run_p_catch (p : prog A) h c :
  run_prog (p_catch p h) c = m_catch (run_prog p) (λ e, run_prog (h e)) c.
Proof.
  revert c. unfold m_catch. induction p as [x|e|k IH|X s k IH|k IH]; intros c; simpl; try done.
  - destruct (tick c) as [r c']. apply IH.
  - destruct (exec s c) as [r c']. apply IH.
  - destruct (commit c) as [r c']. apply IH.
Qed.

Lemma run_p_query (s : stmt A) c : run_prog (p_query s) c = exec s c.
Proof. unfold p_query. simpl. by destruct (exec s c) as [[e|x] c']. Qed.

Lemma run_p_commit c : run_prog p_commit c = commit c.
Proof. simpl. by destruct (commit c) as [[e|[]] c']. Qed.

Lemma run_p_uint64 v c : run_prog (p_uint64 v) c = as_uint64 v c.
Proof. unfold p_uint64, as_uint64. by destruct (_ <? _). Qed.

Lemma m_bind_ext {X Y} (m m' : M X) (f f' : X → M Y) c :
  m c = m' c → (∀ x c, f x c = f' x c) → m_bind m f c = m_bind m' f' c.
Proof. intros Hm Hf. unfold m_bind. rewrite Hm. destruct (m' c) as [[e|x] c']; auto. Qed.

Lemma m_catch_ext {X} (m m' : M X) h h' c :
  m c = m' c → (∀ e c, h e c = h' e c) → m_catch m h c = m_catch m' h' c.
Proof. intros Hm Hh. unfold m_catch. rewrite Hm. destruct (m' c) as [[e|x] c']; auto. Qed.
End Alone.

(** The scope of a [pqxx::work] followed by a handler, or by a computation,
    that makes no exchange. *)
Lemma transaction_work {A} (body : prog A) (m : M A) c :
  (∀ c, run_prog body c = m c) → transaction (p_work body) c = with_work m c.
Proof.
  intros Hm. unfold transaction, with_work, p_work, m_bind. simpl.
  destruct (tick _) as [[e|[]] c']; simpl; [done|]. by rewrite Hm.
Qed.

Lemma transaction_catch {A} (p : prog A) (h : exn → prog A) (h' : exn → M A) c :
  (∀ e c, run_prog (h e) c = h' e c) → (∀ e c, close (h' e c).2 = (h' e (close c)).2) →
  (∀ e c c', (h' e c).1 = (h' e c').1) →
  transaction (p_catch p h) c = m_catch (transaction p) h' c.
Proof.
  intros Hh Hclose Hval. unfold transaction. rewrite run_p_catch. unfold m_catch.
  destruct (run_prog p _) as [[e|x] c']; [|done]. rewrite Hh.
  specialize (Hclose e c'). specialize (Hval e c' (close c')).
  destruct (h' e c') as [r c1], (h' e (close c')) as [r' c2]. simpl in *. congruence.
Qed.

Lemma transaction_false_on_error (p : prog bool) c :
  transaction (p_false_on_error p) c = false_on_error (transaction p) c.
Proof. by apply transaction_catch. Qed.

Lemma transaction_map {A B} (f : A → B) (p : prog A) c :
  transaction (p_map f p) c =
  match transaction p c with (inr x, c) => (inr (f x), c) | (inl e, c) => (inl e, c) end.
Proof.
  unfold transaction, p_map. rewrite run_p_bind. unfold m_bind.
  by destruct (run_prog p _) as [[e|x] c'].
Qed.

(** The body of an operation, tree and monad, node by node. *)
Ltac same_body :=
  repeat match goal with
  | |- run_prog (p_bind _ _) _ = _ => rewrite run_p_bind; apply m_bind_ext
  | |- run_prog (p_catch _ _) _ = _ => rewrite run_p_catch; apply m_catch_ext
  | |- run_prog (p_query _) _ = _ => apply run_p_query
  | |- run_prog p_commit _ = _ => apply run_p_commit
  | |- run_prog (p_uint64 _) _ = _ => apply run_p_uint64
  | |- run_prog (Ret _) _ = _ => reflexivity
  | |- run_prog (Raise _) _ = _ => reflexivity
  | |- ∀ _, _ => intro
  | |- run_prog (match ?x with _ => _ end) _ = _ => destruct x
  end.

Section Same.
Context `{P : Pqxx}.

Lemma tx_registration_alone name email password c :
  transaction (tx_registration name email password) c = pg_registration name email password c.
Proof.
  unfold tx_registration, pg_registration. rewrite transaction_false_on_error.
  apply m_catch_ext; [|done]. apply transaction_work. same_body.
Qed.

Lemma tx_login_alone email password c :
  transaction (tx_login email password) c = pg_login email password c.
Proof.
  unfold tx_login, pg_login.
  rewrite (transaction_catch _ _ (λ e, m_throw (if decide (e = sql_error) then runtime_error else e)))
    by done.
  apply m_catch_ext; [|done]. apply transaction_work. same_body.
Qed.

Lemma tx_send_message_alone sender mesg c :
  transaction (tx_send_message sender mesg) c = pg_send_message sender mesg c.
Proof.
  unfold tx_send_message, pg_send_message. rewrite transaction_false_on_error.
  apply m_catch_ext; [|done]. apply transaction_work.
  unfold tx_can_write, can_write, p_false_on_error, false_on_error. same_body.
Qed.

Lemma tx_add_contact_alone user email c :
  transaction (tx_add_contact user email) c = pg_add_contact user email c.
Proof.
  unfold tx_add_contact, pg_add_contact. rewrite transaction_false_on_error.
  apply m_catch_ext; [|done]. apply transaction_work. same_body.
Qed.

Lemma tx_create_chat_alone user user_name friend c :
  transaction (tx_create_chat user user_name friend) c = pg_create_chat user user_name friend c.
Proof.
  unfold tx_create_chat, pg_create_chat. rewrite transaction_false_on_error.
  apply m_catch_ext; [|done]. apply transaction_work.
  unfold tx_first_name, first_name. same_body.
Qed.

Lemma tx_query_alone {Row} (s : stmt (list Row)) c :
  transaction (tx_query s) c = query s c.
Proof.
  unfold tx_query, query. rewrite (transaction_catch _ _ (λ _, m_ret [])) by done.
  apply m_catch_ext; [|done]. apply transaction_work. same_body.
Qed.

Lemma false_on_error_answers (m : M bool) c : ∃ r c', false_on_error m c = (inr r, c').
Proof. unfold false_on_error, m_catch. destruct (m c) as [[e|r] c']; simpl; eauto. Qed.

Lemma query_answers {Row} (s : stmt (list Row)) c : ∃ r c', query s c = (inr r, c').
Proof. unfold query, m_catch. destruct (with_work _ c) as [[e|r] c']; simpl; eauto. Qed.

Lemma status_alone (p : prog bool) (m : M bool) c :
  transaction p c = m c → (∃ r c', m c = (inr r, c')) →
  transaction (p_map Status p) c =
  (let '(r, c) := run_or false m c in (inr (Status r), c)).
Proof. intros Hp (r & c' & Hm). rewrite transaction_map, Hp. unfold run_or. by rewrite Hm. Qed.

Lemma rows_alone {Row Resp} (s : stmt (list Row)) (g : list Row → Resp) (f : Resp → answer) dflt c :
  transaction (p_map f (DO r <- tx_query s THEN Ret (g r))) c =
  (let '(r, c) := run_or dflt (LET r := query s IN m_ret (g r)) c in (inr (f r), c)).
Proof.
  change (DO r <- tx_query s THEN Ret (g r)) with (p_map g (tx_query s)).
  rewrite !transaction_map, tx_query_alone. unfold run_or, m_bind.
  destruct (query_answers s c) as (r & c' & ->). done.
Qed.

(** A program alone is the operation of [Postgres.v]. *)
Lemma program_alone op c : transaction (program op) c = perform op c.
Proof.
  destruct op; simpl; try (apply status_alone; [|apply false_on_error_answers]).
  - apply tx_registration_alone.
  - rewrite transaction_map, tx_login_alone. by destruct (pg_login _ _ c) as [[e|[id name]] c'].
  - apply tx_send_message_alone.
  - apply tx_add_contact_alone.
  - apply tx_create_chat_alone.
  - apply rows_alone.
  - apply rows_alone.
  - apply rows_alone.
Qed.
End Same.
