(* ===== verification/Interleaving.v ===== *)
(** * Calls on the storage side by side

    Every session has a connection of its own and the jobs of the server run
    on [WORKER_THREADS] threads, so transactions of different sessions
    interleave.  A [world] is the committed database, the calls under way,
    each with the rest of its program and the rows its open transaction has
    added, and what was committed so far.  [world_step] is one exchange of
    one call with PostgreSQL at its default isolation level, [READ COMMITTED]:

    - a statement sees what is committed when it runs and the rows of its own
      transaction;
    - sequences belong to the database: a number drawn stays drawn, and the
      number a waiting [INSERT] drew may be older than the sequence;
    - an [INSERT] of a key that another open transaction has inserted waits,
      which here means that it has no step; of two calls that wait for each
      other one fails;
    - a commit makes the rows visible at once; what was not committed is
      dropped when the [pqxx::work] ends;
    - a connection can break at any exchange, at the commit before or after
      the server executed it. *)
From stdpp Require Import gmap.
From S2P Require Import Prelude Requests Responses Storage Database Postgres Effects Growth Programs.

(** ** Rows and numbers *)

(** Positions of the three sequences. *)
Definition numbers : Type := Z * Z * Z.

Definition numbers_of (d : db) : numbers := (client_seq d, chat_seq d, message_seq d).

Definition with_numbers (d : db) (n : numbers) : db :=
  Db (Client d) (Chat d) (ClientToChat d) (Message d) (ClientToContact d) n.1.1 n.1.2 n.2.

Definition drawn (d : db) (n : numbers) : Prop :=
  1 ≤ n.1.1 ≤ client_seq d ∧ 1 ≤ n.1.2 ≤ chat_seq d ∧ 1 ≤ n.2 ≤ message_seq d.

#[export] Instance drawn_dec d n : Decision (drawn d n).
Proof. unfold drawn. apply _. Defined.

(** The rows of [d'] that [d] has not; rows are added at the end. *)
Definition rows_since (d d' : db) : rows :=
  Rows (drop (length (Client d)) (Client d')) (drop (length (Chat d)) (Chat d'))
       (drop (length (ClientToChat d)) (ClientToChat d'))
       (drop (length (Message d)) (Message d'))
       (drop (length (ClientToContact d)) (ClientToContact d')).

(** The committed tables after a statement that left the sequences of [d']. *)
Definition advance (d d' : db) : db :=
  Db (Client d) (Chat d) (ClientToChat d) (Message d) (ClientToContact d)
     (client_seq d `max` client_seq d') (chat_seq d `max` chat_seq d')
     (message_seq d `max` message_seq d').

(** ** Calls *)

Inductive phase : Type :=
| Idle        (** before its transaction *)
| Open        (** the transaction is open *)
| Failed      (** a statement failed *)
| Lost        (** the connection broke and nothing was committed *)
| Done        (** committed *)
| InDoubt.    (** committed, but the connection broke before the answer *)

(** [seen]: the committed states of the database since the call began, for
    the specification only. *)
Inductive call : Type :=
| Running (op : storage_op) (p : prog answer) (own : rows) (ph : phase) (seen : list db)
| Finished (op : storage_op) (result : exn + answer) (ph : phase) (seen : list db).

Record world := World {
  shared : db;
  calls : gmap nat call;
  log : list (nat * storage_op * rows)
}.

Definition running (c : call) : Prop := match c with Running _ _ _ _ _ => True | _ => False end.

#[export] Instance running_dec c : Decision (running c).
Proof. destruct c; apply _. Defined.

Definition own_rows (c : call) : rows :=
  match c with Running _ _ own _ _ => own | Finished _ _ _ _ => no_rows end.

(** [ElegramServer::WORKER_THREADS] *)
Definition WORKER_THREADS : nat := 2.

Definition busy (w : world) : nat := size (filter (λ kv, running kv.2) (calls w)).

Definition set_call (w : world) (p : nat) (c : call) : gmap nat call := <[p := c]> (calls w).

(** Nobody else has inserted a key of these rows. *)
Definition unclaimed (w : world) (p : nat) (r : rows) : Prop :=
  map_Forall (λ q c, q = p ∨ rows_apart r (own_rows c)) (calls w).

#[export] Instance unclaimed_dec w p r : Decision (unclaimed w p r).
Proof. unfold unclaimed. apply _. Defined.

(** A statement evaluated with the sequences at [n]. *)
Definition evaluate {A} (w : world) (own : rows) (s : stmt A) (n : numbers) : option A * db :=
  s (with_numbers (add_rows (shared w) own) n).

(** The rows call [p] would have if its statement ran now. *)
Definition wanted (w : world) (p : nat) : option rows :=
  match calls w !! p with
  | Some (Running _ (Query s _) own Open _) =>
      match evaluate w own s (numbers_of (shared w)) with
      | (Some _, d) => Some (rows_since (shared w) d)
      | (None, _) => None
      end
  | _ => None
  end.

(** Call [p] waits for call [q]. *)
Definition waits_for (w : world) (p q : nat) : bool :=
  match wanted w p, calls w !! q with
  | Some r, Some c => bool_decide (p ≠ q) && negb (bool_decide (rows_apart r (own_rows c)))
  | _, _ => false
  end.

(** Every call under way sees the new committed state. *)
Definition observe (d : db) (c : call) : call :=
  match c with
  | Running op p own ph seen => Running op p own ph (seen ++ [d])
  | Finished op result ph seen => c
  end.

(** ** Steps *)

Inductive event : Type :=
| Call (p : nat) (op : storage_op)
| Exchange (p : nat) (n : numbers)
| Break (p : nat) (committed : bool)
| Deadlock (p q : nat)
| Return (p : nat).

Section Steps.
Context `{P : Pqxx}.

Definition begin_call (p : nat) (op : storage_op) (w : world) : option world :=
  match calls w !! p with
  | Some _ => None
  | None =>
    if decide (busy w < WORKER_THREADS)%nat
    then Some (World (shared w) (set_call w p (Running op (program op) no_rows Idle [shared w]))
                     (log w))
    else None
  end.

Definition run_statement {A} (w : world) (p : nat) (op : storage_op) (own : rows) (seen : list db)
    (s : stmt A) (k : exn + A → prog answer) (n : numbers) : option world :=
  if decide (drawn (shared w) n) then
    match evaluate w own s n with
    | (Some x, d) =>
        let own' := rows_since (shared w) d in
        if decide (unclaimed w p own')
        then Some (World (advance (shared w) d)
                         (set_call w p (Running op (k (inr x)) own' Open seen)) (log w))
        else None
    | (None, d) =>
        Some (World (advance (shared w) d)
                    (set_call w p (Running op (k (inl sql_error)) own Failed seen)) (log w))
    end
  else None.

(** The server commits; [c] is what is left of the call. *)
Definition commit_rows (w : world) (p : nat) (op : storage_op) (own : rows) (c : call) : world :=
  let d := add_rows (shared w) own in
  World d (observe d <$> set_call w p c) (log w ++ [(p, op, own)]).

Definition exchange (p : nat) (n : numbers) (w : world) : option world :=
  match calls w !! p with
  | Some (Running op (Begin k) own Idle seen) =>
      Some (World (shared w) (set_call w p (Running op (k (inr ())) own Open seen)) (log w))
  | Some (Running op (Query s k) own Open seen) => run_statement w p op own seen s k n
  | Some (Running op (Commit k) own Open seen) =>
      Some (commit_rows w p op own (Running op (k (inr ())) no_rows Done seen))
  | _ => None
  end.

Definition break_connection (p : nat) (committed : bool) (w : world) : option world :=
  let lost op q own seen :=
    Some (World (shared w) (set_call w p (Running op q own Lost seen)) (log w)) in
  match calls w !! p with
  | Some (Running op (Begin k) own Idle seen) => lost op (k (inl std_exception)) own seen
  | Some (Running op (Query s k) own Open seen) => lost op (k (inl std_exception)) own seen
  | Some (Running op (Commit k) own Open seen) =>
      if committed
      then Some (commit_rows w p op own (Running op (k (inl std_exception)) no_rows InDoubt seen))
      else lost op (k (inl std_exception)) own seen
  | _ => None
  end.

(** PostgreSQL ends a cycle of waiting transactions. *)
Definition deadlock (p q : nat) (w : world) : option world :=
  match calls w !! p with
  | Some (Running op (Query s k) own Open seen) =>
      if waits_for w p q && waits_for w q p
      then Some (World (shared w) (set_call w p (Running op (k (inl sql_error)) own Failed seen))
                       (log w))
      else None
  | _ => None
  end.

(** The [pqxx::work] ends and the call returns or throws. *)
Definition return_call (p : nat) (w : world) : option world :=
  let finish op result ph seen :=
    Some (World (shared w) (set_call w p (Finished op result ph seen)) (log w)) in
  match calls w !! p with
  | Some (Running op (Ret x) own ph seen) => finish op (inr x) ph seen
  | Some (Running op (Raise e) own ph seen) => finish op (inl e) ph seen
  | _ => None
  end.

Definition world_step (ev : event) (w : world) : option world :=
  match ev with
  | Call p op => begin_call p op w
  | Exchange p n => exchange p n w
  | Break p committed => break_connection p committed w
  | Deadlock p q => deadlock p q w
  | Return p => return_call p w
  end.

Definition evolves (w w' : world) : Prop := ∃ ev, world_step ev w = Some w'.

(** Before any call. *)
Definition quiet (d : db) : world := World d ∅ [].

(** A schedule. *)
Fixpoint schedule (evs : list event) (w : world) : option world :=
  match evs with
  | [] => Some w
  | ev :: evs => w ← world_step ev w; schedule evs w
  end.
End Steps.
