(* ===== verification/Isolation.v ===== *)
(** * What a call can rely on while others run

    [good E Q p own d S]: the rest [p] of a call, whose transaction has added
    [own] to a database that is [d] or any later one and saw the states [S]
    since it began, commits only rows in relation [E] to these states and to
    the database it commits them to, and ends with a result in [Q].  The predicate quantifies over all later databases at every node,
    so the steps of other calls keep it. *)
From S2P Require Import Prelude Requests Responses Storage Database Postgres Transactions.
From S2P Require Import Effects Growth Invariants Completeness PostgresSpec Programs Interleaving.

#[local] Arguments fill : simpl never.
#[local] Opaque chat_with.

(** ** Databases that only grow *)

Definition grows (d d' : db) : Prop :=
  Client d ⊆ Client d' ∧ Chat d ⊆ Chat d' ∧ ClientToChat d ⊆ ClientToChat d' ∧
  Message d ⊆ Message d' ∧ ClientToContact d ⊆ ClientToContact d' ∧ seq_le d d'.

#[export] Instance grows_preorder : PreOrder grows.
Proof.
  split.
  - intros d. by split_and!.
  - intros d1 d2 d3 (?&?&?&?&?&?) (?&?&?&?&?&?). split_and!; by etrans.
Qed.

Lemma grows_advance d x d' : grows (advance d x) d' → grows d d'.
Proof.
  intros (H1&H2&H3&H4&H5&Hs). split_and!; try done. revert Hs. unfold seq_le. simpl. lia.
Qed.

(** A database the transaction that added [r] can find later. *)
Record later (r : rows) (d d' : db) : Prop := {
  later_tables : tables_ok d';
  later_keys : keys_ok (add_rows d' r);
  later_grows : grows d d'
}.

Lemma later_trans r d1 d2 d3 : later r d1 d2 → later r d2 d3 → later r d1 d3.
Proof. intros [_ _ H1] [H2 H3 H4]. split; [done|done|by etrans]. Qed.

Lemma later_advance r d x d' : later r (advance d x) d' → grows d d'.
Proof. intros [_ _ H]. by eapply grows_advance. Qed.

Lemma grows_client d d' r : grows d d' → r ∈ Client d → r ∈ Client d'.
Proof. intros (H & _). apply H. Qed.

Lemma grows_client_ids d d' u : grows d d' → u ∈ client_ids d → u ∈ client_ids d'.
Proof. intros (H & _). unfold client_ids. rewrite !list_elem_of_fmap. set_solver. Qed.

Lemma grows_member d d' u c : grows d d' → member d u c → member d' u c.
Proof. intros (_&_&H&_) (r & Hr & ? & ?). exists r. split_and!; set_solver. Qed.

(** ** Calls that keep their promises *)

Definition states : Type := db → Prop.

(** What a call promises of its result: of the committed states during the
    call, the phase it ends in, and the result. *)
Definition claim : Type := states → phase → exn + answer → Prop.

Definition monotone (Q : claim) : Prop :=
  ∀ (S S' : states) ph res, (∀ d, S d → S' d) → Q S ph res → Q S' ph res.

(** Nothing is left to do but to return. *)
Definition over (Q : claim) (S : states) (ph : phase) (p : prog answer) : Prop :=
  match p with Ret x => Q S ph (inr x) | Raise e => Q S ph (inl e) | _ => False end.

Fixpoint good (E : states → db → rows → Prop) (Q : claim) (p : prog answer) (own : rows) (d : db)
    (S : states) : Prop :=
  ∀ d' (S' : states), later own d d' → (∀ x, S x → S' x) → S' d' →
  match p with
  | Ret x => Q S' Open (inr x)
  | Raise e => Q S' Open (inl e)
  | Begin _ => False
  | Query s k =>
      inserts s ∧ over Q S' Lost (k (inl std_exception)) ∧
      over Q S' Failed (k (inl sql_error)) ∧
      ∀ n x d1, drawn d' n → s (with_numbers (add_rows d' own) n) = (Some x, d1) →
        good E Q (k (inr x)) (rows_since d' d1) (advance d' d1) S'
  | Commit k =>
      E S' d' own ∧ over Q S' Lost (k (inl std_exception)) ∧
      over Q S' InDoubt (k (inl std_exception)) ∧ over Q S' Done (k (inr ()))
  end.

(** Before its transaction. *)
Definition starts (E : states → db → rows → Prop) (Q : claim) (p : prog answer) (d : db) (S : states) : Prop :=
  match p with
  | Begin k => over Q S Lost (k (inl std_exception)) ∧ good E Q (k (inr ())) no_rows d S
  | _ => False
  end.

Lemma over_mono Q (S S' : states) ph p :
  monotone Q → (∀ d, S d → S' d) → over Q S ph p → over Q S' ph p.
Proof. intros HQ HS. destruct p; simpl; try done; by apply HQ. Qed.

Lemma good_later E Q p own d d' (S S' : states) :
  good E Q p own d S → later own d d' → (∀ x, S x → S' x) → good E Q p own d' S'.
Proof.
  intros Hg Hl HS. destruct p; simpl in *; intros d2 S2 Hl2 HS2 Hd2;
    exact (Hg d2 S2 (later_trans _ _ _ _ Hl Hl2) (λ x H, HS2 x (HS x H)) Hd2).
Qed.

(** ** Numbers and rows *)

Lemma add_with_numbers d r n : with_numbers (add_rows d r) n = add_rows (with_numbers d n) r.
Proof. done. Qed.

Lemma rows_since_add d r d' : same_tables (add_rows d r) d' → rows_since d d' = r.
Proof.
  intros (H1 & H2 & H3 & H4 & H5). destruct r. unfold rows_since. simpl in *.
  by rewrite H1, H2, H3, H4, H5, !drop_app_length.
Qed.

Lemma rows_since_with d r n : rows_since d (with_numbers (add_rows d r) n) = r.
Proof. by apply rows_since_add. Qed.

Lemma client_ids_no_new d r : new_clients r = [] → client_ids (add_rows d r) = client_ids d.
Proof. intros Hr. unfold client_ids. simpl. by rewrite Hr, app_nil_r. Qed.

Lemma with_numbers_none d n : with_numbers (add_rows d no_rows) n = with_numbers d n.
Proof. by rewrite add_no_rows. Qed.

(** ** The statements that insert, in the tables of a transaction *)

Section Inserting.
Context `{P : Pqxx} {L : PqxxLaws P}.
Implicit Types (own : rows) (n : numbers).

Lemma insert_client name email hash d own n d' :
  stmt_registration name email hash (with_numbers (add_rows d own) n) = (Some (), d') →
  ∃ nm e, sql_text name = Some nm ∧ sql_text email = Some e ∧ n.1.1 ≤ int4_max ∧
    d' = with_numbers (add_rows d (and_then own (Rows [ClientRow n.1.1 nm e hash] [] [] [] [])))
           (n.1.1 + 1, n.1.2, n.2).
Proof.
  intros (nm & e & Hn & He & _ & _ & Hmax & ->)%stmt_registration_Some.
  exists nm, e. split_and!; try done. unfold with_numbers, add_rows. simpl.
  by rewrite !app_nil_r, !app_assoc.
Qed.

Lemma insert_message sender chat mesg d own n d' :
  stmt_send_message sender chat mesg (with_numbers (add_rows d own) n) = (Some (), d') →
  ∃ text, sql_text mesg = Some text ∧
    d' = with_numbers (add_rows d (and_then own (Rows [] [] [] [MessageRow n.2 sender chat text] [])))
           (n.1.1, n.1.2, n.2 + 1).
Proof.
  intros (text & _ & _ & Ht & _ & _ & _ & _ & ->)%stmt_send_message_Some.
  exists text. split_and!; try done. unfold with_numbers, add_rows. simpl.
  by rewrite !app_nil_r, !app_assoc.
Qed.

Lemma insert_contact user friend d own n d' :
  stmt_add_contact user friend (with_numbers (add_rows d own) n) = (Some (), d') →
  user ∈ client_ids (add_rows d own) ∧ friend ∈ client_ids (add_rows d own) ∧
  d' = with_numbers (add_rows d (and_then own (Rows [] [] [] [] [ContactRow user friend]))) n.
Proof.
  intros (_ & _ & Hu & Hf & _ & ->)%stmt_add_contact_Some. split_and!; try done.
  unfold with_numbers, add_rows. simpl. by rewrite !app_nil_r, !app_assoc.
Qed.

Lemma insert_chat d own n id d' :
  stmt_create_chat (with_numbers (add_rows d own) n) = (Some id, d') →
  id = n.1.2 ∧ id ≤ int4_max ∧
  d' = with_numbers (add_rows d (and_then own (Rows [] [id] [] [] []))) (n.1.1, id + 1, n.2).
Proof.
  intros (-> & _ & Hmax & ->)%stmt_create_chat_Some. split_and!; try done.
  unfold with_numbers, add_rows. simpl. by rewrite !app_nil_r, !app_assoc.
Qed.

Lemma insert_member user chat title d own n d' :
  stmt_create_chat_connection user chat title (with_numbers (add_rows d own) n) = (Some (), d') →
  ∃ t, sql_text title = Some t ∧ user ∈ client_ids (add_rows d own) ∧
  d' = with_numbers (add_rows d (and_then own (Rows [] [] [MemberRow user chat t] [] []))) n.
Proof.
  intros (t & _ & _ & Ht & Hu & _ & ->)%stmt_create_chat_connection_Some.
  exists t. split_and!; try done. unfold with_numbers, add_rows. simpl.
  by rewrite !app_nil_r, !app_assoc.
Qed.
End Inserting.

(** ** Promises *)

Section Claims.
Context `{P : Pqxx} {L : PqxxLaws P}.

(** An operation that writes: [true] if and only if it committed and the
    connection stayed up. *)
Definition status_claim : claim := λ S ph res,
  match ph with
  | Done => res = inr (Status true)
  | _ => res = inr (Status false)
  end.

(** A query: the rows of one of the states, or none if it was cut short. *)
Definition rows_claim {Elt} (wrapped : list Elt → answer → Prop) (rows : db → list Elt) : claim :=
  λ S ph res, ∃ l x, res = inr x ∧ wrapped l x ∧
    ((∃ d, S d ∧ l ≡ₚ rows d) ∨ ph ≠ Done ∧ l = []).

(** A login: an exception, or the user of one of the states who has this
    email and the hash of this password. *)
Definition login_claim (email password : bytes) : claim := λ S ph res,
  match res with
  | inr x => ∃ d e r, S d ∧ quote_text email = Some e ∧ r ∈ Client d ∧ c_email r = e ∧
      c_password_hash r = SHA256 password ∧ x = UserFound (c_id r) (c_name r)
  | inl _ => True
  end.

Definition chats_answer (l : list Chat.t) (x : answer) : Prop :=
  ∃ resp, x = Chats resp ∧ ChatsResponse.chats resp = l.
Definition contacts_answer (l : list Contact.t) (x : answer) : Prop :=
  ∃ resp, x = Contacts resp ∧ ContactsResponse.contacts resp = l.
Definition messages_answer (l : list MessageToRecieve.t) (x : answer) : Prop :=
  ∃ resp, x = Messages resp ∧ MessagesResponse.messages resp = l.

(** The rows an operation adds to the tables it is committed to.  What
    [create_chat] has to find out before is [checked]. *)
Definition effect (op : storage_op) : db → rows → Prop :=
  match op with
  | Registration name email password => adds_client name email password
  | SendMessage sender mesg => adds_message sender mesg
  | AddContact user email => adds_contact user email
  | CreateChat user user_name friend => adds_chat user user_name friend
  | Login _ _ | GetChats _ | GetContacts _ | GetMessages _ => adds_nothing
  end.

(** [create_chat] found no common chat in one of the states it saw. *)
Definition checked (op : storage_op) (S : states) : Prop :=
  match op with
  | CreateChat user _ friend =>
      ∃ d, S d ∧ ∀ c, member d user c → member d friend c → False
  | _ => True
  end.

Definition commits (op : storage_op) (S : states) (d : db) (r : rows) : Prop :=
  effect op d r ∧ checked op S.

Definition promise (op : storage_op) : claim :=
  match op with
  | Registration _ _ _ | SendMessage _ _ | AddContact _ _ | CreateChat _ _ _ => status_claim
  | Login email password => login_claim email password
  | GetChats user => rows_claim chats_answer (λ d, chat_of_row <$> chat_rows d user)
  | GetContacts user => rows_claim contacts_answer (λ d, contact_of_row <$> contact_rows d user)
  | GetMessages chat => rows_claim messages_answer (λ d, message_of_row <$> message_rows d chat)
  end.

Lemma rows_claim_mono {Elt} (wrapped : list Elt → answer → Prop) rows :
  monotone (rows_claim wrapped rows).
Proof.
  intros S S' ph res HS (l & x & Hres & Hx & [(d & Hd & Hl)|Hl]);
    exists l, x; (split_and!; [done|done|]); [left; eauto|by right].
Qed.

Lemma promise_mono op : monotone (promise op).
Proof.
  destruct op; simpl; try apply rows_claim_mono; intros S S' ph res HS; try done.
  destruct res as [e|x]; simpl; [done|]. intros (d & Hd). exists d. naive_solver.
Qed.

Lemma effect_ok op d r : effect op d r → tables_ok d → tables_ok (add_rows d r).
Proof.
  destruct op; simpl; eauto using adds_client_ok, adds_message_ok, adds_contact_ok, adds_chat_ok;
    intros ->; by rewrite add_no_rows.
Qed.

(** One exchange of a program. *)
Ltac next_exchange :=
  intros ?d ?S ?Hlater ?HS ?Hseen; split_and!; [auto with elegram|done..|].

Lemma registration_good name email password d S :
  starts (commits (Registration name email password)) status_claim
    (program (Registration name email password)) d S.
Proof.
  simpl. split; [done|]. next_exchange. intros n [] d2 (Hn & _) Hs.
  apply insert_client in Hs as (nm & e & Hnm & He & Hmax & ->).
  rewrite rows_since_with. intros d3 S3 [Ht Hk (_&_&_&_&_&Hseq&_)] _ _. split_and!; try done.
  simpl in Hseq. apply key_of_client in Hk as [Hid Hem].
  split; [|done]. exists n.1.1, nm, e. split_and!; done || lia.
Qed.

Lemma send_message_good sender mesg d S :
  starts (commits (SendMessage sender mesg)) status_claim (program (SendMessage sender mesg)) d S.
Proof.
  simpl. split; [done|]. next_exchange. intros n rows d2 _ Hs.
  apply able_to_write_rows in Hs as [-> Hm]. rewrite rows_since_with.
  simpl. case_bool_decide as Hrows; simpl; [done|]. apply Hm in Hrows. clear Hm.
  rewrite with_numbers_none in Hrows.
  next_exchange. intros n' [] d2 (_ & _ & Hn') Hs.
  apply insert_message in Hs as (text & Htext & ->). rewrite rows_since_with.
  intros d3 S3 Hl3 _ _. split_and!; try done.
  pose proof (later_grows _ _ _ Hl3) as (_&_&_&_&_&_&_&Hseq). simpl in Hseq.
  pose proof (key_of_message _ _ (later_keys _ _ _ Hl3)) as Hk.
  apply later_advance in Hl3, Hlater0.
  split; [|done]. exists n'.2, text. split_and!; try done; try lia.
  by apply (grows_member d1), (grows_member d0).
Qed.

Lemma add_contact_good user email d S :
  starts (commits (AddContact user email)) status_claim (program (AddContact user email)) d S.
Proof.
  simpl. split; [done|]. next_exchange. intros n rows d2 _ Hs.
  apply user_by_email_rows in Hs as (-> & e & He & Hrows). rewrite rows_since_with.
  rewrite with_numbers_none in Hrows. destruct rows as [|[id name] rows]; simpl; [done|].
  destruct (proj1 (Hrows id name)) as (f & Hf & Hfe & Hfi & _); [left|]. clear Hrows.
  unfold p_uint64. destruct (id <? 0); simpl; [done|].
  next_exchange. intros n1 [] d2 _ Hs. apply insert_contact in Hs as (Hu & _ & ->).
  rewrite rows_since_with. simpl.
  next_exchange. intros n2 [] d3 _ Hs. apply insert_contact in Hs as (_ & _ & ->).
  rewrite rows_since_with. simpl.
  intros d4 S4 Hl4 _ _. split_and!; try done.
  pose proof (key_of_contacts _ _ (later_keys _ _ _ Hl4)) as [Hnd Hnew].
  apply later_advance in Hl4, Hlater0, Hlater1.
  split; [|done]. exists f, e. subst id. split_and!; try done.
  - apply (grows_client d2), (grows_client d1), (grows_client d0); done.
  - simpl in Hnd. intros Heq. rewrite <- Heq in Hnd. apply NoDup_cons in Hnd as [Hin _].
    destruct Hin. left.
  - rewrite add_no_rows in Hu. by apply (grows_client_ids d2), (grows_client_ids d1).
  - apply Hnew. left.
  - apply Hnew. right. left.
Qed.

Lemma tx_first_name_cases infos :
  tx_first_name infos = Raise std_exception ∨
  ∃ name, tx_first_name infos = Ret name ∧
          (missing_text = Some name ∨ ∃ email, (name, email) ∈ infos).
Proof.
  unfold tx_first_name. destruct infos as [|[name email] infos].
  - destruct missing_text as [name|]; [right|by left]. exists name. auto.
  - right. exists name. split; [done|]. right. exists email. left.
Qed.

Lemma create_chat_good user user_name friend d S :
  starts (commits (CreateChat user user_name friend)) status_claim
    (program (CreateChat user user_name friend)) d S.
Proof.
  simpl. split; [done|]. next_exchange. intros n rows d1 _ Hs.
  apply common_chat_rows in Hs as [-> Hnone]. rewrite rows_since_with.
  case_bool_decide as Hrows; simpl; [|done]. pose proof (proj1 Hnone Hrows) as Hno.
  rewrite with_numbers_none in Hno. clear Hnone.
  next_exchange. intros n1 id d2 (_ & Hn1 & _) Hs. apply insert_chat in Hs as (-> & Hmax & ->).
  rewrite rows_since_with. unfold p_uint64. destruct (_ <? 0); simpl; [done|].
  next_exchange. intros n2 infos d3 _ Hs. apply info_rows in Hs as [-> Hinfos].
  rewrite rows_since_with. simpl.
  destruct (tx_first_name_cases infos) as [->|(name & -> & Hname)]; simpl; [done|].
  next_exchange. intros n3 [] d4 _ Hs. apply insert_member in Hs as (ut & Hut & Hu & ->).
  rewrite rows_since_with. simpl.
  next_exchange. intros n4 [] d5 _ Hs. apply insert_member in Hs as (ft & Hft & Hf & ->).
  rewrite rows_since_with. simpl.
  intros d6 S6 Hl6 HS6 _. split_and!; try done. split.
  2: { exists d0. split; [by auto 10|exact Hno]. }
  pose proof (later_grows _ _ _ Hlater1) as (_&_&_&_&_&_&Hseq&_).
  pose proof (key_of_chat _ _ _ (later_keys _ _ _ Hl6)) as Hid.
  apply later_advance in Hl6, Hlater0, Hlater1, Hlater2, Hlater3.
  rewrite client_ids_no_new in Hu, Hf by done. simpl in Hseq.
  assert (∃ f, f ∈ Client d6 ∧ c_id f = friend ∧ friend_name f name) as (f & Hfd & Hfi & Hfn).
  { destruct Hname as [Hm|(email & Hin)].
    - apply (grows_client_ids d4 d6) in Hf; [|done].
      apply list_elem_of_fmap in Hf as (f & -> & Hf). exists f. split_and!; try done. by right.
    - apply Hinfos in Hin as (f & Hf2 & Hfi & Hfn & _). simpl in Hf2. rewrite app_nil_r in Hf2.
      exists f. split_and!; try done; [|by left].
      apply (grows_client d4), (grows_client d3), (grows_client d2); done. }
  exists f, n1.1.2, name, ut, ft. split_and!; try done.
  - by apply (grows_client_ids d4), (grows_client_ids d3).
  - lia.
  - destruct Hlater2 as (_&_&_&_&_&_&H2&_), Hlater3 as (_&_&_&_&_&_&H3&_), Hl6 as (_&_&_&_&_&_&H6&_). lia.
Qed.

(** ** Queries *)

Lemma tx_query_good {Row Resp Elt} E (q : db → option (list Row)) (g : list Row → Resp)
    (f : Resp → answer) (wrapped : list Elt → answer → Prop) (elts : Resp → list Elt)
    (rows : db → list Elt) d S :
  (∀ S d, E S d no_rows) → (∀ r, wrapped (elts r) (f r)) → elts (g []) = [] →
  (∀ d l, tables_ok d → q d = Some l → elts (g (scan l)) ≡ₚ rows d) →
  (∀ d n, q (with_numbers d n) = q d) →
  starts E (rows_claim wrapped rows)
    (p_map f (DO r <- tx_query (select q) THEN Ret (g r))) d S.
Proof.
  intros HE Hw Hnil Hrows Hq.
  assert (∀ S ph, ph ≠ Done → rows_claim wrapped rows S ph (inr (f (g [])))) as Hcut.
  { intros S' ph Hph. exists [], (f (g [])). split_and!; [done| |by right].
    rewrite <- Hnil. apply Hw. }
  simpl. split; [by apply Hcut|]. intros d1 S1 Hl1 HS1 Hd1.
  split_and!; [auto with elegram|by apply Hcut..|]. intros n l d2 _ Hs.
  apply select_Some in Hs as [(l0 & Hl0 & ->) ->]. rewrite rows_since_with.
  rewrite with_numbers_none, Hq in Hl0.
  intros d3 S3 Hl3 HS3 Hd3. split_and!; [done|by apply Hcut..|]. simpl.
  exists (elts (g (scan l0))), (f (g (scan l0))). split_and!; [done|done|].
  left. exists d1. split; [by apply HS3|]. apply Hrows; [apply Hl1|done].
Qed.

Lemma get_chats_good user d S :
  starts (commits (GetChats user)) (promise (GetChats user)) (program (GetChats user)) d S.
Proof.
  apply (tx_query_good _ _ _ _ _ ChatsResponse.chats); try done.
  - intros r. by exists r.
  - intros d' l Hok Hq. apply bind_Some in Hq as (u & [-> _]%int4_Some & [= <-]).
    rewrite fill_all; [rewrite fold_add_chats; simpl; by rewrite scan_permutation|].
    intros row Hrow. rewrite scan_permutation in Hrow. by eapply chat_rows_ids.
Qed.

Lemma get_contacts_good user d S :
  starts (commits (GetContacts user)) (promise (GetContacts user)) (program (GetContacts user)) d S.
Proof.
  apply (tx_query_good _ _ _ _ _ ContactsResponse.contacts); try done.
  - intros r. by exists r.
  - intros d' l Hok Hq. apply bind_Some in Hq as (u & [-> _]%int4_Some & [= <-]).
    rewrite fill_all.
    + rewrite fold_add_contacts. simpl. by rewrite scan_permutation, contact_join_rows.
    + intros row Hrow. rewrite scan_permutation in Hrow. by eapply contact_rows_ids.
Qed.

Lemma get_messages_good chat d S :
  starts (commits (GetMessages chat)) (promise (GetMessages chat)) (program (GetMessages chat)) d S.
Proof.
  apply (tx_query_good _ _ _ _ _ MessagesResponse.messages); try done.
  - intros r. by exists r.
  - intros d' l Hok Hq. apply bind_Some in Hq as (u & [-> _]%int4_Some & [= <-]).
    rewrite fill_all; [rewrite fold_add_messages; simpl; by rewrite scan_permutation|].
    intros row Hrow. rewrite scan_permutation in Hrow. by eapply message_rows_ids.
Qed.

Lemma login_good email password d S :
  starts (commits (Login email password)) (login_claim email password) (program (Login email password)) d S.
Proof.
  simpl. split; [done|]. next_exchange. intros n l d1 _ Hs.
  apply select_Some in Hs as [(l0 & Hl0 & ->) ->]. rewrite rows_since_with.
  rewrite with_numbers_none in Hl0. apply bind_Some in Hl0 as (e & He & [= <-]).
  assert (tables_ok d0) as Hok by apply Hlater. simpl.
  destruct (filter_nil_or_unique d0 e Hok) as [->|(r & Hr & Hre & ->)].
  - rewrite (proj2 (scan_nil []) eq_refl). by simpl.
  - rewrite scan_singleton. simpl. case_bool_decide as Hp; simpl; [|done].
    unfold p_uint64. destruct (_ <? 0); simpl; [done|].
    intros d2 S2 _ HS2 _. exists d0, e, r. split_and!; try done. by apply HS2.
Qed.

(** Every call keeps its promise. *)
Lemma program_good op d S : starts (commits op) (promise op) (program op) d S.
Proof.
  destruct op.
  - apply registration_good.
  - apply login_good.
  - apply send_message_good.
  - apply add_contact_good.
  - apply create_chat_good.
  - apply get_chats_good.
  - apply get_contacts_good.
  - apply get_messages_good.
Qed.
End Claims.
