(* ===== verification/Serial.v ===== *)
(** * The invariant of calls side by side

    In every reachable world the committed database is well formed and holds
    the rows that the logged operations add one after another; the rows of
    open transactions have no key in common with each other or with the
    database; and every call keeps its promise ([Isolation.v]). *)
From stdpp Require Import gmap.
From S2P Require Import Prelude Requests Responses Storage Database Postgres Effects Growth.
From S2P Require Import Programs Interleaving Isolation.

(** ** Executing operations one after another *)

Section Serial.
Context `{P : Pqxx} {L : PqxxLaws P}.

(** [serial d0 l d]: the operations of [l], each adding the rows logged with
    it, lead from [d0] to [d]; sequences may advance in between.  Whether a
    [create_chat] could add its chat at this place is [check_holds] of
    Overtaking.v. *)
Inductive serial (d0 : db) : list (nat * storage_op * rows) → db → Prop :=
| serial_nil d : unchanged d0 d → serial d0 [] d
| serial_commit l p op r d d' :
    serial d0 l d → effect op d r → unchanged (add_rows d r) d' →
    serial d0 (l ++ [(p, op, r)]) d'.

Lemma serial_unchanged d0 l d d' : serial d0 l d → unchanged d d' → serial d0 l d'.
Proof.
  intros [d1 H1|l1 p op r d1 d2 H1 HE Hu] H2; [apply serial_nil|eapply serial_commit; try done];
    by etrans.
Qed.

(** The committed states during a call, whatever their sequences. *)
Definition states_of (seen : list db) : states := λ d, ∃ d0, d0 ∈ seen ∧ same_tables d0 d.

(** What holds of a call when the database is [d]. *)
Definition call_ok (d : db) (c : call) : Prop :=
  match c with
  | Running op p own ph seen =>
      keys_ok (add_rows d own) ∧ states_of seen d ∧
      match ph with
      | Idle => own = no_rows ∧ starts (commits op) (promise op) p d (states_of seen)
      | Open => good (commits op) (promise op) p own d (states_of seen)
      | Failed | Lost => over (promise op) (states_of seen) ph p
      | Done | InDoubt => own = no_rows ∧ over (promise op) (states_of seen) ph p
      end
  | Finished op result ph seen => promise op (states_of seen) ph result
  end.

Definition op_of (c : call) : storage_op :=
  match c with Running op _ _ _ _ | Finished op _ _ _ => op end.
Definition phase_of (c : call) : phase :=
  match c with Running _ _ _ ph _ | Finished _ _ ph _ => ph end.

(** The server executed the commit of the call. *)
Definition is_committed (ph : phase) : bool :=
  match ph with Done | InDoubt => true | _ => false end.

(** A call is in the log, once, if and only if it was committed. *)
Record log_ok (w : world) : Prop := {
  log_once : NoDup ((λ e, e.1.1) <$> log w);
  log_call p op r : (p, op, r) ∈ log w →
    ∃ c, calls w !! p = Some c ∧ op_of c = op ∧ is_committed (phase_of c) = true;
  log_committed p c : calls w !! p = Some c → is_committed (phase_of c) = true →
    ∃ r, (p, op_of c, r) ∈ log w
}.

Record world_ok (d0 : db) (w : world) : Prop := {
  world_tables : tables_ok (shared w);
  world_grows : grows d0 (shared w);
  world_calls p c : calls w !! p = Some c → call_ok (shared w) c;
  world_apart p q c c' : p ≠ q → calls w !! p = Some c → calls w !! q = Some c' →
    rows_apart (own_rows c) (own_rows c');
  world_serial : serial d0 (log w) (shared w);
  world_log :> log_ok w
}.

(** ** What one step does to the other calls *)

Lemma unchanged_grows d d' : unchanged d d' → grows d d'.
Proof. intros [(H1 & H2 & H3 & H4 & H5) Hs]. unfold grows. by rewrite H1, H2, H3, H4, H5. Qed.

Lemma add_rows_grows d r : grows d (add_rows d r).
Proof. split_and!; simpl; try done; set_solver. Qed.

Lemma keys_ok_unchanged d d' r : unchanged d d' → keys_ok (add_rows d r) → keys_ok (add_rows d' r).
Proof.
  intros [(H1 & H2 & H3 & H4 & H5) _]. apply keys_ok_same. unfold same_tables, add_rows. simpl.
  by rewrite H1, H2, H3, H4, H5.
Qed.

Lemma unchanged_later d d' r : unchanged d d' → tables_ok d → keys_ok (add_rows d r) → later r d d'.
Proof.
  intros Hu Ht Hk. split; [by eapply tables_ok_unchanged|by eapply keys_ok_unchanged|].
  by apply unchanged_grows.
Qed.

Lemma starts_later E Q p d d' (S S' : states) :
  monotone Q → starts E Q p d S → later no_rows d d' → (∀ x, S x → S' x) → starts E Q p d' S'.
Proof.
  intros HQ. destruct p; simpl; try done. intros [Ho Hg] Hl HS.
  split; [by eapply over_mono|by eapply good_later].
Qed.

Lemma call_ok_later d d' c :
  call_ok d c → later (own_rows c) d d' → call_ok d' (observe d' c).
Proof.
  destruct c as [op p own ph seen|op res ph seen]; simpl; [|done].
  intros (Hk & Hs & Hph) Hl.
  assert (∀ x, states_of seen x → states_of (seen ++ [d']) x) as Hmore.
  { intros x (y & Hy & Hxy). exists y. set_solver. }
  split; [apply Hl|]. split; [exists d'; split; [set_solver|done]|].
  pose proof (promise_mono op) as HQ. destruct ph.
  - destruct Hph as [-> Hph]. split; [done|]. by eapply starts_later.
  - by eapply good_later.
  - by eapply over_mono.
  - by eapply over_mono.
  - destruct Hph as [-> Hph]. split; [done|]. by eapply over_mono.
  - destruct Hph as [-> Hph]. split; [done|]. by eapply over_mono.
Qed.

Lemma call_ok_unchanged d d' c :
  unchanged d d' → tables_ok d → call_ok d c → call_ok d' c.
Proof.
  destruct c as [op p own ph seen|op res ph seen]; simpl; [|done].
  intros Hu Ht (Hk & (y & Hy & Hyd) & Hph).
  pose proof (unchanged_later _ _ _ Hu Ht Hk) as Hl.
  split; [apply Hl|]. split; [exists y; split; [done|]; etrans; [done|]; apply Hu|].
  destruct ph; try done.
  - destruct Hph as [-> Hph]. split; [done|]. by eapply starts_later; [apply promise_mono|..].
  - by eapply good_later.
Qed.

Lemma observe_own d c : own_rows (observe d c) = own_rows c.
Proof. by destruct c. Qed.

Lemma observe_op d c : op_of (observe d c) = op_of c.
Proof. by destruct c. Qed.

Lemma observe_phase d c : phase_of (observe d c) = phase_of c.
Proof. by destruct c. Qed.

(** ** Steps *)

(** The same call, as far as the log is concerned. *)
Definition same_entry (old : option call) (c : call) : Prop :=
  match old with
  | Some o => op_of c = op_of o ∧ is_committed (phase_of c) = is_committed (phase_of o)
  | None => is_committed (phase_of c) = false
  end.

Lemma log_ok_local w p c d :
  log_ok w → same_entry (calls w !! p) c → log_ok (World d (set_call w p c) (log w)).
Proof.
  intros [Hnd Hin Hcom] Hsame. unfold set_call. split; simpl; [done| |].
  - intros q op r Hq. destruct (Hin q op r Hq) as (o & Ho & Hop & Hph).
    destruct (decide (q = p)) as [->|Hne]; [|rewrite lookup_insert_ne by done; eauto].
    rewrite lookup_insert_eq. rewrite Ho in Hsame. destruct Hsame as [Hs1 Hs2].
    exists c. split_and!; congruence.
  - intros q o Hq Hph. destruct (decide (q = p)) as [->|Hne].
    + rewrite lookup_insert_eq in Hq. injection Hq as <-.
      destruct (calls w !! p) as [o|] eqn:Ho; simpl in Hsame; [|congruence].
      destruct Hsame as [-> Hs]. apply (Hcom p o); [done|congruence].
    + rewrite lookup_insert_ne in Hq by done. eauto.
Qed.

(** A step that commits nothing changes one call and draws numbers. *)
Lemma local_step d0 w p c d :
  world_ok d0 w → unchanged (shared w) d → call_ok d c → unclaimed w p (own_rows c) →
  same_entry (calls w !! p) c → world_ok d0 (World d (set_call w p c) (log w)).
Proof.
  intros Hw Hu Hc Hfree Hsame.
  assert (∀ q o, q ≠ p → calls w !! q = Some o → rows_apart (own_rows c) (own_rows o)) as Hap.
  { intros q o Hne Hq. by destruct (Hfree q o Hq). }
  split; simpl.
  - eapply tables_ok_unchanged; [done|apply Hw].
  - etrans; [apply Hw|by apply unchanged_grows].
  - intros q o. unfold set_call. destruct (decide (q = p)) as [->|Hne].
    + rewrite lookup_insert_eq. by intros [= <-].
    + rewrite lookup_insert_ne by done. intros Hq.
      apply (call_ok_unchanged (shared w)); [done|apply Hw|by eapply world_calls].
  - intros q1 q2 o1 o2 Hne. unfold set_call.
    destruct (decide (q1 = p)) as [->|], (decide (q2 = p)) as [->|];
      rewrite ?lookup_insert_eq, ?lookup_insert_ne by done; try done.
    + intros [= <-] Hq. by eapply Hap.
    + intros Hq [= <-]. apply rows_apart_sym. by eapply Hap.
    + by apply (world_apart _ _ Hw).
  - eapply serial_unchanged; [apply Hw|done].
  - apply log_ok_local; [apply Hw|done].
Qed.

Lemma log_ok_commit w p op own ph q seen o :
  log_ok w → calls w !! p = Some o → op_of o = op → is_committed (phase_of o) = false →
  is_committed ph = true →
  log_ok (commit_rows w p op own (Running op q no_rows ph seen)).
Proof.
  intros [Hnd Hin Hcom] Ho Hop Hopen Hph. unfold commit_rows, set_call. split; simpl.
  - rewrite fmap_app. simpl. apply NoDup_snoc; [done|]. intros Hp.
    apply list_elem_of_fmap in Hp as ([[p' op'] r] & Heq & Hp). simpl in Heq. subst p'.
    destruct (Hin p op' r Hp) as (o' & Ho' & _ & Hc). congruence.
  - intros q' op' r [Hq|[= -> -> ->]]%elem_of_snoc; rewrite lookup_fmap.
    + destruct (Hin q' op' r Hq) as (o' & Ho' & Hop' & Hc).
      destruct (decide (q' = p)) as [->|Hne]; [congruence|].
      rewrite lookup_insert_ne, Ho' by done. simpl. eexists. split; [done|].
      by rewrite observe_op, observe_phase.
    + rewrite lookup_insert_eq. simpl. by eexists.
  - intros q' o'. rewrite lookup_fmap. destruct (decide (q' = p)) as [->|Hne].
    + rewrite lookup_insert_eq. intros [= <-] _. exists own. apply elem_of_snoc. by right.
    + rewrite lookup_insert_ne by done. destruct (calls w !! q') as [c|] eqn:Hc; [|done].
      intros [= <-]. rewrite observe_op, observe_phase. intros Hph'.
      destruct (Hcom q' c Hc Hph') as [r Hr]. exists r. apply elem_of_snoc. by left.
Qed.

(** A commit adds the rows of its transaction, and every call sees them. *)
Lemma commit_step d0 w p op k own seen q ph :
  world_ok d0 w → calls w !! p = Some (Running op k own Open seen) →
  effect op (shared w) own → over (promise op) (states_of seen) ph q → is_committed ph = true →
  world_ok d0 (commit_rows w p op own (Running op q no_rows ph seen)).
Proof.
  intros Hw Hp HE Ho Hph. set (d := add_rows (shared w) own).
  assert (tables_ok d) as Ht by (eapply effect_ok; [done|apply Hw]).
  assert (∀ q' c, q' ≠ p → calls w !! q' = Some c → keys_ok (add_rows (shared w) (own_rows c)) →
    later (own_rows c) (shared w) d) as Hlater.
  { intros q' c Hne Hc Hk. split; [done| |apply add_rows_grows].
    apply keys_ok_apart; [by apply tables_ok_keys|done|].
    exact (world_apart _ _ Hw p q' _ c (not_eq_sym Hne) Hp Hc). }
  split; simpl.
  - done.
  - etrans; [apply Hw|apply add_rows_grows].
  - intros q' c. rewrite lookup_fmap. unfold set_call. destruct (decide (q' = p)) as [->|Hne].
    + rewrite lookup_insert_eq. intros [= <-]. simpl. split_and!.
      * rewrite add_no_rows. by apply tables_ok_keys.
      * exists d. set_solver.
      * assert (over (promise op) (states_of (seen ++ [d])) ph q).
        { eapply over_mono; [apply promise_mono| |done]. intros x (y & Hy & ?).
          exists y. set_solver. }
        by destruct ph.
    + rewrite lookup_insert_ne by done. destruct (calls w !! q') as [c'|] eqn:Hc; [|done].
      intros [= <-]. pose proof (world_calls _ _ Hw q' c' Hc) as Hok.
      destruct c' as [op' p' own' ph' seen'|]; [|done].
      apply (call_ok_later (shared w)); [done|]. apply (Hlater q' _ Hne Hc), Hok.
  - intros q1 q2 c1 c2 Hne. rewrite !lookup_fmap. unfold set_call.
    destruct (decide (q1 = p)) as [->|], (decide (q2 = p)) as [->|];
      rewrite ?lookup_insert_eq, ?lookup_insert_ne by done; try done.
    + intros [= <-] _. apply rows_apart_nil.
    + intros _ [= <-]. apply rows_apart_sym, rows_apart_nil.
    + destruct (calls w !! q1) as [c1'|] eqn:H1, (calls w !! q2) as [c2'|] eqn:H2; try done.
      intros [= <-] [= <-]. rewrite !observe_own. by apply (world_apart _ _ Hw q1 q2).
  - apply (serial_commit _ _ _ _ _ (shared w)); [apply Hw|done|done].
  - by eapply log_ok_commit; [apply Hw|..].
Qed.

(** *** A statement of one call *)

Lemma advance_unchanged d d' : unchanged d (advance d d').
Proof. split; [by split_and!|]. unfold seq_le. simpl. lia. Qed.

Lemma rows_since_ok {A} (s : stmt A) w own n :
  inserts s → keys_ok (add_rows (shared w) own) →
  keys_ok (add_rows (advance (shared w) (evaluate w own s n).2)
             (rows_since (shared w) (evaluate w own s n).2)).
Proof.
  intros Hins Hk. unfold evaluate.
  destruct (Hins (with_numbers (add_rows (shared w) own) n)) as (_ & Hkeys & r & Hr).
  rewrite add_with_numbers, add_and_then in *.
  assert (same_tables (add_rows (shared w) (and_then own r))
            (s (add_rows (with_numbers (shared w) n) own)).2) as Hsame.
  { etrans; [|done]. by split_and!. }
  rewrite (rows_since_add _ _ _ Hsame).
  apply (keys_ok_unchanged (shared w)); [apply advance_unchanged|].
  apply (keys_ok_same (s (add_rows (with_numbers (shared w) n) own)).2); [by symmetry|].
  apply Hkeys. revert Hk. apply keys_ok_same. by split_and!.
Qed.

Lemma later_refl d r : tables_ok d → keys_ok (add_rows d r) → later r d d.
Proof. by split. Qed.

(** A call about to make an exchange, in an open transaction. *)
Lemma open_call d0 w p op q own seen :
  world_ok d0 w → calls w !! p = Some (Running op q own Open seen) →
  keys_ok (add_rows (shared w) own) ∧ states_of seen (shared w) ∧
  match q with
  | Ret x => promise op (states_of seen) Open (inr x)
  | Raise e => promise op (states_of seen) Open (inl e)
  | Begin _ => False
  | Query s k =>
      inserts s ∧ over (promise op) (states_of seen) Lost (k (inl std_exception)) ∧
      over (promise op) (states_of seen) Failed (k (inl sql_error)) ∧
      ∀ n x d, drawn (shared w) n → evaluate w own s n = (Some x, d) →
        good (commits op) (promise op) (k (inr x)) (rows_since (shared w) d) (advance (shared w) d)
          (states_of seen)
  | Commit k =>
      commits op (states_of seen) (shared w) own ∧ over (promise op) (states_of seen) Lost (k (inl std_exception)) ∧
      over (promise op) (states_of seen) InDoubt (k (inl std_exception)) ∧
      over (promise op) (states_of seen) Done (k (inr ()))
  end.
Proof.
  intros Hw Hp. destruct (world_calls _ _ Hw p _ Hp) as (Hk & Hs & Hg).
  split; [done|]. split; [done|].
  pose proof (later_refl _ _ (world_tables _ _ Hw) Hk) as Hl.
  destruct q; simpl in Hg; exact (Hg _ _ Hl (λ x H, H) Hs).
Qed.

Lemma own_unclaimed d0 w p c : world_ok d0 w → calls w !! p = Some c → unclaimed w p (own_rows c).
Proof.
  intros Hw Hp q c' Hq. destruct (decide (q = p)) as [->|Hne]; [by left|right].
  exact (world_apart _ _ Hw p q c c' (not_eq_sym Hne) Hp Hq).
Qed.

Lemma none_unclaimed w p : unclaimed w p no_rows.
Proof. intros q c _. right. apply rows_apart_nil. Qed.

(** A call that goes on without its transaction, its rows still locked. *)
Lemma over_step d0 w p op q own ph seen q' ph' :
  world_ok d0 w → calls w !! p = Some (Running op q own ph seen) →
  is_committed ph = false → ph' = Failed ∨ ph' = Lost →
  over (promise op) (states_of seen) ph' q' →
  ∀ d, unchanged (shared w) d →
  world_ok d0 (World d (set_call w p (Running op q' own ph' seen)) (log w)).
Proof.
  intros Hw Hp Hph Hph' Ho d Hu.
  destruct (world_calls _ _ Hw p _ Hp) as (Hk & (y & Hy & Hyd) & _).
  apply local_step; [done|done| |exact (own_unclaimed _ _ _ _ Hw Hp)|].
  - simpl. split; [by eapply keys_ok_unchanged|].
    split; [exists y; split; [done|]; etrans; [done|apply Hu]|]. by destruct Hph' as [-> | ->].
  - rewrite Hp. simpl. rewrite Hph. split; [done|]. by destruct Hph' as [-> | ->].
Qed.

Lemma begin_call_ok d0 w w' p op : world_ok d0 w → begin_call p op w = Some w' → world_ok d0 w'.
Proof.
  intros Hw. unfold begin_call. destruct (calls w !! p) eqn:Hp; [done|].
  case_decide; [|done]. intros [= <-].
  apply local_step; [done|done| |apply none_unclaimed|by rewrite Hp].
  simpl. split_and!.
  - rewrite add_no_rows. apply tables_ok_keys, Hw.
  - exists (shared w). split; [set_solver|done].
  - done.
  - apply program_good.
Qed.

Lemma run_statement_ok {A} d0 w w' p op own seen (s : stmt A) k n :
  world_ok d0 w → calls w !! p = Some (Running op (Query s k) own Open seen) →
  run_statement w p op own seen s k n = Some w' → world_ok d0 w'.
Proof.
  intros Hw Hp. destruct (open_call _ _ _ _ _ _ _ Hw Hp) as (Hk & (y & Hy & Hyd) & Hins & _ & Hf & Hg).
  unfold run_statement. case_decide as Hn; [|done].
  pose proof (rows_since_ok s w own n Hins Hk) as Hk'.
  destruct (evaluate w own s n) as [[x|] d] eqn:Hev; simpl in Hk'.
  - case_decide as Hfree; [|done]. intros [= <-].
    apply local_step; [done|apply advance_unchanged| |done|by rewrite Hp].
    split; [done|]. split; [exists y; split; [done|by etrans]|]. by eapply Hg.
  - intros [= <-]. eapply over_step; try done; [by left|apply advance_unchanged].
Qed.

Lemma exchange_ok d0 w w' p n : world_ok d0 w → exchange p n w = Some w' → world_ok d0 w'.
Proof.
  intros Hw. unfold exchange. destruct (calls w !! p) as [[op q own ph seen|]|] eqn:Hp; [|done..].
  destruct q as [x|e|k|B s k|k]; destruct ph; try done.
  - intros [= <-]. destruct (world_calls _ _ Hw p _ Hp) as (Hk & Hs & -> & _ & Hg).
    apply local_step; [done|done|done|apply none_unclaimed|by rewrite Hp].
  - intros Hst. by eapply run_statement_ok.
  - intros [= <-]. destruct (open_call _ _ _ _ _ _ _ Hw Hp) as (_ & _ & [HE _] & _ & _ & Ho).
    by eapply commit_step.
Qed.

Lemma break_connection_ok d0 w w' p b :
  world_ok d0 w → break_connection p b w = Some w' → world_ok d0 w'.
Proof.
  intros Hw. unfold break_connection.
  destruct (calls w !! p) as [[op q own ph seen|]|] eqn:Hp; [|done..].
  destruct q as [x|e|k|B s k|k]; destruct ph; try done.
  - intros [= <-]. destruct (world_calls _ _ Hw p _ Hp) as (_ & _ & _ & Ho & _).
    eapply over_step; try done. by right.
  - intros [= <-]. destruct (open_call _ _ _ _ _ _ _ Hw Hp) as (_ & _ & _ & Ho & _).
    eapply over_step; try done. by right.
  - destruct (open_call _ _ _ _ _ _ _ Hw Hp) as (_ & _ & [HE _] & Ho & Hd & _).
    destruct b; intros [= <-].
    + by eapply commit_step.
    + eapply over_step; try done. by right.
Qed.

Lemma deadlock_ok d0 w w' p q : world_ok d0 w → deadlock p q w = Some w' → world_ok d0 w'.
Proof.
  intros Hw. unfold deadlock.
  destruct (calls w !! p) as [[op r own ph seen|]|] eqn:Hp; [|done..].
  destruct r as [x|e|k|B s k|k]; destruct ph; try done.
  destruct (_ && _); [|done]. intros [= <-].
  destruct (open_call _ _ _ _ _ _ _ Hw Hp) as (_ & _ & _ & _ & Ho & _).
  eapply over_step; try done. by left.
Qed.

Lemma return_call_ok d0 w w' p : world_ok d0 w → return_call p w = Some w' → world_ok d0 w'.
Proof.
  intros Hw. unfold return_call.
  destruct (calls w !! p) as [[op q own ph seen|]|] eqn:Hp; [|done..].
  pose proof (world_calls _ _ Hw p _ Hp) as (_ & _ & Hph).
  assert (∀ res, (q = match res with inr x => Ret x | inl e => Raise e end) →
    promise op (states_of seen) ph res) as Hres.
  { intros res ->. destruct ph.
    - by destruct res, Hph as [_ ?].
    - pose proof (open_call _ _ _ _ _ _ _ Hw Hp) as (_ & _ & Ho). by destruct res.
    - by destruct res.
    - by destruct res.
    - by destruct res, Hph as [_ ?].
    - by destruct res, Hph as [_ ?]. }
  destruct q as [x|e|k|B s k|k]; try done; intros [= <-];
    (apply local_step; [done|done| |apply none_unclaimed|by rewrite Hp]).
  - by apply (Hres (inr x)).
  - by apply (Hres (inl e)).
Qed.

(** Every step keeps the invariant. *)
Lemma world_step_ok d0 w w' ev : world_ok d0 w → world_step ev w = Some w' → world_ok d0 w'.
Proof.
  destruct ev; simpl.
  - apply begin_call_ok.
  - apply exchange_ok.
  - apply break_connection_ok.
  - apply deadlock_ok.
  - apply return_call_ok.
Qed.

Lemma quiet_ok d : tables_ok d → world_ok d (quiet d).
Proof.
  intros Ht. split; simpl; try done.
  - by apply serial_nil.
  - split; simpl; [apply NoDup_nil_2|by intros p op r []%elem_of_nil|done].
Qed.

Lemma evolves_ok d w : tables_ok d → rtc evolves (quiet d) w → world_ok d w.
Proof.
  intros Ht Hr. remember (quiet d) as w0 eqn:Hw0.
  assert (world_ok d w0) as Hok by (subst; by apply quiet_ok). clear Hw0.
  induction Hr as [w|w w1 w2 [ev Hev] _ IH]; [done|]. eauto using world_step_ok.
Qed.

Lemma schedule_evolves evs w w' : schedule evs w = Some w' → rtc evolves w w'.
Proof.
  revert w. induction evs as [|ev evs IH]; intros w; simpl; [by intros [= ->]|].
  intros (w1 & Hst & Hrun)%bind_Some. eapply rtc_l; [by exists ev|auto].
Qed.

Lemma schedule_ok d evs w : tables_ok d → schedule evs (quiet d) = Some w → world_ok d w.
Proof. intros Ht Hrun. apply evolves_ok; [done|]. by eapply schedule_evolves. Qed.

(** A call that writes. *)
Definition modifies (op : storage_op) : Prop :=
  match op with
  | Registration _ _ _ | SendMessage _ _ | AddContact _ _ | CreateChat _ _ _ => True
  | Login _ _ | GetChats _ | GetContacts _ | GetMessages _ => False
  end.

(** What the log says of a call that answered [true], and of one that answered
    [false] although its connection did not break at the commit. *)
Definition logged (w : world) (p : nat) (op : storage_op) (result : exn + answer) (ph : phase) : Prop :=
  result = inr (Status true) ∧ (∃ r, (p, op, r) ∈ log w) ∨
  result = inr (Status false) ∧ (ph ≠ InDoubt → ∀ op' r, (p, op', r) ∉ log w).

Lemma finished_logged d0 w p op result ph seen :
  world_ok d0 w → modifies op → calls w !! p = Some (Finished op result ph seen) →
  logged w p op result ph.
Proof.
  intros Hw Hop Hp. pose proof (world_calls _ _ Hw p _ Hp) as H3. simpl in H3.
  destruct (world_log _ _ Hw) as [_ Hin Hcom].
  assert (status_claim (states_of seen) ph result) as Hres by (by destruct op).
  assert (is_committed ph = false → ∀ op' r, (p, op', r) ∉ log w) as Hnot.
  { intros Hph op' r Hlog. destruct (Hin p op' r Hlog) as (c & Hc & _ & Hc').
    rewrite Hp in Hc. injection Hc as <-. simpl in Hc'. congruence. }
  unfold logged. destruct ph; simpl in Hres; auto.
  left. split; [done|]. by apply (Hcom p _ Hp).
Qed.
End Serial.
