(* ===== verification/Progress.v ===== *)
(** * Calls side by side come to an end

    A call makes a bounded number of steps, and as long as a call is under
    way some call can take a step without a new one being made or a connection
    breaking: with two worker threads a cycle of waiting transactions has two
    members, and PostgreSQL ends it. *)
From stdpp Require Import gmap.
From S2P Require Import Prelude Requests Responses Storage Database Postgres Effects Growth.
From S2P Require Import Programs Interleaving Isolation Serial.

(** [within p n]: the program ends after at most [n] exchanges. *)
Fixpoint within {A} (p : prog A) (n : nat) : Prop :=
  match p with
  | Ret _ | Raise _ => True
  | Begin k => match n with O => False | S n => ∀ r, within (k r) n end
  | Query s k => match n with O => False | S n => ∀ r, within (k r) n end
  | Commit k => match n with O => False | S n => ∀ r, within (k r) n end
  end.

(** The begin, five statements and the commit of [create_chat]. *)
Definition most_exchanges : nat := 7.

(** The call that takes a step. *)
Definition mover (ev : event) : option nat :=
  match ev with
  | Call _ _ => None
  | Exchange p _ | Break p _ | Deadlock p _ | Return p => Some p
  end.

Definition moves (p : nat) (evs : list event) : nat :=
  length (filter (λ ev, mover ev = Some p) evs).

Section Progress.
Context `{P : Pqxx} {L : PqxxLaws P}.

Ltac all_branches :=
  repeat match goal with
  | |- _ + _ → _ => intros [?|?]; simpl
  | |- ∀ _, _ => intros ?; simpl
  | |- within (match ?x with _ => _ end) _ => destruct x; simpl
  | |- within (p_bind (match ?x with _ => _ end) _) _ => destruct x; simpl
  | |- within (p_bind (p_catch (match ?x with _ => _ end) _) _) _ => destruct x; simpl
  | |- within (p_bind (p_catch (p_bind (match ?x with _ => _ end) _) _) _) _ => destruct x; simpl
  | |- True => exact I
  end.

Lemma program_within op : within (program op) most_exchanges.
Proof.
  unfold most_exchanges. destruct op; simpl; unfold p_uint64, tx_first_name; all_branches.
Qed.
(** A call can make at most [n] more steps. *)
Definition may_move (c : option call) (n : nat) : Prop :=
  match c with
  | None => n = S most_exchanges
  | Some (Running _ p _ _ _) => ∃ m, n = S m ∧ within p m
  | Some (Finished _ _ _ _) => True
  end.

Lemma may_move_observe d c n : may_move (observe d <$> c) n ↔ may_move c n.
Proof. by destruct c as [[]|]. Qed.

Lemma may_move_other w p q c n :
  q ≠ p → may_move (calls w !! p) n → may_move (set_call w q c !! p) n.
Proof. intros Hne. unfold set_call. by rewrite lookup_insert_ne. Qed.

Lemma may_move_running w p op q own ph seen n :
  within q n → may_move (set_call w p (Running op q own ph seen) !! p) (S n).
Proof. intros Hq. unfold set_call. rewrite lookup_insert_eq. simpl. eauto. Qed.

Lemma may_move_exchange w w' p n k :
  exchange p n w = Some w' → may_move (calls w !! p) k →
  ∃ m, k = S m ∧ may_move (calls w' !! p) m.
Proof.
  unfold exchange. destruct (calls w !! p) as [[op r own ph seen|]|]; [|done..].
  intros Hst (m & -> & Hw). exists m. split; [done|]. revert Hst Hw.
  destruct r as [x|e|k|B s k|k]; destruct ph; try done; simpl; intros Hst Hw;
    (destruct m as [|m]; [done|]).
  - injection Hst as <-. by apply may_move_running.
  - unfold run_statement in Hst. case_decide; [|done].
    destruct (evaluate w own s n) as [[x|] d]; [case_decide; [|done]|];
      injection Hst as <-; by apply may_move_running.
  - injection Hst as <-. simpl. rewrite lookup_fmap. apply may_move_observe.
    by apply may_move_running.
Qed.

Lemma may_move_break w w' p b k :
  break_connection p b w = Some w' → may_move (calls w !! p) k →
  ∃ m, k = S m ∧ may_move (calls w' !! p) m.
Proof.
  unfold break_connection. destruct (calls w !! p) as [[op r own ph seen|]|]; [|done..].
  intros Hst (m & -> & Hw). exists m. split; [done|]. revert Hst Hw.
  destruct r as [x|e|k|B s k|k]; destruct ph; try done; simpl; intros Hst Hw;
    (destruct m as [|m]; [done|]).
  - injection Hst as <-. by apply may_move_running.
  - injection Hst as <-. by apply may_move_running.
  - destruct b; injection Hst as <-; simpl; [rewrite lookup_fmap; apply may_move_observe|];
      by apply may_move_running.
Qed.

Lemma may_move_step w w' p ev k :
  mover ev = Some p → world_step ev w = Some w' → may_move (calls w !! p) k →
  ∃ m, k = S m ∧ may_move (calls w' !! p) m.
Proof.
  destruct ev as [q op|q n|q b|q q'|q]; simpl; [done|..]; intros [= ->].
  - apply may_move_exchange.
  - apply may_move_break.
  - unfold deadlock. destruct (calls w !! p) as [[op [x|e|kk|B s kk|kk] own [] seen|]|]; try done.
    destruct (_ && _); [|done]. intros [= <-] (m & -> & Hw). exists m. split; [done|].
    destruct m as [|m]; [done|]. by apply may_move_running.
  - unfold return_call. destruct (calls w !! p) as [[op r own ph seen|]|]; [|done..].
    intros Hst (m & -> & _). exists m. split; [done|].
    destruct r; try done; injection Hst as <-; simpl; unfold set_call; by rewrite lookup_insert_eq.
Qed.

(** ** The shape of a step *)

Definition is_running (w : world) (p : nat) : Prop := ∃ c, calls w !! p = Some c ∧ running c.

Definition seen_of (c : call) : list db :=
  match c with Running _ _ _ _ seen | Finished _ _ _ seen => seen end.

(** A step makes a call, goes on with one, or commits the rows of one. *)
Inductive stepped (w : world) : event → world → Prop :=
| stepped_call p op :
    calls w !! p = None → (busy w < WORKER_THREADS)%nat →
    stepped w (Call p op)
      (World (shared w) (set_call w p (Running op (program op) no_rows Idle [shared w])) (log w))
| stepped_on ev p c c' d :
    mover ev = Some p → calls w !! p = Some c → running c → unchanged (shared w) d →
    op_of c' = op_of c → seen_of c' = seen_of c →
    is_committed (phase_of c') = is_committed (phase_of c) → running c' ∨ ev = Return p →
    stepped w ev (World d (set_call w p c') (log w))
| stepped_commit ev p op k own seen q ph :
    mover ev = Some p → calls w !! p = Some (Running op (Commit k) own Open seen) →
    is_committed ph = true →
    stepped w ev (commit_rows w p op own (Running op q no_rows ph seen)).

Lemma step_cases ev w w' : world_step ev w = Some w' → stepped w ev w'.
Proof.
  destruct ev as [q op|q n|q b|q q'|q]; simpl.
  - unfold begin_call. destruct (calls w !! q) eqn:Hq; [done|]. case_decide; [|done].
    intros [= <-]. by apply stepped_call.
  - unfold exchange. destruct (calls w !! q) as [[op [x|e|k|B s k|k] own [] seen|]|] eqn:Hq; try done;
      intros Hst.
    + injection Hst as <-. eapply stepped_on; try done. by left.
    + unfold run_statement in Hst. case_decide; [|done].
      destruct (evaluate w own s n) as [[x|] d]; [case_decide; [|done]|]; injection Hst as <-;
        (eapply stepped_on; try done; [apply advance_unchanged|by left]).
    + injection Hst as <-. by eapply stepped_commit.
  - unfold break_connection.
    destruct (calls w !! q) as [[op [x|e|k|B s k|k] own [] seen|]|] eqn:Hq; try done;
      intros Hst.
    + injection Hst as <-. eapply stepped_on; try done. by left.
    + injection Hst as <-. eapply stepped_on; try done. by left.
    + destruct b; injection Hst as <-; [by eapply stepped_commit|eapply stepped_on; try done; by left].
  - unfold deadlock. destruct (calls w !! q) as [[op [x|e|k|B s k|k] own [] seen|]|] eqn:Hq; try done.
    destruct (_ && _); [|done]. intros [= <-]. eapply stepped_on; try done. by left.
  - unfold return_call.
    destruct (calls w !! q) as [[op [x|e|k|B s k|k] own ph seen|]|] eqn:Hq; try done;
      intros [= <-]; (eapply stepped_on; try done; by right).
Qed.

(** The calls after one call became [c], and perhaps saw a commit. *)
Definition with_call (w w' : world) (p : nat) (c : call) : Prop :=
  calls w' = set_call w p c ∨ ∃ d, calls w' = observe d <$> set_call w p c.

Lemma step_shape ev w w' : world_step ev w = Some w' →
  match mover ev with
  | Some p => is_running w p ∧ ∃ c, with_call w w' p c
  | None => ∃ p op, ev = Call p op ∧ calls w !! p = None ∧ (busy w < WORKER_THREADS)%nat ∧
      with_call w w' p (Running op (program op) no_rows Idle [shared w])
  end.
Proof.
  unfold with_call. intros [p op Hp Hb|ev' p c c' d Hm Hp Hrun _ _ _ _ _|ev' p op k own seen q ph Hm Hp _]%step_cases.
  - exists p, op. split_and!; try done. by left.
  - rewrite Hm. split; [by exists c|]. exists c'. by left.
  - rewrite Hm. split; [by eexists|]. eexists. right. by eexists.
Qed.

Lemma with_call_other w w' p q c :
  with_call w w' q c → q ≠ p →
  calls w' !! p = calls w !! p ∨ ∃ d, calls w' !! p = observe d <$> calls w !! p.
Proof.
  intros [->|[d ->]] Hne; [left|right; exists d; rewrite lookup_fmap]; unfold set_call;
    by rewrite lookup_insert_ne.
Qed.

Lemma with_call_same w w' p c :
  with_call w w' p c → calls w' !! p = Some c ∨ ∃ d, calls w' !! p = Some (observe d c).
Proof.
  intros [->|[d ->]]; [left|right; exists d; rewrite lookup_fmap]; unfold set_call;
    by rewrite lookup_insert_eq.
Qed.

(** The steps of the others, and new calls, leave a call its moves. *)
Lemma may_move_others w w' p ev k :
  mover ev ≠ Some p → world_step ev w = Some w' → may_move (calls w !! p) k →
  may_move (calls w' !! p) k.
Proof.
  intros Hm Hst Hk. apply step_shape in Hst.
  assert (∀ q c, with_call w w' q c → q ≠ p → may_move (calls w' !! p) k) as Hother.
  { intros q c Hc Hne. destruct (with_call_other _ _ p _ _ Hc Hne) as [->|[d ->]]; [done|].
    by apply may_move_observe. }
  destruct (mover ev) as [q|].
  - destruct Hst as (_ & c & Hc). apply (Hother q c); congruence.
  - destruct Hst as (q & op & -> & Hq & _ & Hc). destruct (decide (q = p)) as [->|]; [|by eapply Hother].
    rewrite Hq in Hk. simpl in Hk. subst k.
    destruct (with_call_same _ _ _ _ Hc) as [->|[d ->]]; simpl; eauto using program_within.
Qed.

Lemma may_move_moves evs w w' p k :
  schedule evs w = Some w' → may_move (calls w !! p) k → (moves p evs ≤ k)%nat.
Proof.
  unfold moves. revert w k. induction evs as [|ev evs IH]; intros w k; simpl; [lia|].
  intros Hrun Hk. apply bind_Some in Hrun as (w1 & Hst & Hrun). rewrite filter_cons.
  case_decide as Hm; simpl.
  - destruct (may_move_step _ _ _ _ _ Hm Hst Hk) as (m & -> & Hk').
    specialize (IH _ _ Hrun Hk'). lia.
  - apply (IH w1); [done|]. by eapply may_move_others.
Qed.

(** ** The worker threads *)

Definition running_calls (w : world) : gset nat := dom (filter (λ kv, running kv.2) (calls w)).

Lemma elem_of_running w p : p ∈ running_calls w ↔ is_running w p.
Proof.
  unfold running_calls. rewrite elem_of_dom. unfold is_Some, is_running.
  setoid_rewrite map_lookup_filter_Some. done.
Qed.

Lemma busy_size w : busy w = size (running_calls w).
Proof. unfold busy, running_calls. by rewrite size_dom. Qed.

Lemma with_call_running w w' p c q :
  with_call w w' p c → is_running w' q → q = p ∨ is_running w q.
Proof.
  intros Hc (c' & Hq & Hrun). destruct (decide (q = p)) as [->|Hne]; [by left|right].
  destruct (with_call_other _ _ q _ _ Hc (not_eq_sym Hne)) as [He|[d He]]; rewrite He in Hq.
  - by exists c'.
  - destruct (calls w !! q) as [c0|] eqn:H0; [|done]. injection Hq as <-. exists c0.
    split; [done|]. by destruct c0.
Qed.

(** At most as many calls run as there are threads. *)
Lemma busy_step w w' ev :
  world_step ev w = Some w' → (busy w ≤ WORKER_THREADS)%nat → (busy w' ≤ WORKER_THREADS)%nat.
Proof.
  intros Hst Hb. apply step_shape in Hst. rewrite busy_size in *. destruct (mover ev) as [p|].
  - destruct Hst as (Hrun & c & Hc). etrans; [apply subseteq_size|exact Hb].
    intros q [-> |Hq]%elem_of_running%(with_call_running _ _ _ _ _ Hc); by apply elem_of_running.
  - destruct Hst as (p & op & _ & _ & Hlt & Hc).
    etrans; [apply (subseteq_size _ ({[p]} ∪ running_calls w))|].
    + intros q [-> |Hq]%elem_of_running%(with_call_running _ _ _ _ _ Hc); [set_solver|].
      apply elem_of_union_r. by apply elem_of_running.
    + rewrite size_union_alt, size_singleton.
      pose proof (subseteq_size (running_calls w ∖ {[p]}) (running_calls w) ltac:(set_solver)). lia.
Qed.

Lemma busy_reachable d w : rtc evolves (quiet d) w → (busy w ≤ WORKER_THREADS)%nat.
Proof.
  intros Hr. remember (quiet d) as w0 eqn:Hw0.
  assert (busy w0 ≤ WORKER_THREADS)%nat as Hb by (subst; unfold WORKER_THREADS; vm_compute; lia).
  clear Hw0. induction Hr as [w|w w1 w2 [ev Hev] _ IH]; [done|]. eauto using busy_step.
Qed.

(** Of three calls that run two are the same. *)
Lemma two_threads w p q r :
  (busy w ≤ WORKER_THREADS)%nat → is_running w p → is_running w q → is_running w r →
  p ≠ q → q ≠ r → r = p.
Proof.
  rewrite busy_size. unfold WORKER_THREADS. intros Hb Hp Hq Hr Hpq Hqr.
  destruct (decide (r = p)) as [|Hrp]; [done|exfalso].
  assert (size ({[p; q; r]} : gset nat) ≤ size (running_calls w))%nat as Hs.
  { apply subseteq_size. intros x. rewrite !elem_of_union, !elem_of_singleton, elem_of_running.
    by intros [[-> | ->]| ->]. }
  rewrite !size_union, !size_singleton in Hs by set_solver. lia.
Qed.

(** ** Some call can go on *)

(** A step that is not a new call and not a fault. *)
Definition own_step (ev : event) : bool :=
  match ev with Call _ _ | Break _ _ => false | _ => true end.

Definition can_go_on (w : world) : Prop :=
  ∃ ev w', own_step ev = true ∧ world_step ev w = Some w'.

Lemma numbers_drawn d : tables_ok d → drawn d (numbers_of d).
Proof.
  intros Hok. pose proof (ok_client_seq d Hok). pose proof (ok_chat_seq d Hok).
  pose proof (ok_message_seq d Hok). split_and!; simpl; lia.
Qed.

Lemma rows_apart_running w q c r :
  calls w !! q = Some c → ¬ rows_apart r (own_rows c) → is_running w q.
Proof.
  intros Hq Hn. exists c. split; [done|]. destruct c; [done|]. destruct Hn.
  apply rows_apart_sym, rows_apart_nil.
Qed.

(** A call that cannot go on by itself waits for another one. *)
Lemma goes_on_or_waits d0 w p :
  world_ok d0 w → is_running w p →
  can_go_on w ∨ ∃ q, is_running w q ∧ p ≠ q ∧ waits_for w p q = true.
Proof.
  intros Hw ([op r own ph seen|] & Hp & Hrun); [|done].
  assert (∀ ev w', own_step ev = true → world_step ev w = Some w' → can_go_on w) as Hgo
    by (intros; eexists _, _; eauto).
  destruct (world_calls _ _ Hw p _ Hp) as (_ & _ & Hph).
  assert (match r with Ret _ | Raise _ => True | _ => False end → can_go_on w) as Hleaf.
  { intros Hr. destruct r; try done; (eapply (Hgo (Return p)); [done|]); simpl; unfold return_call;
      by rewrite Hp. }
  destruct ph; try (left; apply Hleaf; (destruct Hph as [_ Hph] || idtac); by destruct r).
  - left. destruct Hph as [_ Hph]. destruct r as [| |k| |]; try done.
    eapply (Hgo (Exchange p (1, 1, 1))); [done|]. simpl. unfold exchange. by rewrite Hp.
  - destruct (open_call _ _ _ _ _ _ _ Hw Hp) as (_ & _ & Hr).
    destruct r as [x|e|k|B s k|k]; [by left; apply Hleaf..|done| |].
    + assert (drawn (shared w) (numbers_of (shared w))) as Hn by apply numbers_drawn, Hw.
      assert (∀ w', run_statement w p op own seen s k (numbers_of (shared w)) = Some w' →
        can_go_on w) as Hst.
      { intros w' Hst. eapply (Hgo (Exchange p (numbers_of (shared w)))); [done|].
        simpl. unfold exchange. by rewrite Hp. }
      unfold run_statement in Hst. rewrite decide_True in Hst by done.
      destruct (evaluate w own s (numbers_of (shared w))) as [[x|] d] eqn:Hev; [|left; by eapply Hst].
      destruct (decide (unclaimed w p (rows_since (shared w) d))) as [|Hclaimed]; [left; by eapply Hst|].
      right. unfold unclaimed in Hclaimed. apply map_not_Forall in Hclaimed as (q & c & Hq & Hn'); [|apply _].
      apply Decidable.not_or in Hn' as [Hqp Hapart].
      exists q. split; [by eapply rows_apart_running|]. split; [done|].
      unfold waits_for, wanted. rewrite Hp, Hev, Hq. simpl.
      rewrite bool_decide_eq_true_2, bool_decide_eq_false_2 by congruence. done.
    + left. eapply (Hgo (Exchange p (1, 1, 1))); [done|]. simpl. unfold exchange. by rewrite Hp.
Qed.

Lemma waits_deadlock w p q :
  waits_for w p q = true → waits_for w q p = true → can_go_on w.
Proof.
  intros Hpq Hqp. assert (∃ w', deadlock p q w = Some w') as [w' Hst].
  2: { by exists (Deadlock p q), w'. }
  unfold deadlock. rewrite Hpq, Hqp. unfold waits_for, wanted in Hpq.
  destruct (calls w !! p) as [[op [x|e|k|B s k|k] own [] seen|]|]; try done. simpl. eauto.
Qed.

(** Whatever the calls wait for, one of them can go on. *)
Lemma running_goes_on d0 w p :
  world_ok d0 w → (busy w ≤ WORKER_THREADS)%nat → is_running w p → can_go_on w.
Proof.
  intros Hw Hb Hp. destruct (goes_on_or_waits _ _ _ Hw Hp) as [|(q & Hq & Hpq & Hwait)]; [done|].
  destruct (goes_on_or_waits _ _ _ Hw Hq) as [|(r & Hr & Hqr & Hwait')]; [done|].
  pose proof (two_threads w p q r Hb Hp Hq Hr Hpq Hqr) as ->. by eapply waits_deadlock.
Qed.
End Progress.
