(* ===== verification/Steps.v ===== *)
(** * What a step of the database keeps

    The rows, the calls with their operations, the results of those that have
    returned and the committed states they saw. *)
From stdpp Require Import gmap.
From S2P Require Import Prelude Requests Responses Storage Database Postgres Effects Growth.
From S2P Require Import PostgresSpec Programs Interleaving Isolation Serial Progress.

Section Steps.
Context `{P : Pqxx} {L : PqxxLaws P}.

(** What a later world keeps: the rows, and the calls with their operations;
    a call that has returned stays as it is. *)
Record next (w w' : world) : Prop := {
  next_grows : grows (shared w) (shared w');
  next_call p c : calls w !! p = Some c →
    ∃ c', calls w' !! p = Some c' ∧ op_of c' = op_of c ∧ (¬ running c → c' = c)
}.

#[export] Instance next_preorder : PreOrder next.
Proof.
  split.
  - intros w. split; [done|]. eauto.
  - intros w1 w2 w3 [G1 C1] [G2 C2]. split; [by etrans|]. intros p c Hc.
    destruct (C1 p c Hc) as (c1 & Hc1 & Ho1 & Hf1). destruct (C2 p c1 Hc1) as (c2 & Hc2 & Ho2 & Hf2).
    exists c2. split_and!; [done|congruence|]. intros Hr. rewrite Hf2; [auto|]. by rewrite Hf1.
Qed.

(** The committed states a call saw are part of the database. *)
Definition seen_ok (w : world) : Prop :=
  ∀ p c d, calls w !! p = Some c → d ∈ seen_of c → grows d (shared w).

Lemma observe_seen d c x : x ∈ seen_of (observe d c) → x ∈ seen_of c ∨ x = d.
Proof. destruct c; simpl; [|by left]. rewrite elem_of_snoc. naive_solver. Qed.

Lemma observe_finished d c : ¬ running c → observe d c = c.
Proof. by destruct c. Qed.

Lemma step_next w w' ev : world_step ev w = Some w' → next w w'.
Proof.
  intros [p op Hp Hb|ev' p c c' d Hm Hp Hrun Hu Hop Hseen Hph Hr|ev' p op k own seen q ph Hm Hp _]%step_cases.
  - split; [done|]. intros q c Hc. exists c. simpl. unfold set_call.
    rewrite lookup_insert_ne by congruence. done.
  - split; [by apply unchanged_grows|]. intros q c0 Hc. simpl. unfold set_call.
    destruct (decide (q = p)) as [->|]; [|rewrite lookup_insert_ne by done; eauto].
    rewrite lookup_insert_eq. exists c'. split_and!; [done|congruence|].
    intros Hn. rewrite Hp in Hc. injection Hc as <-. done.
  - split; [apply add_rows_grows|]. intros p0 c0 Hc. simpl. rewrite lookup_fmap. unfold set_call.
    destruct (decide (p0 = p)) as [->|].
    + rewrite lookup_insert_eq. simpl. eexists. split; [done|]. rewrite Hp in Hc. injection Hc as <-.
      split; [done|]. intros []. exact I.
    + rewrite lookup_insert_ne, Hc by done. simpl. eexists. split; [done|].
      rewrite observe_op. split; [done|apply observe_finished].
Qed.

Lemma step_seen w w' ev : world_step ev w = Some w' → seen_ok w → seen_ok w'.
Proof.
  intros Hst Hs. pose proof (next_grows _ _ (step_next _ _ _ Hst)) as Hg. revert Hst Hg.
  intros [p op Hp Hb|ev' p c c' d Hm Hp Hrun Hu Hop Hseen Hph Hr|ev' p op k own seen q ph Hm Hp _]%step_cases;
    simpl; intros Hg p0 c0 d0; simpl; rewrite ?lookup_fmap; unfold set_call;
    (destruct (decide (p0 = p)) as [->|Hne]; [rewrite lookup_insert_eq|rewrite lookup_insert_ne by done]).
  - intros [= <-]. simpl. by intros ->%list_elem_of_singleton.
  - apply Hs.
  - intros [= <-]. rewrite Hseen. intros Hd. etrans; [by eapply Hs|done].
  - intros Hc Hd. etrans; [by eapply Hs|done].
  - intros [= <-]. simpl. intros [Hd| ->]%elem_of_snoc; [|done].
    etrans; [exact (Hs p _ _ Hp Hd)|done].
  - intros (c1 & Hc & ->)%fmap_Some. intros [Hd| ->]%observe_seen; [|done].
    etrans; [by eapply Hs|done].
Qed.

(** Which calls are under way after a step. *)
Lemma step_running w w' ev p : world_step ev w = Some w' → is_running w' p →
  is_running w p ∨ ∃ op, ev = Call p op.
Proof.
  intros Hst Hp. pose proof (step_shape _ _ _ Hst) as Hs. destruct (mover ev) as [q|] eqn:Hm.
  - destruct Hs as (Hq & c & Hc). left.
    by destruct (with_call_running _ _ _ _ _ Hc Hp) as [->|].
  - destruct Hs as (q & op & -> & _ & _ & Hc).
    destruct (with_call_running _ _ _ _ _ Hc Hp) as [->|]; [right; eauto|by left].
Qed.

Lemma step_still_running w w' ev p : world_step ev w = Some w' → ev ≠ Return p →
  is_running w p → is_running w' p.
Proof.
  intros Hst Hev (c0 & Hc & Hrun). revert Hev.
  apply step_cases in Hst
    as [q op Hq Hb|ev' q c c' d Hm Hq Hr Hu Hop Hseen Hph Hor|ev' q op k own seen q' ph Hm Hq _];
    intros Hev.
  - exists c0. simpl. unfold set_call. by rewrite lookup_insert_ne by congruence.
  - unfold is_running. simpl. unfold set_call. destruct (decide (p = q)) as [->|].
    + rewrite lookup_insert_eq. exists c'. split; [done|]. destruct Hor as [|Heq]; [done|by destruct Hev].
    + rewrite lookup_insert_ne by done. by exists c0.
  - unfold is_running. simpl. rewrite lookup_fmap. unfold set_call. destruct (decide (p = q)) as [->|].
    + rewrite lookup_insert_eq. eexists. by split.
    + rewrite lookup_insert_ne, Hc by done. exists (observe (add_rows (shared w) own) c0).
      split; [done|]. by destruct c0.
Qed.

(** Where a call comes from. *)
Lemma step_call w w' ev p c : world_step ev w = Some w' → calls w' !! p = Some c →
  is_Some (calls w !! p) ∨ ∃ op, ev = Call p op.
Proof.
  intros Hst Hc. pose proof (step_shape _ _ _ Hst) as Hs.
  assert (∀ q c0, with_call w w' q c0 → q ≠ p → is_Some (calls w !! p)) as Hother.
  { intros q c0 Hw Hne. destruct (with_call_other _ _ p _ _ Hw Hne) as [He|[x He]]; rewrite He in Hc.
    - by exists c.
    - apply fmap_Some in Hc as (c1 & -> & _). by exists c1. }
  destruct (mover ev) as [q|].
  - destruct Hs as ((cq & Hq & _) & c0 & Hw). left.
    destruct (decide (q = p)) as [->|]; [by exists cq|by eapply Hother].
  - destruct Hs as (q & op & -> & _ & _ & Hw).
    destruct (decide (q = p)) as [->|]; [right; by exists op|left; by eapply Hother].
Qed.

Lemma schedule_app evs evs' w :
  schedule (evs ++ evs') w = (w' ← schedule evs w; schedule evs' w').
Proof.
  revert w. induction evs as [|ev evs IH]; intros w; simpl; [done|].
  destruct (world_step ev w); simpl; auto.
Qed.

Lemma schedule_next evs w w' : schedule evs w = Some w' → next w w'.
Proof.
  revert w. induction evs as [|ev evs IH]; intros w; simpl; [by intros [= <-]|].
  intros (w1 & Hst & Hrun)%bind_Some. etrans; [by eapply step_next|auto].
Qed.

Lemma begin_call_now w w' p op : begin_call p op w = Some w' →
  calls w !! p = None ∧ calls w' !! p = Some (Running op (program op) no_rows Idle [shared w]).
Proof.
  unfold begin_call. destruct (calls w !! p) eqn:Hp; [done|]. case_decide; [|done].
  intros [= <-]. simpl. unfold set_call. by rewrite lookup_insert_eq.
Qed.

Lemma quiet_seen d : seen_ok (quiet d).
Proof. intros p c x Hc. simpl in Hc. by apply lookup_empty_Some in Hc. Qed.

(** An answer of the type of its operation; only [login] throws. *)
Definition fits (op : storage_op) (result : exn + answer) : Prop :=
  match op, result with
  | (Registration _ _ _ | SendMessage _ _ | AddContact _ _ | CreateChat _ _ _), inr (Status _) => True
  | Login _ _, inr (UserFound _ _) | Login _ _, inl _ => True
  | GetChats _, inr (Chats _) => True
  | GetContacts _, inr (Contacts _) => True
  | GetMessages _, inr (Messages _) => True
  | _, _ => False
  end.

Lemma promise_fits op S ph result : promise op S ph result → fits op result.
Proof.
  destruct op; simpl; try (destruct ph; simpl; by intros ->);
    try (destruct result as [e|x]; simpl; [done|]; by intros (d & e & r & _ & _ & _ & _ & _ & ->)).
  - by intros (l & x & -> & (resp & -> & _) & _).
  - by intros (l & x & -> & (resp & -> & _) & _).
  - by intros (l & x & -> & (resp & -> & _) & _).
Qed.
End Steps.
