(* ===== verification/Alone.v ===== *)
(** * A call with the database to itself

    [Interleaving.v] and [Postgres.v] agree on a call that nobody disturbs:
    under every fault of its connection there is a schedule of its exchanges
    that ends with the result and the tables of [perform]. *)
From stdpp Require Import gmap.
From S2P Require Import Prelude Requests Responses Storage Database Postgres Transactions Effects.
From S2P Require Import Growth Programs Interleaving Isolation Serial Progress Steps.

Section Alone.
Context `{P : Pqxx} {L : PqxxLaws P}.
Implicit Types (w : world) (p : nat) (c : conn).

(** No other call is under way. *)
Definition alone w p : Prop := ∀ q, is_running w q → q = p.

Lemma alone_unclaimed w p r : alone w p → unclaimed w p r.
Proof.
  intros Ha q c Hq. destruct (decide (running c)) as [Hr|Hr]; [left; apply Ha; by exists c|right].
  destruct c; [done|]. apply rows_apart_sym, rows_apart_nil.
Qed.

(** An exchange of [p]. *)
Definition exchanges p (ev : event) : Prop :=
  match ev with Exchange q _ | Break q _ => q = p | _ => False end.

(** What [p] comes to by exchanges and a return: its result, the tables, and
    nothing under way. *)
Definition ends w p op (result : exn + answer) (d : db) w' : Prop :=
  (∃ ph seen, calls w' !! p = Some (Finished op result ph seen)) ∧ shared w' = d ∧
  (∀ q, ¬ is_running w' q) ∧
  ∃ evs w1, Forall (exchanges p) evs ∧ schedule evs w = Some w1 ∧ return_call p w1 = Some w'.

Lemma ends_step w w1 w' p op result d ev :
  exchanges p ev → world_step ev w = Some w1 → ends w1 p op result d w' →
  ends w p op result d w'.
Proof.
  intros Hm Hst (H1 & H2 & H3 & evs & w2 & Hall & Hrun & Hret). split_and!; [done..|].
  exists (ev :: evs), w2. simpl. rewrite Hst. split; [by constructor|done].
Qed.

(** A step of a call that is alone. *)
Lemma alone_step w w' p ev : exchanges p ev → world_step ev w = Some w' → alone w p → alone w' p.
Proof.
  intros Hm Hst Ha q Hq. destruct (step_running _ _ _ q Hst Hq) as [Hr|[op ->]]; [by apply Ha|done].
Qed.

(** The rest of a call that only has to return. *)
Lemma over_ends w p op q own ph seen Q S :
  calls w !! p = Some (Running op q own ph seen) → alone w p → over Q S ph q →
  ∃ result w', (∀ c, run_prog q c = (result, c)) ∧ ends w p op result (shared w) w'.
Proof.
  intros Hp Ha Ho.
  assert (∃ result, (∀ c, run_prog q c = (result, c)) ∧
    return_call p w = Some (World (shared w) (set_call w p (Finished op result ph seen)) (log w)))
    as (result & Hrun & Hret).
  { unfold return_call. rewrite Hp. destruct q; try done; eauto. }
  exists result, (World (shared w) (set_call w p (Finished op result ph seen)) (log w)).
  split; [done|]. split_and!; [|done| |].
  - exists ph, seen. simpl. unfold set_call. by rewrite lookup_insert_eq.
  - intros q' (c & Hc & Hr). simpl in Hc. unfold set_call in Hc.
    destruct (decide (q' = p)) as [->|Hne]; [rewrite lookup_insert_eq in Hc; by injection Hc as <-|].
    rewrite lookup_insert_ne in Hc by done. apply Hne, Ha. by exists c.
  - exists [], w. split_and!; [constructor|done|done].
Qed.

(** ** The connection of an open transaction *)

(** The transaction sees the committed tables with its rows. *)
Definition sees c w (own : rows) : Prop :=
  tables c = add_rows (shared w) own ∧ same_tables (shared w) (committed c).

Lemma sees_close c w own : sees c w own → tables (close c) = shared w.
Proof.
  intros [Ht (H1 & H2 & H3 & H4 & H5)]. unfold close, rollback. rewrite Ht. simpl.
  rewrite H1, H2, H3, H4, H5. by destruct (shared w).
Qed.

Lemma sees_own_sequences w own : with_numbers (add_rows (shared w) own) (numbers_of (shared w)) = add_rows (shared w) own.
Proof. done. Qed.

(** A statement in both. *)
Lemma sees_statement {A} c w own (s : stmt A) x d :
  sees c w own → inserts s → s (tables c) = (x, d) →
  advance (shared w) d = rollback (shared w) d ∧
  sees (Conn d (committed c) (fault c)) (World (advance (shared w) d) (calls w) (log w))
    (rows_since (shared w) d).
Proof.
  intros [Ht Hc] Hs Hd. destruct (Hs (tables c)) as (Hseq & _ & r & Hr). rewrite Hd in Hseq, Hr.
  simpl in Hseq, Hr. rewrite Ht in Hseq, Hr.
  assert (advance (shared w) d = rollback (shared w) d) as Ha.
  { unfold advance, rollback. f_equal; destruct Hseq as (? & ? & ?); simpl in *; lia. }
  rewrite add_and_then in Hr. split; [done|]. unfold sees. simpl. split.
  - rewrite Ha, (rows_since_add _ _ _ Hr). destruct Hr as (H1 & H2 & H3 & H4 & H5).
    destruct d. simpl in *. unfold add_rows, rollback. simpl. by rewrite H1, H2, H3, H4, H5.
  - rewrite Ha. exact Hc.
Qed.

(** ** Exchange by exchange *)

Lemma exec_cases {A} (s : stmt A) c :
  exec s c = (inl std_exception, Conn (tables c) (committed c) None) ∨
  ∃ f, exec s c = match s (tables c) with
                  | (Some x, d) => (inr x, Conn d (committed c) f)
                  | (None, d) => (inl sql_error, Conn d (committed c) f)
                  end.
Proof.
  unfold exec, m_bind, tick. destruct (fault c) as [[[|n] b]|] eqn:Hf; simpl; [by left|right..].
  - by exists (Some (n, b)).
  - exists None. by rewrite Hf.
Qed.

Lemma commit_cases c :
  commit c = (inl std_exception, Conn (tables c) (committed c) None) ∨
  ∃ r f, commit c = (r, Conn (tables c) (tables c) f) ∧ (r = inl std_exception ∨ r = inr ()).
Proof.
  unfold commit. destruct (fault c) as [[[|n] []]|] eqn:Hf; simpl; [right|by left|right..]; eauto 6.
Qed.

Definition finishes p op (q : prog answer) w c : Prop :=
  ∃ w', ends w p op (run_prog q c).1 (tables (close (run_prog q c).2)) w'.

(** Nothing is left to do. *)
Lemma over_finishes w p op q own ph seen Q S c :
  calls w !! p = Some (Running op q own ph seen) → alone w p → over Q S ph q →
  tables (close c) = shared w → finishes p op q w c.
Proof.
  intros Hp Ha Ho Hc. destruct (over_ends _ _ _ _ _ _ _ _ _ Hp Ha Ho) as (result & w' & Hrun & He).
  exists w'. rewrite Hrun. cbn [fst snd]. by rewrite Hc.
Qed.

Lemma finishes_step w w1 p op q q' c c' ev :
  exchanges p ev → world_step ev w = Some w1 → run_prog q c = run_prog q' c' →
  finishes p op q' w1 c' → finishes p op q w c.
Proof. intros Hm Hst Hrun [w' H]. exists w'. rewrite Hrun. by eapply ends_step. Qed.

(** The exchange after which nothing is left to do. *)
Lemma last_finishes w w1 p op q q' own ph seen Q S c c' ev :
  exchanges p ev → world_step ev w = Some w1 →
  calls w1 !! p = Some (Running op q' own ph seen) → run_prog q c = run_prog q' c' →
  alone w p → over Q S ph q' → tables (close c') = shared w1 → finishes p op q w c.
Proof.
  intros Hm Hst Hp Hrun Ha Ho Hc. eapply (finishes_step _ _ _ _ _ q' c c'); try done.
  eapply over_finishes; try done. by eapply alone_step.
Qed.

Lemma set_call_same w p x : set_call w p x !! p = Some x.
Proof. apply lookup_insert_eq. Qed.

Lemma query_finishes {B} d0 w p op own seen (s : stmt B) k c :
  world_ok d0 w → alone w p → calls w !! p = Some (Running op (Query s k) own Open seen) →
  sees c w own →
  (∀ r w1 c1 own1, world_ok d0 w1 → alone w1 p →
     calls w1 !! p = Some (Running op (k r) own1 Open seen) → sees c1 w1 own1 →
     finishes p op (k r) w1 c1) →
  finishes p op (Query s k) w c.
Proof.
  intros Hw Ha Hp Hs IH. destruct (open_call _ _ _ _ _ _ _ Hw Hp) as (_ & _ & Hins & Hlost & Hfail & _).
  destruct (exec_cases s c) as [He|(f & He)].
  { eapply (last_finishes _ _ _ _ _ (k (inl std_exception)) _ Lost _ _ _ _ _ (Break p false)); try done.
    - simpl. unfold break_connection. by rewrite Hp.
    - apply set_call_same.
    - simpl. by rewrite He.
    - by eapply sees_close. }
  destruct (s (tables c)) as [x d] eqn:Hx.
  destruct (sees_statement c w own s x d Hs Hins Hx) as [Hadv Hsees].
  assert (world_step (Exchange p (numbers_of (shared w))) w =
    run_statement w p op own seen s k (numbers_of (shared w))) as Hst.
  { simpl. unfold exchange. by rewrite Hp. }
  assert (evaluate w own s (numbers_of (shared w)) = (x, d)) as Hev.
  { unfold evaluate. rewrite sees_own_sequences, <- (proj1 Hs). exact Hx. }
  unfold run_statement in Hst.
  rewrite Hev, decide_True in Hst by (apply numbers_drawn, (world_tables _ _ Hw)).
  destruct x as [x|].
  - rewrite decide_True in Hst by (by apply alone_unclaimed).
    eapply (finishes_step _ _ _ _ _ (k (inr x)) c); [| |simpl; by rewrite He|]; [|exact Hst|]; [done|].
    eapply IH; [by eapply world_step_ok|by eapply (alone_step w _ p (Exchange p (numbers_of (shared w))) eq_refl Hst)|apply set_call_same|exact Hsees].
  - eapply (last_finishes _ _ _ _ _ (k (inl sql_error)) _ Failed _ _ _ _ _ _); [|exact Hst|apply set_call_same| | | |];
      try done; [simpl; by rewrite He|].
    simpl. rewrite Hadv. destruct Hs as [_ (H1 & H2 & H3 & H4 & H5)]. unfold rollback.
    by rewrite H1, H2, H3, H4, H5.
Qed.

Lemma commit_finishes d0 w p op own seen k c :
  world_ok d0 w → alone w p → calls w !! p = Some (Running op (Commit k) own Open seen) →
  sees c w own → finishes p op (Commit k) w c.
Proof.
  intros Hw Ha Hp Hs.
  destruct (open_call _ _ _ _ _ _ _ Hw Hp) as (_ & _ & _ & Hlost & Hdoubt & Hdone).
  destruct (commit_cases c) as [He|(r & f & He & [-> | ->])].
  - eapply (last_finishes _ _ _ _ _ (k (inl std_exception)) _ Lost _ _ _ _ _ (Break p false)); try done.
    + simpl. unfold break_connection. rewrite Hp. simpl. reflexivity.
    + apply set_call_same.
    + simpl. by rewrite He.
    + by eapply sees_close.
  - eapply (last_finishes _ _ _ _ _ (k (inl std_exception)) _ InDoubt _ _ _ _ _ (Break p true)); try done.
    + simpl. unfold break_connection. rewrite Hp. simpl. reflexivity.
    + simpl. by rewrite lookup_fmap, set_call_same.
    + simpl. by rewrite He.
    + simpl. rewrite rollback_self. apply Hs.
  - eapply (last_finishes _ _ _ _ _ (k (inr ())) _ Done _ _ _ _ _ (Exchange p (1, 1, 1))); try done.
    + simpl. unfold exchange. by rewrite Hp.
    + simpl. by rewrite lookup_fmap, set_call_same.
    + simpl. by rewrite He.
    + simpl. rewrite rollback_self. apply Hs.
Qed.

(** A call in its transaction. *)
Lemma open_finishes d0 p op q : ∀ w c own seen,
  world_ok d0 w → alone w p → calls w !! p = Some (Running op q own Open seen) → sees c w own →
  finishes p op q w c.
Proof.
  induction q as [x|e|k IH|B s k IH|k IH]; intros w c own seen Hw Ha Hp Hs;
    pose proof (open_call _ _ _ _ _ _ _ Hw Hp) as (_ & _ & Hg).
  - apply (over_finishes _ _ _ _ _ _ _ (λ _ _ _, True) (λ _, True) _ Hp Ha I). by eapply sees_close.
  - apply (over_finishes _ _ _ _ _ _ _ (λ _ _ _, True) (λ _, True) _ Hp Ha I). by eapply sees_close.
  - done.
  - eapply query_finishes; try done. intros r w1 c1 own1. apply IH.
  - by eapply commit_finishes.
Qed.

(** The begin of the transaction. *)
Lemma begin_finishes d0 w p op q seen c :
  world_ok d0 w → alone w p → calls w !! p = Some (Running op q no_rows Idle seen) →
  sees c w no_rows → finishes p op q w c.
Proof.
  intros Hw Ha Hp Hs. destruct (world_calls _ _ Hw p _ Hp) as (_ & _ & _ & Hstarts).
  destruct q as [| |k| |]; try done. destruct Hstarts as [Hlost _].
  destruct (tick c) as [r c1] eqn:Ht.
  assert (r = inl std_exception ∧ c1 = Conn (tables c) (committed c) None ∨
    r = inr () ∧ tables c1 = tables c ∧ committed c1 = committed c) as [[-> ->]|(-> & H1 & H2)].
  { unfold tick in Ht. destruct (fault c) as [[[|n] b]|]; injection Ht as <- <-; eauto. }
  - eapply (last_finishes _ _ _ _ _ (k (inl std_exception)) _ Lost _ _ _ _ _ (Break p false)); try done.
    + simpl. unfold break_connection. rewrite Hp. simpl. reflexivity.
    + apply set_call_same.
    + simpl. by rewrite Ht.
    + by eapply sees_close.
  - assert (world_step (Exchange p (1, 1, 1)) w = Some (World (shared w)
      (set_call w p (Running op (k (inr ())) no_rows Open seen)) (log w))) as Hst.
    { simpl. unfold exchange. by rewrite Hp. }
    eapply (finishes_step _ _ _ _ _ (k (inr ())) c c1); [|exact Hst|simpl; by rewrite Ht|]; [done|].
    eapply open_finishes; [by eapply world_step_ok| |apply set_call_same|].
    + by apply (alone_step w _ p (Exchange p (1, 1, 1)) eq_refl Hst).
    + destruct Hs as [H3 H4]. split; [by rewrite H1|by rewrite H2].
Qed.

(** A call alone, from its beginning: the result and the tables of [perform]. *)
Lemma call_alone d0 w p op c :
  world_ok d0 w → (∀ q, ¬ is_running w q) → calls w !! p = None → tables c = shared w →
  ∃ w0 w', begin_call p op w = Some w0 ∧
    ends w0 p op (perform op c).1 (tables (perform op c).2) w'.
Proof.
  intros Hw Hnone Hp Hc.
  assert (busy w < WORKER_THREADS)%nat as Hb.
  { rewrite busy_size. destruct (set_choose_or_empty (running_calls w)) as [[q Hq]|He].
    - apply elem_of_running in Hq. by destruct (Hnone q).
    - rewrite He, size_empty. unfold WORKER_THREADS. lia. }
  assert (begin_call p op w = Some (World (shared w)
    (set_call w p (Running op (program op) no_rows Idle [shared w])) (log w))) as Hw0.
  { unfold begin_call. by rewrite Hp, decide_True. }
  eexists. rewrite Hw0. set (w0 := World _ _ _) in *.
  assert (world_step (Call p op) w = Some w0) as Hst by done.
  set (c0 := Conn (tables c) (tables c) (fault c)).
  assert (finishes p op (program op) w0 c0) as [w' H].
  { apply (begin_finishes d0 w0 p op (program op) [shared w] c0); [by eapply world_step_ok| | |].
    - intros q Hq. destruct (step_running _ _ _ q Hst Hq) as [Hr|[op' [= ->]]]; [|done].
      by destruct (Hnone q).
    - apply set_call_same.
    - split; simpl; by rewrite ?add_no_rows, Hc. }
  exists w'. split; [done|]. rewrite <- (program_alone op c). unfold transaction.
  fold c0. by destruct (run_prog (program op) c0).
Qed.
End Alone.
