(* ===== verification/Overlap.v ===== *)
(** * Chats without overlapping [create_chat] calls

    [create_chat] looks for a common chat and then creates one; no constraint
    of the schema forbids a second chat of the same users.  So they have at
    most one chat if no two of these calls overlap. *)
From stdpp Require Import gmap.
From S2P Require Import Prelude Requests Responses Storage Database Postgres Effects Growth.
From S2P Require Import Programs Interleaving Isolation Serial Progress.

Section Overlap.
Context `{P : Pqxx} {L : PqxxLaws P}.

Definition creates_chat (op : storage_op) : Prop :=
  match op with CreateChat _ _ _ => True | _ => False end.

#[export] Instance creates_chat_dec op : Decision (creates_chat op).
Proof. destruct op; apply _. Defined.

(** At most one [create_chat] is under way. *)
Definition creating (c : call) : Prop := running c ∧ creates_chat (op_of c).

Definition one_creator (w : world) : Prop :=
  map_Forall (λ p c, map_Forall (λ q c', creating c → creating c' → p = q) (calls w)) (calls w).

#[export] Instance one_creator_dec w : Decision (one_creator w).
Proof. unfold one_creator, creating. apply _. Defined.

(** A schedule in which these calls do not overlap. *)
Fixpoint schedule_apart (evs : list event) (w : world) : option world :=
  match evs with
  | [] => Some w
  | ev :: evs =>
      w ← world_step ev w;
      if decide (one_creator w) then schedule_apart evs w else None
  end.

(** While a [create_chat] is under way the members stay as they are. *)
Record members_kept (w : world) : Prop := {
  kept_one_chat : one_chat (shared w);
  kept_members p c d : calls w !! p = Some c → running c → creates_chat (op_of c) →
    is_committed (phase_of c) = false → d ∈ seen_of c → ClientToChat d = ClientToChat (shared w)
}.

Lemma other_effects op d r : ¬ creates_chat op → effect op d r → new_members r = [].
Proof.
  destruct op; simpl; try done; intros _.
  - by intros (?&?&?&_&_&_&_&_&_&->).
  - by intros ->.
  - by intros (?&?&_&_&_&_&->).
  - by intros (?&?&_&_&_&_&_&_&_&->).
  - by intros ->.
  - by intros ->.
  - by intros ->.
Qed.

(** A commit leaves two users at most one chat. *)
Lemma commit_one_chat d0 w p op k own seen :
  world_ok d0 w → members_kept w → calls w !! p = Some (Running op (Commit k) own Open seen) →
  one_chat (add_rows (shared w) own).
Proof.
  intros Hw [Hone Hkept] Hp. destruct (open_call _ _ _ _ _ _ _ Hw Hp) as (_ & _ & [HE Hchk] & _).
  destruct (decide (creates_chat op)) as [Hop|Hop].
  - destruct op; try done. simpl in HE, Hchk. destruct Hchk as (d & (d1 & Hd1 & Hs) & Hno).
    pose proof (Hkept p _ d1 Hp I I eq_refl Hd1) as Hsame.
    apply (adds_chat_one_chat user_id user_name friend_id); [apply (world_tables _ _ Hw)|done|done|].
    intros c. destruct Hs as (_ & _ & Hm & _). specialize (Hno c). unfold member in *.
    by rewrite Hm, Hsame in Hno.
  - apply (one_chat_mono (shared w)); [|done]. simpl.
    by rewrite (other_effects op (shared w) own), app_nil_r.
Qed.

Lemma members_kept_step d0 w w' :
  world_ok d0 w → one_creator w → evolves w w' → members_kept w → members_kept w'.
Proof.
  intros Hw Hcr [ev Hst] Hkept. pose proof Hkept as [Hone Hk].
  apply step_cases in Hst
    as [p op Hp _|ev' p c c' d Hm Hp Hrun Hu Hop Hseen Hph _|ev' p op k own seen q ph Hm Hp Hph].
  - split; [done|]. intros q c d. simpl. unfold set_call.
    destruct (decide (q = p)) as [->|]; [|rewrite lookup_insert_ne by done; eauto].
    rewrite lookup_insert_eq. intros [= <-] _ _ _. simpl. by intros ->%list_elem_of_singleton.
  - destruct Hu as [(_ & _ & Hmem & _) _]. split; [by apply (one_chat_mono (shared w))|].
    intros q c0 d1. simpl. rewrite Hmem. unfold set_call.
    destruct (decide (q = p)) as [->|]; [|rewrite lookup_insert_ne by done; eauto].
    rewrite lookup_insert_eq. intros [= <-] _. rewrite Hop, Hseen, Hph. by apply (Hk p c d1).
  - split; [by apply (commit_one_chat d0 w p op k own seen)|].
    intros q' c d. simpl. rewrite lookup_fmap. unfold set_call.
    destruct (decide (q' = p)) as [->|Hne].
    + rewrite lookup_insert_eq. intros [= <-] _ _. simpl. congruence.
    + rewrite lookup_insert_ne by done. destruct (calls w !! q') as [c0|] eqn:Hq; [|done].
      intros [= <-]. rewrite observe_op, observe_phase. intros Hrun Hop Hph' Hd.
      destruct c0 as [op0 r0 own0 ph0 seen0|]; [|done]. simpl in *.
      assert (¬ creates_chat op) as Hnot.
      { intros Hop'. by destruct (Hcr p _ Hp q' _ Hq (conj I Hop') (conj I Hop)). }
      destruct (open_call _ _ _ _ _ _ _ Hw Hp) as (_ & _ & [HE _] & _).
      rewrite (other_effects op (shared w) own Hnot HE), app_nil_r.
      apply elem_of_snoc in Hd as [Hd| ->]; [by apply (Hk q' _ d Hq)|].
      simpl. by rewrite (other_effects op (shared w) own Hnot HE), app_nil_r.
Qed.

Lemma members_kept_schedule d evs w :
  db_ok d → schedule_apart evs (quiet d) = Some w → world_ok d w ∧ members_kept w.
Proof.
  intros [Ht Hone].
  assert (world_ok d (quiet d) ∧ one_creator (quiet d) ∧ members_kept (quiet d)) as H0.
  { split; [by apply quiet_ok|]. split; [by intros p c Hc|]. by split. }
  revert H0. generalize (quiet d). induction evs as [|ev evs IH]; intros w0; simpl.
  - by intros (Hw & _ & Hk) [= <-].
  - intros (Hw & Hcr & Hk) (w1 & Hst & Hrun)%bind_Some. case_decide; [|done].
    apply (IH w1); [|done]. split_and!; [by eapply world_step_ok|done|].
    eapply members_kept_step; try done. by exists ev.
Qed.
End Overlap.
