(* ===== verification/Messenger.v ===== *)
(** * The messenger: what the storage means to its users

    Users, friends, chats and posts as maps and sets, with the four actions
    that change them and the views of a user; and the relation to the tables
    of [Database.v]: rows that a committed call adds are an action, and the
    answers of the queries are views.  The order of rows, the two directions
    of a contact and the sequences have disappeared. *)
From stdpp Require Import gmap.
From S2P Require Import Prelude Requests Responses Storage Database Postgres Transactions.
From S2P Require Import Effects Growth Completeness PostgresSpec Programs Interleaving Isolation Serial.

(** ** The state *)

Record profile := Profile { p_name : bytes; p_email : bytes; p_hash : bytes }.

(** A member of a chat and the title it has for him. *)
Record seat := Seat { seat_user : Z; seat_title : bytes }.

Record post := Post { post_chat : Z; post_sender : Z; post_text : bytes }.

Record messenger := Messenger {
  users : gmap Z profile;
  friends : gset (Z * Z);
  chats : gmap Z (seat * seat);
  posts : gmap Z post
}.

Definition nobody : messenger := Messenger ∅ ∅ ∅ ∅.

Definition seated (m : messenger) (user chat : Z) : Prop :=
  match chats m !! chat with
  | Some (a, b) => seat_user a = user ∨ seat_user b = user
  | None => False
  end.

#[export] Instance seated_dec m user chat : Decision (seated m user chat).
Proof. unfold seated. destruct (chats m !! chat) as [[a b]|]; apply _. Defined.

(** ** The actions; the messenger chooses the identifiers *)

Definition enroll (id : Z) (p : profile) (m : messenger) : option messenger :=
  if decide (users m !! id = None ∧ map_Forall (λ _ q, p_email q ≠ p_email p) (users m))
  then Some (Messenger (<[id := p]> (users m)) (friends m) (chats m) (posts m))
  else None.

Definition befriend (u v : Z) (m : messenger) : option messenger :=
  if decide (u ≠ v ∧ u ∈ dom (users m) ∧ v ∈ dom (users m) ∧
             (u, v) ∉ friends m ∧ (v, u) ∉ friends m)
  then Some (Messenger (users m) (friends m ∪ {[(u, v); (v, u)]}) (chats m) (posts m))
  else None.

Definition open_chat (id : Z) (a b : seat) (m : messenger) : option messenger :=
  if decide (chats m !! id = None ∧ seat_user a ∈ dom (users m) ∧ seat_user b ∈ dom (users m))
  then Some (Messenger (users m) (friends m) (<[id := (a, b)]> (chats m)) (posts m))
  else None.

Definition say (id : Z) (x : post) (m : messenger) : option messenger :=
  if decide (posts m !! id = None ∧ seated m (post_sender x) (post_chat x))
  then Some (Messenger (users m) (friends m) (chats m) (<[id := x]> (posts m)))
  else None.

(** ** The views *)

Definition chats_view (m : messenger) (user : Z) : list Chat.t :=
  '(id, (a, b)) ← map_to_list (chats m);
  (λ s, Chat.Build id (seat_title s)) <$> filter (λ s, seat_user s = user) [a; b].

Definition contacts_view (m : messenger) (user : Z) : list Contact.t :=
  (λ '(id, p), Contact.Build id (p_name p) (p_email p)) <$>
    filter (λ '(id, _), (user, id) ∈ friends m) (map_to_list (users m)).

Definition messages_view (m : messenger) (chat : Z) : list MessageToRecieve.t :=
  (λ '(_, x), MessageToRecieve.Build (post_sender x) (post_text x)) <$>
    filter (λ '(_, x), post_chat x = chat) (map_to_list (posts m)).

(** ** Calls as actions and views *)

Section Calls.
Context `{P : Pqxx}.

#[export] Instance modifies_dec op : Decision (modifies op).
Proof. destruct op; apply _. Defined.

(** What an operation that was committed did. *)
Inductive enacts : storage_op → messenger → messenger → Prop :=
| enacts_registration name email password n e id m m' :
    sql_text name = Some n → sql_text email = Some e →
    enroll id (Profile n e (hash_password password)) m = Some m' →
    enacts (Registration name email password) m m'
| enacts_send_message sender mesg text id m m' :
    sql_text (MessageToSend.text mesg) = Some text →
    say id (Post (MessageToSend.chat_id mesg) sender text) m = Some m' →
    enacts (SendMessage sender mesg) m m'
| enacts_add_contact user email e friend p m m' :
    sql_text email = Some e → users m !! friend = Some p → p_email p = e →
    befriend user friend m = Some m' →
    enacts (AddContact user email) m m'
| enacts_create_chat user user_name friend p name ut ft id m m' :
    users m !! friend = Some p → name = p_name p ∨ missing_text = Some name →
    sql_text (chat_with ++ name) = Some ut → sql_text (chat_with ++ user_name) = Some ft →
    open_chat id (Seat user ut) (Seat friend ft) m = Some m' →
    enacts (CreateChat user user_name friend) m m'
| enacts_query op m : ¬ modifies op → enacts op m m.

(** What a query that was not cut short, or a login, answers. *)
Definition views (op : storage_op) (m : messenger) (result : exn + answer) : Prop :=
  match op, result with
  | GetChats user, inr (Chats resp) => ChatsResponse.chats resp ≡ₚ chats_view m user
  | GetContacts user, inr (Contacts resp) => ContactsResponse.contacts resp ≡ₚ contacts_view m user
  | GetMessages chat, inr (Messages resp) => MessagesResponse.messages resp ≡ₚ messages_view m chat
  | Login email password, inr (UserFound id name) =>
      ∃ p, users m !! id = Some p ∧ quote_text email = Some (p_email p) ∧
           p_hash p = SHA256 password ∧ name = p_name p
  | _, _ => False
  end.
End Calls.

(** ** The tables as a messenger *)

Definition profile_of (r : client_row) : profile := Profile (c_name r) (c_email r) (c_password_hash r).
Definition post_of (r : message_row) : post := Post (m_chat_id r) (m_sender_id r) (m_mesg r).
Definition seat_of (r : member_row) : seat := Seat (cc_client_id r) (cc_title r).

Definition seats_of (d : db) (chat : Z) : option (seat * seat) :=
  match members_of d chat with [a; b] => Some (seat_of a, seat_of b) | _ => None end.

(** Rows by their key. *)
Definition keyed {R V} (key : R → Z) (val : R → V) (l : list R) : gmap Z V :=
  list_to_map ((λ r, (key r, val r)) <$> l).

Definition messenger_of (d : db) : messenger := {|
  users := keyed c_id profile_of (Client d);
  friends := list_to_set ((λ r, (cf_client_id r, cf_friend_id r)) <$> ClientToContact d);
  chats := list_to_map (omap (λ id, pair id <$> seats_of d id) (Chat d));
  posts := keyed m_id post_of (Message d)
|}.

Lemma messenger_of_same d d' : same_tables d d' → messenger_of d' = messenger_of d.
Proof.
  intros (H1 & H2 & H3 & H4 & H5). unfold messenger_of, seats_of, members_of.
  by rewrite H1, H2, H3, H4, H5.
Qed.

(** *** Rows and maps *)

Lemma keyed_keys {R V} (key : R → Z) (val : R → V) l :
  ((λ r, (key r, val r)) <$> l).*1 = key <$> l.
Proof. rewrite <- list_fmap_compose. by apply list_fmap_ext. Qed.

Lemma keyed_lookup {R V} (key : R → Z) (val : R → V) l k v :
  NoDup (key <$> l) → keyed key val l !! k = Some v ↔ ∃ r, r ∈ l ∧ key r = k ∧ val r = v.
Proof.
  intros Hnd. unfold keyed. rewrite <- elem_of_list_to_map by (by rewrite keyed_keys).
  rewrite list_elem_of_fmap. naive_solver.
Qed.

Lemma keyed_None {R V} (key : R → Z) (val : R → V) l k :
  keyed key val l !! k = None ↔ k ∉ key <$> l.
Proof. unfold keyed. rewrite <- (keyed_keys key val l). symmetry. apply not_elem_of_list_to_map. Qed.

Lemma keyed_dom {R V} (key : R → Z) (val : R → V) l k :
  k ∈ dom (keyed key val l) ↔ k ∈ key <$> l.
Proof.
  rewrite elem_of_dom, <- not_eq_None_Some, keyed_None.
  split; [apply dec_stable|by intros Hk []].
Qed.

Lemma list_to_map_snoc {V} (l : list (Z * V)) k v :
  k ∉ l.*1 → list_to_map (M := gmap Z V) (l ++ [(k, v)]) = <[k := v]> (list_to_map l).
Proof.
  intros Hk. rewrite list_to_map_app. simpl. rewrite insert_empty.
  symmetry. apply insert_union_singleton_r. by apply not_elem_of_list_to_map.
Qed.

Lemma keyed_snoc {R V} (key : R → Z) (val : R → V) l r :
  key r ∉ key <$> l → keyed key val (l ++ [r]) = <[key r := val r]> (keyed key val l).
Proof.
  intros Hr. unfold keyed. rewrite fmap_app. simpl. apply list_to_map_snoc. by rewrite keyed_keys.
Qed.

Lemma keyed_entries {R V} (key : R → Z) (val : R → V) l :
  NoDup (key <$> l) → map_to_list (keyed key val l) ≡ₚ (λ r, (key r, val r)) <$> l.
Proof. intros Hnd. unfold keyed. apply map_to_list_to_map. by rewrite keyed_keys. Qed.

Lemma elem_of_friends d u v : (u, v) ∈ friends (messenger_of d) ↔ contact d u v.
Proof.
  unfold messenger_of, contact. simpl. rewrite elem_of_list_to_set, list_elem_of_fmap. split.
  - by intros ([u' v'] & [= -> ->] & Hr).
  - intros Hr. by exists (ContactRow u v).
Qed.

Lemma seats_keys d l : (omap (λ id, pair id <$> seats_of d id) l).*1 ⊆ l.
Proof.
  intros id. rewrite list_elem_of_fmap. intros ([i s] & -> & (j & Hj & Hs)%list_elem_of_omap).
  apply fmap_Some in Hs as (s' & _ & [= -> ->]). done.
Qed.

Lemma seats_NoDup d l : NoDup l → NoDup (omap (λ id, pair id <$> seats_of d id) l).*1.
Proof.
  induction 1 as [|id l Hid Hl IH]; simpl; [apply NoDup_nil_2|].
  destruct (seats_of d id) as [s|]; simpl; [|done]. apply NoDup_cons. split; [|done].
  intros Hin. by apply Hid, (seats_keys d).
Qed.

Lemma chats_lookup d id s : NoDup (Chat d) →
  chats (messenger_of d) !! id = Some s ↔ id ∈ Chat d ∧ seats_of d id = Some s.
Proof.
  intros Hnd. simpl. rewrite <- elem_of_list_to_map by (by apply seats_NoDup).
  rewrite list_elem_of_omap. split.
  - intros (j & Hj & (s' & Hs & [= -> ->])%fmap_Some). done.
  - intros [Hid Hs]. exists id. by rewrite Hs.
Qed.

Lemma chat_members d id : chats_ok d → id ∈ Chat d → ∃ a b, members_of d id = [a; b].
Proof.
  intros Hok Hid. pose proof (ok_two_members d Hok id Hid) as Htwo.
  destruct (members_of d id) as [|a [|b [|c l]]]; try done. by exists a, b.
Qed.

Lemma elem_of_members d id r : r ∈ members_of d id ↔ r ∈ ClientToChat d ∧ cc_chat_id r = id.
Proof. unfold members_of. rewrite list_elem_of_filter. tauto. Qed.

Lemma seated_member d user chat : chats_ok d → seated (messenger_of d) user chat ↔ member d user chat.
Proof.
  intros Hok. unfold seated. destruct (chats (messenger_of d) !! chat) as [[a b]|] eqn:Hc.
  - apply chats_lookup in Hc as [Hin Hs]; [|apply Hok].
    destruct (chat_members d chat Hok Hin) as (x & y & Hm). unfold seats_of in Hs. rewrite Hm in Hs.
    injection Hs as <- <-. simpl. unfold member. setoid_rewrite (comm and (_ = user)).
    setoid_rewrite (assoc and). setoid_rewrite <- elem_of_members. rewrite Hm.
    setoid_rewrite elem_of_cons. setoid_rewrite list_elem_of_singleton. naive_solver.
  - split; [done|]. intros (r & Hr & _ & <-).
    pose proof (ok_member_chat d Hok r Hr) as Hin.
    destruct (chat_members d _ Hok Hin) as (x & y & Hm).
    assert (chats (messenger_of d) !! cc_chat_id r = Some (seat_of x, seat_of y)) as Hs.
    { apply chats_lookup; [apply Hok|]. unfold seats_of. by rewrite Hm. }
    by rewrite Hs in Hc.
Qed.

Lemma elem_of_users d u : u ∈ dom (users (messenger_of d)) ↔ u ∈ client_ids d.
Proof. apply keyed_dom. Qed.

Lemma users_lookup d u p : clients_ok d →
  users (messenger_of d) !! u = Some p ↔ ∃ r, r ∈ Client d ∧ c_id r = u ∧ profile_of r = p.
Proof. intros Hok. apply keyed_lookup, Hok. Qed.

(** *** Rows that are added are an action *)

Section Actions.
Context `{P : Pqxx} {L : PqxxLaws P}.

Lemma adds_client_enacts name email password d r :
  tables_ok d → adds_client name email password d r →
  enacts (Registration name email password) (messenger_of d) (messenger_of (add_rows d r)).
Proof.
  intros Hok (id & n & e & Hn & He & Hemail & Hid & _ & _ & ->).
  apply (enacts_registration _ _ _ n e id); [done..|]. unfold enroll.
  rewrite decide_True.
  - unfold messenger_of, seats_of, members_of, add_rows. simpl. rewrite !app_nil_r. f_equal. f_equal.
    symmetry. by apply (keyed_snoc c_id profile_of _ (ClientRow id n e (hash_password password))).
  - split; [by apply keyed_None|]. intros u p (r & Hr & _ & <-)%users_lookup; [|apply Hok].
    intros Heq. apply Hemail. simpl in Heq. rewrite <- Heq. by apply list_elem_of_fmap_2.
Qed.

Lemma adds_message_enacts sender mesg d r :
  tables_ok d → adds_message sender mesg d r →
  enacts (SendMessage sender mesg) (messenger_of d) (messenger_of (add_rows d r)).
Proof.
  intros Hok (id & text & Ht & Hm & Hid & _ & ->).
  apply (enacts_send_message _ _ text id); [done|]. unfold say. rewrite decide_True.
  - unfold messenger_of, seats_of, members_of, add_rows. simpl. rewrite !app_nil_r. f_equal. f_equal.
    symmetry. by apply (keyed_snoc m_id post_of _ (MessageRow id sender _ text)).
  - split; [by apply keyed_None|]. apply seated_member; [apply Hok|done].
Qed.

Lemma adds_contact_enacts user email d r :
  tables_ok d → adds_contact user email d r →
  enacts (AddContact user email) (messenger_of d) (messenger_of (add_rows d r)).
Proof.
  intros Hok (f & e & He & Hf & Hfe & Hne & Hu & Hc1 & Hc2 & ->).
  apply (enacts_add_contact _ _ e (c_id f) (profile_of f)); [done| |done|].
  - apply users_lookup; [apply Hok|]. by exists f.
  - unfold befriend. rewrite decide_True.
    + unfold messenger_of, seats_of, members_of, add_rows. simpl. rewrite !app_nil_r. f_equal. f_equal.
      rewrite fmap_app, list_to_set_app_L. simpl. set_solver.
    + rewrite !elem_of_users, !elem_of_friends. split_and!; try done.
      unfold client_ids. by apply list_elem_of_fmap_2.
Qed.

Lemma seats_of_add d id l : chats_ok d → id ∉ Chat d → (∀ r, r ∈ l → cc_chat_id r = id) →
  ∀ c, c ∈ Chat d → ∀ r, new_members r = l → seats_of (add_rows d r) c = seats_of d c.
Proof.
  intros Hok Hid Hl c Hc r Hr. unfold seats_of. rewrite (members_of_app d _ (new_members r)) by done.
  rewrite Hr, filter_out, app_nil_r; [done|]. intros x Hx Heq. apply Hid. by rewrite <- (Hl x Hx), Heq.
Qed.

Lemma adds_chat_enacts user user_name friend d r :
  tables_ok d → adds_chat user user_name friend d r →
  enacts (CreateChat user user_name friend) (messenger_of d) (messenger_of (add_rows d r)).
Proof.
  intros Hok (f & id & name & ut & ft & Hf & Hfi & Hfn & Hut & Hft & Hu & Hid & _ & _ & ->).
  apply (enacts_create_chat _ _ _ (profile_of f) name ut ft id); [|done..|].
  { apply users_lookup; [apply Hok|]. by exists f. }
  assert (id ∉ (omap (λ id, pair id <$> seats_of d id) (Chat d)).*1) as Hfresh.
  { intros Hin. by apply Hid, (seats_keys d). }
  unfold open_chat. rewrite decide_True.
  - f_equal. unfold messenger_of. cbn [users friends chats posts].
    unfold add_rows at 1 2 4. cbn. rewrite !app_nil_r. f_equal.
    rewrite omap_app. rewrite <- (list_to_map_snoc _ id) by done. do 2 f_equal.
    + apply list_omap_ext, Forall_Forall2_diag, Forall_forall. intros c Hc. symmetry. f_equal.
      eapply (seats_of_add d id [_; _]); [apply Hok|done| |done|done]. set_solver.
    + simpl. unfold seats_of. erewrite members_of_app by done. unfold members_of at 1.
      rewrite filter_out.
      * simpl. rewrite !filter_cons, filter_nil. simpl. by rewrite !decide_True.
      * intros m Hm Hmi. apply Hid. rewrite <- Hmi. exact (ok_member_chat d Hok m Hm).
  - split_and!; [by apply not_elem_of_list_to_map|by apply elem_of_users|].
    apply elem_of_users. simpl. rewrite <- Hfi. exact (list_elem_of_fmap_2 c_id _ _ Hf).
Qed.

(** Rows that are added are an action. *)
Lemma effect_enacts op d r :
  tables_ok d → effect op d r → enacts op (messenger_of d) (messenger_of (add_rows d r)).
Proof.
  intros Hok. destruct op; simpl; eauto using adds_client_enacts, adds_message_enacts,
    adds_contact_enacts, adds_chat_enacts;
    intros ->; rewrite add_no_rows; apply enacts_query; by intros [].
Qed.
End Actions.

(** *** The answers of the queries are views *)

Lemma filter_fmap {A B} (f : A → B) (Q : B → Prop) `{!∀ y, Decision (Q y)} (l : list A) :
  filter Q (f <$> l) = f <$> filter (λ x, Q (f x)) l.
Proof.
  induction l as [|x l IH]; [done|]. rewrite fmap_cons, !filter_cons, IH. by case_decide.
Qed.

Lemma keyed_view {R V E} (key : R → Z) (val : R → V) (f : Z * V → E)
    (Q : Z * V → Prop) `{!∀ y, Decision (Q y)} l :
  NoDup (key <$> l) →
  f <$> filter Q (map_to_list (keyed key val l)) ≡ₚ
  (λ r, f (key r, val r)) <$> filter (λ r, Q (key r, val r)) l.
Proof. intros Hnd. by rewrite (keyed_entries key val l Hnd), filter_fmap, <- list_fmap_compose. Qed.

Lemma bind_ext_in {A B} (f g : A → list B) l : (∀ x, x ∈ l → f x = g x) → l ≫= f = l ≫= g.
Proof.
  induction l as [|x l IH]; intros Hfg; simpl; [done|]. rewrite (Hfg x) by left.
  f_equal. apply IH. intros y Hy. apply Hfg. by right.
Qed.

Lemma group_by {A} (key : A → Z) ks l :
  NoDup ks → (∀ x, x ∈ l → key x ∈ ks) → (ks ≫= λ k, filter (λ x, key x = k) l) ≡ₚ l.
Proof.
  intros Hnd. revert l. induction Hnd as [|k ks Hk _ IH]; intros l Hl; simpl.
  - destruct l as [|x l]; [done|]. specialize (Hl x ltac:(left)). by apply elem_of_nil in Hl.
  - etrans; [|apply (filter_app_complement (λ x, key x = k) l)]. f_equiv.
    rewrite <- (IH (filter (λ x, key x ≠ k) l)).
    + erewrite bind_ext_in; [done|]. intros k' Hk'. cbn beta. rewrite list_filter_filter_l; [done|].
      by intros x -> ->.
    + intros x [Hx Hin]%list_elem_of_filter. apply Hl in Hin as Hin'%elem_of_cons. tauto.
Qed.

Lemma members_by_chat d : chats_ok d → Chat d ≫= members_of d ≡ₚ ClientToChat d.
Proof. intros Hok. apply (group_by cc_chat_id); apply Hok. Qed.

Lemma contacts_view_rows d user : tables_ok d →
  contact_of_row <$> contact_rows d user ≡ₚ contacts_view (messenger_of d) user.
Proof.
  intros Hok. unfold contacts_view. simpl. rewrite keyed_view by apply Hok.
  unfold contact_rows. rewrite <- list_fmap_compose. unfold compose. simpl. f_equiv.
  apply reflexive_eq, list_filter_iff. intros r. by rewrite <- elem_of_friends.
Qed.

Lemma messages_view_rows d chat : tables_ok d →
  message_of_row <$> message_rows d chat ≡ₚ messages_view (messenger_of d) chat.
Proof.
  intros Hok. unfold messages_view. simpl. rewrite keyed_view by apply Hok.
  unfold message_rows. by rewrite <- list_fmap_compose.
Qed.

Lemma filter_bind {A B} (f : A → list B) (Q : B → Prop) `{!∀ y, Decision (Q y)} l :
  filter Q (l ≫= f) = l ≫= λ x, filter Q (f x).
Proof. induction l as [|x l IH]; [done|]. rewrite !bind_cons, filter_app. by rewrite IH. Qed.

Lemma fmap_bind {A B C} (f : A → list B) (g : B → C) l : g <$> (l ≫= f) = l ≫= λ x, g <$> f x.
Proof. induction l as [|x l IH]; [done|]. rewrite !bind_cons, fmap_app. by rewrite IH. Qed.

Lemma chats_view_rows d user : tables_ok d →
  chat_of_row <$> chat_rows d user ≡ₚ chats_view (messenger_of d) user.
Proof.
  intros Hok. unfold chats_view, chat_rows. simpl.
  rewrite map_to_list_to_map by (apply seats_NoDup, Hok).
  rewrite <- (members_by_chat d) by apply Hok. rewrite <- list_fmap_compose, filter_bind, fmap_bind.
  assert (∀ id, id ∈ Chat d → ∃ a b, members_of d id = [a; b]) as Htwo.
  { intros id. apply chat_members, Hok. }
  revert Htwo. induction (Chat d) as [|id l IH]; intros Htwo; simpl; [done|].
  destruct (Htwo id) as (a & b & Hm); [left|]. unfold seats_of at 1. rewrite Hm. simpl.
  f_equiv; [|apply IH; intros i Hi; apply Htwo; by right].
  assert (cc_chat_id a = id ∧ cc_chat_id b = id) as [Ha Hb].
  { split; apply (elem_of_members d); rewrite Hm; set_solver. }
  rewrite !filter_cons, filter_nil. simpl. subst id.
  repeat case_decide; unfold compose, chat_of_row; simpl; by rewrite ?Hb.
Qed.

(** What a call that only reads answers if it has no view: a login is
    refused, and a query that was cut short has no rows. *)
Definition refused (op : storage_op) (ph : phase) (result : exn + answer) : Prop :=
  match op, result with
  | Login _ _, inl _ => True
  | GetChats _, inr (Chats resp) => ph ≠ Done ∧ ChatsResponse.chats resp = []
  | GetContacts _, inr (Contacts resp) => ph ≠ Done ∧ ContactsResponse.contacts resp = []
  | GetMessages _, inr (Messages resp) => ph ≠ Done ∧ MessagesResponse.messages resp = []
  | _, _ => False
  end.

Section Views.
Context `{P : Pqxx} {L : PqxxLaws P}.

Lemma login_views email password d r e : tables_ok d →
  quote_text email = Some e → r ∈ Client d → c_email r = e → c_password_hash r = SHA256 password →
  views (Login email password) (messenger_of d) (inr (UserFound (c_id r) (c_name r))).
Proof.
  intros Hok Hq Hr He Hh. exists (profile_of r). split_and!; try done; [|by rewrite Hq, <- He].
  apply users_lookup; [apply Hok|]. by exists r.
Qed.

(** Sequences do not matter to what a call that reads promises. *)
Lemma promise_same op (S S' : states) ph result : ¬ modifies op →
  (∀ d, S d → ∃ d', S' d' ∧ same_tables d d') → promise op S ph result → promise op S' ph result.
Proof.
  intros Hop HS. assert (∀ {Elt} (wrapped : list Elt → answer → Prop) rows,
    (∀ d d', same_tables d d' → rows d' = rows d) →
    rows_claim wrapped rows S ph result → rows_claim wrapped rows S' ph result) as Hrows.
  { intros Elt wrapped rows Hsame (l & x & Hres & Hx & [(d & Hd & Hl)|Hl]);
      exists l, x; (split_and!; [done|done|]); [left|by right].
    destruct (HS d Hd) as (d' & Hd' & Hs). exists d'. by rewrite (Hsame d d'). }
  destruct op; simpl in *; try tauto.
  - destruct result as [e|x]; simpl; [done|]. intros (d & e & r & Hd & Hq & Hr & He).
    destruct (HS d Hd) as (d' & Hd' & (Hc & _)). exists d', e, r. by rewrite Hc.
  - apply Hrows. intros d d' Hs. by rewrite (chat_rows_same d d').
  - apply Hrows. intros d d' Hs. by rewrite (contact_rows_same d d').
  - apply Hrows. intros d d' Hs. by rewrite (message_rows_same d d').
Qed.

(** What a call promises, in terms of the messenger. *)
Lemma promise_views op (S : states) ph result : (∀ d, S d → tables_ok d) → ¬ modifies op →
  promise op S ph result → (∃ d, S d ∧ views op (messenger_of d) result) ∨ refused op ph result.
Proof.
  intros HS Hop. destruct op; simpl in *; try tauto.
  - destruct result as [e|x]; [by right|]. intros (d & e & r & Hd & Hq & Hr & He & Hh & ->).
    left. exists d. split; [done|]. by eapply (login_views email password d); [apply HS|..].
  - intros (l & x & -> & (resp & -> & <-) & [(d & Hd & Hl)|Hl]); [left|by right].
    exists d. split; [done|]. simpl. by rewrite Hl, chats_view_rows by auto.
  - intros (l & x & -> & (resp & -> & <-) & [(d & Hd & Hl)|Hl]); [left|by right].
    exists d. split; [done|]. simpl. by rewrite Hl, contacts_view_rows by auto.
  - intros (l & x & -> & (resp & -> & <-) & [(d & Hd & Hl)|Hl]); [left|by right].
    exists d. split; [done|]. simpl. by rewrite Hl, messages_view_rows by auto.
Qed.
End Views.

(** ** The messenger forgets nothing *)

Definition extends (m m' : messenger) : Prop :=
  users m ⊆ users m' ∧ friends m ⊆ friends m' ∧ chats m ⊆ chats m' ∧ posts m ⊆ posts m'.

#[export] Instance extends_preorder : PreOrder extends.
Proof.
  split.
  - intros m. by split_and!.
  - intros m1 m2 m3 (?&?&?&?) (?&?&?&?). split_and!; by etrans.
Qed.

Lemma enacts_extends `{P : Pqxx} op m m' : enacts op m m' → extends m m'.
Proof.
  destruct 1 as [???????? _ _ Hact|?????? _ Hact|??????? _ _ _ Hact|?????????? _ _ _ _ Hact|];
    [..|done]; revert Hact; unfold enroll, say, befriend, open_chat; case_decide as Hc; try done;
    intros [= <-]; split_and!; simpl; try done; try (apply insert_subseteq; apply Hc); set_solver.
Qed.

(** What a query must answer that begins after a write was accepted. *)
Definition shown `{P : Pqxx} (op query : storage_op) (result : exn + answer) : Prop :=
  match op, query, result with
  | SendMessage sender mesg, GetMessages chat, inr (Messages resp) =>
      chat = MessageToSend.chat_id mesg →
      ∃ text, sql_text (MessageToSend.text mesg) = Some text ∧
        MessageToRecieve.Build sender text ∈ MessagesResponse.messages resp
  | AddContact user email, GetContacts user', inr (Contacts resp) =>
      user' = user →
      ∃ id name e, sql_text email = Some e ∧ Contact.Build id name e ∈ ContactsResponse.contacts resp
  | CreateChat user user_name friend, GetChats user', inr (Chats resp) =>
      (user' = friend → ∃ id title, sql_text (chat_with ++ user_name) = Some title ∧
         Chat.Build id title ∈ ChatsResponse.chats resp) ∧
      (user' = user → ∃ id name title, sql_text (chat_with ++ name) = Some title ∧
         Chat.Build id title ∈ ChatsResponse.chats resp)
  | _, _, _ => True
  end.

Lemma elem_of_messages_view m id x : posts m !! id = Some x →
  MessageToRecieve.Build (post_sender x) (post_text x) ∈ messages_view m (post_chat x).
Proof.
  intros Hx. unfold messages_view. apply list_elem_of_fmap. exists (id, x). split; [done|].
  apply list_elem_of_filter. split; [done|]. by apply elem_of_map_to_list.
Qed.

Lemma elem_of_contacts_view m user id p : (user, id) ∈ friends m → users m !! id = Some p →
  Contact.Build id (p_name p) (p_email p) ∈ contacts_view m user.
Proof.
  intros Hf Hp. unfold contacts_view. apply list_elem_of_fmap. exists (id, p). split; [done|].
  apply list_elem_of_filter. split; [done|]. by apply elem_of_map_to_list.
Qed.

Lemma elem_of_chats_view m id a b s : chats m !! id = Some (a, b) → s = a ∨ s = b →
  Chat.Build id (seat_title s) ∈ chats_view m (seat_user s).
Proof.
  intros Hc Hs. unfold chats_view. apply list_elem_of_bind. exists (id, (a, b)).
  split; [|by apply elem_of_map_to_list]. apply list_elem_of_fmap. exists s. split; [done|].
  apply list_elem_of_filter. split; [done|]. set_solver.
Qed.

Lemma enacts_shown `{P : Pqxx} op query m m' m2 result :
  enacts op m m' → extends m' m2 → views query m2 result → shown op query result.
Proof.
  intros He (Hu & Hf & Hc & Hp) Hv.
  destruct (decide (modifies op)) as [Hop|Hop]; [|by destruct op; try done; destruct (Hop I)].
  destruct He as [| sender mesg text id m m' Ht Hact | user email e friend p m m' Ht Hfr Hpe Hact |
    user user_name friend p name ut ft id m m' _ _ Hut Hft Hact |]; try done;
    destruct query; try done; destruct result as [|[]]; try done; revert Hact;
    unfold say, befriend, open_chat; case_decide as Hd; try done; intros [= <-]; simpl in *.
  - intros ->. exists text. split; [done|]. rewrite Hv.
    apply (elem_of_messages_view m2 id (Post _ sender text)).
    eapply lookup_weaken; [|exact Hp]. apply lookup_insert_eq.
  - intros ->. exists friend, (p_name p), e. split; [done|]. rewrite Hv, <- Hpe.
    apply elem_of_contacts_view; [set_solver|by eapply lookup_weaken].
  - setoid_rewrite Hv.
    assert (chats m2 !! id = Some (Seat user ut, Seat friend ft)) as Hch.
    { eapply lookup_weaken; [|exact Hc]. apply lookup_insert_eq. }
    split; intros ->; [exists id, ft|exists id, name, ut]; (split; [done|]);
      [apply (elem_of_chats_view m2 id _ _ (Seat friend ft) Hch)
      |apply (elem_of_chats_view m2 id _ _ (Seat user ut) Hch)]; auto.
Qed.
