(* ===== verification/Linearization.v ===== *)
(** * When calls take effect

    The log of a world replayed on the first database gives one moment of the
    messenger after another.  Every committed call is the action from one
    moment to the next, and every call takes effect at a moment between the
    step that begins it and the step in which it returns. *)
From stdpp Require Import gmap.
From S2P Require Import Prelude Requests Responses Storage Database Postgres Effects Growth.
From S2P Require Import PostgresSpec Programs Interleaving Isolation Serial Progress Steps Messenger.

(** ** Moments *)

Definition replay (d : db) (l : list (nat * storage_op * rows)) : db :=
  foldl (λ d e, add_rows d e.2) d l.

(** The messenger after the first [k] commits. *)
Definition moment (d : db) (w : world) (k : nat) : messenger := messenger_of (replay d (take k (log w))).

Lemma replay_snoc d l p op r : replay d (l ++ [(p, op, r)]) = add_rows (replay d l) r.
Proof. unfold replay. by rewrite foldl_app. Qed.

Lemma same_add_rows d d' r : same_tables d d' → same_tables (add_rows d r) (add_rows d' r).
Proof. intros (H1 & H2 & H3 & H4 & H5). split_and!; simpl; by f_equal. Qed.

Section Linearization.
Context `{P : Pqxx} {L : PqxxLaws P}.

Lemma serial_snoc d0 l p op r d : serial d0 (l ++ [(p, op, r)]) d →
  ∃ x, serial d0 l x ∧ effect op x r ∧ unchanged (add_rows x r) d.
Proof.
  inversion 1 as [? ? Heq|? ? ? ? x ? Hs He Hu Heq]; subst.
  - by apply app_cons_not_nil in Heq.
  - apply app_inj_tail in Heq as [-> [= -> -> ->]]. by exists x.
Qed.

Lemma serial_replay d0 l d : serial d0 l d → same_tables (replay d0 l) d.
Proof.
  induction 1 as [d [H _]|l p op r d d' _ IH _ [Hu _]]; [done|].
  rewrite replay_snoc. etrans; [by apply same_add_rows|done].
Qed.

Lemma serial_tables d0 l d : serial d0 l d → tables_ok d0 → tables_ok d.
Proof.
  induction 1 as [d Hu|l p op r d d' _ IH He Hu]; intros Hok.
  - by eapply tables_ok_unchanged.
  - eapply tables_ok_unchanged; [done|]. eapply effect_ok; [done|auto].
Qed.

Lemma serial_take d0 l d k : serial d0 l d → ∃ x, serial d0 (take k l) x.
Proof.
  intros Hs. induction Hs as [d Hu|l p op r d d' Hs IH He Hu].
  - exists d. rewrite take_nil. by apply serial_nil.
  - destruct (decide (k ≤ length l)%nat) as [Hk|Hk].
    + by rewrite take_app_le.
    + exists d'. rewrite take_ge by (rewrite length_app; simpl; lia). by eapply serial_commit.
Qed.

(** Every moment is that of a well-formed database. *)
Lemma moment_tables d w k : world_ok d w → tables_ok d →
  ∃ x, tables_ok x ∧ same_tables (replay d (take k (log w))) x.
Proof.
  intros Hw Hd. destruct (serial_take _ _ _ k (world_serial _ _ Hw)) as [x Hx].
  exists x. split; [by eapply serial_tables|by apply serial_replay].
Qed.

(** A committed call is the action from one moment to the next. *)
Lemma logged_enacts d w k p op r : world_ok d w → tables_ok d →
  log w !! k = Some (p, op, r) → enacts op (moment d w k) (moment d w (S k)).
Proof.
  intros Hw Hd Hk. destruct (serial_take _ _ _ (S k) (world_serial _ _ Hw)) as [y Hy].
  unfold moment. rewrite (take_S_r _ _ _ Hk), replay_snoc in *.
  destruct (serial_snoc _ _ _ _ _ _ Hy) as (x & Hx & He & _).
  pose proof (serial_replay _ _ _ Hx) as Hs.
  rewrite <- (messenger_of_same _ _ Hs), <- (messenger_of_same _ _ (same_add_rows _ _ r Hs)).
  apply effect_enacts; [by eapply serial_tables|done].
Qed.

Lemma moment_last d w : world_ok d w → moment d w (length (log w)) = messenger_of (shared w).
Proof.
  intros Hw. unfold moment. rewrite take_ge by done. symmetry.
  apply messenger_of_same, serial_replay, Hw.
Qed.

Lemma moments_extend d w j k : world_ok d w → tables_ok d → (j ≤ k)%nat →
  extends (moment d w j) (moment d w k).
Proof.
  intros Hw Hd. induction 1 as [|k _ IH]; [done|]. etrans; [exact IH|].
  destruct (log w !! k) as [[[p op] r]|] eqn:Hk.
  - eapply enacts_extends. by eapply logged_enacts.
  - apply lookup_ge_None in Hk. unfold moment. by rewrite !take_ge by lia.
Qed.

(** ** The log only grows *)

Lemma step_log w w' ev : world_step ev w = Some w' → log w `prefix_of` log w'.
Proof.
  intros [p op Hp Hb|ev' p c c' d Hm Hp Hrun Hu Hop Hseen Hph Hr|ev' p op k own seen q ph Hm Hp _]%step_cases;
    simpl; [done|done|]. by eexists.
Qed.

Lemma schedule_log evs w w' : schedule evs w = Some w' → log w `prefix_of` log w'.
Proof.
  revert w. induction evs as [|ev evs IH]; intros w; simpl; [by intros [= ->]|].
  intros (w1 & Hst & Hrun)%bind_Some. etrans; [by eapply step_log|auto].
Qed.

Lemma moment_prefix d w w' k : log w `prefix_of` log w' → (k ≤ length (log w))%nat →
  moment d w' k = moment d w k.
Proof. intros [l Hl] Hk. unfold moment. by rewrite Hl, take_app_le. Qed.

(** ** The moments a call can see *)

(** Every state the call has seen is that of a moment since the [i]-th. *)
Definition saw (d : db) (w : world) (i : nat) (c : call) : Prop :=
  ∀ x, x ∈ seen_of c → ∃ k, (i ≤ k ≤ length (log w))%nat ∧
    same_tables (replay d (take k (log w))) x.

Lemma saw_prefix d w w' i c : log w `prefix_of` log w' → saw d w i c → saw d w' i c.
Proof.
  intros [l Hl] Hs x Hx. destruct (Hs x Hx) as (k & Hk & Hsame). exists k.
  rewrite Hl, length_app, take_app_le by lia. split; [lia|done].
Qed.

Lemma saw_now d w i x : world_ok d w → (i ≤ length (log w))%nat → same_tables (shared w) x →
  ∃ k, (i ≤ k ≤ length (log w))%nat ∧ same_tables (replay d (take k (log w))) x.
Proof.
  intros Hw Hi Hx. exists (length (log w)). split; [lia|]. rewrite take_ge by done.
  etrans; [apply serial_replay, Hw|done].
Qed.

Lemma step_saw d w w' ev p i : world_ok d w' → world_step ev w = Some w' →
  (i ≤ length (log w))%nat →
  (∀ c, calls w !! p = Some c → saw d w i c) → ∀ c, calls w' !! p = Some c → saw d w' i c.
Proof.
  intros Hw' Hst Hi Hsaw c. pose proof (step_log _ _ _ Hst) as Hlog.
  assert (i ≤ length (log w'))%nat as Hi' by (apply prefix_length in Hlog; lia).
  assert (∀ c, calls w !! p = Some c → saw d w' i c) as Hold.
  { intros c0 Hc. apply (saw_prefix d w); auto. }
  clear Hsaw. revert Hst Hw' Hold Hi'.
  intros [q op Hq Hb|ev' q cq c' x Hm Hq Hrun Hu Hop Hseen Hph Hr|ev' q op k own seen r ph Hm Hq _]%step_cases;
    intros Hw' Hold Hi'; simpl; rewrite ?lookup_fmap; unfold set_call;
    (destruct (decide (p = q)) as [->|Hne]; [rewrite lookup_insert_eq|rewrite lookup_insert_ne by done]).
  - intros [= <-] x ->%list_elem_of_singleton. by apply (saw_now d _ i _ Hw').
  - apply Hold.
  - intros [= <-] x'. rewrite Hseen. by apply Hold.
  - apply Hold.
  - intros [= <-] x'. simpl. intros [Hx| ->]%elem_of_snoc; [by eapply Hold|].
    by apply (saw_now d _ i _ Hw').
  - intros (c0 & Hc0 & ->)%fmap_Some x' [Hx| ->]%observe_seen; [by eapply Hold|].
    by apply (saw_now d _ i _ Hw').
Qed.

Lemma schedule_saw d evs w w' p i : world_ok d w → schedule evs w = Some w' →
  (i ≤ length (log w))%nat →
  (∀ c, calls w !! p = Some c → saw d w i c) → ∀ c, calls w' !! p = Some c → saw d w' i c.
Proof.
  revert w. induction evs as [|ev evs IH]; intros w Hw; simpl; [by intros [= ->]|].
  intros (w1 & Hst & Hrun)%bind_Some Hi Hsaw.
  assert (world_ok d w1) as Hw1 by (by eapply world_step_ok).
  apply (IH w1); try done; [|by eapply step_saw].
  pose proof (prefix_length _ _ (step_log _ _ _ Hst)). lia.
Qed.

(** ** The moment of a call *)

(** The call took effect at moment [k]: it was committed there, or its answer
    is a view of it; or it had no effect and tells nothing. *)
Definition takes_effect (d : db) (w : world) (p : nat) (op : storage_op) (result : exn + answer)
    (ph : phase) (k : nat) : Prop :=
  (∃ r, log w !! k = Some (p, op, r) ∧ enacts op (moment d w k) (moment d w (S k)) ∧
        (result = inr (Status true) ∨ result = inr (Status false) ∧ ph = InDoubt)) ∨
  (modifies op ∧ result = inr (Status false) ∧ ∀ op' r, (p, op', r) ∉ log w) ∨
  (¬ modifies op ∧ views op (moment d w k) result) ∨
  (¬ modifies op ∧ refused op ph result).

Lemma modifies_claim op : modifies op → promise op = status_claim.
Proof. by destruct op. Qed.

Lemma write_takes_effect d w p op result ph seen i : world_ok d w → tables_ok d → modifies op →
  calls w !! p = Some (Finished op result ph seen) → (i ≤ length (log w))%nat →
  (∀ op' r k, log w !! k = Some (p, op', r) → (i ≤ k)%nat) →
  ∃ k, (i ≤ k ≤ length (log w))%nat ∧ takes_effect d w p op result ph k.
Proof.
  intros Hw Hd Hop Hp Hi Hlate. pose proof (world_calls _ _ Hw p _ Hp) as Hpr. simpl in Hpr.
  rewrite modifies_claim in Hpr by done. destruct (is_committed ph) eqn:Hph.
  - destruct (log_committed _ Hw p _ Hp Hph) as [r Hr]. simpl in Hr.
    apply list_elem_of_lookup in Hr as [k Hk]. exists k.
    split; [pose proof (lookup_lt_Some _ _ _ Hk); pose proof (Hlate _ _ _ Hk); lia|].
    left. exists r. split_and!; [done|by eapply logged_enacts|]. destruct ph; try done; auto.
  - exists (length (log w)). split; [lia|]. right. left. split_and!; [done|by destruct ph|].
    intros op' r Hr. destruct (log_call _ Hw p op' r Hr) as (c & Hc & _ & Hcom).
    rewrite Hp in Hc. injection Hc as <-. simpl in Hcom. congruence.
Qed.

Lemma read_takes_effect d w p op result ph seen i : world_ok d w → tables_ok d → ¬ modifies op →
  calls w !! p = Some (Finished op result ph seen) → saw d w i (Finished op result ph seen) →
  (i ≤ length (log w))%nat →
  ∃ k, (i ≤ k ≤ length (log w))%nat ∧ takes_effect d w p op result ph k.
Proof.
  intros Hw Hd Hop Hp Hsaw Hi. pose proof (world_calls _ _ Hw p _ Hp) as Hpr. simpl in Hpr.
  pose (S' := λ x, tables_ok x ∧ ∃ k, (i ≤ k ≤ length (log w))%nat ∧
    same_tables (replay d (take k (log w))) x).
  assert (promise op S' ph result) as Hpr'.
  { apply (promise_same op (states_of seen)); [done| |done]. intros x (y & Hy & Hyx).
    destruct (Hsaw y Hy) as (k & Hk & Hs). destruct (moment_tables d w k Hw Hd) as (z & Hz & Hsz).
    exists z. split; [split; [done|by exists k]|].
    etrans; [symmetry; exact Hyx|]. etrans; [symmetry; exact Hs|done]. }
  destruct (promise_views op S' ph result) as [(x & (_ & k & Hk & Hs) & Hv)|Hr];
    [by intros x [Hx _]|done|done| |].
  - exists k. split; [done|]. right. right. left. split; [done|]. unfold moment.
    by rewrite <- (messenger_of_same _ _ Hs).
  - exists i. split; [lia|]. right. right. by right.
Qed.

Lemma takes_effect_later d w w' p op result ph seen k :
  world_ok d w → world_ok d w' → log w `prefix_of` log w' → (k ≤ length (log w))%nat →
  calls w !! p = Some (Finished op result ph seen) →
  calls w' !! p = Some (Finished op result ph seen) →
  takes_effect d w p op result ph k → takes_effect d w' p op result ph k.
Proof.
  intros Hw Hw' Hlog Hk Hp Hp'.
  intros [(r & Hr & He & Hres)|[(Hop & Hres & Hno)|[[Hop Hv]|Hr]]].
  - left. exists r. pose proof (lookup_lt_Some _ _ _ Hr). rewrite !(moment_prefix d w w') by done || lia.
    split_and!; [by eapply prefix_lookup_Some|done|done].
  - right. left. split_and!; [done|done|]. intros op' r Hr.
    destruct (log_call _ Hw' p op' r Hr) as (c & Hc & _ & Hcom).
    rewrite Hp' in Hc. injection Hc as <-.
    destruct (log_committed _ Hw p _ Hp Hcom) as [r' Hr']. by apply (Hno op r').
  - right. right. left. split; [done|]. by rewrite (moment_prefix d w w').
  - by right; right; right.
Qed.

Lemma schedule_snoc evs ev w w' : schedule (evs ++ [ev]) w = Some w' ↔
  ∃ w1, schedule evs w = Some w1 ∧ world_step ev w1 = Some w'.
Proof.
  rewrite schedule_app, bind_Some. simpl. setoid_rewrite bind_Some. naive_solver.
Qed.

Lemma schedule_world_ok d evs w w' : world_ok d w → schedule evs w = Some w' → world_ok d w'.
Proof.
  revert w. induction evs as [|ev evs IH]; intros w Hw; simpl; [by intros [= <-]|].
  intros (w1 & Hst & Hrun)%bind_Some. apply (IH w1); [by eapply world_step_ok|done].
Qed.

(** A call that begins after [w1] takes effect after [w1]. *)
Lemma call_takes_effect d evs w1 w2 p op result ph seen : tables_ok d → world_ok d w1 →
  schedule evs w1 = Some w2 → calls w1 !! p = None →
  calls w2 !! p = Some (Finished op result ph seen) →
  ∃ k, (length (log w1) ≤ k ≤ length (log w2))%nat ∧ takes_effect d w2 p op result ph k.
Proof.
  intros Hd Hw1 Hrun Hnone Hp. pose proof (schedule_log _ _ _ Hrun) as Hlog.
  assert (world_ok d w2) as Hw2 by (by eapply schedule_world_ok).
  pose proof (prefix_length _ _ Hlog) as Hi. destruct (decide (modifies op)) as [Hop|Hop].
  - eapply write_takes_effect; [done..|]. intros op' r k Hk.
    destruct (decide (length (log w1) ≤ k)%nat) as [|Hlt]; [done|].
    destruct (lookup_lt_is_Some_2 (log w1) k) as [e He]; [lia|].
    pose proof (prefix_lookup_Some _ _ _ _ He Hlog) as He'. rewrite Hk in He'. injection He' as <-.
    destruct (log_call _ Hw1 p op' r) as (c & Hc & _); [by eapply list_elem_of_lookup_2|congruence].
  - eapply read_takes_effect; [done..| |done].
    apply (schedule_saw d evs w1 w2 p); try done. intros c. by rewrite Hnone.
Qed.

(** It sees what was accepted before, or was cut short. *)
Lemma accepted_is_answered d evs w1 w2 p q op query ph ph' seen result seen' :
  tables_ok d → world_ok d w1 → schedule evs w1 = Some w2 →
  calls w1 !! p = Some (Finished op (inr (Status true)) ph seen) →
  calls w1 !! q = None → calls w2 !! q = Some (Finished query result ph' seen') →
  shown op query result ∨ refused query ph' result.
Proof.
  intros Hd Hw1 Hrun Hp Hnone Hq. pose proof (schedule_world_ok _ _ _ _ Hw1 Hrun) as Hw2.
  destruct (decide (modifies op ∧ ¬ modifies query)) as [[Hop Hqu]|Hno].
  2:{ left. destruct op, query; try done; simpl in Hno; destruct Hno; tauto. }
  destruct (call_takes_effect d evs w1 w2 q query result ph' seen') as (k & Hk & He); try done.
  destruct (finished_logged d w1 p op _ ph seen Hw1 Hop Hp) as [[_ [r Hr]]|[[=] _]].
  apply list_elem_of_lookup in Hr as [j Hj]. pose proof (lookup_lt_Some _ _ _ Hj) as Hlt.
  assert (log w2 !! j = Some (p, op, r)) as Hj2.
  { by eapply prefix_lookup_Some, schedule_log. }
  destruct He as [(r' & _ & _ & [-> |[-> _]])|[[Hm _]|[[_ Hv]|[_ Href]]]];
    [left; by destruct op, query..|done| |by right].
  left. eapply (enacts_shown op query _ (moment d w2 (S j))); [by eapply logged_enacts| |exact Hv].
  apply moments_extend; [done|done|lia].
Qed.

Lemma accepted_is_seen d evs w1 w2 p q op query ph seen result seen' :
  tables_ok d → world_ok d w1 → schedule evs w1 = Some w2 →
  calls w1 !! p = Some (Finished op (inr (Status true)) ph seen) →
  calls w1 !! q = None → calls w2 !! q = Some (Finished query result Done seen') →
  shown op query result.
Proof.
  intros Hd Hw1 Hrun Hp Hnone Hq.
  destruct (accepted_is_answered d evs w1 w2 p q op query ph Done seen result seen') as [|Href]; try done.
  destruct query, result as [|[]]; try done; [by destruct op|by destruct Href as [[] _]..].
Qed.

Lemma return_finishes w w' p : world_step (Return p) w = Some w' →
  ∃ op result ph seen, calls w' !! p = Some (Finished op result ph seen).
Proof.
  simpl. unfold return_call.
  destruct (calls w !! p) as [[op [x|e|k|B s k|k] own ph seen|]|]; try done; intros [= <-];
    simpl; unfold set_call; rewrite lookup_insert_eq; by do 4 eexists.
Qed.

(** The step that begins a call and the one in which it returns. *)
Lemma call_returned p op evs w1 w2 : schedule (Call p op :: evs ++ [Return p]) w1 = Some w2 →
  calls w1 !! p = None ∧
  ∃ result ph seen, calls w2 !! p = Some (Finished op result ph seen).
Proof.
  cbn [schedule]. intros (w & Hst & Hrun)%bind_Some.
  destruct (begin_call_now _ _ _ _ Hst) as [Hnone Hp]. split; [done|].
  destruct (next_call _ _ (schedule_next _ _ _ Hrun) p _ Hp) as (c & Hc & Hop & _).
  apply schedule_snoc in Hrun as (w3 & _ & (op' & res & ph & seen & Hf)%return_finishes).
  rewrite Hf in Hc. injection Hc as <-. simpl in Hop. subst op'. by do 3 eexists.
Qed.
End Linearization.
