(* ===== verification/Overtaking.v ===== *)
(** * The check of [create_chat] at the place of its commit

    [create_chat] looks for a common chat of the two users and commits a new
    one later.  At the place of its commit in the log the two still have no
    common chat, or another [create_chat] of the same two was committed while
    the call was under way. *)
From stdpp Require Import gmap.
From S2P Require Import Prelude Requests Responses Storage Database Postgres Effects Growth.
From S2P Require Import Programs Interleaving Isolation Serial Progress Steps Overlap Messenger Linearization.

(** The committed tables, without their sequences, after the first [k] commits. *)
Definition tables_at (d : db) (w : world) (k : nat) : db := replay d (take k (log w)).

(** No chat has both as members. *)
Definition strangers (user friend : Z) (d : db) : Prop :=
  ∀ c, member d user c → member d friend c → False.

Definition opens_chat_of (user friend : Z) (op : storage_op) : Prop :=
  match op with
  | CreateChat u _ f => user ∈ [u; f] ∧ friend ∈ [u; f]
  | _ => False
  end.

#[export] Instance opens_chat_of_dec user friend op : Decision (opens_chat_of user friend op).
Proof. destruct op; apply _. Defined.

(** The [k]-th commit is one of [op], which began after the [i]-th: the users
    of a [create_chat] have no common chat yet, or another [create_chat] of
    theirs was committed since [op] began. *)
Definition check_holds (d : db) (w : world) (i k : nat) (op : storage_op) : Prop :=
  match op with
  | CreateChat user _ friend =>
      strangers user friend (tables_at d w k) ∨
      ∃ j q op' r, (i ≤ j < k)%nat ∧ log w !! j = Some (q, op', r) ∧ opens_chat_of user friend op'
  | _ => True
  end.

Section Overtaking.
Context `{P : Pqxx} {L : PqxxLaws P}.

Lemma strangers_same user friend d d' : ClientToChat d' = ClientToChat d →
  strangers user friend d → strangers user friend d'.
Proof. unfold strangers, member. by intros ->. Qed.

(** What adds a common chat is a [create_chat] of the two. *)
Lemma effect_strangers op user friend d r : tables_ok d → effect op d r →
  ¬ opens_chat_of user friend op → strangers user friend d → strangers user friend (add_rows d r).
Proof.
  intros Hd He Hno Hs. destruct (decide (creates_chat op)) as [Hop|Hop].
  2:{ apply (strangers_same _ _ d); [|done]. simpl. by rewrite (other_effects op d r), app_nil_r. }
  destruct op as [| | | |u name f| | |]; try done. simpl in He, Hno. intros c.
  rewrite !(adds_chat_member _ _ _ _ _ _ _ He).
  destruct He as (cl & id & nm & ut & ft & _ & _ & _ & _ & _ & _ & Hid & _ & _ & ->). simpl.
  assert (∀ v, member d v c → c = id → False) as Hold.
  { intros v (m & Hm & _ & <-) Heq. apply Hid. rewrite <- Heq. by apply (ok_member_chat d (ok_chats_of _ Hd)). }
  rewrite !list_elem_of_singleton. rewrite !elem_of_cons, !elem_of_nil in Hno.
  intros [H1|[H1 Hc]] [H2|[H2 Hc']]; [by apply (Hs c)|by eapply Hold..|]. destruct Hno. naive_solver.
Qed.

Lemma tables_at_strangers d w user friend k : world_ok d w → tables_ok d →
  strangers user friend (tables_at d w k) →
  strangers user friend (tables_at d w (S k)) ∨
  ∃ q op r, log w !! k = Some (q, op, r) ∧ opens_chat_of user friend op.
Proof.
  intros Hw Hd Hs. unfold tables_at in *. destruct (log w !! k) as [[[p op] r]|] eqn:Hk.
  2:{ left. apply lookup_ge_None in Hk. by rewrite take_ge in * by lia. }
  destruct (decide (opens_chat_of user friend op)) as [|Hno]; [right; by exists p, op, r|left].
  destruct (serial_take _ _ _ (S k) (world_serial _ _ Hw)) as [y Hy].
  rewrite (take_S_r _ _ _ Hk), replay_snoc in *.
  destruct (serial_snoc _ _ _ _ _ _ Hy) as (x & Hx & He & _).
  destruct (serial_replay _ _ _ Hx) as (_ & _ & Hm & _).
  apply (strangers_same _ _ (add_rows x r)); [simpl; by rewrite Hm|].
  eapply effect_strangers; try done; [by eapply serial_tables|]. by eapply strangers_same.
Qed.

Lemma strangers_kept d w user friend j k : world_ok d w → tables_ok d → (j ≤ k)%nat →
  strangers user friend (tables_at d w j) →
  strangers user friend (tables_at d w k) ∨
  ∃ i q op r, (j ≤ i < k)%nat ∧ log w !! i = Some (q, op, r) ∧ opens_chat_of user friend op.
Proof.
  intros Hw Hd Hjk Hs. induction Hjk as [|k Hjk IH]; [by left|].
  destruct IH as [IH|(i & q & op & r & Hi & H)].
  - destruct (tables_at_strangers _ _ _ _ _ Hw Hd IH) as [|(q & op & r & H)]; [by left|].
    right. exists k, q, op, r. split; [lia|done].
  - right. exists i, q, op, r. split; [lia|done].
Qed.

(** ** Commits *)

(** Every commit of call [p] came after the [i]-th, and its check held then. *)
Definition checked_since (d : db) (w : world) (p i : nat) : Prop :=
  ∀ k op r, log w !! k = Some (p, op, r) → (i ≤ k)%nat ∧ check_holds d w i k op.

Lemma check_holds_prefix d w w' i k op : log w `prefix_of` log w' → (k < length (log w))%nat →
  check_holds d w i k op → check_holds d w' i k op.
Proof.
  intros [l Hl] Hk. destruct op; try done. simpl. unfold tables_at. rewrite Hl, take_app_le by lia.
  intros [Hs|(j & q & op' & r & Hj & Hq & Hop)]; [by left|right]. exists j, q, op', r.
  split_and!; [lia..|by apply lookup_app_l_Some|done].
Qed.

Lemma commit_check d w w' i op own S : world_ok d w' → tables_ok d →
  log w `prefix_of` log w' → commits op S (shared w) own →
  (∀ x, S x → ∃ k, (i ≤ k ≤ length (log w))%nat ∧ same_tables (tables_at d w k) x) →
  check_holds d w' i (length (log w)) op.
Proof.
  intros Hw' Hd [l Hl] [_ Hchk] Hsaw. destruct op as [| | | |user name friend| | |]; try done.
  simpl in *. destruct Hchk as (x & Hx & Hno). destruct (Hsaw x Hx) as (k & Hk & (_ & _ & Hm & _)).
  destruct (strangers_kept d w' user friend k (length (log w))) as [|(j & q & op & r & Hj & Hq)];
    [done|done|lia| |by left|right; exists j, q, op, r; split; [lia|done]].
  unfold tables_at in *. rewrite Hl, take_app_le by lia. by apply (strangers_same _ _ x).
Qed.

Lemma step_checked d w w' ev p i : world_ok d w → tables_ok d → world_step ev w = Some w' →
  (i ≤ length (log w))%nat → (∀ c, calls w !! p = Some c → saw d w i c) →
  checked_since d w p i → checked_since d w' p i.
Proof.
  intros Hw Hd Hst Hi Hsaw Hchk. pose proof (step_log _ _ _ Hst) as Hlog.
  pose proof (world_step_ok _ _ _ _ Hw Hst) as Hw'. intros k op r Hk.
  destruct (decide (k < length (log w))%nat) as [Hlt|Hge].
  { destruct (lookup_lt_is_Some_2 _ _ Hlt) as [e He].
    pose proof (prefix_lookup_Some _ _ _ _ He Hlog) as He'. rewrite Hk in He'. injection He' as <-.
    destruct (Hchk k op r He). split; [done|by eapply check_holds_prefix]. }
  revert Hst Hlog Hw' Hk.
  intros [q op' Hq Hb|ev' q c c' x Hm Hq Hrun Hu Hop Hseen Hph Hr|ev' q op' kk own seen q' ph Hm Hq _]%step_cases
    Hlog Hw'; simpl; [by intros ?%lookup_lt_Some..|].
  intros Hk. pose proof (lookup_lt_Some _ _ _ Hk) as Hlt. rewrite length_app in Hlt. simpl in Hlt.
  assert (k = length (log w)) as -> by lia. rewrite list_lookup_middle in Hk by done.
  injection Hk as <- <- <-. split; [done|].
  destruct (open_call _ _ _ _ _ _ _ Hw Hq) as (_ & _ & Hcom & _).
  eapply (commit_check d w); [done..|exact Hcom|]. intros y (z & Hz & Hzy).
  destruct (Hsaw _ Hq z Hz) as (m & Hm' & Hs). exists m. split; [done|]. by etrans.
Qed.

Lemma schedule_checked d evs w w' p i : world_ok d w → tables_ok d → schedule evs w = Some w' →
  (i ≤ length (log w))%nat → (∀ c, calls w !! p = Some c → saw d w i c) →
  checked_since d w p i → checked_since d w' p i.
Proof.
  revert w. induction evs as [|ev evs IH]; intros w Hw Hd; simpl; [by intros [= ->]|].
  intros (w1 & Hst & Hrun)%bind_Some Hi Hsaw Hchk.
  assert (world_ok d w1) as Hw1 by (by eapply world_step_ok).
  apply (IH w1); try done; [|by eapply step_saw|by eapply (step_checked d w)].
  pose proof (prefix_length _ _ (step_log _ _ _ Hst)). lia.
Qed.

(** A call that begins after [w1]. *)
Lemma later_call_checked d evs w1 w2 p : world_ok d w1 → tables_ok d → schedule evs w1 = Some w2 →
  calls w1 !! p = None → checked_since d w2 p (length (log w1)).
Proof.
  intros Hw Hd Hrun Hp. eapply schedule_checked; try done; [by intros c; rewrite Hp|].
  intros k op r Hk. destruct (log_call _ Hw p op r) as (c & Hc & _); [by eapply list_elem_of_lookup_2|congruence].
Qed.
End Overtaking.
