(* ===== verification/Race.v ===== *)
(** * Two users who open a chat with each other at the same time

    From every well-formed database, for any two users without a common chat:
    a schedule in which both calls look for one before either creates it. *)
From stdpp Require Import gmap.
From S2P Require Import Prelude Requests Responses Storage Database Postgres Effects Growth.
From S2P Require Import Invariants Completeness Programs Interleaving Isolation Serial Progress Steps Alone.
From S2P Require Import Overlap Messenger Linearization Overtaking.

#[local] Arguments fill : simpl never.
#[local] Opaque chat_with.

Section Race.
Context `{P : Pqxx} {L : PqxxLaws P}.
Implicit Types (w : world) (p : nat) (own : rows) (seen : list db).

(** The other calls hold no rows. *)
Definition holds_nothing (c : call) : Prop := own_rows c = no_rows.

Definition others_idle w p : Prop := ∀ q c, q ≠ p → calls w !! q = Some c → holds_nothing c.

Lemma others_idle_unclaimed w p r : others_idle w p → unclaimed w p r.
Proof.
  intros Ho q c Hq. destruct (decide (q = p)) as [->|Hne]; [by left|right].
  rewrite (Ho q c Hne Hq). apply rows_apart_sym, rows_apart_nil.
Qed.

(** Call [p] is about to go on with [q] in its open transaction. *)
Definition stands w p op (q : prog answer) own seen : Prop :=
  calls w !! p = Some (Running op q own Open seen) ∧ others_idle w p ∧ tables_ok (shared w).

(** What a step of [p] leaves to the others: their calls, once [grow] is done
    to them, and the tables with other numbers. *)
Definition leaves (w w' : world) p (n : numbers) : Prop :=
  (∀ q, q ≠ p → calls w' !! q = calls w !! q) ∧ shared w' = with_numbers (shared w) n.

(** A statement that succeeds in the tables with the rows added so far. *)
Lemma query_goes {B} w p op (s : stmt B) k own seen x own' n :
  stands w p op (Query s k) own seen → seq_le (shared w) (with_numbers (shared w) n) →
  s (add_rows (shared w) own) = (Some x, with_numbers (add_rows (shared w) own') n) →
  ∃ w', world_step (Exchange p (numbers_of (shared w))) w = Some w' ∧
    stands w' p op (k (inr x)) own' seen ∧ leaves w w' p n.
Proof.
  intros (Hp & Ho & Hok) Hn Hs.
  assert (evaluate w own s (numbers_of (shared w)) =
    (Some x, with_numbers (add_rows (shared w) own') n)) as Hev by exact Hs.
  assert (advance (shared w) (with_numbers (add_rows (shared w) own') n) = with_numbers (shared w) n) as Hadv.
  { unfold seq_le in Hn. simpl in Hn. unfold advance, with_numbers. simpl. f_equal; lia. }
  eexists. split.
  - simpl. unfold exchange. rewrite Hp. unfold run_statement. rewrite Hev, rows_since_with.
    rewrite decide_True by (by apply numbers_drawn). by rewrite decide_True by (by apply others_idle_unclaimed).
  - rewrite Hadv. split.
    + split_and!; simpl; unfold set_call.
      * by rewrite lookup_insert_eq.
      * intros q c Hne. simpl. rewrite lookup_insert_ne by done. by apply Ho.
      * eapply tables_ok_unchanged; [split; [|exact Hn]; by split_and!|done].
    + split; simpl; [|done]. intros q Hne. unfold set_call. by rewrite lookup_insert_ne.
Qed.

(** A statement that draws no number. *)
Lemma query_stays {B} w p op (s : stmt B) k own seen x own' :
  stands w p op (Query s k) own seen →
  s (add_rows (shared w) own) = (Some x, add_rows (shared w) own') →
  ∃ w', world_step (Exchange p (numbers_of (shared w))) w = Some w' ∧
    stands w' p op (k (inr x)) own' seen ∧ leaves w w' p (numbers_of (shared w)).
Proof. intros Hst Hs. apply (query_goes w p op s k own); [done|unfold seq_le; simpl; lia|exact Hs]. Qed.

Lemma with_own_numbers d : with_numbers d (numbers_of d) = d.
Proof. by destruct d. Qed.

Lemma schedule_first ev evs w w1 w' :
  world_step ev w = Some w1 → schedule evs w1 = Some w' → schedule (ev :: evs) w = Some w'.
Proof. intros Hst Hrun. cbn [schedule]. by rewrite Hst. Qed.

(** What is left of [create_chat] once it has found no common chat. *)
Definition create_rest (user : Z) (user_name : bytes) (friend : Z) : prog answer :=
  p_map Status (p_false_on_error (
    DO id <- p_query stmt_create_chat THEN
    DO chat_id <- p_uint64 id THEN
    DO friend_info_req <- p_query (stmt_get_info friend) THEN
    DO name <- tx_first_name friend_info_req THEN
    p_query (stmt_create_chat_connection user chat_id (chat_with ++ name)) >>>
    p_query (stmt_create_chat_connection friend chat_id (chat_with ++ user_name)) >>>
    p_commit >>>
    Ret true)).

(** The rows and the numbers of a chat created in [d]. *)
Definition chat_added (user : Z) (ut : bytes) (friend : Z) (ft : bytes) (d : db) : db :=
  add_rows (with_numbers d (client_seq d, chat_seq d + 1, message_seq d))
    (Rows [] [chat_seq d] [MemberRow user (chat_seq d) ut; MemberRow friend (chat_seq d) ft] [] []).

(** The users are known and both titles are accepted by the database. *)
Record can_create (user : Z) (name : bytes) (friend : Z) (ut ft : bytes) (d : db) : Prop := {
  cc_user : user ∈ client_ids d;
  cc_friend r : r ∈ Client d → c_id r = friend → sql_text (chat_with ++ c_name r) = Some ut;
  cc_known : friend ∈ client_ids d;
  cc_title : sql_text (chat_with ++ name) = Some ft;
  cc_room : chat_seq d ≤ int4_max
}.

(** The first two statements: the chat, and the name of the other. *)
Lemma create_rest_first w p op user name friend ut ft seen :
  stands w p op (create_rest user name friend) no_rows seen → can_create user name friend ut ft (shared w) →
  ∃ fname evs w', schedule evs w = Some w' ∧ sql_text (chat_with ++ fname) = Some ut ∧
    stands w' p op (p_map Status (p_false_on_error (
      p_query (stmt_create_chat_connection user (chat_seq (shared w)) (chat_with ++ fname)) >>>
      p_query (stmt_create_chat_connection friend (chat_seq (shared w)) (chat_with ++ name)) >>>
      p_commit >>> Ret true))) (Rows [] [chat_seq (shared w)] [] [] []) seen ∧
    leaves w w' p (client_seq (shared w), chat_seq (shared w) + 1, message_seq (shared w)).
Proof.
  intros Hst [Hu Hfr Hf Hft Hroom]. pose proof Hst as (_ & _ & Hok).
  pose proof (ok_chat_seq _ Hok) as Hseq. pose proof (user_int4 _ friend Hok Hf) as Hf4.
  apply list_elem_of_fmap in Hf as (r & Hrf & Hr).
  destruct (query_goes w p op _ _ _ _ (chat_seq (shared w)) (Rows [] [chat_seq (shared w)] [] [] [])
    (client_seq (shared w), chat_seq (shared w) + 1, message_seq (shared w)) Hst)
    as (w1 & H1 & Hst1 & Hl1 & Hs1); [unfold seq_le; simpl; lia| |].
  { apply stmt_create_chat_Some. simpl. rewrite !app_nil_r. split_and!; [done|by apply fresh_chat|done|].
    unfold with_numbers, add_rows. simpl. by rewrite !app_nil_r. }
  simpl in Hst1. unfold p_uint64 in Hst1. rewrite (proj2 (Z.ltb_ge _ _)) in Hst1 by lia. simpl in Hst1.
  destruct (query_stays w1 p op _ _ _ _ [(c_name r, c_email r)] (Rows [] [chat_seq (shared w)] [] [] []) Hst1)
    as (w2 & H2 & Hst2 & Hl2 & Hs2).
  { unfold stmt_get_info, select. rewrite int4_ok by lia. simpl. rewrite Hs1. simpl.
    rewrite app_nil_r, (filter_id (shared w) r friend) by done. simpl. by rewrite scan_singleton. }
  simpl in Hst2. exists (c_name r), [Exchange p (numbers_of (shared w)); Exchange p (numbers_of (shared w1))], w2.
  split; [by do 2 (eapply schedule_first; [eassumption|])|]. split; [by apply Hfr|]. split; [exact Hst2|]. split.
  - intros q Hq. by rewrite Hl2, Hl1.
  - by rewrite Hs2, with_own_numbers.
Qed.

(** The two members, the commit and the return. *)
Lemma create_rest_last w p op user friend chat utitle ftitle ut ft seen :
  stands w p op (p_map Status (p_false_on_error (
    p_query (stmt_create_chat_connection user chat utitle) >>>
    p_query (stmt_create_chat_connection friend chat ftitle) >>>
    p_commit >>> Ret true))) (Rows [] [chat] [] [] []) seen →
  user ∈ client_ids (shared w) → friend ∈ client_ids (shared w) → chat ≤ int4_max →
  sql_text utitle = Some ut → sql_text ftitle = Some ft →
  ∃ evs w' seen', schedule evs w = Some w' ∧
    calls w' !! p = Some (Finished op (inr (Status true)) Done seen') ∧
    (∀ q, q ≠ p → calls w' !! q = observe (shared w') <$> calls w !! q) ∧
    shared w' = add_rows (shared w) (Rows [] [chat] [MemberRow user chat ut; MemberRow friend chat ft] [] []).
Proof.
  intros Hst Hu Hf Hc Hut Hft. pose proof Hst as (_ & _ & Hok).
  pose proof (user_int4 _ user Hok Hu). pose proof (user_int4 _ friend Hok Hf).
  destruct (query_stays w p op _ _ _ _ () (Rows [] [chat] [MemberRow user chat ut] [] []) Hst)
    as (w1 & H1 & Hst1 & Hl1 & Hs1).
  { apply stmt_create_chat_connection_Some. exists ut. unfold client_ids, add_rows. simpl.
    rewrite !app_nil_r. split_and!; try done; [lia|]. apply elem_of_snoc. by right. }
  simpl in Hst1. rewrite with_own_numbers in Hs1.
  destruct (query_stays w1 p op _ _ _ _ () (Rows [] [chat] [MemberRow user chat ut; MemberRow friend chat ft] [] []) Hst1)
    as (w2 & H2 & Hst2 & Hl2 & Hs2).
  { apply stmt_create_chat_connection_Some. exists ft. unfold client_ids, add_rows. simpl.
    rewrite Hs1, !app_nil_r, <- app_assoc. split_and!; try done; [lia|]. apply elem_of_snoc. by right. }
  simpl in Hst2. rewrite with_own_numbers, Hs1 in Hs2. destruct Hst2 as (Hp2 & _).
  set (own := Rows [] [chat] [MemberRow user chat ut; MemberRow friend chat ft] [] []) in *.
  set (w3 := commit_rows w2 p op own (Running op (Ret (Status true)) no_rows Done seen)).
  assert (world_step (Exchange p (1, 1, 1)) w2 = Some w3) as H3 by (simpl; unfold exchange; by rewrite Hp2).
  assert (calls w3 !! p = Some (Running op (Ret (Status true)) no_rows Done (seen ++ [shared w3]))) as Hp3.
  { simpl. by rewrite lookup_fmap, set_call_same. }
  exists [Exchange p (numbers_of (shared w)); Exchange p (numbers_of (shared w1)); Exchange p (1, 1, 1); Return p].
  exists (World (shared w3) (set_call w3 p (Finished op (inr (Status true)) Done (seen ++ [shared w3]))) (log w3)).
  exists (seen ++ [shared w3]). split.
  { do 3 (eapply schedule_first; [eassumption|]). cbn. unfold return_call. by rewrite Hp3. }
  split; [apply set_call_same|]. split.
  - intros q Hq. simpl. unfold set_call. rewrite lookup_insert_ne by done. simpl. rewrite lookup_fmap. unfold set_call.
    rewrite lookup_insert_ne by done. by rewrite Hl2, Hl1.
  - simpl. by rewrite Hs2.
Qed.

(** A [create_chat] that found no common chat, to its end. *)
Lemma create_rest_runs w p op user name friend ut ft seen :
  stands w p op (create_rest user name friend) no_rows seen → can_create user name friend ut ft (shared w) →
  ∃ evs w' seen', schedule evs w = Some w' ∧
    calls w' !! p = Some (Finished op (inr (Status true)) Done seen') ∧
    (∀ q, q ≠ p → calls w' !! q = observe (shared w') <$> calls w !! q) ∧
    shared w' = chat_added user ut friend ft (shared w).
Proof.
  intros Hst Hcan.
  destruct (create_rest_first _ _ _ _ _ _ _ _ _ Hst Hcan) as (fname & evs & w1 & Hrun & Hut & Hst1 & Hl & Hs).
  destruct (create_rest_last w1 p op user friend (chat_seq (shared w)) _ _ ut ft seen Hst1)
    as (evs' & w2 & seen' & Hrun' & Hp & Hl' & Hs');
    [rewrite ?Hs; apply Hcan..|done|apply Hcan|].
  exists (evs ++ evs'), w2, seen'. split; [rewrite schedule_app, Hrun; exact Hrun'|].
  split; [done|]. split; [intros q Hq; by rewrite Hl', Hl|]. by rewrite Hs', Hs.
Qed.

(** A [create_chat] up to its check, which finds no common chat. *)
Lemma create_starts w p user name friend :
  calls w !! p = None → (busy w < WORKER_THREADS)%nat → others_idle w p → tables_ok (shared w) →
  user ∈ client_ids (shared w) → friend ∈ client_ids (shared w) → strangers user friend (shared w) →
  ∃ evs w' seen, schedule evs w = Some w' ∧
    stands w' p (CreateChat user name friend) (create_rest user name friend) no_rows seen ∧
    (∀ q, q ≠ p → calls w' !! q = calls w !! q) ∧ shared w' = shared w.
Proof.
  intros Hp Hb Ho Hok Hu Hf Hno.
  set (op := CreateChat user name friend). set (seen := [shared w]).
  set (w1 := World (shared w) (set_call w p (Running op (program op) no_rows Idle seen)) (log w)).
  assert (world_step (Call p op) w = Some w1) as H1 by (simpl; unfold begin_call; by rewrite Hp, decide_True).
  destruct (program op) as [| |k| |] eqn:Hprog; try done.
  set (w2 := World (shared w) (set_call w1 p (Running op (k (inr ())) no_rows Open seen)) (log w)).
  assert (world_step (Exchange p (1, 1, 1)) w1 = Some w2) as H2.
  { simpl. unfold exchange. simpl. by rewrite set_call_same. }
  simpl in Hprog. injection Hprog as Hk.
  assert (stands w2 p op (k (inr ())) no_rows seen) as Hst2.
  { split_and!; [apply set_call_same| |done]. intros q c Hq. simpl. unfold set_call. simpl. unfold set_call.
    rewrite !lookup_insert_ne by done. by apply Ho. }
  rewrite <- Hk in Hst2. simpl in Hst2.
  pose proof (user_int4 _ user Hok Hu). pose proof (user_int4 _ friend Hok Hf).
  destruct (stmt_check_users_have_common_chat user friend (add_rows (shared w2) no_rows)) as [[l|] d0] eqn:Hl.
  2:{ unfold stmt_check_users_have_common_chat, select in Hl. by rewrite !int4_ok in Hl by lia. }
  destruct (common_chat_rows _ _ _ _ _ Hl) as [-> Hnil]. rewrite add_no_rows in Hnil.
  destruct (query_stays w2 p op _ _ _ _ l no_rows Hst2 Hl) as (w3 & H3 & Hst3 & Hl3 & Hs3).
  simpl in Hst3. rewrite bool_decide_eq_true_2 in Hst3 by (by apply Hnil).
  exists [Call p op; Exchange p (1, 1, 1); Exchange p (numbers_of (shared w2))], w3, seen.
  split; [by do 3 (eapply schedule_first; [eassumption|])|]. split; [exact Hst3|]. split.
  - intros q Hq. rewrite Hl3 by done. simpl. unfold set_call. simpl. unfold set_call.
    by rewrite !lookup_insert_ne.
  - by rewrite Hs3, with_own_numbers.
Qed.

(** ** Both calls *)

Lemma strangers_sym user friend d : strangers user friend d → strangers friend user d.
Proof. intros Hs c H1 H2. by apply (Hs c). Qed.

(** Both are under way and have found no common chat. *)
Lemma both_start d u name f name' : tables_ok d →
  u ∈ client_ids d → f ∈ client_ids d → strangers u f d →
  ∃ evs w seen seen', schedule evs (quiet d) = Some w ∧ shared w = d ∧
    stands w 0 (CreateChat u name f) (create_rest u name f) no_rows seen ∧
    stands w 1 (CreateChat f name' u) (create_rest f name' u) no_rows seen' ∧
    (∀ q, q ≠ 0%nat → q ≠ 1%nat → calls w !! q = None).
Proof.
  intros Hok Hu Hf Hno.
  destruct (create_starts (quiet d) 0 u name f) as (evs & w & seen & Hrun & (Hp & Ho & Hok1) & Hq & Hs);
    [done|by vm_compute; lia|by intros q c _|done..|].
  assert (calls w !! 1%nat = None) as Hnone by (by rewrite Hq).
  destruct (create_starts w 1 f name' u) as (evs' & w' & seen' & Hrun' & Hst' & Hq' & Hs');
    [done| |..|].
  { rewrite busy_size. assert (running_calls w ⊆ {[0%nat]}) as Hsub.
    { intros q (c & Hc & _)%elem_of_running. destruct (decide (q = 0%nat)); [set_solver|].
      by rewrite Hq in Hc by done. }
    apply subseteq_size in Hsub. rewrite size_singleton in Hsub. unfold WORKER_THREADS. lia. }
  { intros q c _ Hc. destruct (decide (q = 0%nat)) as [->|]; [|by rewrite Hq in Hc by done].
    rewrite Hp in Hc. by injection Hc as <-. }
  1-4: rewrite Hs; try done. { by apply strangers_sym. }
  exists (evs ++ evs'), w', seen, seen'. split; [by rewrite schedule_app, Hrun|].
  split; [by rewrite Hs', Hs|]. split; [|split; [exact Hst'|]].
  - split_and!; [by rewrite Hq'| |by rewrite Hs', Hs].
    intros q c Hne Hc. destruct (decide (q = 1%nat)) as [->|]; [|by rewrite Hq', Hq in Hc by done].
    destruct Hst' as (H1 & _). rewrite H1 in Hc. by injection Hc as <-.
  - intros q H0 H1. by rewrite Hq', Hq.
Qed.

(** One runs to its end, and the other stands where it stood. *)
Lemma one_ends w u name f name' ut ft seen seen' :
  stands w 0 (CreateChat u name f) (create_rest u name f) no_rows seen →
  stands w 1 (CreateChat f name' u) (create_rest f name' u) no_rows seen' →
  can_create u name f ut ft (shared w) →
  (∀ q, q ≠ 0%nat → q ≠ 1%nat → calls w !! q = None) → (∃ d, world_ok d w) →
  ∃ evs w' seen0 seen1, schedule evs w = Some w' ∧ shared w' = chat_added u ut f ft (shared w) ∧
    calls w' !! 0%nat = Some (Finished (CreateChat u name f) (inr (Status true)) Done seen0) ∧
    stands w' 1 (CreateChat f name' u) (create_rest f name' u) no_rows seen1.
Proof.
  intros Hst (H1 & _) Hcan Hnone [d Hw].
  destruct (create_rest_runs _ _ _ _ _ _ _ _ _ Hst Hcan) as (evs & w' & seen0 & Hrun & Hp & Hq & Hs).
  exists evs, w', seen0. eexists. split; [done|]. split; [done|]. split; [done|]. split_and!.
  - rewrite Hq, H1 by done. reflexivity.
  - intros q c Hne Hc. destruct (decide (q = 0%nat)) as [->|]; [rewrite Hp in Hc; by injection Hc as <-|].
    by rewrite Hq, Hnone in Hc.
  - eapply world_tables, schedule_world_ok; [exact Hw|exact Hrun].
Qed.

(** Both get their chat. *)
Lemma both_create d u name f name' ut ft ut' ft' : tables_ok d → strangers u f d →
  can_create u name f ut ft d → can_create f name' u ut' ft' d → chat_seq d < int4_max →
  ∃ evs w seen seen', schedule evs (quiet d) = Some w ∧
    calls w !! 0%nat = Some (Finished (CreateChat u name f) (inr (Status true)) Done seen) ∧
    calls w !! 1%nat = Some (Finished (CreateChat f name' u) (inr (Status true)) Done seen') ∧
    shared w = chat_added f ut' u ft' (chat_added u ut f ft d).
Proof.
  intros Hok Hno Hcan Hcan' Hroom.
  destruct (both_start d u name f name') as (evs & w & seen & seen' & Hrun & Hs & Hst & Hst' & Hnone);
    [done|apply Hcan|apply Hcan|done|].
  rewrite <- Hs in Hcan. pose proof (schedule_ok _ _ _ Hok Hrun) as Hw.
  destruct (one_ends w u name f name' ut ft seen seen') as (evs1 & w1 & seen0 & seen1 & Hrun1 & Hs1 & Hp0 & Hst1);
    [done..|by exists d|].
  destruct (create_rest_runs w1 1 _ f name' u ut' ft' seen1 Hst1) as (evs2 & w2 & seen2 & Hrun2 & Hp1 & Hq2 & Hs2).
  { rewrite Hs1, Hs. destruct Hcan' as [H1 H2 H3 H4 _]. split; unfold client_ids in *; simpl;
      rewrite ?app_nil_r; [done..|lia]. }
  exists (evs ++ evs1 ++ evs2), w2, seen0, seen2.
  split; [by rewrite schedule_app, Hrun; simpl; rewrite schedule_app, Hrun1|].
  split; [by rewrite Hq2, Hp0|]. split; [done|]. by rewrite Hs2, Hs1, Hs.
Qed.

Lemma chat_added_members u ut f ft d :
  member (chat_added u ut f ft d) u (chat_seq d) ∧ member (chat_added u ut f ft d) f (chat_seq d).
Proof.
  split; [exists (MemberRow u (chat_seq d) ut)|exists (MemberRow f (chat_seq d) ft)];
    (split; [|done]); simpl; rewrite elem_of_app, !elem_of_cons; auto.
Qed.

Lemma chat_added_keeps u ut f ft d v c : member d v c → member (chat_added u ut f ft d) v c.
Proof. intros (r & Hr & H). exists r. split; [|done]. simpl. rewrite elem_of_app. by left. Qed.
End Race.
