(* ===== verification/ConcurrencyTheorems.v ===== *)
(** * The properties of calls side by side

    What sessions can rely on when their transactions interleave, and what
    they cannot, with schedules on the sample database. *)
From stdpp Require Import gmap.
From S2P Require Import Prelude Requests Responses Storage Database Postgres Effects Growth.
From S2P Require Import Invariants Completeness PostgresSpec StorageTheorems.
From S2P Require Import Programs Interleaving Isolation Serial Progress Steps Alone Overlap.
From S2P Require Import Messenger Linearization Overtaking Race.

Section Theorems.
Context `{P : Pqxx} {L : PqxxLaws P}.

(** C17: however the exchanges of concurrent calls interleave and whichever
    connections break, the committed tables stay well formed and are the rows
    the committed calls add one after another, each what its operation adds to
    the tables before it; a write that answered [true] was committed exactly
    once, and one that answered [false] not at all, unless its connection broke
    during the commit.  Every commit comes after its call began, and at its
    place in this order a [create_chat] found no common chat of its two users,
    or else was overtaken: another [create_chat] of the same two was committed
    while it was under way. *)
Theorem commits_are_serial (d : db) (evs : list event) (w : world) :
  tables_ok d → schedule evs (quiet d) = Some w →
  tables_ok (shared w) ∧ grows d (shared w) ∧ serial d (log w) (shared w) ∧
  NoDup ((λ e, e.1.1) <$> log w) ∧
  (∀ p op result ph seen, modifies op → calls w !! p = Some (Finished op result ph seen) →
    logged w p op result ph) ∧
  ∀ evs1 p op evs2 w1 k r, evs = evs1 ++ Call p op :: evs2 → schedule evs1 (quiet d) = Some w1 →
    log w !! k = Some (p, op, r) → (length (log w1) ≤ k)%nat ∧ check_holds d w (length (log w1)) k op.
Proof.
  intros Ht Hr. pose proof (schedule_ok d evs w Ht Hr) as Hw. pose proof Hw as [H1 H2 _ _ H4 [H5 _ _]].
  split_and!; try done; [intros p op result ph seen; by apply finished_logged with d|].
  intros evs1 p op evs2 w1 k r -> Hr1 Hk. pose proof (schedule_ok d evs1 w1 Ht Hr1) as Hw1.
  rewrite schedule_app, Hr1 in Hr. simpl in Hr. pose proof Hr as Hrun. apply bind_Some in Hrun as (w2 & Hst & _).
  apply (later_call_checked d (Call p op :: evs2) w1 w p Hw1 Ht Hr) in Hk; [done|].
  by destruct (begin_call_now _ _ _ _ Hst).
Qed.

(** The rows were those of a state that was committed during the call. *)
Lemma rows_claim_seen {Elt} (wrapped : list Elt → answer → Prop) rows seen ph res :
  (∀ d d', same_tables d d' → rows d' = rows d) →
  rows_claim wrapped rows (states_of seen) ph res →
  ∃ l x, res = inr x ∧ wrapped l x ∧
    ((∃ d', d' ∈ seen ∧ l ≡ₚ rows d') ∨ ph ≠ Done ∧ l = []).
Proof.
  intros Hsame (l & x & Hres & Hx & [(d' & (d0 & Hd0 & Hs) & Hl)|Hl]);
    exists l, x; (split_and!; [done|done|]); [left|by right].
  exists d0. split; [done|]. by rewrite <- (Hsame _ _ Hs).
Qed.

(** A query that was not cut short answers, in some order, the rows of
    one of the committed states during the call, and a login that succeeds
    names a user who had this email and the hash of this password in one. *)
Theorem reads_see_committed_states (d : db) (evs : list event) (w : world) :
  tables_ok d → schedule evs (quiet d) = Some w →
  ∀ p op result ph seen, ¬ modifies op → calls w !! p = Some (Finished op result ph seen) →
  match op, result with
  | GetChats user, inr (Chats resp) =>
      (∃ d', d' ∈ seen ∧ ChatsResponse.chats resp ≡ₚ chat_of_row <$> chat_rows d' user) ∨
      ph ≠ Done ∧ ChatsResponse.chats resp = []
  | GetContacts user, inr (Contacts resp) =>
      (∃ d', d' ∈ seen ∧ ContactsResponse.contacts resp ≡ₚ contact_of_row <$> contact_rows d' user) ∨
      ph ≠ Done ∧ ContactsResponse.contacts resp = []
  | GetMessages chat, inr (Messages resp) =>
      (∃ d', d' ∈ seen ∧ MessagesResponse.messages resp ≡ₚ message_of_row <$> message_rows d' chat) ∨
      ph ≠ Done ∧ MessagesResponse.messages resp = []
  | Login email password, inr (UserFound id name) =>
      ∃ d' e r, d' ∈ seen ∧ quote_text email = Some e ∧ r ∈ Client d' ∧ c_email r = e ∧
        c_password_hash r = SHA256 password ∧ id = c_id r ∧ name = c_name r
  | Login _ _, inl _ => True
  | _, _ => False
  end.
Proof.
  intros Ht Hr p op result ph seen Hop Hp.
  pose proof (world_calls _ _ (schedule_ok d evs w Ht Hr) p _ Hp) as Hpr. simpl in Hpr.
  destruct op; simpl in *; try tauto.
  - destruct result as [e|x]; [done|].
    destruct Hpr as (d' & e & r & (d0 & Hd0 & (Hcl & _)) & He & Hr' & Hre & Hh & ->).
    exists d0, e, r. rewrite Hcl in Hr'. by split_and!.
  - apply rows_claim_seen in Hpr as (l & x & -> & (resp & -> & <-) & Hl); [done|].
    intros d1 d2 Hs. by rewrite (chat_rows_same d1 d2).
  - apply rows_claim_seen in Hpr as (l & x & -> & (resp & -> & <-) & Hl); [done|].
    intros d1 d2 Hs. by rewrite (contact_rows_same d1 d2).
  - apply rows_claim_seen in Hpr as (l & x & -> & (resp & -> & <-) & Hl); [done|].
    intros d1 d2 Hs. by rewrite (message_rows_same d1 d2).
Qed.

(** C22: a call that has the database to itself, exchange by exchange, is the
    operation of [Postgres.v] on a connection: under every fault schedule it
    comes to the same result and the same tables. *)
Theorem alone_is_atomic (op : storage_op) (c : conn) :
  tables_ok (tables c) →
  ∃ w0 evs w1 w' ph seen,
    world_step (Call 0 op) (quiet (tables c)) = Some w0 ∧
    Forall (exchanges 0) evs ∧ schedule evs w0 = Some w1 ∧ world_step (Return 0) w1 = Some w' ∧
    calls w' !! 0%nat = Some (Finished op (perform op c).1 ph seen) ∧
    shared w' = tables (perform op c).2.
Proof.
  intros Ht. destruct (call_alone (tables c) (quiet (tables c)) 0 op c) as (w0 & w' & Hw0 & He).
  - by apply quiet_ok.
  - intros q (x & Hx & _). simpl in Hx. by apply lookup_empty_Some in Hx.
  - done.
  - done.
  - destruct He as ((ph & seen & Hp) & Hd & _ & evs & w1 & Hall & Hrun & Hret).
    exists w0, evs, w1, w', ph, seen. by split_and!.
Qed.

(** No call runs forever or is stuck: each takes at most eight steps in
    any schedule, and as long as one is under way some call can take a step,
    even if two wait for each other. *)
Theorem calls_return (d : db) (evs : list event) (w : world) :
  tables_ok d → schedule evs (quiet d) = Some w →
  (∀ p, (moves p evs ≤ 8)%nat) ∧ (busy w ≠ 0%nat → can_go_on w).
Proof.
  intros Ht Hrun. pose proof (schedule_evolves _ _ _ Hrun) as Hr.
  split.
  - intros p. by eapply may_move_moves.
  - rewrite busy_size. intros Hb.
    destruct (set_choose_or_empty (running_calls w)) as [[p Hp]|He].
    + apply (running_goes_on d w p); [by apply evolves_ok|by eapply busy_reachable|].
      by apply elem_of_running.
    + rewrite He, size_empty in Hb. done.
Qed.

(** C23: as long as no two [create_chat] calls overlap, whatever else runs at
    the same time, two users share at most one chat. *)
Theorem one_chat_if_apart (d : db) (evs : list event) (w : world) :
  db_ok d → schedule_apart evs (quiet d) = Some w → db_ok (shared w).
Proof.
  intros Hd Hrun. destruct (members_kept_schedule d evs w Hd Hrun) as [Hw Hk].
  split; [apply Hw|apply Hk].
Qed.
(** C37: any two users who have no chat and open one with each other at the
    same time can get two: from every consistent database, as long as the
    titles are accepted and two numbers for chats are left, there is a schedule
    without a fault in which both calls answer [true] and afterwards two
    different chats have both as members. *)
Theorem parallel_create_chat_race (d : db) (u f : Z) (name name' : bytes) :
  db_ok d → u ∈ client_ids d → f ∈ client_ids d → u ≠ f → strangers u f d →
  plain_text (chat_with ++ name) → plain_text (chat_with ++ name') →
  (∀ r, r ∈ Client d → plain_text (chat_with ++ c_name r)) → chat_seq d < int4_max →
  ∃ evs w seen seen', schedule evs (quiet d) = Some w ∧
    calls w !! 0%nat = Some (Finished (CreateChat u name f) (inr (Status true)) Done seen) ∧
    calls w !! 1%nat = Some (Finished (CreateChat f name' u) (inr (Status true)) Done seen') ∧
    (∃ c c', c ≠ c' ∧ member (shared w) u c ∧ member (shared w) f c ∧
       member (shared w) u c' ∧ member (shared w) f c') ∧
    ¬ one_chat (shared w).
Proof.
  intros [Hok _] Hu Hf Huf Hno Hn Hn' Hall Hroom.
  pose proof Hu as (ru & -> & Hru)%list_elem_of_fmap. pose proof Hf as (rf & -> & Hrf)%list_elem_of_fmap.
  assert (∀ r r', r ∈ Client d → r' ∈ Client d → c_id r = c_id r' →
    sql_text (chat_with ++ c_name r) = Some (chat_with ++ c_name r')) as Htitle.
  { intros r r' Hr Hr' Hid. rewrite (id_unique d r r') by done. by apply sql_text_plain, Hall. }
  destruct (both_create d (c_id ru) name (c_id rf) name' (chat_with ++ c_name rf) (chat_with ++ name)
    (chat_with ++ c_name ru) (chat_with ++ name')) as (evs & w & seen & seen' & Hrun & H0 & H1 & Hw);
    [done|done|split; auto using sql_text_plain; eauto using sql_text_plain; try lia|split; eauto using sql_text_plain; try lia|done|].
  exists evs, w, seen, seen'. split; [done|]. split; [done|]. split; [done|].
  set (d1 := chat_added (c_id ru) (chat_with ++ c_name rf) (c_id rf) (chat_with ++ name) d) in *.
  destruct (chat_added_members (c_id ru) (chat_with ++ c_name rf) (c_id rf) (chat_with ++ name) d) as [Hm1 Hm2].
  destruct (chat_added_members (c_id rf) (chat_with ++ c_name ru) (c_id ru) (chat_with ++ name') d1) as [Hm3 Hm4].
  assert (chat_seq d ≠ chat_seq d1) as Hne by (simpl; lia). rewrite Hw.
  split; [exists (chat_seq d), (chat_seq d1); by split_and!; auto using chat_added_keeps|].
  intros Hone. apply Hne, (Hone (c_id ru) (c_id rf)); auto using chat_added_keeps.
Qed.
End Theorems.

(** ** Two users who open a chat with each other at the same time *)

Section Races.
#[local] Existing Instance plain_pqxx.
#[local] Existing Instance plain_pqxx_laws.

(** Users 1 and 3 of the sample have no chat.  Both calls look for one before
    either creates it. *)
Definition chat_race : list event :=
  [Call 0 (CreateChat 1 [Byte.x61] 3); Call 1 (CreateChat 3 [Byte.x63] 1);
   Exchange 0 (4, 2, 2); Exchange 1 (4, 2, 2);      (* begin *)
   Exchange 0 (4, 2, 2); Exchange 1 (4, 2, 2);      (* no common chat *)
   Exchange 0 (4, 2, 2); Exchange 1 (4, 3, 2);      (* a new chat *)
   Exchange 0 (4, 2, 2); Exchange 1 (4, 2, 2);      (* the other's name *)
   Exchange 0 (4, 2, 2); Exchange 1 (4, 2, 2);      (* first member *)
   Exchange 0 (4, 2, 2); Exchange 1 (4, 2, 2);      (* second member *)
   Exchange 0 (4, 2, 2); Exchange 1 (4, 2, 2);      (* commit *)
   Return 0; Return 1].

Definition result_of (w : world) (p : nat) : option (exn + answer) :=
  match calls w !! p with Some (Finished _ result _ _) => Some result | _ => None end.

Definition world_after (evs : list event) : world :=
  default (quiet sample_db) (schedule evs (quiet sample_db)).

Lemma sample_schedule evs : is_Some (schedule evs (quiet sample_db)) →
  schedule evs (quiet sample_db) = Some (world_after evs).
Proof. unfold world_after. by intros [w ->]. Qed.

Lemma sample_runs evs : (if schedule evs (quiet sample_db) then true else false) = true →
  schedule evs (quiet sample_db) = Some (world_after evs).
Proof. intros Hr. apply sample_schedule. by destruct (schedule evs (quiet sample_db)). Qed.

Lemma sample_strangers : strangers 1 3 sample_db.
Proof.
  intros c (r & Hr & _ & _) (r' & Hr' & H & _). simpl in Hr'.
  apply elem_of_cons in Hr' as [-> |Hr']; [done|]. apply elem_of_cons in Hr' as [-> |Hr']; [done|].
  by apply elem_of_nil in Hr'.
Defined.

(** Users 1 and 3 of the sample, and one such schedule, step by step. *)
Lemma parallel_create_chat_race_witness :
  (∃ evs w seen seen', schedule evs (quiet sample_db) = Some w ∧
    calls w !! 0%nat = Some (Finished (CreateChat 1 [Byte.x61] 3) (inr (Status true)) Done seen) ∧
    calls w !! 1%nat = Some (Finished (CreateChat 3 [Byte.x63] 1) (inr (Status true)) Done seen') ∧
    ¬ one_chat (shared w)) ∧
  result_of (world_after chat_race) 0 = Some (inr (Status true)) ∧
  result_of (world_after chat_race) 1 = Some (inr (Status true)) ∧
  Chat (shared (world_after chat_race)) = [1; 2; 3].
Proof.
  split; [|split_and!; by vm_compute].
  destruct (parallel_create_chat_race sample_db 1 3 [Byte.x61] [Byte.x63])
    as (evs & w & seen & seen' & Hrun & H0 & H1 & _ & Hone);
    [exact sample_db_ok|by apply (bool_decide_unpack _)|by apply (bool_decide_unpack _)|done
    |exact sample_strangers|apply chat_with_plain; set_solver|apply chat_with_plain; set_solver| |done|by exists evs, w, seen, seen'].
  intros r Hr. simpl in Hr. enumerate; subst; apply chat_with_plain; set_solver.
Defined.

(** *** Two users who add each other at the same time *)

Definition contact_race : list event :=
  [Call 0 (AddContact 1 [Byte.x43]); Call 1 (AddContact 3 [Byte.x41]);
   Exchange 0 (1, 1, 1); Exchange 1 (1, 1, 1);      (* begin *)
   Exchange 0 (1, 1, 1); Exchange 1 (1, 1, 1);      (* the other's identifier *)
   Exchange 0 (1, 1, 1); Exchange 1 (1, 1, 1)].     (* first direction *)

(** Each waits for the row of the other; one is rejected and both are
    contacts. *)
Definition contact_race_end : list event :=
  contact_race ++ [Deadlock 0 1; Return 0; Exchange 1 (1, 1, 1); Exchange 1 (1, 1, 1); Return 1].

Lemma calls_return_witness :
  busy (world_after contact_race) = 2%nat ∧
  waits_for (world_after contact_race) 0 1 = true ∧
  waits_for (world_after contact_race) 1 0 = true ∧
  can_go_on (world_after contact_race) ∧
  result_of (world_after contact_race_end) 0 = Some (inr (Status false)) ∧
  result_of (world_after contact_race_end) 1 = Some (inr (Status true)).
Proof.
  split; [by vm_compute|]. split; [by vm_compute|]. split; [by vm_compute|].
  split; [|split; by vm_compute].
  apply (calls_return sample_db contact_race); [exact (ok_tables _ sample_db_ok)| |].
  - apply sample_schedule. vm_compute. eauto.
  - by vm_compute.
Defined.

(** The two calls of [chat_race]: the second was overtaken by the first. *)
Lemma commits_are_serial_witness :
  serial sample_db (log (world_after contact_race_end)) (shared (world_after contact_race_end)) ∧
  ClientToContact (shared (world_after contact_race_end)) =
    [ContactRow 1 2; ContactRow 2 1; ContactRow 3 1; ContactRow 1 3] ∧
  check_holds sample_db (world_after chat_race) 0 1 (CreateChat 3 [Byte.x63] 1) ∧
  ¬ strangers 3 1 (tables_at sample_db (world_after chat_race) 1).
Proof.
  split; [|split; [by vm_compute|split]].
  - apply (commits_are_serial sample_db contact_race_end); [exact (ok_tables _ sample_db_ok)|].
    apply sample_schedule. vm_compute. eauto.
  - destruct (commits_are_serial sample_db chat_race (world_after chat_race) (ok_tables _ sample_db_ok))
      as (_ & _ & _ & _ & _ & Hk); [apply sample_schedule; vm_compute; eauto|].
    assert (length (log (world_after (take 1 chat_race))) = 0%nat) as Hlog by (by vm_compute).
    assert (∃ r, log (world_after chat_race) !! 1%nat = Some (1%nat, CreateChat 3 [Byte.x63] 1, r)) as [r Hr].
    { eexists. vm_compute. reflexivity. }
    assert (schedule (take 1 chat_race) (quiet sample_db) = Some (world_after (take 1 chat_race))) as Hr1.
    { apply sample_runs. by vm_compute. }
    destruct (Hk (take 1 chat_race) 1%nat _ (drop 2 chat_race) _ _ _ eq_refl Hr1 Hr) as [_ Hc].
    rewrite Hlog in Hc. exact Hc.
  - intros Hs. apply (Hs 2); eapply bool_decide_eq_true_1; by vm_compute.
Defined.

(** A query that reads before a chat is committed and returns after it. *)
Definition read_race : list event :=
  [Call 0 (GetChats 3); Call 1 (CreateChat 1 [Byte.x61] 3);
   Exchange 0 (1, 1, 1); Exchange 0 (1, 1, 1);
   Exchange 1 (4, 2, 2); Exchange 1 (4, 2, 2); Exchange 1 (4, 2, 2); Exchange 1 (4, 2, 2);
   Exchange 1 (4, 2, 2); Exchange 1 (4, 2, 2); Exchange 1 (4, 2, 2);
   Exchange 0 (1, 1, 1); Return 0; Return 1].

Lemma reads_see_committed_states_witness :
  ∃ resp seen, calls (world_after read_race) !! 0%nat =
      Some (Finished (GetChats 3) (inr (Chats resp)) Done seen) ∧
    length seen = 3%nat ∧ ChatsResponse.chats resp = [] ∧
    ((∃ d', d' ∈ seen ∧ ChatsResponse.chats resp ≡ₚ chat_of_row <$> chat_rows d' 3) ∨
     Done ≠ Done ∧ ChatsResponse.chats resp = []).
Proof.
  do 2 eexists. split; [by vm_compute|]. split; [done|]. split; [done|].
  refine (reads_see_committed_states sample_db read_race (world_after read_race)
    (ok_tables _ sample_db_ok) _ 0%nat (GetChats 3) (inr (Chats _)) Done _ (λ x, x) _).
  - apply sample_schedule. vm_compute. eauto.
  - by vm_compute.
Defined.

Lemma one_chat_if_apart_witness :
  ∃ w, schedule_apart read_race (quiet sample_db) = Some w ∧ db_ok (shared w) ∧
       Chat (shared w) = [1; 2].
Proof.
  destruct (schedule_apart read_race (quiet sample_db)) as [w|] eqn:Hrun.
  - exists w. split; [done|]. split.
    + exact (one_chat_if_apart sample_db read_race w sample_db_ok Hrun).
    + revert Hrun. vm_compute. intros [= <-]. done.
  - revert Hrun. by vm_compute.
Defined.

(** A contact that is added although the connection breaks at the commit. *)
Lemma alone_is_atomic_witness :
  (perform (AddContact 1 [Byte.x43]) doubtful).1 = inr (Status false) ∧
  ∃ w' ph seen, calls w' !! 0%nat = Some (Finished (AddContact 1 [Byte.x43]) (inr (Status false)) ph seen) ∧
    shared w' = sample_after_contact.
Proof.
  split; [reflexivity|].
  destruct (alone_is_atomic (AddContact 1 [Byte.x43]) doubtful (ok_tables _ sample_db_ok))
    as (w0 & evs & w1 & w' & ph & seen & _ & _ & _ & _ & Hp & Hd).
  exists w', ph, seen. split; [exact Hp|exact Hd].
Defined.
End Races.
