(* ===== verification/MessengerTheorems.v ===== *)
(** * The properties of the messenger

    What the users of concurrent sessions see, said of users, friends, chats
    and posts, with schedules on the sample database. *)
From stdpp Require Import gmap.
From S2P Require Import Prelude Requests Responses Storage Database Postgres Effects Growth.
From S2P Require Import Invariants Completeness PostgresSpec StorageTheorems.
From S2P Require Import Programs Interleaving Isolation Serial Progress Steps Messenger Linearization.
From S2P Require Import ConcurrencyTheorems.

Section Theorems.
Context `{P : Pqxx} {L : PqxxLaws P}.

(** C8: concurrent calls on the storage are linearizable: the commits of any
    schedule are actions of the messenger, one after another from the first
    database to the last, and every call that has returned took effect at one
    moment between the step that began it and its return: its action is
    there, or its answer is a view of it; or it had no effect and answered
    [false], or was refused. *)
Theorem calls_are_linearizable (d : db) (evs : list event) (w : world) :
  tables_ok d → schedule evs (quiet d) = Some w →
  moment d w 0 = messenger_of d ∧ moment d w (length (log w)) = messenger_of (shared w) ∧
  (∀ k p op r, log w !! k = Some (p, op, r) → enacts op (moment d w k) (moment d w (S k))) ∧
  ∀ evs1 p op evs2 evs3, evs = evs1 ++ (Call p op :: evs2 ++ [Return p]) ++ evs3 →
  ∃ w1 w2 result ph seen k, schedule evs1 (quiet d) = Some w1 ∧
    schedule (Call p op :: evs2 ++ [Return p]) w1 = Some w2 ∧
    calls w !! p = Some (Finished op result ph seen) ∧
    (length (log w1) ≤ k ≤ length (log w2))%nat ∧ takes_effect d w p op result ph k.
Proof.
  intros Hd Hrun. pose proof (schedule_ok _ _ _ Hd Hrun) as Hw.
  split; [done|]. split; [by apply moment_last|]. split.
  { intros k p op r. by apply logged_enacts. }
  intros evs1 p op evs2 evs3 ->. rewrite schedule_app in Hrun.
  apply bind_Some in Hrun as (w1 & H1 & Hrest). rewrite schedule_app in Hrest.
  apply bind_Some in Hrest as (w2 & H2 & H3).
  pose proof (schedule_ok _ _ _ Hd H1) as Hw1.
  destruct (call_returned _ _ _ _ _ H2) as (Hnone & result & ph & seen & Hp).
  destruct (call_takes_effect d _ w1 w2 p op result ph seen Hd Hw1 H2) as (k & Hk & He); try done.
  destruct (next_call _ _ (schedule_next _ _ _ H3) p _ Hp) as (c & Hp' & _ & Hc).
  rewrite (Hc id) in Hp'. exists w1, w2, result, ph, seen, k. split_and!; try done; try lia.
  eapply (takes_effect_later d w2); try done; [by eapply schedule_world_ok|by eapply schedule_log|lia].
Qed.
End Theorems.

Section Witnesses.
#[local] Existing Instance plain_pqxx.
#[local] Existing Instance plain_pqxx_laws.

Definition outcome_of (w : world) (p : nat) : option ((exn + answer) * phase) :=
  match calls w !! p with Some (Finished _ result ph _) => Some (result, ph) | _ => None end.

(** The query of user 3 for his chats overlaps the creation of one. *)
Lemma calls_are_linearizable_witness :
  let w := world_after read_race in
  enacts (CreateChat 1 [Byte.x61] 3) (moment sample_db w 0) (moment sample_db w 1) ∧
  moment sample_db w 2 = messenger_of (shared w) ∧
  chats_view (moment sample_db w 0) 3 = [] ∧ length (chats_view (moment sample_db w 1) 3) = 1%nat ∧
  ∃ resp seen k, calls w !! 0%nat = Some (Finished (GetChats 3) (inr (Chats resp)) Done seen) ∧
    (0 ≤ k ≤ 2)%nat ∧ takes_effect sample_db w 0 (GetChats 3) (inr (Chats resp)) Done k.
Proof.
  assert (schedule read_race (quiet sample_db) = Some (world_after read_race)) as Hrun.
  { apply sample_schedule. vm_compute. eauto. }
  destruct (calls_are_linearizable sample_db read_race _ (ok_tables _ sample_db_ok) Hrun)
    as (_ & H1 & H2 & H3). split_and!.
  - eapply (H2 0%nat 1%nat). by vm_compute.
  - exact H1.
  - by vm_compute.
  - by vm_compute.
  - destruct (H3 [] 0%nat (GetChats 3) (take 11 (drop 1 read_race)) [Return 1] eq_refl)
      as (w1 & w2 & result & ph & seen & k & Hw1 & Hw2 & Hp & Hk & He).
    simpl in Hw1. injection Hw1 as <-.
    assert (length (log w2) = 2%nat) as Hl.
    { match type of Hw2 with ?x = _ => assert ((length ∘ log <$> x) = Some 2%nat) as Hc end;
        [by vm_compute|]. rewrite Hw2 in Hc. by injection Hc. }
    assert (outcome_of (world_after read_race) 0 = Some (inr (Chats (ChatsResponse.Build [])), Done))
      as Ho by by vm_compute.
    unfold outcome_of in Ho. rewrite Hp in Ho. injection Ho as -> ->.
    eexists _, seen, k. split_and!; [exact Hp|lia..|exact He].
Defined.
End Witnesses.
