(* ===== verification/Connection.v ===== *)
(** * Connections to PostgreSQL

    [LazyConnectionImpl] of [server/src/storage/pimpl], the constructor of
    [PostgresStorageConnection], which prepares the statements, the factory
    ([server/src/storage/postgresql_storage.*]) and which statements the
    operations call with how many parameters. *)
From stdpp Require Import gmap strings.
From Stdlib Require Import Ascii.
From S2P Require Import Prelude Requests Programs.
#[local] Open Scope string_scope.

(** [pqxx::lazyconnection]: it connects at its first use; until then it has
    its options and the statements prepared. *)
Record lazyconnection := MkLazyConnection {
  options : string;
  prepared : gmap string string
}.

(** [LazyConnectionImpl::LazyConnectionImpl] *)
Definition LazyConnectionImpl (user_name dbname : string) : lazyconnection :=
  MkLazyConnection ("dbname=" +:+ dbname +:+ " user=" +:+ user_name) ∅.

(** [prepare(name, definition)]; a second definition of a name throws. *)
Definition prepare (name definition : string) (c : lazyconnection) : option lazyconnection :=
  match prepared c !! name with
  | Some d => if decide (d = definition) then Some c else None
  | None => Some (MkLazyConnection (options c) (<[name := definition]> (prepared c)))
  end.

(** The statements of the constructor, in order. *)
Definition statements : list (string * string) := [
  ("registration",
   "INSERT INTO Client (name, email, password_hash) " +:+
   "VALUES ( $1, $2, $3 )");
  ("send_message",
   "INSERT INTO Message(sender_id, chat_id, mesg) " +:+
   "VALUES ( $1, $2, $3 ) ");
  ("add_contact",
   "INSERT INTO ClientToContact(client_id, friend_id) " +:+
   "VALUES ( $1, $2 ) ");
  ("get_user_by_email",
   "SELECT id, name FROM Client WHERE email = $1 ");
  ("get_info",
   "SELECT name, email FROM Client WHERE id = $1 ");
  ("get_contacts",
   "WITH Contacts(id) AS ( " +:+
   "  SELECT friend_id FROM ClientToContact WHERE client_id = $1 " +:+
   ") " +:+
   "SELECT Client.id, Client.name, Client.email " +:+
   "FROM Client, Contacts " +:+
   "WHERE Client.id = Contacts.id ");
  ("get_messages",
   "SELECT sender_id, mesg FROM Message WHERE chat_id = $1 ");
  ("get_chats",
   "SELECT chat_id, title FROM ClientToChat WHERE client_id = $1 ");
  ("check_sender_able_to_write_to_chat",
   "SELECT 1 FROM ClientToChat " +:+
   "WHERE client_id = $1 AND chat_id = $2 ");
  ("check_users_have_common_chat",
   "WITH " +:+
   " MyChats(chat_id) AS ( " +:+
   "   SELECT chat_id from ClientToChat WHERE client_id = $1), " +:+
   " FriendChat AS ( " +:+
   "   SELECT chat_id from ClientToChat WHERE client_id = $2) " +:+
   "SELECT 1 " +:+
   "FROM MyChats, FriendChat " +:+
   "WHERE MyChats.chat_id = FriendChat.chat_id ");
  ("create_chat",
   "INSERT INTO Chat DEFAULT VALUES RETURNING id ");
  ("create_chat_connection",
   "INSERT INTO ClientToChat(client_id, chat_id, title) " +:+
   "VALUES( $1, $2, $3 ) ")
].

Fixpoint prepare_all (l : list (string * string)) (c : lazyconnection) : option lazyconnection :=
  match l with
  | [] => Some c
  | (name, definition) :: l =>
      match prepare name definition c with Some c => prepare_all l c | None => None end
  end.

(** [PostgresStorageConnection::PostgresStorageConnection] *)
Definition PostgresStorageConnection (user_name dbname : string) : option lazyconnection :=
  prepare_all statements (LazyConnectionImpl user_name dbname).

(** [PostgresStorageFactory] with its default arguments. *)
Record PostgresStorageFactory := MkFactory { user_name_ : string; db_name_ : string }.

Definition default_factory : PostgresStorageFactory := MkFactory "avallon" "postgres".

Definition create_connection (f : PostgresStorageFactory) : option lazyconnection :=
  PostgresStorageConnection (user_name_ f) (db_name_ f).

(** The statements an operation calls by name, with the number of parameters
    it gives; [login] executes a text of its own. *)
Definition calls_prepared (op : storage_op) : list (string * nat) :=
  match op with
  | Registration _ _ _ => [("registration", 3%nat)]
  | Login _ _ => []
  | SendMessage _ _ => [("check_sender_able_to_write_to_chat", 2%nat); ("send_message", 3%nat)]
  | AddContact _ _ => [("get_user_by_email", 1%nat); ("add_contact", 2%nat); ("add_contact", 2%nat)]
  | CreateChat _ _ _ =>
      [("check_users_have_common_chat", 2%nat); ("create_chat", 0%nat); ("get_info", 1%nat);
       ("create_chat_connection", 3%nat); ("create_chat_connection", 3%nat)]
  | GetChats _ => [("get_chats", 1%nat)]
  | GetContacts _ => [("get_contacts", 1%nat)]
  | GetMessages _ => [("get_messages", 1%nat)]
  end.

(** The parameters [$1] to [$9] of a text. *)
Fixpoint parameters (text : string) : list nat :=
  match text with
  | String "$"%char ((String d _) as rest) =>
      let n := (Ascii.nat_of_ascii d - Ascii.nat_of_ascii "0"%char)%nat in
      if ((1 <=? n) && (n <=? 9))%nat then n :: parameters rest else parameters rest
  | String _ rest => parameters rest
  | EmptyString => []
  end.

(** A text takes [n] parameters: it names those from 1 to [n] and no other. *)
Definition takes (text : string) (n : nat) : bool :=
  forallb (λ i, existsb (Nat.eqb i) (parameters text)) (seq 1 n) &&
  forallb (λ i, (i <=? n)%nat) (parameters text).
