(* ===== verification/Session.v ===== *)
(** * Server sessions

    [ClientState] and [ClientSession] of [server/src/server/session.*]: the
    reader and writer of one connection.  A member function returns the
    session it leaves and what it asked the event loop for, in order. *)
From S2P Require Import Prelude Wire Parser Message Requests Responses Envelope.

(** Profile of a logged-in client. *)
Record ClientState := MkClientState { user_id_ : Z; user_name_ : bytes; email_ : bytes }.

Definition user_id (st : ClientState) : Z := user_id_ st.
Definition user_name (st : ClientState) : bytes := user_name_ st.
Definition email (st : ClientState) : bytes := email_ st.

Record ClientSession := MkClientSession {
  stopped_ : bool;
  state_ : option ClientState;
  read_buffer_ : bytes
}.

(** Jobs: function objects with the request they carry. *)
Inductive job : Type :=
| ParseCommandJob
| RegisterRequestJob (mesg : RegisterRequest.t)
| LoginRequestJob (mesg : LoginRequest.t)
| ChatsRequestJob
| ContactsRequestJob
| MessagesRequestJob (mesg : MessagesRequest.t)
| SendMesgRequestJob (mesg : SendMessageRequest.t)
| AddContactRequestJob (mesg : AddContactRequest.t)
| CreateChatRequestJob (mesg : CreateChatRequest.t).

(** What a session starts: reads into and a write of its buffer, jobs for the
    pool, the closing of its socket; or the exception it lets out. *)
Inductive action : Type :=
| AsyncReadPrefix
| AsyncReadMessage (mesg_size : Z)
| AsyncWrite (data : bytes)
| Post (j : job)
| SockClose
| Throw.

Definition PREFIX_SIZE : Z := 8 + 1.

(** [std::vector<uint8_t>::max_size()]. *)
Definition vector_max_size : Z := 2 ^ 63 - 1.

(** Whether the process can get a block of this size. *)
Class Memory : Type := { can_allocate : Z → bool }.

Section Session.
Context `{W : WireFormat} `{Mem : Memory}.

(** The constructor. *)
Definition new_session : ClientSession := MkClientSession true None [].

Definition set_stopped (b : bool) (s : ClientSession) : ClientSession :=
  MkClientSession b (state_ s) (read_buffer_ s).
Definition set_buffer (b : bytes) (s : ClientSession) : ClientSession :=
  MkClientSession (stopped_ s) (state_ s) b.

(** [read_buffer_.resize(n)]; [None]: it throws [length_error] or
    [bad_alloc]. *)
Definition resize (n : Z) (s : ClientSession) : option ClientSession :=
  if (n <=? vector_max_size) && can_allocate n
  then Some (set_buffer (vec_resize (Z.to_nat n) (read_buffer_ s)) s)
  else None.

Definition get_buffer (s : ClientSession) : bytes := read_buffer_ s.

Definition set_state (new_state : ClientState) (s : ClientSession) : ClientSession :=
  MkClientSession (stopped_ s) (Some new_state) (read_buffer_ s).

Definition logged_in (s : ClientSession) : bool :=
  match state_ s with Some _ => true | None => false end.

(** [state()]; the callers have checked [logged_in()]. *)
Definition state (s : ClientSession) : option ClientState := state_ s.

Definition stop (s : ClientSession) : ClientSession * list action :=
  if stopped_ s then (s, []) else (set_stopped true s, [SockClose]).

Definition do_async_read_prefix (s : ClientSession) : ClientSession * list action :=
  if stopped_ s then (s, []) else
  match resize PREFIX_SIZE s with
  | Some s => (s, [AsyncReadPrefix])
  | None => (s, [Throw])
  end.

Definition start (s : ClientSession) : ClientSession * list action :=
  do_async_read_prefix (set_stopped false s).

Definition do_async_read_message (mesg_size : Z) (s : ClientSession) : ClientSession * list action :=
  if stopped_ s then (s, []) else
  match resize mesg_size s with
  | Some s => (s, [AsyncReadMessage mesg_size])
  | None => (s, [Throw])
  end.

Definition on_read_prefix (err : bool) (bytes : Z) (s : ClientSession) : ClientSession * list action :=
  let '(s, out) := if err then stop s else (s, []) in
  if stopped_ s then (s, out) else
  if bytes =? PREFIX_SIZE then
    match ParseFromArray LengthPrefix.MergePartialFromCodedStream LengthPrefix.SharedCtor
            (read_buffer_ s) (to_signed 32 bytes) with
    | Some prefix => do_async_read_message (LengthPrefix.length prefix) s
    | None => stop s
    end
  else stop s.

Definition on_read_message (err : bool) (readed_bytes mesg_size : Z) (s : ClientSession)
    : ClientSession * list action :=
  let '(s, out) := if err then stop s else (s, []) in
  if stopped_ s then (s, out) else
  if readed_bytes =? mesg_size then (s, [Post ParseCommandJob]) else stop s.

Definition on_write (err : bool) (s : ClientSession) : ClientSession * list action :=
  let '(s, out) := if err then stop s else (s, []) in
  if stopped_ s then (s, out) else do_async_read_prefix s.

Definition do_async_write (mesg : WrappedMessage.t) (s : ClientSession)
    : ClientSession * list action :=
  if stopped_ s then (s, []) else
  let size := WrappedMessage.ByteSize mesg in
  match resize (to_unsigned 64 (size + PREFIX_SIZE)) s with
  | Some s =>
    let length_prefix := LengthPrefix.set_length LengthPrefix.SharedCtor (to_unsigned 64 size) in
    let buf := SerializeToArray LengthPrefix.ByteSize
                 LengthPrefix.InternalSerializeWithCachedSizesToArray length_prefix
                 0 PREFIX_SIZE (read_buffer_ s) in
    let buf := SerializeToArray WrappedMessage.ByteSize
                 WrappedMessage.InternalSerializeWithCachedSizesToArray mesg
                 (Z.to_nat PREFIX_SIZE) size buf in
    (set_buffer buf s, [AsyncWrite buf])
  | None => (s, [Throw])
  end.

Definition write (mesg : WrappedMessage.t) (s : ClientSession) : ClientSession * list action :=
  do_async_write mesg s.
End Session.
