(* ===== verification/Jobs.v ===== *)
(** * Jobs of the server

    The function objects of [server/src/jobs/jobs.cpp], over any storage: the
    parser of a received packet, which posts the job of the request it holds,
    and the eight request jobs, each of which calls the storage and writes one
    response. *)
From S2P Require Import Prelude Wire Parser Message Requests Responses Envelope Storage Session.

Section Jobs.
Context `{W : WireFormat} `{Mem : Memory} {S : Type} `{DB : AbstractStorageConnection S}.

(** The job of a request: the first of the eight members it has. *)
Definition request_job (request : Request.t) : option job :=
  match fst (Request.release_register_request request) with
  | Some m => Some (RegisterRequestJob m)
  | None =>
  match fst (Request.release_login_request request) with
  | Some m => Some (LoginRequestJob m)
  | None =>
  if Request.has_chats_request request then Some ChatsRequestJob else
  if Request.has_contacts_request request then Some ContactsRequestJob else
  match fst (Request.release_messages_request request) with
  | Some m => Some (MessagesRequestJob m)
  | None =>
  match fst (Request.release_send_mesg_request request) with
  | Some m => Some (SendMesgRequestJob m)
  | None =>
  match fst (Request.release_add_contact_request request) with
  | Some m => Some (AddContactRequestJob m)
  | None =>
  match fst (Request.release_create_chat_request request) with
  | Some m => Some (CreateChatRequestJob m)
  | None => None
  end end end end end end.

(** [ParseCommandJob::operator()] *)
Definition parse_command (session : ClientSession) : ClientSession * list action :=
  let data := get_buffer session in
  match ParseFromArray WrappedMessage.MergePartialFromCodedStream WrappedMessage.SharedCtor
          data (to_signed 32 (zlen data)) with
  | Some message =>
    if WrappedMessage.has_request message then
      match fst (WrappedMessage.release_request message) with
      | Some request =>
        match request_job request with
        | Some j => (session, [Post j])
        | None => stop session
        end
      | None => stop session
      end
    else stop session
  | None => stop session
  end.

(** A response that holds one message, or none. *)
Definition status_response (accepted : bool) : Response.t :=
  Response.set_allocated_status_response Response.SharedCtor
    (Some (StatusResponse.set_result StatusResponse.SharedCtor
       (if accepted then StatusResponse_RESULT_ACCEPTED else StatusResponse_RESULT_REJECTED))).

Definition wrap (response : Response.t) : WrappedMessage.t :=
  WrappedMessage.set_allocated_response WrappedMessage.SharedCtor (Some response).

Definition empty_response : WrappedMessage.t := wrap Response.SharedCtor.

(** [RegisterRequestJob::operator()] *)
Definition run_register (mesg : RegisterRequest.t) (session : ClientSession) (db : S)
    : ClientSession * S * list action :=
  let '(register_res, db) := registration (RegisterRequest.name mesg) (RegisterRequest.email mesg)
                               (RegisterRequest.password mesg) db in
  let '(session, out) := write (wrap (status_response register_res)) session in
  (session, db, out).

(** [LoginRequestJob::operator()]: every exception of [login] is caught. *)
Definition run_login_job (mesg : LoginRequest.t) (session : ClientSession) (db : S)
    : ClientSession * S * list action :=
  let '(result, db) := login (LoginRequest.email mesg) (LoginRequest.password mesg) db in
  let '(session, login_response) :=
    match result with
    | inr (id, name) =>
      let st := MkClientState id name (LoginRequest.email mesg) in
      let profile := Contact.set_email (Contact.set_name (Contact.set_user_id Contact.SharedCtor
                       (user_id st)) (user_name st)) (email st) in
      (set_state st session,
       LoginResponse.set_allocated_profile LoginResponse.SharedCtor (Some profile))
    | inl _ => (session, LoginResponse.SharedCtor)
    end in
  let '(session, out) :=
    write (wrap (Response.set_allocated_login_response Response.SharedCtor (Some login_response)))
      session in
  (session, db, out).

(** The shape of the other jobs: the body runs for a logged-in client, the
    others get an empty response. *)
Definition if_logged_in (body : ClientState → S → Response.t * S) (session : ClientSession) (db : S)
    : ClientSession * S * list action :=
  let '(mesg, db) :=
    match state session with
    | Some st => let '(response, db) := body st db in (wrap response, db)
    | None => (empty_response, db)
    end in
  let '(session, out) := write mesg session in
  (session, db, out).

(** [ChatsRequestJob::operator()] *)
Definition run_chats : ClientSession → S → ClientSession * S * list action :=
  if_logged_in (λ st db,
    let '(chats, db) := get_chats (user_id st) db in
    (Response.set_allocated_chats_response Response.SharedCtor (Some chats), db)).

(** [ContactsRequestJob::operator()] *)
Definition run_contacts : ClientSession → S → ClientSession * S * list action :=
  if_logged_in (λ st db,
    let '(contacts, db) := get_contacts (user_id st) db in
    (Response.set_allocated_contacts_response Response.SharedCtor (Some contacts), db)).

(** [MessagesRequestJob::operator()] *)
Definition run_messages (mesg : MessagesRequest.t)
    : ClientSession → S → ClientSession * S * list action :=
  if_logged_in (λ st db,
    let '(messages, db) := get_messages (MessagesRequest.chat_id mesg) db in
    (Response.set_allocated_messages_response Response.SharedCtor (Some messages), db)).

(** [SendMesgRequestJob::operator()] *)
Definition run_send_mesg (mesg : SendMessageRequest.t)
    : ClientSession → S → ClientSession * S * list action :=
  if_logged_in (λ st db,
    let '(send_res, db) := send_message (user_id st) (SendMessageRequest.mesg mesg) db in
    (status_response send_res, db)).

(** [AddContactRequestJob::operator()] *)
Definition run_add_contact (mesg : AddContactRequest.t)
    : ClientSession → S → ClientSession * S * list action :=
  if_logged_in (λ st db,
    let '(send_res, db) := add_contact (user_id st) (AddContactRequest.email mesg) db in
    (status_response send_res, db)).

(** [CreateChatRequestJob::operator()] *)
Definition run_create_chat (mesg : CreateChatRequest.t)
    : ClientSession → S → ClientSession * S * list action :=
  if_logged_in (λ st db,
    let '(is_created, db) := create_chat (user_id st) (user_name st)
                               (CreateChatRequest.friend_id mesg) db in
    (status_response is_created, db)).

(** The call of a job by a worker. *)
Definition run_job (j : job) (session : ClientSession) (db : S)
    : ClientSession * S * list action :=
  match j with
  | ParseCommandJob => let '(session, out) := parse_command session in (session, db, out)
  | RegisterRequestJob mesg => run_register mesg session db
  | LoginRequestJob mesg => run_login_job mesg session db
  | ChatsRequestJob => run_chats session db
  | ContactsRequestJob => run_contacts session db
  | MessagesRequestJob mesg => run_messages mesg session db
  | SendMesgRequestJob mesg => run_send_mesg mesg session db
  | AddContactRequestJob mesg => run_add_contact mesg session db
  | CreateChatRequestJob mesg => run_create_chat mesg session db
  end.
End Jobs.
