(* ===== verification/JobCalls.v ===== *)
(** * The storage call of a job

    [Jobs.v] runs a request job in one piece over any storage.  Here a job is
    cut where it waits for the storage: [job_call] is the call it makes, if
    any, and [job_end] what it does with the answer.  [run_job_factored] says
    that over [Postgres.v] the two halves with the call between them are the
    job; [ConcurrentServer.v] lets other sessions run in between. *)
From S2P Require Import Prelude Wire Parser Message Requests Responses Envelope Storage Database.
From S2P Require Import Postgres Programs Session Jobs.

Section JobCalls.
Context `{W : WireFormat} `{Mem : Memory}.

(** The call of a job: the seven others ask for the profile of the session,
    or do not look at it. *)
Definition job_call (j : job) (session : ClientSession) : option storage_op :=
  match j with
  | ParseCommandJob => None
  | RegisterRequestJob mesg =>
      Some (Registration (RegisterRequest.name mesg) (RegisterRequest.email mesg)
              (RegisterRequest.password mesg))
  | LoginRequestJob mesg => Some (Login (LoginRequest.email mesg) (LoginRequest.password mesg))
  | ChatsRequestJob => (λ st, GetChats (user_id st)) <$> state session
  | ContactsRequestJob => (λ st, GetContacts (user_id st)) <$> state session
  | MessagesRequestJob mesg => (λ st, GetMessages (MessagesRequest.chat_id mesg)) <$> state session
  | SendMesgRequestJob mesg =>
      (λ st, SendMessage (user_id st) (SendMessageRequest.mesg mesg)) <$> state session
  | AddContactRequestJob mesg =>
      (λ st, AddContact (user_id st) (AddContactRequest.email mesg)) <$> state session
  | CreateChatRequestJob mesg =>
      (λ st, CreateChat (user_id st) (user_name st) (CreateChatRequest.friend_id mesg)) <$>
        state session
  end.

(** The profile of a login and its response. *)
Definition logged_in_as (mesg : LoginRequest.t) (id : Z) (name : bytes) : ClientState :=
  MkClientState id name (LoginRequest.email mesg).

Definition login_response (st : option ClientState) : Response.t :=
  let login_response :=
    match st with
    | Some st =>
        let profile := Contact.set_email (Contact.set_name (Contact.set_user_id Contact.SharedCtor
                         (user_id st)) (user_name st)) (email st) in
        LoginResponse.set_allocated_profile LoginResponse.SharedCtor (Some profile)
    | None => LoginResponse.SharedCtor
    end in
  Response.set_allocated_login_response Response.SharedCtor (Some login_response).

(** The response to the answer of the storage, and the session it is written
    by; [None]: an exception, or a value of another type, leaves the job. *)
Definition job_response (j : job) (result : exn + answer) (session : ClientSession)
    : option (ClientSession * Response.t) :=
  match j, result with
  | RegisterRequestJob _, inr (Status b) | SendMesgRequestJob _, inr (Status b)
  | AddContactRequestJob _, inr (Status b) | CreateChatRequestJob _, inr (Status b) =>
      Some (session, status_response b)
  | LoginRequestJob mesg, inr (UserFound id name) =>
      let st := logged_in_as mesg id name in Some (set_state st session, login_response (Some st))
  | LoginRequestJob _, inl _ => Some (session, login_response None)
  | ChatsRequestJob, inr (Chats chats) =>
      Some (session, Response.set_allocated_chats_response Response.SharedCtor (Some chats))
  | ContactsRequestJob, inr (Contacts contacts) =>
      Some (session, Response.set_allocated_contacts_response Response.SharedCtor (Some contacts))
  | MessagesRequestJob _, inr (Messages messages) =>
      Some (session, Response.set_allocated_messages_response Response.SharedCtor (Some messages))
  | _, _ => None
  end.

Definition job_end (j : job) (result : exn + answer) (session : ClientSession)
    : ClientSession * list action :=
  match job_response j result session with
  | Some (session, response) => write (wrap response) session
  | None => (session, [Throw])
  end.

(** A job that calls nothing: the parser, and a guest's request. *)
Definition job_alone (j : job) (session : ClientSession) : ClientSession * list action :=
  match j with
  | ParseCommandJob => parse_command session
  | _ => write empty_response session
  end.

Lemma job_call_not_parse j s op : job_call j s = Some op → j ≠ ParseCommandJob.
Proof. by intros H ->. Qed.
End JobCalls.

Section Factored.
Context `{W : WireFormat} `{Mem : Memory} `{P : Pqxx}.

(** Over PostgreSQL a job is its call between its two halves. *)
Lemma run_job_factored (j : job) (session : ClientSession) (c : conn) :
  run_job j session c =
  match job_call j session with
  | Some op =>
      let '(result, c) := perform op c in
      let '(session, out) := job_end j result session in (session, c, out)
  | None => let '(session, out) := job_alone j session in (session, c, out)
  end.
Proof.
  destruct j as [|m|m| | |m|m|m|m]; [done|..]; cbn [run_job job_call perform].
  - unfold run_register. by destruct (registration _ _ _ c).
  - unfold run_login_job. by destruct (login _ _ c) as [[e|[id name]] c'].
  - unfold run_chats, if_logged_in. destruct (state session); [|done].
    cbn [fmap option_fmap option_map perform]. by destruct (get_chats _ c).
  - unfold run_contacts, if_logged_in. destruct (state session); [|done].
    cbn [fmap option_fmap option_map perform]. by destruct (get_contacts _ c).
  - unfold run_messages, if_logged_in. destruct (state session); [|done].
    cbn [fmap option_fmap option_map perform]. by destruct (get_messages _ c).
  - unfold run_send_mesg, if_logged_in. destruct (state session); [|done].
    cbn [fmap option_fmap option_map perform]. by destruct (send_message _ _ c).
  - unfold run_add_contact, if_logged_in. destruct (state session); [|done].
    cbn [fmap option_fmap option_map perform]. by destruct (add_contact _ _ c).
  - unfold run_create_chat, if_logged_in. destruct (state session); [|done].
    cbn [fmap option_fmap option_map perform]. by destruct (create_chat _ _ _ c).
Qed.
End Factored.
