(* ===== verification/Server.v ===== *)
(** * The server

    [ElegramServer] of [server/src/server/server.*] and the event loop around
    it: the sessions with the operation each has started and not seen
    completed, the storage, and the steps the environment can make the
    program take (a client connects, an operation of a session completes, a
    worker runs a job, the process is signalled).  A step calls the handler
    of [Session.v] or [Jobs.v] that the program registered for it.

    Each request job is one step; [ConcurrentServer.v] is the same server with
    jobs that interleave. *)
From stdpp Require Import gmap.
From S2P Require Import Prelude Wire Parser Message Requests Responses Envelope Storage Session.
From S2P Require Import Jobs.

(** An operation that was started. *)
Inductive operation : Type :=
| ReadPrefix
| ReadMessage (mesg_size : Z)
| Write (data : bytes)
| RunJob (j : job).

(** What went over the connection, for the specification only: the messages
    handed to the parser and the packets written. *)
Inductive event : Type :=
| Received (data : bytes)
| Sent (data : bytes).

Record link := Link {
  session : ClientSession;
  pending : list operation;
  history : list event
}.

Record server (S : Type) := Server {
  links : gmap nat link;
  accepted : nat;
  accepting : bool;
  storage : S;
  down : bool
}.
Arguments Server {S}.
Arguments links {S}.
Arguments accepted {S}.
Arguments accepting {S}.
Arguments storage {S}.
Arguments down {S}.

(** What an action leaves to be completed, and what it sends. *)
Definition to_operation (a : action) : option operation :=
  match a with
  | AsyncReadPrefix => Some ReadPrefix
  | AsyncReadMessage n => Some (ReadMessage n)
  | AsyncWrite data => Some (Write data)
  | Post j => Some (RunJob j)
  | SockClose | Throw => None
  end.

Definition sent (a : action) : option event :=
  match a with AsyncWrite data => Some (Sent data) | _ => None end.

Definition throws (out : list action) : bool :=
  existsb (λ a, match a with Throw => true | _ => false end) out.

(** How an operation can complete: with an error, or with the bytes read. *)
Record completion := Completion { err : bool; data_read : bytes }.

(** [async_read] fills its buffer unless it fails. *)
Definition completion_ok (o : operation) (s : ClientSession) (c : completion) : bool :=
  match o with
  | ReadPrefix | ReadMessage _ =>
      if err c then zlen (data_read c) <=? zlen (read_buffer_ s)
      else zlen (data_read c) =? zlen (read_buffer_ s)
  | Write _ | RunJob _ => true
  end.

Section Server.
Context `{W : WireFormat} `{Mem : Memory} {S : Type} `{DB : AbstractStorageConnection S}.

Definition fill_buffer (c : completion) (s : ClientSession) : ClientSession :=
  set_buffer (write_at 0 (data_read c) (read_buffer_ s)) s.

(** The handler of an operation. *)
Definition complete (o : operation) (c : completion) (s : ClientSession) (db : S)
    : ClientSession * S * list action :=
  match o with
  | ReadPrefix =>
      let '(s, out) := on_read_prefix (err c) (zlen (data_read c)) (fill_buffer c s) in (s, db, out)
  | ReadMessage n =>
      let '(s, out) := on_read_message (err c) (zlen (data_read c)) n (fill_buffer c s) in
      (s, db, out)
  | Write _ => let '(s, out) := on_write (err c) s in (s, db, out)
  | RunJob j => run_job j s db
  end.

Definition received (o : operation) (s : ClientSession) (out : list action) : list event :=
  match o with
  | ReadMessage _ => if existsb (λ a, match a with Post _ => true | _ => false end) out
                     then [Received (read_buffer_ s)] else []
  | _ => []
  end.

Definition after_complete (l : link) (rest : list operation) (o : operation) (s : ClientSession)
    (out : list action) : link :=
  Link s (rest ++ omap to_operation out) (history l ++ received o s out ++ omap sent out).

(** [handle_accept]: the new session starts and another one is awaited. *)
Definition handle_accept (error : bool) (sv : server S) : option (server S) :=
  if down sv then None else
  if negb (accepting sv) then None else
  if error then Some (Server (links sv) (accepted sv) (accepting sv) (storage sv) true) else
  let '(s, out) := start new_session in
  Some (Server (<[accepted sv := Link s (omap to_operation out) []]> (links sv))
               (Datatypes.S (accepted sv)) true (storage sv) (throws out)).

(** [signal_handler]: the acceptor is closed, [handle_accept] is called with
    [operation_canceled] and returns. *)
Definition signal_handler (sv : server S) : option (server S) :=
  if down sv then None else
  Some (Server (links sv) (accepted sv) false (storage sv) (down sv)).

(** The [k]-th operation of session [i] completes. *)
Definition handle_completion (i k : nat) (c : completion) (sv : server S) : option (server S) :=
  if down sv then None else
  match links sv !! i with
  | None => None
  | Some l =>
    match pending l !! k with
    | None => None
    | Some o =>
      if completion_ok o (session l) c then
        let '(s, db, out) := complete o c (session l) (storage sv) in
        Some (Server (<[i := after_complete l (delete k (pending l)) o s out]> (links sv))
                     (accepted sv) (accepting sv) db (throws out))
      else None
    end
  end.

Inductive input : Type :=
| Accept (error : bool)
| Signal
| Complete (i k : nat) (c : completion).

Definition handle (ev : input) : server S → option (server S) :=
  match ev with
  | Accept error => handle_accept error
  | Signal => signal_handler
  | Complete i k c => handle_completion i k c
  end.

(** [run()]: before any connection. *)
Definition initial (db : S) : server S := Server ∅ 0 true db false.

Definition step (sv sv' : server S) : Prop := ∃ ev, handle ev sv = Some sv'.

Definition reachable (db : S) (sv : server S) : Prop := rtc step (initial db) sv.

(** Runs for concrete inputs. *)
Fixpoint run (evs : list input) (sv : server S) : option (server S) :=
  match evs with
  | [] => Some sv
  | ev :: evs => match handle ev sv with Some sv => run evs sv | None => None end
  end.
End Server.
