(* ===== verification/ConcurrentServer.v ===== *)
(** * The server with concurrent jobs

    [Server.v] runs a job of a session in one step over any storage.  Here the
    storage is the [world] of [Interleaving.v]: a worker that takes a request
    job begins the call of the job, the exchanges of the calls under way
    interleave with each other and with the handlers of the event loop, and
    the job ends, with its response, when its call returns.  The loop, the
    handlers and the sessions are those of [Server.v] and [Session.v]. *)
From stdpp Require Import gmap.
From S2P Require Import Prelude Wire Parser Message Requests Responses Envelope Storage Database.
From S2P Require Import Postgres Programs Interleaving Session Jobs JobCalls Server.

(** [executing]: the workers' calls, each with its session and its job. *)
Record cserver := CServer {
  front : server world;
  executing : gmap nat (nat * job)
}.

Definition database (sv : cserver) : world := storage (front sv).

(** The jobs of session [i] that workers are executing. *)
Definition jobs_of (ex : gmap nat (nat * job)) (i : nat) : list job :=
  (map_to_list (filter (λ kv, kv.2.1 = i) ex)).*2.*2.

(** A link with everything under way for it. *)
Definition whole (ex : gmap nat (nat * job)) (i : nat) (l : link) : link :=
  Link (session l) (pending l ++ (RunJob <$> jobs_of ex i)) (history l).

Definition worker_free (w : world) : bool := bool_decide (busy w < WORKER_THREADS)%nat.

Definition needs_worker (o : operation) : bool :=
  match o with RunJob _ => true | _ => false end.

Section ConcurrentServer.
Context `{W : WireFormat} `{Mem : Memory} `{P : Pqxx}.

Definition with_link (sv : cserver) (i : nat) (l : link) (w : world)
    (ex : gmap nat (nat * job)) (d : bool) : cserver :=
  CServer (Server (<[i := l]> (links (front sv))) (accepted (front sv)) (accepting (front sv)) w d)
          ex.

(** The handlers that do not call the storage. *)
Definition local_complete (o : operation) (c : completion) (s : ClientSession)
    : option (ClientSession * list action) :=
  match o with
  | ReadPrefix => Some (on_read_prefix (err c) (zlen (data_read c)) (fill_buffer c s))
  | ReadMessage n => Some (on_read_message (err c) (zlen (data_read c)) n (fill_buffer c s))
  | Write _ => Some (on_write (err c) s)
  | RunJob j => match job_call j s with None => Some (job_alone j s) | Some _ => None end
  end.

(** The [k]-th operation of session [i] completes; a job needs a worker. *)
Definition handle_local (i k : nat) (c : completion) (sv : cserver) : option cserver :=
  if down (front sv) then None else
  l ← links (front sv) !! i;
  o ← pending l !! k;
  if completion_ok o (session l) c && (negb (needs_worker o) || worker_free (database sv)) then
    r ← local_complete o c (session l);
    let '(s, out) := r in
    Some (with_link sv i (after_complete l (delete k (pending l)) o s out) (database sv)
            (executing sv) (throws out))
  else None.

(** A worker takes the [k]-th operation of session [i], a job, and begins its
    call, [p]. *)
Definition start_job (i k p : nat) (sv : cserver) : option cserver :=
  if down (front sv) then None else
  l ← links (front sv) !! i;
  o ← pending l !! k;
  match o with
  | RunJob j =>
      op ← job_call j (session l);
      w ← begin_call p op (database sv);
      Some (with_link sv i (Link (session l) (delete k (pending l)) (history l)) w
              (<[p := (i, j)]> (executing sv)) false)
  | _ => None
  end.

(** An exchange of a call. *)
Definition database_step (ev : Interleaving.event) (sv : cserver) : option cserver :=
  if down (front sv) then None else
  match ev with
  | Call _ _ | Return _ => None
  | _ =>
      w ← world_step ev (database sv);
      Some (CServer (Server (links (front sv)) (accepted (front sv)) (accepting (front sv)) w false)
                    (executing sv))
  end.

(** Call [p] returns to its job, which writes its response. *)
Definition end_job (p : nat) (sv : cserver) : option cserver :=
  if down (front sv) then None else
  e ← executing sv !! p;
  let '(i, j) := e in
  l ← links (front sv) !! i;
  w ← return_call p (database sv);
  match calls w !! p with
  | Some (Finished _ result _ _) =>
      let '(s, out) := job_end j result (session l) in
      Some (with_link sv i (after_complete l (pending l) (RunJob j) s out) w
              (delete p (executing sv)) (throws out))
  | _ => None
  end.

Inductive cinput : Type :=
| CAccept (error : bool)
| CSignal
| CLocal (i k : nat) (c : completion)
| CStart (i k p : nat)
| CDatabase (ev : Interleaving.event)
| CEnd (p : nat).

Definition chandle (ev : cinput) (sv : cserver) : option cserver :=
  match ev with
  | CAccept error => (λ f, CServer f (executing sv)) <$> handle_accept error (front sv)
  | CSignal => (λ f, CServer f (executing sv)) <$> signal_handler (front sv)
  | CLocal i k c => handle_local i k c sv
  | CStart i k p => start_job i k p sv
  | CDatabase ev => database_step ev sv
  | CEnd p => end_job p sv
  end.

Definition cinitial (d : db) : cserver := CServer (initial (quiet d)) ∅.

Definition cstep (sv sv' : cserver) : Prop := ∃ ev, chandle ev sv = Some sv'.

Definition creachable (d : db) (sv : cserver) : Prop := rtc cstep (cinitial d) sv.

Fixpoint crun (evs : list cinput) (sv : cserver) : option cserver :=
  match evs with
  | [] => Some sv
  | ev :: evs => sv ← chandle ev sv; crun evs sv
  end.
End ConcurrentServer.
