(* ===== verification/ServerFacts.v ===== *)
(** * What the handlers of the server do

    Each handler of a running session either starts exactly one operation, or
    stops the session, or lets an exception out; each request job writes one
    response of the kind of its request and calls the storage at most once. *)
From S2P Require Import Prelude Wire Parser Message Requests Responses Envelope Storage Session.
From S2P Require Import Jobs Server.

(** [proceeds allowed r]: a running session goes on with one allowed action,
    throws, or stops. *)
Definition proceeds (allowed : action → Prop) (r : ClientSession * list action) : Prop :=
  stopped_ r.1 = true ∧ r.2 = [SockClose] ∨
  stopped_ r.1 = false ∧ (r.2 = [Throw] ∨ ∃ a, r.2 = [a] ∧ allowed a).

(** The kind of response a request gets. *)
Definition response_matches (r : Request.t) (resp : Response.t) : Prop :=
  match Request.msg_ r, Response.msg_ resp with
  | Request.kRegisterRequest _, Response.kStatusResponse _ => True
  | Request.kRegisterRequest _, _ => False
  | Request.kLoginRequest _, Response.kLoginResponse _ => True
  | Request.kLoginRequest _, _ => False
  | Request.kChatsRequest _, Response.kChatsResponse _ => True
  | Request.kContactsRequest _, Response.kContactsResponse _ => True
  | Request.kMessagesRequest _, Response.kMessagesResponse _ => True
  | Request.kSendMesgRequest _, Response.kStatusResponse _ => True
  | Request.kAddContactRequest _, Response.kStatusResponse _ => True
  | Request.kCreateChatRequest _, Response.kStatusResponse _ => True
  | Request.MSG_NOT_SET, _ => False
  | _, Response.MSG_NOT_SET => True
  | _, _ => False
  end.

Section Facts.
Context `{W : WireFormat} `{Mem : Memory}.

Lemma proceeds_stop allowed s : stopped_ s = false → proceeds allowed (stop s).
Proof. intros Hs. left. unfold stop. by rewrite Hs. Qed.

Lemma proceeds_one (allowed : action → Prop) s a :
  stopped_ s = false → allowed a → proceeds allowed (s, [a]).
Proof. intros Hs Ha. right. eauto. Qed.

Lemma proceeds_throw allowed s : stopped_ s = false → proceeds allowed (s, [Throw]).
Proof. intros Hs. right. eauto. Qed.

Lemma proceeds_mono (A B : action → Prop) r : (∀ a, A a → B a) → proceeds A r → proceeds B r.
Proof.
  intros HAB [?|[Hs [?|(a & Ha & HA)]]]; [by left|right; split; [done|by left]|].
  right. split; [done|]. right. exists a. auto.
Qed.

Lemma stop_stopped s : stopped_ (stop s).1 = true.
Proof. unfold stop. by destruct (stopped_ s) eqn:?. Qed.

Lemma stop_state s : state_ (stop s).1 = state_ s.
Proof. unfold stop. by destruct (stopped_ s). Qed.

Lemma resize_spec n s s' : resize n s = Some s' →
  stopped_ s' = stopped_ s ∧ state_ s' = state_ s ∧
  read_buffer_ s' = vec_resize (Z.to_nat n) (read_buffer_ s).
Proof. unfold resize. case_match; [|done]. by intros [= <-]. Qed.

(** The reads *)
Lemma read_prefix_proceeds s : stopped_ s = false →
  proceeds (λ a, a = AsyncReadPrefix) (do_async_read_prefix s).
Proof.
  intros Hs. unfold do_async_read_prefix. rewrite Hs.
  destruct (resize PREFIX_SIZE s) as [s'|] eqn:Hr; [|by apply proceeds_throw].
  apply proceeds_one; [|done]. by apply resize_spec in Hr as (-> & _ & _).
Qed.

Lemma read_message_proceeds n s : stopped_ s = false →
  proceeds (λ a, a = AsyncReadMessage n) (do_async_read_message n s).
Proof.
  intros Hs. unfold do_async_read_message. rewrite Hs.
  destruct (resize n s) as [s'|] eqn:Hr; [|by apply proceeds_throw].
  apply proceeds_one; [|done]. by apply resize_spec in Hr as (-> & _ & _).
Qed.

Lemma on_read_prefix_proceeds e n s : stopped_ s = false →
  proceeds (λ a, ∃ n, a = AsyncReadMessage n) (on_read_prefix e n s).
Proof.
  intros Hs. unfold on_read_prefix. destruct e.
  - unfold stop. rewrite Hs. simpl. by left.
  - rewrite Hs. case_match; [|by apply proceeds_stop]. case_match; [|by apply proceeds_stop].
    eapply proceeds_mono; [|by apply read_message_proceeds]. intros a ->. eauto.
Qed.

Lemma on_read_message_proceeds e n m s : stopped_ s = false →
  proceeds (λ a, a = Post ParseCommandJob) (on_read_message e n m s).
Proof.
  intros Hs. unfold on_read_message. destruct e.
  - unfold stop. rewrite Hs. simpl. by left.
  - rewrite Hs. case_match; [by apply proceeds_one|by apply proceeds_stop].
Qed.

Lemma on_write_proceeds e s : stopped_ s = false →
  proceeds (λ a, a = AsyncReadPrefix) (on_write e s).
Proof.
  intros Hs. unfold on_write. destruct e.
  - unfold stop. rewrite Hs. simpl. by left.
  - rewrite Hs. by apply read_prefix_proceeds.
Qed.

(** Only a login touches the profile. *)
Lemma read_prefix_state s : state_ (do_async_read_prefix s).1 = state_ s.
Proof.
  unfold do_async_read_prefix. case_match; [done|].
  destruct (resize PREFIX_SIZE s) eqn:Hr; [|done]. by apply resize_spec in Hr as (_ & ? & _).
Qed.

Lemma read_message_state n s : state_ (do_async_read_message n s).1 = state_ s.
Proof.
  unfold do_async_read_message. case_match; [done|].
  destruct (resize n s) eqn:Hr; [|done]. by apply resize_spec in Hr as (_ & ? & _).
Qed.

Lemma on_read_prefix_state e n s : state_ (on_read_prefix e n s).1 = state_ s.
Proof.
  unfold on_read_prefix.
  destruct e; [pose proof (stop_state s); destruct (stop s) as [s1 out]; simpl in *|];
    repeat case_match; rewrite ?stop_state, ?read_message_state; simpl; congruence.
Qed.

Lemma on_read_message_state e n m s : state_ (on_read_message e n m s).1 = state_ s.
Proof.
  unfold on_read_message.
  destruct e; [pose proof (stop_state s); destruct (stop s) as [s1 out]; simpl in *|];
    repeat case_match; rewrite ?stop_state; simpl; congruence.
Qed.

Lemma on_write_state e s : state_ (on_write e s).1 = state_ s.
Proof.
  unfold on_write.
  destruct e; [pose proof (stop_state s); destruct (stop s) as [s1 out]; simpl in *|];
    repeat case_match; rewrite ?read_prefix_state; simpl; congruence.
Qed.

(** The request a packet holds. *)
Definition request_in (data : bytes) : option Request.t :=
  match ParseFromArray WrappedMessage.MergePartialFromCodedStream WrappedMessage.SharedCtor
          data (to_signed 32 (zlen data)) with
  | Some m => match WrappedMessage.msg_ m with WrappedMessage.kRequest r => Some r | _ => None end
  | None => None
  end.

Lemma request_job_not_parse r : request_job r = Some ParseCommandJob → False.
Proof. destruct r as [u]. by destruct u. Qed.

Lemma parse_command_spec s :
  parse_command s =
  match request_in (read_buffer_ s) with
  | Some r => match request_job r with Some j => (s, [Post j]) | None => stop s end
  | None => stop s
  end.
Proof.
  unfold parse_command, request_in, get_buffer. destruct (ParseFromArray _ _ _ _) as [[u]|]; [|done].
  unfold WrappedMessage.has_request, WrappedMessage.release_request. by destruct u.
Qed.

Lemma parse_command_proceeds s : stopped_ s = false →
  proceeds (λ a, ∃ r j, request_in (read_buffer_ s) = Some r ∧ request_job r = Some j ∧ a = Post j)
    (parse_command s).
Proof.
  intros Hs. rewrite parse_command_spec.
  destruct (request_in _) as [r|]; [|by apply proceeds_stop].
  destruct (request_job r) as [j|] eqn:Hj; [|by apply proceeds_stop].
  apply proceeds_one; eauto 6.
Qed.

Lemma parse_command_state s : state_ (parse_command s).1 = state_ s.
Proof. rewrite parse_command_spec. repeat case_match; rewrite ?stop_state; done. Qed.

(** [writes m data]: [data] is what some session sent for [m]. *)
Definition writes (m : WrappedMessage.t) (data : bytes) : Prop :=
  ∃ s s', write m s = (s', [AsyncWrite data]).

Lemma write_proceeds m s : stopped_ s = false →
  proceeds (λ a, ∃ data, a = AsyncWrite data ∧ writes m data) (write m s) ∧
  stopped_ (write m s).1 = false ∧ state_ (write m s).1 = state_ s.
Proof.
  intros Hs. assert (∀ s' out, write m s = (s', out) →
    stopped_ s' = false ∧ state_ s' = state_ s ∧ (out = [Throw] ∨ ∃ data, out = [AsyncWrite data])) as Hw.
  { intros s' out. unfold write, do_async_write. rewrite Hs. case_match; intros [= <- <-].
    - apply resize_spec in H as (? & ? & _). simpl. rewrite Hs in *. eauto 6.
    - auto. }
  destruct (write m s) as [s' out] eqn:Hws. destruct (Hw s' out eq_refl) as (H1 & H2 & H3).
  split; [|done]. right. split; [done|].
  destruct H3 as [->|(data & ->)]; [by left|right]. eexists. split; [done|]. exists data.
  split; [done|]. by exists s, s'.
Qed.
End Facts.

Section JobFacts.
Context `{W : WireFormat} `{Mem : Memory} {S : Type} `{DB : AbstractStorageConnection S}.

(** What a request job does: one response, at most one storage call, and the
    profile of the session changes only by a successful login. *)
Record job_done (r : Request.t) (s : ClientSession) (db : S) (s' : ClientSession) (db' : S)
    (out : list action) : Prop := {
  job_proceeds : proceeds (λ a, ∃ resp data,
      a = AsyncWrite data ∧ response_matches r resp ∧ writes (wrap resp) data) (s', out);
  job_running : stopped_ s' = false;
  job_storage : db' = db ∨ storage_call db db';
  job_login : state_ s' = state_ s ∨
    ∃ email password id name, login email password db = (inr (id, name), db') ∧
      state_ s' = Some (MkClientState id name email)
}.

Lemma finish_job r resp s db db' st s1 :
  stopped_ s1 = false → state_ s1 = st → response_matches r resp →
  db' = db ∨ storage_call db db' →
  (st = state_ s ∨ ∃ email password id name, login email password db = (inr (id, name), db') ∧
      st = Some (MkClientState id name email)) →
  let '(s', out) := write (wrap resp) s1 in job_done r s db s' db' out.
Proof.
  intros Hs1 <- Hm Hdb Hst. destruct (write_proceeds (wrap resp) s1 Hs1) as (Hp & Hr & Hstate).
  destruct (write (wrap resp) s1) as [s' out]. simpl in *. split; [|done|done|by rewrite Hstate].
  destruct Hp as [[Hstop _]|[H1 [H2|(a & H2 & data & -> & Hw)]]]; simpl in *.
  - by rewrite Hr in Hstop.
  - right. eauto.
  - right. split; [done|]. right. eexists. split; [done|]. eauto 6.
Qed.

Lemma if_logged_in_done r body s db :
  stopped_ s = false → response_matches r Response.SharedCtor →
  (∀ st, response_matches r (body st db).1 ∧ storage_call db (body st db).2) →
  let '(s', db', out) := if_logged_in body s db in job_done r s db s' db' out.
Proof.
  intros Hs He Hb. unfold if_logged_in, state. destruct (state_ s) as [st|] eqn:Hst.
  - destruct (Hb st) as [Hm Hc]. destruct (body st db) as [resp db']. simpl in *.
    pose proof (finish_job r resp s db db' (state_ s) s Hs eq_refl Hm (or_intror Hc) (or_introl eq_refl)).
    by destruct (write (wrap resp) s).
  - pose proof (finish_job r Response.SharedCtor s db db (state_ s) s Hs eq_refl He
      (or_introl eq_refl) (or_introl eq_refl)) as Hf.
    unfold empty_response. by destruct (write (wrap Response.SharedCtor) s).
Qed.

Lemma call_from {A} (f : S → A * S) db x db' :
  storage_call db (f db).2 → f db = (x, db') → storage_call db db'.
Proof. intros H Heq. by rewrite Heq in H. Qed.

(** Storage calls of a body, given by their results. *)
Ltac job_body :=
  intros st; repeat case_match; simpl; split; [done|];
  eapply call_from; [|eassumption]; auto with elegram.

Lemma run_job_done r j s db :
  stopped_ s = false → request_job r = Some j →
  let '(s', db', out) := run_job j s db in job_done r s db s' db' out.
Proof.
  intros Hs Hj. unfold request_job in Hj. destruct r as [u].
  destruct u; simpl in Hj; try done; injection Hj as <-; simpl.
  - unfold run_register. destruct (registration _ _ _ db) as [b db'] eqn:Hr.
    pose proof (finish_job (Request.Build (Request.kRegisterRequest m)) (status_response b) s db db'
      (state_ s) s Hs eq_refl I
      (or_intror (call_from _ _ _ _ (call_registration _ _ _ db) Hr)) (or_introl eq_refl)).
    by destruct (write (wrap (status_response b)) s).
  - unfold run_login_job. destruct (login _ _ db) as [[ex|[id name]] db'] eqn:Hl.
    + pose proof (finish_job (Request.Build (Request.kLoginRequest m))
        (Response.set_allocated_login_response Response.SharedCtor (Some LoginResponse.SharedCtor))
        s db db' (state_ s) s Hs eq_refl I
        (or_intror (call_from _ _ _ _ (call_login _ _ db) Hl)) (or_introl eq_refl)).
      by destruct (write _ s).
    + set (st := MkClientState id name (LoginRequest.email m)). cbv zeta.
      set (resp := Response.set_allocated_login_response _ _).
      pose proof (finish_job (Request.Build (Request.kLoginRequest m)) resp
        s db db' (Some st) (set_state st s) Hs eq_refl I
        (or_intror (call_from _ _ _ _ (call_login _ _ db) Hl))
        (or_intror (ex_intro _ _ (ex_intro _ _ (ex_intro _ _ (ex_intro _ _ (conj Hl eq_refl))))))).
      by destruct (write (wrap resp) (set_state st s)).
  - apply if_logged_in_done; [done..|]. job_body.
  - apply if_logged_in_done; [done..|]. job_body.
  - apply if_logged_in_done; [done..|]. job_body.
  - apply if_logged_in_done; [done..|]. job_body.
  - apply if_logged_in_done; [done..|]. job_body.
  - apply if_logged_in_done; [done..|]. job_body.
Qed.
End JobFacts.
