(* ===== verification/ServerInvariant.v ===== *)
(** * The invariant of the server

    In every state the environment can drive the server into, a running
    session has exactly one operation under way and a stopped one none, each
    request has been answered once, in order, by a response of its kind, and
    the profile of a session is that of a registered user. *)
From stdpp Require Import gmap.
From S2P Require Import Prelude Wire Parser Message Requests Responses Envelope Storage Session.
From S2P Require Import Jobs Server ServerFacts.

Section Invariant.
Context `{W : WireFormat} `{Mem : Memory}.

(** A packet that holds a request, and a packet sent for a response to it. *)
Definition exchange (d frame : bytes) : Prop :=
  ∃ r resp, request_in d = Some r ∧ response_matches r resp ∧ writes (wrap resp) frame.

(** Requests and responses alternate, each response answers the request
    before it. *)
Inductive answered : list event → Prop :=
| answered_nil : answered []
| answered_snoc h d frame :
    answered h → exchange d frame → answered (h ++ [Received d; Sent frame]).

(** One request is being served. *)
Definition serving (d : bytes) (h : list event) : Prop :=
  ∃ h', h = h' ++ [Received d] ∧ answered h'.

(** Where a running session is in its cycle. *)
Definition phase_ok (o : operation) (s : ClientSession) (h : list event) : Prop :=
  match o with
  | ReadPrefix | ReadMessage _ | Write _ => answered h
  | RunJob ParseCommandJob => serving (read_buffer_ s) h
  | RunJob j => ∃ d r, serving d h ∧ request_in d = Some r ∧ request_job r = Some j
  end.

Definition link_ok (l : link) : Prop :=
  if stopped_ (session l)
  then pending l = [] ∧ (answered (history l) ∨ ∃ d, serving d (history l))
  else ∃ o, pending l = [o] ∧ phase_ok o (session l) (history l).

Lemma serving_snoc h d : answered h → serving d (h ++ [Received d]).
Proof. intros H. by exists h. Qed.

Lemma serving_answered h d frame :
  serving d h → exchange d frame → answered (h ++ [Sent frame]).
Proof.
  intros (h' & -> & Hh) He. rewrite <- app_assoc. simpl. by apply answered_snoc.
Qed.

Lemma fill_stopped c s : stopped_ (fill_buffer c s) = stopped_ s.
Proof. done. Qed.

Lemma fill_state c s : state_ (fill_buffer c s) = state_ s.
Proof. done. Qed.

(** After a handler that stops or starts one operation. *)
Lemma proceed_link allowed l o s out :
  proceeds allowed (s, out) →
  (answered (history l) ∨ ∃ d, serving d (history l)) → 
  (∀ a, allowed a → ∃ o', to_operation a = Some o' ∧
     phase_ok o' s (history l ++ received o s [a] ++ omap sent [a])) →
  throws out = true ∨ link_ok (after_complete l [] o s out).
Proof.
  intros [[Hs Ho]|[Hs [Ho|(a & Ho & Ha)]]] Hh Hall; simpl in Hs, Ho; subst out; [right| by left |].
  - unfold link_ok, after_complete. simpl. rewrite Hs. split; [done|].
    replace (received o s [SockClose]) with (@nil event) by (by destruct o).
    by rewrite app_nil_r.
  - destruct (Hall a Ha) as (o' & Ho' & Hp). right.
    unfold link_ok, after_complete. cbn [session pending history]. rewrite Hs.
    exists o'. split; [|done]. cbn [omap list_omap]. by rewrite Ho'.
Qed.

(** A session that starts. *)
Lemma start_link :
  let '(s, out) := start new_session in
  state_ s = None ∧ (throws out = true ∨ link_ok (Link s (omap to_operation out) [])).
Proof.
  unfold start.
  pose proof (read_prefix_proceeds (set_stopped false new_session) eq_refl) as Hp.
  pose proof (read_prefix_state (set_stopped false new_session)) as Hs.
  destruct (do_async_read_prefix _) as [s out]. simpl in Hs. split; [done|].
  unfold proceeds in Hp. simpl in Hp.
  destruct Hp as [[Hstop ->]|[Hstop [->|(a & -> & ->)]]]; [right|by left|right];
    unfold link_ok; simpl; rewrite Hstop.
  - split; [done|]. left. constructor.
  - eexists. split; [done|]. constructor.
Qed.
End Invariant.

Section Preservation.
Context `{W : WireFormat} `{Mem : Memory} {S : Type} `{DB : AbstractStorageConnection S}.

(** An operation of a link completes. *)
Lemma complete_link l o c db :
  stopped_ (session l) = false → phase_ok o (session l) (history l) →
  let '(s, db', out) := complete o c (session l) db in
  (throws out = true ∨ link_ok (after_complete l [] o s out)) ∧
  (db' = db ∨ storage_call db db') ∧
  (state_ s = state_ (session l) ∨ ∃ email password id name,
     login email password db = (inr (id, name), db') ∧
     state_ s = Some (MkClientState id name email)).
Proof.
  intros Hs Hp. destruct o as [|n|data|j]; simpl.
  - pose proof (on_read_prefix_proceeds (err c) (zlen (data_read c)) (fill_buffer c (session l)) Hs) as Hpr.
    destruct (on_read_prefix _ _ _) as [s out] eqn:Hr.
    split; [|split; [by left|left]].
    + eapply proceed_link; [exact Hpr|by left|]. intros a (m & ->). eexists. split; [done|].
      simpl. by rewrite app_nil_r.
    + pose proof (on_read_prefix_state (err c) (zlen (data_read c)) (fill_buffer c (session l))) as Hst.
      by rewrite Hr in Hst.
  - pose proof (on_read_message_proceeds (err c) (zlen (data_read c)) n (fill_buffer c (session l)) Hs) as Hpr.
    destruct (on_read_message _ _ _ _) as [s out] eqn:Hr.
    split; [|split; [by left|left]].
    + eapply proceed_link; [exact Hpr|by left|]. intros a ->. eexists. split; [done|].
      simpl. by apply serving_snoc.
    + pose proof (on_read_message_state (err c) (zlen (data_read c)) n (fill_buffer c (session l))) as Hst.
      by rewrite Hr in Hst.
  - pose proof (on_write_proceeds (err c) (session l) Hs) as Hpr.
    destruct (on_write _ _) as [s out] eqn:Hr.
    split; [|split; [by left|left]].
    + eapply proceed_link; [exact Hpr|by left|]. intros a ->. eexists. split; [done|].
      simpl. by rewrite app_nil_r.
    + pose proof (on_write_state (err c) (session l)) as Hst.
      by rewrite Hr in Hst.
  - destruct j as [|m|m| | |m|m|m|m].
    { pose proof (parse_command_proceeds (session l) Hs) as Hpr. simpl in Hp. unfold run_job.
      pose proof (parse_command_state (session l)) as Hst.
      destruct (parse_command (session l)) as [s out].
      split; [|split; [by left|by left]].
      eapply proceed_link; [exact Hpr|eauto|]. intros a (r & j & Hr & Hj & ->).
      eexists. split; [done|]. simpl. rewrite app_nil_r.
      assert (j ≠ ParseCommandJob) by (intros ->; by apply request_job_not_parse in Hj).
      destruct j; [done|..]; eauto. }
    all: simpl in Hp; destruct Hp as (d & r & Hsv & Hr & Hj);
      match goal with |- context [run_job ?j _ _] =>
        pose proof (run_job_done r j (session l) db Hs Hj) as Hd;
        destruct (run_job j (session l) db) as [[s db'] out] end;
      destruct Hd as [Hpr _ Hdb Hlog];
      (split; [|done]);
      (eapply proceed_link; [exact Hpr|eauto|]);
      intros a (resp & data & -> & Hm & Hw); (eexists; split; [done|]); simpl;
      eapply serving_answered; [exact Hsv|]; exists r, resp; done.
Qed.
End Preservation.

(** ** The server *)

Section Server.
Context `{W : WireFormat} `{Mem : Memory} {S : Type} `{Con : StorageContract S}.

Definition profile_ok (db : S) (l : link) : Prop :=
  ∀ st, state_ (session l) = Some st → is_user db (user_id_ st).

Record server_ok (sv : server S) : Prop := {
  sv_storage : storage_ok (storage sv);
  sv_fresh i : (accepted sv ≤ i)%nat → links sv !! i = None;
  sv_profile i l : links sv !! i = Some l → profile_ok (storage sv) l;
  sv_link i l : down sv = false → links sv !! i = Some l → link_ok l
}.

Lemma server_ok_initial db : storage_ok db → server_ok (initial db).
Proof. intros Hdb. split; simpl; [done|done|..]; intros; by simplify_map_eq. Qed.

Lemma call_keeps_storage db db' :
  db' = db ∨ storage_call db db' → storage_ok db →
  storage_ok db' ∧ ∀ id, is_user db id → is_user db' id.
Proof.
  intros [->|Hc] Hok; [done|]. split; [by eapply storage_call_ok|].
  intros id. by eapply storage_call_users.
Qed.

Lemma accept_ok error sv sv' :
  handle_accept error sv = Some sv' → server_ok sv → server_ok sv'.
Proof.
  unfold handle_accept. intros Hh [Hst Hfr Hpr Hln].
  destruct (down sv) eqn:Hdown; [done|]. case_match; [done|].
  destruct error; [injection Hh as <-; by split|].
  pose proof start_link as Hs. destruct (start new_session) as [s out]. injection Hh as <-.
  destruct Hs as [Hs Hl]. split; simpl; [done|..].
  - intros i Hi. rewrite lookup_insert_ne by lia. apply Hfr. lia.
  - intros i l. rewrite lookup_insert_Some. intros [[<- <-]|[_ Hl']]; [|by eapply Hpr].
    intros st. simpl. by rewrite Hs.
  - intros i l Ht. rewrite lookup_insert_Some. intros [[<- <-]|[_ Hl']]; [|by eapply Hln].
    destruct Hl as [Hl|]; [by rewrite Ht in Hl|done].
Qed.

Lemma completion_keeps_ok i k c sv sv' :
  handle_completion i k c sv = Some sv' → server_ok sv → server_ok sv'.
Proof.
  unfold handle_completion. intros Hh [Hst Hfr Hpr Hln].
  destruct (down sv) eqn:Hdown; [done|].
  destruct (links sv !! i) as [l|] eqn:Hl; [|done].
  destruct (pending l !! k) as [o|] eqn:Hk; [|done].
  destruct (completion_ok o (session l) c) eqn:Hc; [|done].
  pose proof (Hln i l eq_refl Hl) as Hlink. unfold link_ok in Hlink.
  destruct (stopped_ (session l)) eqn:Hstop.
  { destruct Hlink as [Hp _]. by rewrite Hp, lookup_nil in Hk. }
  destruct Hlink as (o' & Hp & Hphase). rewrite Hp in Hh, Hk.
  apply list_lookup_singleton_Some in Hk as [-> <-].
  pose proof (complete_link l o' c (storage sv) Hstop Hphase) as Hcl.
  destruct (complete o' c (session l) (storage sv)) as [[s db'] out].
  destruct Hcl as (Hgood & Hdb & Hlog). injection Hh as <-.
  destruct (call_keeps_storage _ _ Hdb Hst) as [Hst' Husers].
  split; simpl; [done|..].
  - intros j Hj. rewrite lookup_insert_ne; [by apply Hfr|]. intros ->.
    by rewrite Hfr in Hl.
  - intros j l'. rewrite lookup_insert_Some. intros [[<- <-]|[_ Hl']] st; simpl.
    + destruct Hlog as [->|(em & pw & id & nm & Hlg & ->)].
      * intros Hs. apply Husers. by eapply Hpr.
      * intros [= <-]. simpl. exact (login_is_user em pw (storage sv) db' id nm Hst Hlg).
    + intros Hs. apply Husers. by eapply Hpr.
  - intros j l' Ht. rewrite lookup_insert_Some. intros [[<- <-]|[_ Hl']]; [|by eapply Hln].
    destruct Hgood as [Hthr|Hgood]; [by rewrite Hthr in Ht|exact Hgood].
Qed.

Lemma step_keeps_ok sv sv' : step sv sv' → server_ok sv → server_ok sv'.
Proof.
  intros ([error| |i k c] & Hh); simpl in Hh.
  - by apply (accept_ok error).
  - unfold signal_handler in Hh. case_match; [done|]. injection Hh as <-.
    intros []. split; simpl; eauto.
  - by apply (completion_keeps_ok i k c).
Qed.

Lemma reachable_ok db sv : storage_ok db → reachable db sv → server_ok sv.
Proof.
  intros Hdb Hr. apply server_ok_initial in Hdb. revert Hdb.
  induction Hr as [sv|sv1 sv2 sv3 Hs _ IH]; [done|]. intros Hok. apply IH.
  by eapply step_keeps_ok.
Qed.
End Server.
