(* ===== verification/ConcurrentFacts.v ===== *)
(** * Steps of concurrent jobs

    What the second half of a job does with an answer of the right type, and
    which jobs of a session are being executed. *)
From stdpp Require Import gmap.
From S2P Require Import Prelude Wire Parser Message Requests Responses Envelope Storage Database.
From S2P Require Import Postgres Growth PostgresSpec Programs Interleaving Isolation Serial Progress Steps.
From S2P Require Import Session Jobs JobCalls Server ConcurrentServer ServerFacts ServerInvariant.

(** ** The second half of a job *)

Section Jobs.
Context `{W : WireFormat} `{Mem : Memory}.

Lemma job_response_fits r j op result s :
  request_job r = Some j → job_call j s = Some op → fits op result →
  ∃ s' resp, job_response j result s = Some (s', resp) ∧ response_matches r resp ∧
    stopped_ s' = stopped_ s ∧
    (state_ s' = state_ s ∨ ∃ m id name, j = LoginRequestJob m ∧
       op = Login (LoginRequest.email m) (LoginRequest.password m) ∧
       result = inr (UserFound id name) ∧ state_ s' = Some (logged_in_as m id name) ∧
       resp = login_response (Some (logged_in_as m id name))).
Proof.
  intros Hj Hc Hf. destruct r as [u]. destruct u; simpl in Hj; try done; injection Hj as <-;
    simpl in Hc; try (apply fmap_Some in Hc as (st & _ & ->)); try injection Hc as <-;
    destruct result as [e|[b|id name|x|x|x]]; simpl in Hf; try done; simpl;
    do 2 eexists; (split_and!; [done|done|done|]); auto.
  right. do 3 eexists. by split_and!.
Qed.

(** It writes one response of the kind of the request, or throws. *)
Lemma job_end_writes r j op result s :
  stopped_ s = false → request_job r = Some j → job_call j s = Some op → fits op result →
  ∃ s' resp, job_response j result s = Some (s', resp) ∧ response_matches r resp ∧
    stopped_ (job_end j result s).1 = false ∧ state_ (job_end j result s).1 = state_ s' ∧
    ((job_end j result s).2 = [Throw] ∨
     ∃ frame, (job_end j result s).2 = [AsyncWrite frame] ∧ writes (wrap resp) frame) ∧
    (state_ s' = state_ s ∨ ∃ m id name, j = LoginRequestJob m ∧
       op = Login (LoginRequest.email m) (LoginRequest.password m) ∧
       result = inr (UserFound id name) ∧ state_ s' = Some (logged_in_as m id name) ∧
       resp = login_response (Some (logged_in_as m id name))).
Proof.
  intros Hs Hj Hc Hf.
  destruct (job_response_fits _ _ _ _ _ Hj Hc Hf) as (s' & resp & Hr & Hm & Hstop & Hstate).
  exists s', resp. unfold job_end. rewrite Hr. rewrite Hs in Hstop.
  destruct (write_proceeds (wrap resp) s' Hstop) as (Hp & Hrun & Hst). split_and!; try done.
  destruct Hp as [[Hx _]|[_ [Ho|(a & Ho & frame & -> & Hw)]]]; [congruence|by left|right; eauto].
Qed.

(** Only the second half of a login touches the profile. *)
Lemma local_state o c s s' out :
  stopped_ s = false → local_complete o c s = Some (s', out) → state_ s' = state_ s.
Proof.
  intros Hs. destruct o as [|n|data|j]; simpl; [intros [= H]..|].
  - pose proof (on_read_prefix_state (err c) (zlen (data_read c)) (fill_buffer c s)) as Hst. by rewrite H in Hst.
  - pose proof (on_read_message_state (err c) (zlen (data_read c)) n (fill_buffer c s)) as Hst. by rewrite H in Hst.
  - pose proof (on_write_state (err c) s) as Hst. by rewrite H in Hst.
  - destruct (job_call j s); [done|]. intros [= H]. pose proof (parse_command_state s).
    destruct (write_proceeds empty_response s Hs) as (_ & _ & Hw).
    destruct j; simpl in H; rewrite H in *; done.
Qed.
End Jobs.

(** ** Jobs under way *)

Section Executing.
Implicit Types (ex : gmap nat (nat * job)).

Lemma jobs_of_none ex i : (∀ p e, ex !! p = Some e → e.1 ≠ i) → jobs_of ex i = [].
Proof.
  intros Hex. unfold jobs_of. rewrite (map_empty_filter_2 _ ex); [by rewrite map_to_list_empty|].
  intros p e He. simpl. by eapply Hex.
Qed.

Lemma jobs_of_insert ex p i j :
  ex !! p = None → jobs_of (<[p := (i, j)]> ex) i ≡ₚ j :: jobs_of ex i.
Proof.
  intros Hp. unfold jobs_of. rewrite map_filter_insert_True by done.
  rewrite map_to_list_insert; [done|]. apply map_lookup_filter_None. by left.
Qed.

Lemma jobs_of_insert_ne ex p i i' j :
  ex !! p = None → i ≠ i' → jobs_of (<[p := (i, j)]> ex) i' = jobs_of ex i'.
Proof.
  intros Hp Hne. unfold jobs_of. rewrite map_filter_insert_not' by (done || by rewrite Hp). done.
Qed.

Lemma jobs_of_delete ex p i j :
  ex !! p = Some (i, j) → jobs_of ex i ≡ₚ j :: jobs_of (delete p ex) i.
Proof.
  intros Hp. rewrite <- (insert_delete_id ex p (i, j)) at 1 by done.
  apply jobs_of_insert. apply lookup_delete_eq.
Qed.

Lemma jobs_of_delete_ne ex p i i' j :
  ex !! p = Some (i, j) → i ≠ i' → jobs_of (delete p ex) i' = jobs_of ex i'.
Proof.
  intros Hp Hne. rewrite <- (insert_delete_id ex p (i, j)) at 2 by done.
  by rewrite jobs_of_insert_ne by (apply lookup_delete_eq || done).
Qed.

Lemma elem_of_jobs ex p i j : ex !! p = Some (i, j) → j ∈ jobs_of ex i.
Proof. intros Hp. rewrite (jobs_of_delete ex p i j Hp). by left. Qed.

(** A session with one operation under way that is pending, or is a job. *)
Lemma whole_pending ex i l k o o' :
  pending (whole ex i l) = [o'] → pending l !! k = Some o →
  o = o' ∧ pending l = [o] ∧ delete k (pending l) = [] ∧ jobs_of ex i = [].
Proof.
  simpl. intros Hw Hk. destruct (pending l) as [|o1 rest]; [by rewrite lookup_nil in Hk|].
  injection Hw as -> [-> Hj]%app_eq_nil. apply list_lookup_singleton_Some in Hk as [-> ->].
  by apply fmap_nil_inv in Hj.
Qed.

Lemma whole_executing ex i l p j o :
  pending (whole ex i l) = [o] → ex !! p = Some (i, j) →
  o = RunJob j ∧ pending l = [] ∧ jobs_of (delete p ex) i = [].
Proof.
  simpl. intros Hw Hp. pose proof (jobs_of_delete ex p i j Hp) as Hj.
  destruct (pending l) as [|o1 rest].
  - simpl in Hw. destruct (jobs_of ex i) as [|j1 [|]]; try done. injection Hw as <-.
    apply Permutation_singleton_l in Hj. injection Hj as -> Hj. done.
  - injection Hw as _ [_ Hn%fmap_nil_inv]%app_eq_nil. rewrite Hn in Hj.
    by apply Permutation_nil_l in Hj.
Qed.
End Executing.
