(* ===== verification/Traffic.v ===== *)
(** * What stands behind the traffic of a session

    Who a session acts for, which request a call of the storage came from and
    which answer a response carries, all read off the packets that went over
    the connection of the session. *)
From stdpp Require Import gmap.
From S2P Require Import Prelude Wire Parser Message Requests Responses Envelope Storage Database.
From S2P Require Import Postgres Growth PostgresSpec Programs Interleaving Isolation Serial Progress Steps.
From S2P Require Import Session Jobs JobCalls Server ConcurrentServer ServerFacts ServerInvariant.
From S2P Require Import ConcurrentFacts.

(** The last element of a list that holds two in a row. *)
Lemma snoc_pair {A} (h h1 h2 : list A) a b x :
  h ++ [x] = h1 ++ a :: b :: h2 →
  x = b ∧ h = h1 ++ [a] ∨ ∃ h3, h2 = h3 ++ [x] ∧ h = h1 ++ a :: b :: h3.
Proof.
  destruct h2 as [|y h2 _] using rev_ind; intros He.
  - rewrite (cons_middle a h1 [b]), app_assoc in He. apply app_inj_tail in He as [-> ->]. by left.
  - rewrite !app_comm_cons, app_assoc in He. apply app_inj_tail in He as [-> ->]. right. eauto.
Qed.

Section Traffic.
Context `{W : WireFormat} `{Mem : Memory} `{P : Pqxx} {L : PqxxLaws P}.
Implicit Types (d : db) (h : list event).

(** The traffic holds a login with the email and the password of a user of
    [d], answered with the profile [st]. *)
Definition authenticated d h (st : ClientState) : Prop :=
  ∃ h1 packet frame h2 r m row,
    h = h1 ++ Received packet :: Sent frame :: h2 ∧
    request_in packet = Some r ∧ request_job r = Some (LoginRequestJob m) ∧
    writes (wrap (login_response (Some st))) frame ∧
    row ∈ Client d ∧ quote_text (LoginRequest.email m) = Some (c_email row) ∧
    c_password_hash row = SHA256 (LoginRequest.password m) ∧
    st = logged_in_as m (c_id row) (c_name row).

(** Who is known to be at the other end after the answer [resp] to the request
    of job [j]: a login that is answered with a profile tells it, and nothing
    else does. *)
Definition known_after (j : job) (resp : Response.t) (known : option ClientState) : option ClientState :=
  match j with
  | LoginRequestJob _ =>
      if Response.has_login_response resp && LoginResponse.has_profile (Response.login_response resp)
      then let profile := LoginResponse.profile (Response.login_response resp) in
           Some (MkClientState (Contact.user_id profile) (Contact.name profile) (Contact.email profile))
      else known
  | _ => known
  end.

(** Who that is, read off the traffic: nobody at first, then the user of the
    last login that was answered with a profile.  A frame is that of one
    response ([writes_unique] in SystemInvariant.v). *)
Inductive known_by : list event → option ClientState → Prop :=
| known_nobody : known_by [] None
| known_received h packet known : known_by h known → known_by (h ++ [Received packet]) known
| known_answered h packet frame r j resp known :
    known_by h known → request_in packet = Some r → request_job r = Some j →
    writes (wrap resp) frame →
    known_by ((h ++ [Received packet]) ++ [Sent frame]) (known_after j resp known).

(** [r] was received when its sender was whom the session says, and its job
    calls [op]. *)
Definition requested d h packet (j : job) (op : option storage_op) (s : ClientSession) : Prop :=
  (∃ r, request_in packet = Some r ∧ request_job r = Some j) ∧ job_call j s = op ∧
  (∀ st, state_ s = Some st → authenticated d h st) ∧ known_by h (state_ s).

(** The call of a request in the traffic. *)
Definition asked d h op : Prop :=
  ∃ h1 packet h2 j s, h = h1 ++ Received packet :: h2 ∧ requested d h1 packet j (Some op) s.

(** What stands behind a response. *)
Definition backed (w : world) h packet frame : Prop :=
  ∃ j s op, requested (shared w) h packet j op s ∧
  match op with
  | Some op => ∃ p result ph seen s' resp,
      calls w !! p = Some (Finished op result ph seen) ∧
      job_response j result s = Some (s', resp) ∧ writes (wrap resp) frame
  | None => writes empty_response frame
  end.

Definition traffic_ok (w : world) h : Prop :=
  ∀ h1 packet frame h2, h = h1 ++ Received packet :: Sent frame :: h2 → backed w h1 packet frame.

(** ** More traffic, and later databases *)

Lemma authenticated_mono d d' h h' st :
  grows d d' → authenticated d h st → authenticated d' (h ++ h') st.
Proof.
  intros Hg (h1 & packet & frame & h2 & r & m & row & -> & H1 & H2 & H3 & H4 & H5).
  exists h1, packet, frame, (h2 ++ h'), r, m, row. rewrite <- app_assoc. simpl.
  split_and!; try done; try apply H5. by eapply grows_client.
Qed.

Lemma authenticated_grows d d' h st : grows d d' → authenticated d h st → authenticated d' h st.
Proof. intros Hg H. rewrite <- (app_nil_r h). by apply (authenticated_mono d). Qed.

(** The last packet, not answered yet, is not that login. *)
Lemma authenticated_before d h packet st :
  authenticated d (h ++ [Received packet]) st → authenticated d h st.
Proof.
  intros (h1 & p & frame & h2 & r & m & row & He & H).
  apply snoc_pair in He as [[? _]|(h3 & _ & ->)]; [done|]. by exists h1, p, frame, h3, r, m, row.
Qed.

Lemma known_before h packet known : known_by (h ++ [Received packet]) known → known_by h known.
Proof.
  inversion 1 as [He|? ? ? Hk He|? ? ? ? ? ? ? ? ? ? ? He].
  - by apply app_cons_not_nil in He.
  - by apply app_inj_tail in He as [-> _].
  - by apply app_inj_tail in He as [_ ?].
Qed.

(** What a job makes of its session. *)
Lemma job_response_known j result s s' resp :
  job_response j result s = Some (s', resp) → state_ s' = known_after j resp (state_ s).
Proof. by destruct j, result as [e|[]]; intros [= <- <-]. Qed.

(** The empty response tells nothing. *)
Lemma known_after_empty j known : known_after j Response.SharedCtor known = known.
Proof. by destruct j. Qed.

Lemma requested_mono d d' h packet j op s :
  grows d d' → requested d h packet j op s → requested d' h packet j op s.
Proof.
  intros Hg (H1 & H2 & H3 & H4). split_and!; [done|done| |done]. intros st Hst.
  by apply (authenticated_grows d), H3.
Qed.

Lemma asked_mono d d' h h' op : grows d d' → asked d h op → asked d' (h ++ h') op.
Proof.
  intros Hg (h1 & packet & h2 & j & s & -> & Hr). exists h1, packet, (h2 ++ h'), j, s.
  rewrite <- app_assoc. split; [done|]. by apply (requested_mono d).
Qed.

Lemma backed_next w w' h packet frame :
  next w w' → backed w h packet frame → backed w' h packet frame.
Proof.
  intros [Hg Hc] (j & s & op & Hr & Hb). exists j, s, op.
  split; [by apply (requested_mono (shared w))|]. destruct op as [op|]; [|done].
  destruct Hb as (p & result & ph & seen & s' & resp & Hp & Hresp).
  exists p, result, ph, seen, s', resp. split; [|done].
  destruct (Hc p _ Hp) as (c' & Hc' & _ & Hsame). rewrite Hc', Hsame by auto. done.
Qed.

Lemma traffic_next w w' h : next w w' → traffic_ok w h → traffic_ok w' h.
Proof. intros Hn Ht h1 packet frame h2 Hh. eapply backed_next; [done|]. by eapply Ht. Qed.

Lemma traffic_received w h packet : traffic_ok w h → traffic_ok w (h ++ [Received packet]).
Proof.
  intros Ht h1 p frame h2 He. apply snoc_pair in He as [[? _]|(h3 & _ & ->)]; [done|]. by eapply Ht.
Qed.

Lemma traffic_sent w h packet frame :
  traffic_ok w h → backed w h packet frame →
  traffic_ok w ((h ++ [Received packet]) ++ [Sent frame]).
Proof.
  intros Ht Hb h1 p f h2 He. apply snoc_pair in He as [[[= <-] He]|(h3 & _ & He)].
  - by apply app_inj_tail in He as [<- [= <-]].
  - by eapply (traffic_received w h packet Ht).
Qed.
End Traffic.
