(* ===== verification/ConcurrentInvariant.v ===== *)
(** * The invariant of the server with concurrent jobs

    In every reachable state the database and the calls keep the invariant of
    [Serial.v], each session has one operation or executing job under way,
    every response in the traffic of a session comes from a call that has
    returned, and whoever is logged in, or calls the storage under an
    identifier, has sent the password of that user over the same connection
    before. *)
From stdpp Require Import gmap.
From S2P Require Import Prelude Wire Parser Message Requests Responses Envelope Storage Database.
From S2P Require Import Postgres Growth PostgresSpec Programs Interleaving Isolation Serial Progress Steps.
From S2P Require Import Session Jobs JobCalls Server ConcurrentServer ServerFacts ServerInvariant.
From S2P Require Import ConcurrentFacts Traffic.

Section Invariant.
Context `{W : WireFormat} `{Mem : Memory} `{P : Pqxx} {L : PqxxLaws P}.

(** What a link keeps, as long as the process lives. *)
Record clink_ok (w : world) (ex : gmap nat (nat * job)) (i : nat) (l : link) : Prop := {
  cl_link : link_ok (whole ex i l);
  cl_traffic : traffic_ok w (history l);
  cl_profile st : state_ (session l) = Some st → authenticated (shared w) (history l) st;
  cl_known : known_by (history l) (state_ (session l))
}.

Record cserver_ok (d : db) (sv : cserver) : Prop := {
  co_world : world_ok d (database sv);
  co_busy : (busy (database sv) ≤ WORKER_THREADS)%nat;
  co_seen : seen_ok (database sv);
  co_fresh i : (accepted (front sv) ≤ i)%nat → links (front sv) !! i = None;
  co_exec p i j : executing sv !! p = Some (i, j) → ∃ l c,
    links (front sv) !! i = Some l ∧ calls (database sv) !! p = Some c ∧ running c ∧
    job_call j (session l) = Some (op_of c);
  co_running p : is_running (database sv) p → is_Some (executing sv !! p);
  co_asked p c : calls (database sv) !! p = Some c →
    ∃ i l, links (front sv) !! i = Some l ∧ asked (shared (database sv)) (history l) (op_of c);
  co_link i l : down (front sv) = false → links (front sv) !! i = Some l →
    clink_ok (database sv) (executing sv) i l
}.

Lemma clink_next w w' ex i l : next w w' → clink_ok w ex i l → clink_ok w' ex i l.
Proof.
  intros Hn [H1 H2 H3 H4]. split; [done|by eapply traffic_next| |done]. intros st Hst.
  eapply authenticated_grows; [apply Hn|auto].
Qed.

Lemma cserver_ok_initial d : tables_ok d → cserver_ok d (cinitial d).
Proof.
  intros Hd. split; simpl.
  - by apply quiet_ok.
  - vm_compute. lia.
  - apply quiet_seen.
  - done.
  - intros p i j He. by apply lookup_empty_Some in He.
  - intros p (c & Hc & _). simpl in Hc. by apply lookup_empty_Some in Hc.
  - intros p c Hc. by apply lookup_empty_Some in Hc.
  - intros i l _ Hl. by apply lookup_empty_Some in Hl.
Qed.
End Invariant.

(** ** Handlers of the event loop *)

Section Handlers.
Context `{W : WireFormat} `{Mem : Memory} `{P : Pqxx} {L : PqxxLaws P}.

(** Over a storage it does not call. *)
Lemma complete_local o c s s' out (db : conn) :
  local_complete o c s = Some (s', out) → complete o c s db = (s', db, out).
Proof.
  destruct o as [|n|data|j]; simpl; [by intros [= ->]..|].
  rewrite run_job_factored. destruct (job_call j s); [done|]. by intros [= ->].
Qed.

Lemma local_link l o c s out :
  stopped_ (session l) = false → phase_ok o (session l) (history l) →
  local_complete o c (session l) = Some (s, out) →
  throws out = true ∨ link_ok (after_complete l [] o s out).
Proof.
  intros Hs Hp Hc. pose proof (complete_link l o c (Conn empty_db empty_db None) Hs Hp) as H.
  rewrite (complete_local _ _ _ _ _ _ Hc) in H. apply H.
Qed.

(** What such a handler adds to the traffic: nothing, a packet, or the empty
    response to a guest. *)
Lemma local_events o c s s' out :
  stopped_ s = false → local_complete o c s = Some (s', out) →
  received o s' out ++ omap sent out = [] ∨
  (∃ packet, received o s' out ++ omap sent out = [Received packet]) ∨
  (∃ j frame, o = RunJob j ∧ j ≠ ParseCommandJob ∧ job_call j s = None ∧
     writes empty_response frame ∧ received o s' out ++ omap sent out = [Sent frame]).
Proof.
  intros Hs. destruct o as [|n|data|j]; simpl; [intros [= H]..|].
  - pose proof (on_read_prefix_proceeds (err c) (zlen (data_read c)) (fill_buffer c s) Hs) as Hp.
    rewrite H in Hp. by destruct Hp as [[_ Ho]|[_ [Ho|(a & Ho & n & ->)]]]; simpl in Ho; subst out; left.
  - pose proof (on_read_message_proceeds (err c) (zlen (data_read c)) n (fill_buffer c s) Hs) as Hp.
    rewrite H in Hp.
    destruct Hp as [[_ Ho]|[_ [Ho|(a & Ho & ->)]]]; simpl in Ho; subst out; simpl; eauto.
  - pose proof (on_write_proceeds (err c) s Hs) as Hp.
    rewrite H in Hp. by destruct Hp as [[_ Ho]|[_ [Ho|(a & Ho & ->)]]]; simpl in Ho; subst out; left.
  - destruct (job_call j s) eqn:Hj; [done|]. intros [= H].
    assert (j = ParseCommandJob ∨ j ≠ ParseCommandJob) as [->|Hne] by (destruct j; auto).
    + pose proof (parse_command_proceeds s Hs) as Hp. simpl in H. rewrite H in Hp.
      by destruct Hp as [[_ Ho]|[_ [Ho|(a & Ho & r & j & _ & _ & ->)]]]; simpl in Ho; subst out; left.
    + destruct (write_proceeds empty_response s Hs) as (Hp & _).
      replace (job_alone j s) with (write empty_response s) in H by (by destruct j).
      rewrite H in Hp.
      destruct Hp as [[_ Ho]|[_ [Ho|(a & Ho & data & -> & Hw)]]]; simpl in Ho; subst out; simpl; auto.
      right. right. eauto 8.
Qed.
End Handlers.

(** ** Steps *)

Section Steps.
Context `{W : WireFormat} `{Mem : Memory} `{P : Pqxx} {L : PqxxLaws P}.
Implicit Types (sv : cserver).

(** One session, and the database, change. *)
Lemma with_link_ok d sv i l l' h' w ex dn :
  cserver_ok d sv → links (front sv) !! i = Some l → down (front sv) = false →
  history l' = history l ++ h' →
  world_ok d w → (busy w ≤ WORKER_THREADS)%nat → seen_ok w → next (database sv) w →
  (∀ p i0 j, ex !! p = Some (i0, j) → is_running w p ∧
     (executing sv !! p = Some (i0, j) ∧ (i0 = i → job_call j (session l') = job_call j (session l)) ∨
      i0 = i ∧ ∃ c, calls w !! p = Some c ∧ job_call j (session l') = Some (op_of c))) →
  (∀ p, is_running w p → is_Some (ex !! p)) →
  (∀ p c, calls w !! p = Some c →
     is_Some (calls (database sv) !! p) ∨ asked (shared w) (history l') (op_of c)) →
  (∀ i', i ≠ i' → jobs_of ex i' = jobs_of (executing sv) i') →
  (dn = false → clink_ok w ex i l') →
  cserver_ok d (with_link sv i l' w ex dn).
Proof.
  intros Hok Hl Hdown Hh Hw Hb Hseen Hn Hex Hrun Hask Hjobs Hlink.
  assert (∀ p c, calls w !! p = Some c → is_Some (calls (database sv) !! p) →
    ∃ c0, calls (database sv) !! p = Some c0 ∧ op_of c = op_of c0) as Hsame.
  { intros p c Hp [c0 Hc0]. destruct (next_call _ _ Hn p c0 Hc0) as (c' & Hc' & Ho & _).
    exists c0. split; [done|congruence]. }
  split; unfold with_link, database; simpl; [done..| | | | |].
  - intros i0 Hi0. rewrite lookup_insert_ne; [by apply Hok|]. intros ->.
    by rewrite (co_fresh _ _ Hok) in Hl.
  - intros p i0 j Hp. destruct (Hex p i0 j Hp) as [(c & Hc & Hr) [[Hold Hsess]|(-> & c' & Hc' & Hcall)]].
    + destruct (co_exec _ _ Hok p i0 j Hold) as (l0 & c0 & Hl0 & Hc0 & _ & Hcall).
      destruct (Hsame p c Hc (mk_is_Some _ _ Hc0)) as (c1 & Hc1 & Hop).
      rewrite Hc0 in Hc1. injection Hc1 as <-.
      destruct (decide (i0 = i)) as [->|Hne].
      * rewrite lookup_insert_eq. exists l', c. split_and!; try done.
        rewrite Hsess, Hop by done. rewrite Hl in Hl0. by injection Hl0 as <-.
      * rewrite lookup_insert_ne by done. exists l0, c. by rewrite Hop.
    + rewrite lookup_insert_eq. exists l', c'. split_and!; try done. congruence.
  - done.
  - intros p c Hp. destruct (Hask p c Hp) as [Hold|Hnew].
    + destruct (Hsame p c Hp Hold) as (c0 & Hc0 & ->).
      destruct (co_asked _ _ Hok p c0 Hc0) as (i0 & l0 & Hl0 & Ha).
      apply (asked_mono _ (shared w) _ []) in Ha as Ha0; [|apply Hn]. rewrite app_nil_r in Ha0.
      destruct (decide (i0 = i)) as [->|Hne].
      * exists i, l'. rewrite lookup_insert_eq. split; [done|]. rewrite Hl in Hl0. injection Hl0 as <-.
        rewrite Hh. apply (asked_mono (shared (database sv))); [apply Hn|done].
      * exists i0, l0. by rewrite lookup_insert_ne by done.
    + exists i, l'. by rewrite lookup_insert_eq.
  - intros i0 l0 Hdn. rewrite lookup_insert_Some. intros [[<- <-]|[Hne Hl0]]; [by apply Hlink|].
    destruct (clink_next _ w _ _ _ Hn (co_link _ _ Hok i0 l0 Hdown Hl0)) as [H1 H2 H3 H4].
    split; try done. unfold whole. by rewrite Hjobs.
Qed.

(** The operation of a link that completes, or a job that ends. *)
Lemma link_running w ex i l o :
  clink_ok w ex i l → o ∈ pending (whole ex i l) →
  stopped_ (session l) = false ∧ pending (whole ex i l) = [o] ∧ phase_ok o (session l) (history l).
Proof.
  intros [Hl _ _ _] Ho. unfold link_ok in Hl. simpl in Hl.
  destruct (stopped_ (session l)).
  - destruct Hl as [Hp _]. simpl in Ho. rewrite Hp in Ho. by apply elem_of_nil in Ho.
  - destruct Hl as (o' & Hp & Hph). simpl in Ho. rewrite Hp in Ho.
    apply list_elem_of_singleton in Ho as ->. done.
Qed.

Lemma pending_whole ex i l k o : pending l !! k = Some o → o ∈ pending (whole ex i l).
Proof. intros Hk. simpl. apply elem_of_app. left. by eapply list_elem_of_lookup_2. Qed.

Lemma executing_whole ex i l p j : ex !! p = Some (i, j) → RunJob j ∈ pending (whole ex i l).
Proof.
  intros Hp. simpl. apply elem_of_app. right. apply list_elem_of_fmap_2. by eapply elem_of_jobs.
Qed.

(** The request of a job under way. *)
Lemma phase_request j s h : j ≠ ParseCommandJob → phase_ok (RunJob j) s h →
  ∃ d r, serving d h ∧ request_in d = Some r ∧ request_job r = Some j.
Proof. by destruct j. Qed.

(** A guest's request is answered by the empty response. *)
Lemma guest_backed w ex i l j frame :
  clink_ok w ex i l → job_call j (session l) = None → j ≠ ParseCommandJob →
  phase_ok (RunJob j) (session l) (history l) → writes empty_response frame →
  ∃ h packet, history l = h ++ [Received packet] ∧ backed w h packet frame.
Proof.
  intros Hl Hj Hne Hp Hw. apply phase_request in Hp as (d & r & (h & Hh & _) & Hr & Hrj); [|done].
  exists h, d. split; [done|]. exists j, (session l), None. split; [|done].
  pose proof (cl_known _ _ _ _ Hl) as Hk. rewrite Hh in Hk.
  split_and!; [by exists r|done| |by eapply known_before]. intros st Hst.
  apply (authenticated_before _ _ d). rewrite <- Hh. by apply Hl.
Qed.

Lemma traffic_before w h h' : traffic_ok w (h ++ h') → traffic_ok w h.
Proof.
  intros Ht h1 p f h2 ->. apply (Ht h1 p f (h2 ++ h')). by rewrite <- app_assoc.
Qed.

Lemma local_clink w ex i l k o c s out :
  clink_ok w ex i l → pending l !! k = Some o → local_complete o c (session l) = Some (s, out) →
  throws out = false → clink_ok w ex i (after_complete l (delete k (pending l)) o s out).
Proof.
  intros Hl Hk Hc Ht.
  destruct (link_running _ _ _ _ o Hl (pending_whole _ _ _ _ _ Hk)) as (Hs & Hwh & Hp).
  destruct (whole_pending _ _ _ _ _ _ Hwh Hk) as (_ & _ & -> & Hj).
  pose proof (local_events _ _ _ _ _ Hs Hc) as Hev. split.
  - destruct (local_link l o c s out Hs Hp Hc) as [Ht'|Hlk]; [congruence|].
    unfold whole. by rewrite Hj, app_nil_r.
  - simpl. destruct Hev as [->|[[packet ->]|(j & frame & -> & Hne & Hjc & Hw & ->)]].
    + rewrite app_nil_r. apply Hl.
    + apply traffic_received, Hl.
    + destruct (guest_backed _ _ _ _ _ _ Hl Hjc Hne Hp Hw) as (h & packet & Hh & Hb).
      pose proof (cl_traffic _ _ _ _ Hl) as Htr. rewrite Hh in *.
      apply traffic_sent; [by eapply traffic_before|done].
  - simpl. rewrite (local_state _ _ _ _ _ Hs Hc). intros st Hst.
    apply (authenticated_mono (shared w)); [done|by apply Hl].
  - simpl. rewrite (local_state _ _ _ _ _ Hs Hc). pose proof (cl_known _ _ _ _ Hl) as Hkn.
    destruct Hev as [->|[[packet ->]|(j & frame & -> & Hne & Hjc & Hw & ->)]].
    + by rewrite app_nil_r.
    + by apply known_received.
    + apply phase_request in Hp as (d & r & (h & Hh & _) & Hr & Hrj); [|done]. rewrite Hh in *.
      rewrite <- (known_after_empty j (state_ (session l))). eapply known_answered; [|done..|exact Hw].
      by eapply known_before.
Qed.

Lemma handle_local_ok d i k c sv sv' :
  handle_local i k c sv = Some sv' → cserver_ok d sv → cserver_ok d sv'.
Proof.
  unfold handle_local. intros Hh Hok. destruct (down (front sv)) eqn:Hd; [done|].
  destruct (links (front sv) !! i) as [l|] eqn:Hl; [|done]. simpl in Hh.
  destruct (pending l !! k) as [o|] eqn:Hk; [|done]. simpl in Hh.
  destruct (_ && _); [|done].
  destruct (local_complete o c (session l)) as [[s out]|] eqn:Hc; [|done]. injection Hh as <-.
  pose proof (co_link _ _ Hok i l Hd Hl) as Hlk.
  destruct (link_running _ _ _ _ o Hlk (pending_whole _ _ _ _ _ Hk)) as (Hs & Hwh & _).
  destruct (whole_pending _ _ _ _ _ _ Hwh Hk) as (_ & _ & _ & Hj).
  eapply with_link_ok; try apply Hok; try done.
  - intros p i0 j Hp. destruct (co_exec _ _ Hok p i0 j Hp) as (l0 & c0 & _ & Hc0 & Hr & _).
    split; [by exists c0|]. left. split; [done|]. intros ->.
    apply elem_of_jobs in Hp. rewrite Hj in Hp. by apply elem_of_nil in Hp.
  - intros p c0 Hp. left. by exists c0.
  - intros Ht. by apply (local_clink _ _ _ l k o c).
Qed.

(** What a job asks for was requested by its user. *)
Lemma job_asked w ex i l j op :
  clink_ok w ex i l → phase_ok (RunJob j) (session l) (history l) →
  job_call j (session l) = Some op →
  ∃ h packet, history l = h ++ [Received packet] ∧
    requested (shared w) h packet j (Some op) (session l).
Proof.
  intros Hl Hp Hj. apply phase_request in Hp as (d & r & (h & Hh & _) & Hr & Hrj); [|by destruct j].
  pose proof (cl_known _ _ _ _ Hl) as Hk. rewrite Hh in Hk. exists h, d. split; [done|].
  split_and!; [by exists r|done| |by eapply known_before]. intros st Hst.
  apply (authenticated_before _ _ d). rewrite <- Hh. by apply Hl.
Qed.

Lemma start_job_ok d i k p sv sv' :
  start_job i k p sv = Some sv' → cserver_ok d sv → cserver_ok d sv'.
Proof.
  unfold start_job. intros Hh Hok. destruct (down (front sv)) eqn:Hd; [done|].
  destruct (links (front sv) !! i) as [l|] eqn:Hl; [|done]. simpl in Hh.
  destruct (pending l !! k) as [o|] eqn:Hk; [|done]. simpl in Hh.
  destruct o as [|n|data|j]; try done.
  destruct (job_call j (session l)) as [op|] eqn:Hj; [|done]. simpl in Hh.
  destruct (begin_call p op (database sv)) as [w|] eqn:Hw; [|done]. injection Hh as <-.
  pose proof (co_link _ _ Hok i l Hd Hl) as Hlk.
  destruct (link_running _ _ _ _ _ Hlk (pending_whole _ _ _ _ _ Hk)) as (Hs & Hwh & Hph).
  destruct (whole_pending _ _ _ _ _ _ Hwh Hk) as (_ & Hpend & Hdel & Hjobs).
  destruct (begin_call_now _ _ _ _ Hw) as [Hnone Hnow].
  assert (world_step (Call p op) (database sv) = Some w) as Hst by done.
  assert (executing sv !! p = None) as Hfree.
  { destruct (executing sv !! p) as [[i0 j0]|] eqn:He; [|done].
    destruct (co_exec _ _ Hok p i0 j0 He) as (? & ? & _ & Hc & _). congruence. }
  pose proof (step_next _ _ _ Hst) as Hn.
  eapply (with_link_ok d sv i l _ []); try done; simpl.
  - by rewrite app_nil_r.
  - eapply world_step_ok; [apply Hok|done].
  - eapply busy_step; [done|apply Hok].
  - eapply step_seen; [done|apply Hok].
  - intros q i0 j0. rewrite lookup_insert_Some. intros [[<- [= <- <-]]|[Hne Hq]].
    + split; [by eexists|]. right. split; [done|]. by eexists.
    + destruct (co_exec _ _ Hok q i0 j0 Hq) as (l0 & c0 & _ & Hc0 & Hr & _).
      split; [|by left]. eapply step_still_running; [exact Hst|done|by exists c0].
  - intros q Hq. destruct (decide (p = q)) as [->|Hne]; [by rewrite lookup_insert_eq|].
    rewrite lookup_insert_ne by done.
    destruct (step_running _ _ _ q Hst Hq) as [Hr|[op' [= Heq]]]; [by apply (co_running _ _ Hok)|done].
  - intros q c Hc. destruct (step_call _ _ _ _ _ Hst Hc) as [|[op' [= <- _]]]; [by left|right].
    rewrite Hnow in Hc. injection Hc as <-. simpl.
    destruct (job_asked _ _ _ _ _ _ Hlk Hph Hj) as (h & packet & Hh & Hr).
    exists h, packet, [], j, (session l). split; [done|].
    apply (requested_mono (shared (database sv))); [apply Hn|done].
  - intros i' Hne. by apply jobs_of_insert_ne.
  - intros _. apply (clink_next _ w) in Hlk as [H1 H2 H3 H4]; [|done]. split; try done.
    revert H1. unfold whole. simpl. rewrite Hpend in *. rewrite Hdel.
    replace (jobs_of (<[p := (i, j)]> (executing sv)) i) with [j]; [by rewrite Hjobs|].
    symmetry. apply Permutation_singleton_r. rewrite jobs_of_insert by done. by rewrite Hjobs.
Qed.
End Steps.

Section MoreSteps.
Context `{W : WireFormat} `{Mem : Memory} `{P : Pqxx} {L : PqxxLaws P}.
Implicit Types (sv : cserver).

Lemma database_step_ok d ev sv sv' :
  database_step ev sv = Some sv' → cserver_ok d sv → cserver_ok d sv'.
Proof.
  unfold database_step. intros Hh Hok. destruct (down (front sv)) eqn:Hd; [done|].
  assert (∃ w, world_step ev (database sv) = Some w ∧ (∀ p op, ev ≠ Call p op) ∧
    (∀ p, ev ≠ Return p) ∧
    sv' = CServer (Server (links (front sv)) (accepted (front sv)) (accepting (front sv)) w false)
            (executing sv)) as (w & Hst & Hcall & Hret & ->).
  { destruct ev; try done; destruct (world_step _ _) as [w|]; try done; injection Hh as <-; eauto. }
  clear Hh. pose proof (step_next _ _ _ Hst) as Hn.
  assert (∀ p, is_running w p → is_running (database sv) p) as Hback.
  { intros p Hp. destruct (step_running _ _ _ p Hst Hp) as [|[op ->]]; [done|by destruct (Hcall p op)]. }
  split; unfold database; simpl.
  - eapply world_step_ok; [apply Hok|done].
  - eapply busy_step; [done|apply Hok].
  - eapply step_seen; [done|apply Hok].
  - apply Hok.
  - intros p i j Hp. destruct (co_exec _ _ Hok p i j Hp) as (l & c & Hl & Hc & Hr & Hop).
    destruct (step_still_running _ _ _ p Hst (Hret p)) as (c' & Hc' & Hr'); [by exists c|].
    destruct (next_call _ _ Hn p c Hc) as (c1 & Hc1 & Ho & _). rewrite Hc' in Hc1. injection Hc1 as <-.
    exists l, c'. by rewrite Ho.
  - intros p Hp. by apply (co_running _ _ Hok), Hback.
  - intros p c Hc. destruct (step_call _ _ _ _ _ Hst Hc) as [[c0 H0]|[op Heq]]; [|by destruct (Hcall p op)].
    destruct (next_call _ _ Hn p c0 H0) as (c' & Hc' & Ho & _). rewrite Hc in Hc'. injection Hc' as <-.
    destruct (co_asked _ _ Hok p c0 H0) as (i & l & Hl & Ha). exists i, l. split; [done|].
    rewrite Ho, <- (app_nil_r (history l)). by apply (asked_mono (shared (database sv))); [apply Hn|].
  - intros i l _ Hl. eapply clink_next; [done|]. by apply (co_link _ _ Hok).
Qed.

Lemma accept_keeps_ok d error f sv :
  handle_accept error (front sv) = Some f → cserver_ok d sv →
  cserver_ok d (CServer f (executing sv)).
Proof.
  unfold handle_accept. intros Hh Hok. destruct (down (front sv)) eqn:Hd; [done|].
  destruct (negb (accepting (front sv))); [done|].
  destruct error; [injection Hh as <-; destruct Hok; by split|].
  pose proof start_link as Hs. destruct (start new_session) as [s out]. injection Hh as <-.
  destruct Hs as [Hs Hl]. set (n := accepted (front sv)) in *.
  pose proof (co_fresh _ _ Hok n (le_n _)) as Hfree.
  assert (∀ i l, links (front sv) !! i = Some l → i ≠ n) as Hother by (intros i l Hi ->; congruence).
  split; unfold database; simpl; try apply Hok.
  - intros i Hi. rewrite lookup_insert_ne by lia. apply Hok. fold n. lia.
  - intros p i j Hp. destruct (co_exec _ _ Hok p i j Hp) as (l & c & Hli & H). exists l, c.
    rewrite lookup_insert_ne; [done|]. intros <-. by apply (Hother n l).
  - intros p c Hc. destruct (co_asked _ _ Hok p c Hc) as (i & l & Hli & H). exists i, l.
    rewrite lookup_insert_ne; [done|]. intros <-. by apply (Hother n l).
  - intros i l Ht. rewrite lookup_insert_Some. intros [[<- <-]|[_ Hli]]; [|by apply Hok].
    destruct Hl as [Hl|Hl]; [by rewrite Ht in Hl|]. split.
    + unfold whole. rewrite jobs_of_none; [by rewrite app_nil_r|]. intros p [i j] Hp. simpl. intros ->.
      destruct (co_exec _ _ Hok p _ j Hp) as (l & c & Hli & _). by apply (Hother n l).
    + intros h1 packet frame h2 He. by destruct h1.
    + simpl. by rewrite Hs.
    + simpl. rewrite Hs. apply known_nobody.
Qed.
End MoreSteps.

Section End.
Context `{W : WireFormat} `{Mem : Memory} `{P : Pqxx} {L : PqxxLaws P}.
Implicit Types (sv : cserver).

(** A login that succeeded names a user of the database. *)
Lemma login_row w p email password id name ph seen :
  seen_ok w → calls w !! p = Some (Finished (Login email password) (inr (UserFound id name)) ph seen) →
  login_claim email password (states_of seen) ph (inr (UserFound id name)) →
  ∃ row, row ∈ Client (shared w) ∧ quote_text email = Some (c_email row) ∧
    c_password_hash row = SHA256 password ∧ id = c_id row ∧ name = c_name row.
Proof.
  intros Hseen Hp (x & e & row & (x0 & Hx0 & (Hcl & _)) & He & Hrow & <- & Hh & [= -> ->]).
  exists row. split_and!; try done. rewrite Hcl in Hrow.
  eapply grows_client; [|exact Hrow]. eapply Hseen; [exact Hp|done].
Qed.

(** The response of a job that ends. *)
Lemma end_backed w ex i l p j op result ph seen s out :
  clink_ok w ex i l → ex !! p = Some (i, j) → job_call j (session l) = Some op →
  promise op (states_of seen) ph result → job_end j result (session l) = (s, out) →
  out = [Throw] ∨ ∃ h packet frame r s' resp, out = [AsyncWrite frame] ∧
    history l = h ++ [Received packet] ∧ answered h ∧
    requested (shared w) h packet j (Some op) (session l) ∧
    request_in packet = Some r ∧ request_job r = Some j ∧ response_matches r resp ∧
    job_response j result (session l) = Some (s', resp) ∧ writes (wrap resp) frame ∧
    stopped_ s = false ∧ state_ s = state_ s' ∧
    (state_ s' = state_ (session l) ∨ ∃ m id name, j = LoginRequestJob m ∧
       op = Login (LoginRequest.email m) (LoginRequest.password m) ∧
       result = inr (UserFound id name) ∧ state_ s' = Some (logged_in_as m id name) ∧
       resp = login_response (Some (logged_in_as m id name))).
Proof.
  intros Hl Hex Hj Hpr He.
  destruct (link_running _ _ _ _ _ Hl (executing_whole _ _ l _ _ Hex)) as (Hs & _ & Hph).
  destruct (job_asked _ _ _ _ _ _ Hl Hph Hj) as (h & packet & Hh & Hreq).
  destruct Hreq as ((r & Hr & Hrj) & _ & Hauth & Hknown).
  destruct (job_end_writes r j op result (session l) Hs Hrj Hj (promise_fits _ _ _ _ Hpr))
    as (s' & resp & Hresp & Hm & Hrun & Hst & Hout & Hlog).
  rewrite He in Hrun, Hst, Hout. simpl in Hrun, Hst, Hout.
  destruct Hout as [->|(frame & -> & Hw)]; [by left|]. right.
  exists h, packet, frame, r, s', resp. split_and!; try done.
  - destruct (phase_request _ _ _ (job_call_not_parse _ _ _ Hj) Hph) as (d' & r' & (h' & Hh' & Ha) & _).
    rewrite Hh in Hh'. by apply app_inj_tail in Hh' as [<- _].
  - split_and!; [by exists r|done..].
Qed.

(** The link of a job that wrote its response. *)
Lemma end_clink w ex i l p j op result ph seen s out :
  clink_ok w ex i l → seen_ok w → ex !! p = Some (i, j) →
  job_call j (session l) = Some op → calls w !! p = Some (Finished op result ph seen) →
  promise op (states_of seen) ph result →
  job_end j result (session l) = (s, out) → throws out = false →
  clink_ok w (delete p ex) i (after_complete l (pending l) (RunJob j) s out).
Proof.
  intros Hl Hseen Hex Hj Hp Hpr He Ht.
  destruct (link_running _ _ _ _ _ Hl (executing_whole _ _ l _ _ Hex)) as (_ & Hwh & _).
  destruct (whole_executing _ _ _ _ _ _ Hwh Hex) as (_ & Hpend & Hjobs).
  destruct (end_backed _ _ _ _ _ _ _ _ _ _ _ _ Hl Hex Hj Hpr He)
    as [->|(h & packet & frame & r & s' & resp & -> & Hh & Ha & Hreq & Hr & Hrj & Hm & Hresp & Hw &
            Hrun & Hst & Hlog)]; [done|]. rewrite Hpend.
  pose proof (cl_traffic _ _ _ _ Hl) as Htr. split.
  - unfold whole, link_ok. rewrite Hjobs. simpl. rewrite Hrun. eexists. split; [done|].
    eapply serving_answered; [by exists h|by exists r, resp].
  - simpl. rewrite Hh in *. apply traffic_sent; [by eapply traffic_before|].
    exists j, (session l), (Some op). split; [done|]. by exists p, result, ph, seen, s', resp.
  - simpl. rewrite Hst. intros st Hs'. destruct Hlog as [Hsame|(m & id & name & -> & -> & -> & Hst' & ->)].
    + apply (authenticated_mono (shared w)); [done|]. apply Hl. congruence.
    + rewrite Hst' in Hs'. injection Hs' as <-.
      destruct (login_row _ _ _ _ _ _ _ _ Hseen Hp Hpr) as (row & Hrow & Hq & Hpw & -> & ->).
      exists h, packet, frame, [], r, m, row. rewrite Hh, <- app_assoc. by split_and!.
  - simpl. rewrite Hst, (job_response_known _ _ _ _ _ Hresp), Hh.
    eapply known_answered; [|done..|exact Hw]. by apply Hreq.
Qed.

Lemma end_job_ok d p sv sv' : end_job p sv = Some sv' → cserver_ok d sv → cserver_ok d sv'.
Proof.
  unfold end_job. intros Hh Hok. destruct (down (front sv)) eqn:Hd; [done|].
  destruct (executing sv !! p) as [[i j]|] eqn:Hex; [|done]. simpl in Hh.
  destruct (links (front sv) !! i) as [l|] eqn:Hl; [|done]. simpl in Hh.
  destruct (return_call p (database sv)) as [w|] eqn:Hw; [|done]. simpl in Hh.
  destruct (calls w !! p) as [[|op result ph seen]|] eqn:Hp; try done.
  destruct (job_end j result (session l)) as [s out] eqn:He. injection Hh as <-.
  assert (world_step (Return p) (database sv) = Some w) as Hst by done.
  pose proof (step_next _ _ _ Hst) as Hn.
  assert (world_ok d w) as Hwok by (eapply world_step_ok; [apply Hok|done]).
  assert (seen_ok w) as Hseen by (eapply step_seen; [done|apply Hok]).
  destruct (co_exec _ _ Hok p i j Hex) as (l0 & c & Hl0 & Hc & Hrun & Hj).
  rewrite Hl in Hl0. injection Hl0 as <-.
  destruct (next_call _ _ Hn p c Hc) as (c' & Hc' & Hop & _). rewrite Hp in Hc'. injection Hc' as <-.
  simpl in Hop. rewrite <- Hop in Hj.
  pose proof (clink_next _ _ _ _ _ Hn (co_link _ _ Hok i l Hd Hl)) as Hlk.
  destruct (link_running _ _ _ _ _ Hlk (executing_whole _ _ l _ _ Hex)) as (_ & Hwh & _).
  destruct (whole_executing _ _ _ _ _ _ Hwh Hex) as (_ & _ & Hjobs).
  eapply with_link_ok; try done.
  - eapply busy_step; [done|apply Hok].
  - intros q i0 j0. rewrite lookup_delete_Some. intros [Hne Hq].
    destruct (co_exec _ _ Hok q i0 j0 Hq) as (l1 & c1 & _ & Hc1 & Hr1 & _).
    split; [eapply step_still_running; [exact Hst|congruence|by exists c1]|]. left. split; [done|].
    intros ->. exfalso.
    assert (delete p (executing sv) !! q = Some (i, j0)) as Hq' by (by rewrite lookup_delete_ne).
    apply elem_of_jobs in Hq'. rewrite Hjobs in Hq'. by apply elem_of_nil in Hq'.
  - intros q Hq. destruct (decide (p = q)) as [->|Hne].
    + destruct Hq as (c1 & Hc1 & Hr1). rewrite Hp in Hc1. by injection Hc1 as <-.
    + rewrite lookup_delete_ne by done.
      destruct (step_running _ _ _ q Hst Hq) as [Hr|[? ?]]; [by apply (co_running _ _ Hok)|done].
  - intros q c1 Hc1. left. by destruct (step_call _ _ _ _ _ Hst Hc1) as [|[? ?]].
  - intros i' Hne. by eapply jobs_of_delete_ne.
  - intros Ht. eapply end_clink; try done. exact (world_calls _ _ Hwok p _ Hp).
Qed.

(** Every step keeps the invariant. *)
Lemma cstep_ok d sv sv' : cstep sv sv' → cserver_ok d sv → cserver_ok d sv'.
Proof.
  intros [[error| |i k c|i k p|ev|p] Hh]; simpl in Hh.
  - apply fmap_Some in Hh as (f & Hf & ->). by eapply accept_keeps_ok.
  - apply fmap_Some in Hh as (f & Hf & ->). unfold signal_handler in Hf.
    destruct (down (front sv)) eqn:Hd; [done|]. injection Hf as <-. intros Hok.
    split; unfold database; simpl; try apply Hok. intros i l _. by apply (co_link _ _ Hok).
  - by apply (handle_local_ok d i k c).
  - by apply (start_job_ok d i k p).
  - by apply (database_step_ok d ev).
  - by apply (end_job_ok d p).
Qed.

Lemma creachable_ok d sv : tables_ok d → creachable d sv → cserver_ok d sv.
Proof.
  intros Hd Hr. apply cserver_ok_initial in Hd. revert Hd. unfold creachable in Hr.
  induction Hr as [sv|sv1 sv2 sv3 Hs _ IH]; [done|]. intros Hok. apply IH. by eapply cstep_ok.
Qed.
End End.
