(* ===== verification/ConcurrentProgress.v ===== *)
(** * Concurrent jobs come to an end

    The steps of the server are, for its database, a schedule of
    [Interleaving.v], so that a job makes a bounded number of them; and as
    long as there is a job some worker can take a step. *)
From stdpp Require Import gmap.
From S2P Require Import Prelude Wire Parser Message Requests Responses Envelope Storage Database.
From S2P Require Import Postgres Growth Programs Interleaving Isolation Serial Progress Steps.
From S2P Require Import Session Jobs JobCalls Server ConcurrentServer ServerFacts ServerInvariant.
From S2P Require Import ConcurrentFacts Traffic ConcurrentInvariant.

Section Progress.
Context `{W : WireFormat} `{Mem : Memory} `{P : Pqxx} {L : PqxxLaws P}.
Implicit Types (sv : cserver) (d : db).

(** The call an event goes on with. *)
Definition cmover (ev : cinput) : option nat :=
  match ev with CDatabase ev => mover ev | CEnd p => Some p | _ => None end.

Definition cmoves (p : nat) (evs : list cinput) : nat :=
  length (filter (λ ev, cmover ev = Some p) evs).

(** A step is at most one step of the database, of the same call. *)
Lemma chandle_schedule ev sv sv' : chandle ev sv = Some sv' →
  ∃ wevs, schedule wevs (database sv) = Some (database sv') ∧
    ∀ p, moves p wevs = cmoves p [ev].
Proof.
  intros Hh. unfold cmoves, moves.
  assert (∀ wev w, world_step wev (database sv) = Some w → mover wev = cmover ev →
    database sv' = w → ∃ wevs, schedule wevs (database sv) = Some (database sv') ∧
      ∀ p, moves p wevs = cmoves p [ev]) as Hone.
  { intros wev w Hst Hm ->. exists [wev]. simpl. rewrite Hst. split; [done|]. intros p.
    unfold moves, cmoves. rewrite !filter_cons, Hm. by case_decide. }
  assert (cmover ev = None → database sv' = database sv →
    ∃ wevs, schedule wevs (database sv) = Some (database sv') ∧
      ∀ p, moves p wevs = cmoves p [ev]) as Hnone.
  { intros Hm ->. exists []. split; [done|]. intros p. unfold moves, cmoves.
    by rewrite filter_cons, Hm. }
  destruct ev as [error| |i k c|i k p|ev|p]; simpl in Hh.
  - apply fmap_Some in Hh as (f & Hf & ->). apply Hnone; [done|]. unfold handle_accept in Hf.
    repeat case_match; try done; by injection Hf as <-.
  - apply fmap_Some in Hh as (f & Hf & ->). apply Hnone; [done|]. unfold signal_handler in Hf.
    case_match; [done|]. by injection Hf as <-.
  - apply Hnone; [done|]. unfold handle_local in Hh. destruct (down _); [done|].
    apply bind_Some in Hh as (l & _ & (o & _ & Hh)%bind_Some).
    destruct (_ && _); [|done]. apply bind_Some in Hh as ([s out] & _ & Hh). by injection Hh as <-.
  - unfold start_job in Hh. destruct (down _); [done|].
    apply bind_Some in Hh as (l & _ & ([|n|data|j] & _ & Hh)%bind_Some); try done.
    apply bind_Some in Hh as (op & _ & (w & Hw & Hh)%bind_Some). injection Hh as <-.
    by apply (Hone (Call p op) w).
  - unfold database_step in Hh. destruct (down _); [done|].
    destruct ev; try done; (apply bind_Some in Hh as (w & Hw & Hh); injection Hh as <-; by eapply Hone).
  - unfold end_job in Hh. destruct (down _); [done|].
    apply bind_Some in Hh as ([i j] & _ & (l & _ & (w & Hw & Hh)%bind_Some)%bind_Some).
    destruct (calls w !! p) as [[|]|]; try done. destruct (job_end _ _ _) as [s out].
    injection Hh as <-. by apply (Hone (Return p) w).
Qed.

Lemma crun_rest evs evs' sv sv1 sv2 :
  crun evs sv = Some sv1 → crun (evs ++ evs') sv = Some sv2 → crun evs' sv1 = Some sv2.
Proof.
  revert sv. induction evs as [|ev evs IH]; intros sv; simpl; [by intros [= ->]|].
  destruct (chandle ev sv); simpl; [apply IH|done].
Qed.

Lemma crun_schedule evs sv sv' : crun evs sv = Some sv' →
  ∃ wevs, schedule wevs (database sv) = Some (database sv') ∧ ∀ p, moves p wevs = cmoves p evs.
Proof.
  revert sv. induction evs as [|ev evs IH]; intros sv; simpl.
  - intros [= ->]. by exists [].
  - intros (sv1 & Hh & Hrun)%bind_Some.
    destruct (chandle_schedule _ _ _ Hh) as (w1 & Hw1 & Hm1).
    destruct (IH _ Hrun) as (w2 & Hw2 & Hm2). exists (w1 ++ w2).
    rewrite schedule_app, Hw1. split; [done|]. intros p. specialize (Hm1 p). specialize (Hm2 p).
    unfold moves, cmoves in *. rewrite filter_app, length_app, Hm1, Hm2.
    change (ev :: evs) with ([ev] ++ evs). by rewrite filter_app, length_app.
Qed.

Lemma crun_reachable evs d sv : crun evs (cinitial d) = Some sv → creachable d sv.
Proof.
  unfold creachable. generalize (cinitial d). induction evs as [|ev evs IH]; intros sv0; simpl.
  - by intros [= ->].
  - intros (sv1 & Hh & Hrun)%bind_Some. eapply rtc_l; [by exists ev|auto].
Qed.

(** The steps the calls under way may still take. *)
Definition total (g : gmap nat nat) : nat := map_fold (λ _ k acc, S k + acc)%nat 0%nat g.

Record budget sv (g : gmap nat nat) : Prop := {
  budget_dom p : is_Some (executing sv !! p) → is_Some (g !! p);
  budget_call p k : g !! p = Some k → may_move (calls (database sv) !! p) k
}.

Lemma total_delete g p k : g !! p = Some k → total g = (S k + total (delete p g))%nat.
Proof.
  intros Hp. unfold total. rewrite <- (insert_delete_id g p k Hp) at 1.
  rewrite (map_fold_insert_L (λ _ k acc, S k + acc)%nat 0%nat p k (delete p g)); [done|intros; lia|].
  apply lookup_delete_eq.
Qed.

Lemma total_insert g p k k' : g !! p = Some k → (k' < k)%nat → (total (<[p:=k']> g) < total g)%nat.
Proof.
  intros Hp Hk. rewrite (total_delete g p k Hp).
  rewrite (total_delete (<[p:=k']> g) p k') by apply lookup_insert_eq.
  rewrite delete_insert_eq. lia.
Qed.

Lemma may_move_exists evs w w' : schedule evs w = Some w' →
  (∀ p, ∃ k, may_move (calls w !! p) k) → ∀ p, ∃ k, may_move (calls w' !! p) k.
Proof.
  revert w. induction evs as [|ev evs IH]; intros w; simpl; [by intros [= ->]|].
  intros (w1 & Hst & Hrun)%bind_Some Hw. apply (IH w1 Hrun). intros p. destruct (Hw p) as [k Hk].
  destruct (decide (mover ev = Some p)) as [Hm|Hm].
  - destruct (may_move_step _ _ _ _ _ Hm Hst Hk) as (m & _ & Hm'). by exists m.
  - exists k. by eapply may_move_others.
Qed.

Lemma budget_exists evs d sv : crun evs (cinitial d) = Some sv → ∃ g, budget sv g.
Proof.
  intros Hrun. destruct (crun_schedule _ _ _ Hrun) as (wevs & Hw & _).
  assert (∀ p, ∃ k, may_move (calls (database sv) !! p) k) as Hk.
  { eapply may_move_exists; [exact Hw|]. intros p. eexists. simpl. by rewrite lookup_empty. }
  assert (∀ ps : list nat, ∃ g : gmap nat nat, (∀ p, p ∈ ps → is_Some (g !! p)) ∧
    ∀ p k, g !! p = Some k → may_move (calls (database sv) !! p) k) as Hg.
  { induction ps as [|p ps (g & H1 & H2)]; [by exists ∅; split; [intros p ?%elem_of_nil|]|].
    destruct (Hk p) as [k Hp]. exists (<[p:=k]> g). split.
    - intros q. rewrite elem_of_cons. intros [->|Hq]; [by rewrite lookup_insert_eq|].
      destruct (decide (p = q)) as [->|]; [by rewrite lookup_insert_eq|].
      rewrite lookup_insert_ne by done. auto.
    - intros q k'. rewrite lookup_insert_Some. intros [[<- <-]|[_ Hq]]; auto. }
  destruct (Hg (map_to_list (executing sv)).*1) as (g & H1 & H2). exists g. split; [|done].
  intros p [e He]. apply H1. apply list_elem_of_fmap. exists (p, e). split; [done|].
  by apply elem_of_map_to_list.
Qed.

(** There is a job, waiting or under way. *)
Definition work_to_do sv : Prop :=
  (∃ p e, executing sv !! p = Some e) ∨
  (∃ i l k j, links (front sv) !! i = Some l ∧ pending l !! k = Some (RunJob j)).

(** A step of a worker that is not a fault of its connection. *)
Definition worker_step sv (ev : cinput) : bool :=
  match ev with
  | CStart _ _ _ | CEnd _ => true
  | CDatabase ev => own_step ev
  | CLocal i k _ =>
      match (l ← links (front sv) !! i; pending l !! k) with
      | Some (RunJob _) => true
      | _ => false
      end
  | CAccept _ | CSignal => false
  end.

Definition can_work sv : Prop := ∃ ev sv', worker_step sv ev = true ∧ chandle ev sv = Some sv'.

(** A step of a call under way. *)
Definition job_step (ev : cinput) : bool :=
  match ev with CDatabase ev => own_step ev | CEnd _ => true | _ => false end.

Lemma executing_moves d sv p e :
  cserver_ok d sv → down (front sv) = false → executing sv !! p = Some e →
  ∃ ev sv', job_step ev = true ∧ chandle ev sv = Some sv'.
Proof.
  intros Hok Hdown Hp. destruct e as [i j].
  destruct (co_exec _ _ Hok p i j Hp) as (l & c & _ & Hc & Hr & _).
  destruct (running_goes_on d (database sv) p (co_world _ _ Hok) (co_busy _ _ Hok))
    as (ev & w & Hown & Hst); [by exists c|].
  destruct ev as [q op|q n|q b|q q'|q]; try done.
  - exists (CDatabase (Exchange q n)). eexists. split; [done|]. unfold chandle, database_step.
    by rewrite Hdown, Hst.
  - exists (CDatabase (Deadlock q q')). eexists. split; [done|]. unfold chandle, database_step.
    by rewrite Hdown, Hst.
  - pose proof (step_shape _ _ _ Hst) as [Hq _].
    destruct (co_running _ _ Hok q Hq) as [[i' j'] He].
    destruct (co_exec _ _ Hok q i' j' He) as (l' & _ & Hl' & _).
    exists (CEnd q). unfold chandle, end_job. rewrite Hdown, He. simpl. rewrite Hl'. simpl.
    simpl in Hst. rewrite Hst. simpl. unfold return_call in Hst.
    destruct (calls (database sv) !! q) as [[op [x|x|k|B s k|k] own ph seen|]|]; try done;
      injection Hst as <-; simpl; unfold set_call; rewrite lookup_insert_eq;
      destruct (job_end _ _ _); by eexists.
Qed.

Lemma executing_goes_on d sv p e :
  cserver_ok d sv → down (front sv) = false → executing sv !! p = Some e → can_work sv.
Proof.
  intros Hok Hd Hp. destruct (executing_moves d sv p e Hok Hd Hp) as (ev & sv' & Hj & Hh).
  exists ev, sv'. split; [|done]. by destruct ev.
Qed.

Lemma job_step_budget d sv ev sv' g :
  cserver_ok d sv → job_step ev = true → chandle ev sv = Some sv' → budget sv g →
  ∃ g', budget sv' g' ∧ (total g' < total g)%nat.
Proof.
  intros Hok Hj Hh [Hdom Hcall]. destruct ev as [| | | |ev|q]; try done; simpl in Hh.
  - unfold database_step in Hh. destruct (down (front sv)); [done|].
    assert (∃ p w, mover ev = Some p ∧ world_step ev (database sv) = Some w ∧
      sv' = CServer (Server (links (front sv)) (accepted (front sv)) (accepting (front sv)) w false)
              (executing sv)) as (p & w & Hm & Hst & ->).
    { destruct ev; try done; apply bind_Some in Hh as (w & Hw & [= <-]); eauto. }
    pose proof (step_shape _ _ _ Hst) as Hs. rewrite Hm in Hs. destruct Hs as [Hrun _].
    destruct (Hdom p (co_running _ _ Hok p Hrun)) as [k Hk].
    destruct (may_move_step _ _ _ _ _ Hm Hst (Hcall p k Hk)) as (m & -> & Hm').
    exists (<[p:=m]> g). split; [|apply (total_insert g p (S m)); [done|lia]]. split; unfold database; simpl.
    + intros q Hq. destruct (decide (p = q)) as [->|]; [by rewrite lookup_insert_eq|].
      rewrite lookup_insert_ne by done. auto.
    + intros q k'. rewrite lookup_insert_Some. intros [[<- <-]|[Hne Hq]]; [done|].
      eapply may_move_others; [|exact Hst|by apply Hcall]. congruence.
  - unfold end_job in Hh. destruct (down (front sv)); [done|].
    apply bind_Some in Hh as ([i j] & Hex & (l & _ & (w & Hw & Hh)%bind_Some)%bind_Some).
    destruct (calls w !! q) as [[|]|]; try done. destruct (job_end _ _ _) as [s out]. injection Hh as <-.
    destruct (Hdom q (mk_is_Some _ _ Hex)) as [k Hk]. exists (delete q g).
    split; [|rewrite (total_delete g q k Hk); lia]. split; unfold database; simpl.
    + intros q'. destruct (decide (q = q')) as [->|]; [rewrite lookup_delete_eq; by intros []|].
      rewrite !lookup_delete_ne by done. auto.
    + intros q' k'. rewrite lookup_delete_Some. intros [Hne Hq].
      eapply (may_move_others _ _ _ (Return q)); [|exact Hw|by apply Hcall]. simpl. congruence.
Qed.

Lemma waiting_goes_on sv i l k j :
  down (front sv) = false → links (front sv) !! i = Some l → pending l !! k = Some (RunJob j) →
  (busy (database sv) < WORKER_THREADS)%nat → can_work sv.
Proof.
  intros Hdown Hl Hk Hb. destruct (job_call j (session l)) as [op|] eqn:Hj.
  - exists (CStart i k (fresh (dom (calls (database sv))))).
    unfold chandle, start_job. rewrite Hdown, Hl. simpl. rewrite Hk. simpl. rewrite Hj. simpl.
    unfold begin_call.
    rewrite (not_elem_of_dom_1 (calls (database sv)) (fresh _)) by apply is_fresh.
    rewrite decide_True by done. by eexists.
  - exists (CLocal i k (Completion false [])). unfold chandle, handle_local, worker_step.
    rewrite Hdown, Hl. simpl. rewrite Hk. simpl. unfold worker_free.
    rewrite bool_decide_eq_true_2 by done. simpl. rewrite Hj. simpl.
    destruct (job_alone j (session l)). by eexists.
Qed.

Lemma work_goes_on d sv :
  cserver_ok d sv → down (front sv) = false → work_to_do sv → can_work sv.
Proof.
  intros Hok Hdown [(p & e & Hp)|(i & l & k & j & Hl & Hk)]; [by eapply executing_goes_on|].
  destruct (decide (busy (database sv) < WORKER_THREADS)%nat) as [|Hb]; [by eapply waiting_goes_on|].
  destruct (set_choose_or_empty (running_calls (database sv))) as [[p Hp]|He].
  - apply elem_of_running in Hp. destruct (co_running _ _ Hok p Hp) as [e He].
    by eapply executing_goes_on.
  - rewrite busy_size, He, size_empty in Hb. unfold WORKER_THREADS in Hb. lia.
Qed.
End Progress.
