(* ===== verification/Provenance.v ===== *)
(** * Where the responses since a state come from

    From a state of the server on, a request that arrives is answered from a
    call that begins after it: the response to it reports what the database
    said since. *)
From stdpp Require Import gmap.
From S2P Require Import Prelude Wire Parser Message Requests Responses Envelope Storage Database.
From S2P Require Import Postgres Growth PostgresSpec Programs Interleaving Isolation Serial Progress Steps.
From S2P Require Import Session Jobs JobCalls Server ConcurrentServer ServerFacts ServerInvariant.
From S2P Require Import ConcurrentFacts Traffic ConcurrentInvariant ConcurrentProgress.

Section Provenance.
Context `{W : WireFormat} `{Mem : Memory} `{P : Pqxx} {L : PqxxLaws P}.
Implicit Types (sv : cserver) (w : world) (h : list event).

(** The traffic of session [i] so far. *)
Definition history_at sv (i : nat) : list event :=
  match links (front sv) !! i with Some l => history l | None => [] end.

(** The response reports a call that is not one of [w1]'s. *)
Definition carries w1 w packet frame : Prop :=
  ∃ r j s, request_in packet = Some r ∧ request_job r = Some j ∧
  match job_call j s with
  | Some op => ∃ p result ph seen s' resp,
      calls w1 !! p = None ∧ calls w !! p = Some (Finished op result ph seen) ∧
      job_response j result s = Some (s', resp) ∧ writes (wrap resp) frame
  | None => writes empty_response frame
  end.

(** What session [i] received and sent since [sv1]. *)
Definition link_since sv1 w (ex : gmap nat (nat * job)) (i : nat) h : Prop :=
  ∃ h', h = history_at sv1 i ++ h' ∧
    (∀ h1 packet frame h2, h' = h1 ++ Received packet :: Sent frame :: h2 →
       carries (database sv1) w packet frame) ∧
    (∀ p j, ex !! p = Some (i, j) → calls (database sv1) !! p = None ∨ h' = []).

Record since sv1 sv : Prop := {
  since_next : next (database sv1) (database sv);
  since_links i : links (front sv) !! i = None → links (front sv1) !! i = None;
  since_link i l : down (front sv) = false → links (front sv) !! i = Some l →
    link_since sv1 (database sv) (executing sv) i (history l)
}.

Lemma since_refl sv : since sv sv.
Proof.
  split; [done..|]. intros i l _ Hl. exists []. unfold history_at. rewrite Hl, app_nil_r.
  split_and!; [done| |by right]. intros h1 packet frame h2 He. by destruct h1.
Qed.

Lemma carries_next w1 w w' packet frame : next w w' → carries w1 w packet frame → carries w1 w' packet frame.
Proof.
  intros [_ Hc] (r & j & s & Hr & Hj & Hb). exists r, j, s. split_and!; [done..|].
  destruct (job_call j s); [|done]. destruct Hb as (p & result & ph & seen & s' & resp & H1 & H2 & H3).
  destruct (Hc p _ H2) as (c & Hc' & _ & Hsame). rewrite Hsame in Hc' by auto.
  by exists p, result, ph, seen, s', resp.
Qed.

Lemma link_since_next sv1 w w' ex ex' i h : next w w' →
  (∀ p j, ex' !! p = Some (i, j) → ex !! p = Some (i, j) ∨ calls (database sv1) !! p = None) →
  link_since sv1 w ex i h → link_since sv1 w' ex' i h.
Proof.
  intros Hn Hex (h' & -> & Hc & Hp). exists h'. split_and!; [done| |].
  - intros h1 packet frame h2 He. eapply carries_next; [done|by eapply Hc].
  - intros p j Hpj. destruct (Hex p j Hpj) as [H|H]; [by eapply Hp|by left].
Qed.

(** A packet arrives: no job of the session is executed. *)
Lemma link_since_received sv1 w ex i h packet : jobs_of ex i = [] →
  link_since sv1 w ex i h → link_since sv1 w ex i (h ++ [Received packet]).
Proof.
  intros Hj (h' & -> & Hc & _). exists (h' ++ [Received packet]). split_and!.
  - by rewrite app_assoc.
  - intros h1 p f h2 He. apply snoc_pair in He as [[? _]|(h3 & _ & ->)]; [done|]. by eapply Hc.
  - intros p j Hp. apply elem_of_jobs in Hp. rewrite Hj in Hp. by apply elem_of_nil in Hp.
Qed.

(** The response to the last packet: it is one of [sv1], or the response comes
    from a new call. *)
Lemma link_since_sent sv1 w ex i h packet frame : jobs_of ex i = [] →
  (history_at sv1 i = h ++ [Received packet] ∨ carries (database sv1) w packet frame) →
  (∃ ex', link_since sv1 w ex' i (h ++ [Received packet])) →
  link_since sv1 w ex i ((h ++ [Received packet]) ++ [Sent frame]).
Proof.
  intros Hj Hnew (ex' & h' & Hh & Hc & _). exists (h' ++ [Sent frame]). split_and!.
  - by rewrite app_assoc, <- Hh.
  - intros h1 p f h2 He. apply snoc_pair in He as [[[= <-] He]|(h3 & _ & ->)]; [|by eapply Hc].
    rewrite He, app_assoc in Hh. apply app_inj_tail in Hh as [Hh [= <-]].
    destruct Hnew as [Hold|Hnew]; [|done]. exfalso. rewrite Hh in Hold.
    apply (f_equal length) in Hold. rewrite !length_app in Hold. simpl in Hold. lia.
  - intros p j Hp. apply elem_of_jobs in Hp. rewrite Hj in Hp. by apply elem_of_nil in Hp.
Qed.

(** ** Steps *)

Lemma since_with_link sv1 sv i l l' w ex dn :
  since sv1 sv → down (front sv) = false → links (front sv) !! i = Some l → next (database sv) w →
  (∀ i' p j, i' ≠ i → ex !! p = Some (i', j) → executing sv !! p = Some (i', j)) →
  (dn = false → link_since sv1 w ex i (history l')) → since sv1 (with_link sv i l' w ex dn).
Proof.
  intros [Hn Hl Hs] Hdown Hi Hnext Hex Hlink. split; unfold with_link, database; simpl.
  - by etrans.
  - intros i'. rewrite lookup_insert_None. intros [Hi' _]. auto.
  - intros i' l0 Hdn. rewrite lookup_insert_Some. intros [[<- <-]|[Hne Hl0]]; [by apply Hlink|].
    eapply link_since_next; [exact Hnext| |by apply Hs]. intros p j Hp. left. by apply Hex.
Qed.

Lemma since_local d sv1 sv i k c sv' :
  cserver_ok d sv → since sv1 sv → handle_local i k c sv = Some sv' → since sv1 sv'.
Proof.
  unfold handle_local. intros Hok Hs Hh. destruct (down (front sv)) eqn:Hd; [done|].
  destruct (links (front sv) !! i) as [l|] eqn:Hl; [|done]. simpl in Hh.
  destruct (pending l !! k) as [o|] eqn:Hk; [|done]. simpl in Hh.
  destruct (_ && _); [|done].
  destruct (local_complete o c (session l)) as [[s out]|] eqn:Hc; [|done]. injection Hh as <-.
  pose proof (co_link _ _ Hok i l Hd Hl) as Hlk. pose proof (since_link _ _ Hs i l Hd Hl) as Hsince.
  destruct (link_running _ _ _ _ o Hlk (pending_whole _ _ _ _ _ Hk)) as (Hrun & Hwh & Hp).
  destruct (whole_pending _ _ _ _ _ _ Hwh Hk) as (_ & _ & _ & Hj).
  eapply since_with_link; try done. intros _. simpl.
  destruct (local_events _ _ _ _ _ Hrun Hc) as [->|[[packet ->]|(j & frame & -> & Hne & Hjc & Hw & ->)]].
  - by rewrite app_nil_r.
  - by apply link_since_received.
  - destruct (guest_backed _ _ _ _ _ _ Hlk Hjc Hne Hp Hw) as (h & packet & Hh & j' & s' & op & Hreq & Hb).
    rewrite Hh in *. apply link_since_sent; [done| |by eexists]. right.
    apply phase_request in Hp as (d' & r & (h' & Hh' & _) & Hr & Hrj); [|done].
    apply app_inj_tail in Hh' as [_ [= <-]].
    exists r, j, (session l). by rewrite Hjc.
Qed.

Lemma since_start d sv1 sv i k p sv' :
  cserver_ok d sv → since sv1 sv → start_job i k p sv = Some sv' → since sv1 sv'.
Proof.
  unfold start_job. intros Hok Hs Hh. destruct (down (front sv)) eqn:Hd; [done|].
  destruct (links (front sv) !! i) as [l|] eqn:Hl; [|done]. simpl in Hh.
  destruct (pending l !! k) as [o|] eqn:Hk; [|done]. simpl in Hh.
  destruct o as [|n|data|j]; try done.
  destruct (job_call j (session l)) as [op|] eqn:Hj; [|done]. simpl in Hh.
  destruct (begin_call p op (database sv)) as [w|] eqn:Hw; [|done]. injection Hh as <-.
  destruct (begin_call_now _ _ _ _ Hw) as [Hnone _].
  assert (calls (database sv1) !! p = None) as Hnew.
  { destruct (calls (database sv1) !! p) as [c|] eqn:Hp; [|done].
    destruct (next_call _ _ (since_next _ _ Hs) p c Hp) as (c' & Hc' & _). congruence. }
  pose proof (step_next _ _ (Call p op) Hw) as Hn.
  eapply since_with_link; try done.
  - intros i' q j' Hne. rewrite lookup_insert_Some. by intros [[_ [= ? _]]|[_ Hq]].
  - intros _. simpl. eapply link_since_next; [exact Hn| |by apply Hs].
    intros q j'. rewrite lookup_insert_Some. intros [[<- _]|[_ Hq]]; auto.
Qed.

Lemma since_database sv1 sv ev sv' : since sv1 sv → database_step ev sv = Some sv' → since sv1 sv'.
Proof.
  unfold database_step. intros [H1 H2 H3] Hh. destruct (down (front sv)) eqn:Hd; [done|].
  assert (∃ w, world_step ev (database sv) = Some w ∧
    sv' = CServer (Server (links (front sv)) (accepted (front sv)) (accepting (front sv)) w false)
            (executing sv)) as (w & Hst & ->).
  { destruct ev; try done; apply bind_Some in Hh as (w & Hw & [= <-]); eauto. }
  pose proof (step_next _ _ _ Hst) as Hn. split; unfold database; simpl; [by etrans|done|].
  intros i l _ Hl. eapply link_since_next; [exact Hn|by left|by apply H3].
Qed.

Lemma since_accept d sv1 sv error f : cserver_ok d sv → since sv1 sv →
  handle_accept error (front sv) = Some f → since sv1 (CServer f (executing sv)).
Proof.
  unfold handle_accept. intros Hok [H1 H2 H3] Hh. destruct (down (front sv)) eqn:Hd; [done|].
  destruct (negb (accepting (front sv))); [done|].
  destruct error; [injection Hh as <-; by split|].
  destruct (start new_session) as [s out]. injection Hh as <-.
  set (n := accepted (front sv)) in *. pose proof (co_fresh _ _ Hok n (le_n _)) as Hfree.
  split; unfold database; simpl; [done| |].
  - intros i. rewrite lookup_insert_None. intros [Hi _]. auto.
  - intros i l _. rewrite lookup_insert_Some. intros [[<- <-]|[Hne Hl]]; [|by apply H3].
    exists []. unfold history_at. rewrite (H2 n Hfree). simpl. split_and!; [done| |by right].
    intros h1 packet frame h2 He. by destruct h1.
Qed.

Lemma since_end d sv1 sv p sv' :
  cserver_ok d sv → since sv1 sv → end_job p sv = Some sv' → since sv1 sv'.
Proof.
  unfold end_job. intros Hok Hs Hh. destruct (down (front sv)) eqn:Hd; [done|].
  destruct (executing sv !! p) as [[i j]|] eqn:Hex; [|done]. simpl in Hh.
  destruct (links (front sv) !! i) as [l|] eqn:Hl; [|done]. simpl in Hh.
  destruct (return_call p (database sv)) as [w|] eqn:Hw; [|done]. simpl in Hh.
  destruct (calls w !! p) as [[|op result ph seen]|] eqn:Hp; try done.
  destruct (job_end j result (session l)) as [s out] eqn:He. injection Hh as <-.
  pose proof (step_next _ _ (Return p) Hw) as Hn.
  destruct (co_exec _ _ Hok p i j Hex) as (l0 & c & Hl0 & Hc & Hrun & Hj).
  rewrite Hl in Hl0. injection Hl0 as <-.
  destruct (next_call _ _ Hn p c Hc) as (c' & Hc' & Hop & _). rewrite Hp in Hc'. injection Hc' as <-.
  simpl in Hop. rewrite <- Hop in Hj.
  assert (world_ok d w) as Hwok by (eapply (world_step_ok _ _ _ (Return p)); [apply Hok|done]).
  pose proof (clink_next _ _ _ _ _ Hn (co_link _ _ Hok i l Hd Hl)) as Hlk.
  destruct (link_running _ _ _ _ _ Hlk (executing_whole _ _ l _ _ Hex)) as (_ & Hwh & _).
  destruct (whole_executing _ _ _ _ _ _ Hwh Hex) as (_ & _ & Hjobs).
  eapply since_with_link; try done.
  { intros i' q j' _. rewrite lookup_delete_Some. tauto. }
  intros Ht. simpl.
  destruct (end_backed _ _ _ _ _ _ _ _ _ _ _ _ Hlk Hex Hj (world_calls _ _ Hwok p _ Hp) He)
    as [->|(h & packet & frame & r & s' & resp & -> & Hh & _ & _ & Hr & Hrj & _ & Hresp & Hwr & _)]; [done|].
  pose proof (since_link _ _ Hs i l Hd Hl) as Hsince.
  apply (link_since_next _ _ w _ (executing sv)) in Hsince; [|done|by left]. simpl. rewrite Hh in *.
  apply link_since_sent; [done| |by eexists].
  destruct Hsince as (h' & Hh' & _ & Hex'). destruct (Hex' p j Hex) as [Hnew| ->].
  - right. exists r, j, (session l). rewrite Hj. split_and!; [done..|].
    by exists p, result, ph, seen, s', resp.
  - left. by rewrite app_nil_r in Hh'.
Qed.

Lemma since_step d sv1 sv sv' : cserver_ok d sv → since sv1 sv → cstep sv sv' → since sv1 sv'.
Proof.
  intros Hok Hs [[error| |i k c|i k p|ev|p] Hh]; simpl in Hh.
  - apply fmap_Some in Hh as (f & Hf & ->). by eapply since_accept.
  - apply fmap_Some in Hh as (f & Hf & ->). unfold signal_handler in Hf.
    destruct (down (front sv)) eqn:Hd; [done|]. injection Hf as <-. destruct Hs as [H1 H2 H3].
    split; unfold database; simpl; [done..|]. intros i l _. by apply H3.
  - by eapply since_local.
  - by eapply since_start.
  - by eapply since_database.
  - by eapply since_end.
Qed.

Lemma since_crun d evs sv1 sv2 : cserver_ok d sv1 → crun evs sv1 = Some sv2 → since sv1 sv2.
Proof.
  intros Hok. assert (∀ sv, cserver_ok d sv → since sv1 sv → crun evs sv = Some sv2 → since sv1 sv2) as H.
  { induction evs as [|ev evs IH]; intros sv Hsv Hs; simpl; [by intros [= <-]|].
    intros (sv' & Hh & Hrun)%bind_Some. assert (cstep sv sv') as Hst by (by exists ev).
    apply (IH sv'); [by eapply cstep_ok|by eapply since_step|done]. }
  intros Hrun. by apply (H sv1 Hok (since_refl sv1)).
Qed.
End Provenance.
