(* ===== verification/ConcurrentRefinement.v ===== *)
(** * The server of [Server.v] as a schedule of the concurrent one

    [Server.v] executes a job in one step.  Over PostgreSQL its runs are those
    runs of [ConcurrentServer.v] in which no two jobs overlap, whatever the
    faults of the connection. *)
From stdpp Require Import gmap.
From S2P Require Import Prelude Wire Parser Message Requests Responses Envelope Storage Database.
From S2P Require Import Postgres Growth PostgresSpec Programs Interleaving Isolation Serial Progress.
From S2P Require Import Steps Alone Session Jobs JobCalls Server ConcurrentServer ServerFacts.
From S2P Require Import ServerInvariant ConcurrentFacts Traffic ConcurrentInvariant.
From S2P Require Import ConcurrentProgress.

Section Refinement.
Context `{W : WireFormat} `{Mem : Memory} `{P : Pqxx} {L : PqxxLaws P}.
Implicit Types (sv : server conn) (csv : cserver) (d : db).

(** The two servers are in the same state, and no job is being executed. *)
Record same_server sv csv : Prop := {
  same_links : links (front csv) = links sv;
  same_accepted : accepted (front csv) = accepted sv;
  same_accepting : accepting (front csv) = accepting sv;
  same_down : down (front csv) = down sv;
  same_shared : shared (database csv) = tables (storage sv);
  same_idle : executing csv = ∅
}.

Lemma idle_running d csv p : cserver_ok d csv → executing csv = ∅ → ¬ is_running (database csv) p.
Proof.
  intros Hok He Hp. destruct (co_running _ _ Hok p Hp) as [e Hx]. rewrite He in Hx.
  by apply lookup_empty_Some in Hx.
Qed.

Lemma idle_worker d csv : cserver_ok d csv → executing csv = ∅ → worker_free (database csv) = true.
Proof.
  intros Hok He. unfold worker_free. apply bool_decide_eq_true_2. rewrite busy_size.
  destruct (set_choose_or_empty (running_calls (database csv))) as [[p Hp]|Hn].
  - apply elem_of_running in Hp. by destruct (idle_running _ _ p Hok He).
  - rewrite Hn, size_empty. unfold WORKER_THREADS. lia.
Qed.

(** The exchanges of a call, as steps of the server. *)
Lemma exchanges_run p evs f ex w w1 :
  down f = false → storage f = w → Forall (exchanges p) evs → schedule evs w = Some w1 →
  rtc cstep (CServer f ex) (CServer (Server (links f) (accepted f) (accepting f) w1 false) ex).
Proof.
  intros Hd Hw Hall. revert f w Hd Hw. induction Hall as [|ev evs Hev _ IH]; intros f w Hd Hw; simpl.
  - intros [= <-]. destruct f. simpl in *. subst. done.
  - intros (w2 & Hst & Hrun)%bind_Some.
    eapply rtc_l; [|exact (IH (Server (links f) (accepted f) (accepting f) w2 false) w2 eq_refl eq_refl Hrun)].
    exists (CDatabase ev). simpl. unfold database_step, database. simpl. rewrite Hd, Hw, Hst.
    destruct ev; done.
Qed.

(** A handler that does not call the storage. *)
Lemma local_simulated d sv csv i k c l o s out :
  cserver_ok d csv → same_server sv csv → down sv = false → links sv !! i = Some l →
  pending l !! k = Some o → completion_ok o (session l) c = true →
  local_complete o c (session l) = Some (s, out) →
  ∃ csv', cstep csv csv' ∧ same_server
    (Server (<[i := after_complete l (delete k (pending l)) o s out]> (links sv))
            (accepted sv) (accepting sv) (storage sv) (throws out)) csv'.
Proof.
  intros Hok [H1 H2 H3 H4 H5 H6] Hd Hl Hk Hc Hloc. eexists. split.
  - exists (CLocal i k c). simpl. unfold handle_local. rewrite H4, Hd, H1, Hl. simpl.
    rewrite Hk. simpl. rewrite Hc, (idle_worker _ _ Hok H6), orb_true_r. simpl. rewrite Hloc. done.
  - by split; simpl; rewrite ?H1.
Qed.

(** A job with a call: begun, executed and ended with nothing in between. *)
Lemma job_simulated d sv csv i k j l op result c s out :
  cserver_ok d csv → same_server sv csv → down sv = false → links sv !! i = Some l →
  pending l !! k = Some (RunJob j) → job_call j (session l) = Some op →
  perform op (storage sv) = (result, c) → job_end j result (session l) = (s, out) →
  ∃ csv', rtc cstep csv csv' ∧ same_server
    (Server (<[i := after_complete l (delete k (pending l)) (RunJob j) s out]> (links sv))
            (accepted sv) (accepting sv) c (throws out)) csv'.
Proof.
  intros Hok [H1 H2 H3 H4 H5 H6] Hd Hl Hk Hj Hperf Hend.
  set (p := fresh (dom (calls (database csv)))).
  assert (calls (database csv) !! p = None) as Hp by (apply not_elem_of_dom_1, is_fresh).
  destruct (call_alone d (database csv) p op (storage sv) (co_world _ _ Hok)
    (λ q, idle_running _ _ q Hok H6) Hp (eq_sym H5)) as (w0 & w' & Hbegin & He).
  rewrite Hperf in He. destruct He as ((ph & seen & Hfin) & Hd' & _ & evs & w1 & Hall & Hrun & Hret).
  set (l0 := Link (session l) (delete k (pending l)) (history l)).
  assert (cstep csv (with_link csv i l0 w0 (<[p := (i, j)]> ∅) false)) as Hstart.
  { exists (CStart i k p). simpl. unfold start_job. rewrite H4, Hd, H1, Hl. simpl. rewrite Hk. simpl.
    rewrite Hj. simpl. by rewrite Hbegin, H6. }
  pose proof (exchanges_run p evs (Server (<[i := l0]> (links (front csv))) (accepted (front csv))
    (accepting (front csv)) w0 false) (<[p := (i, j)]> ∅) w0 w1 eq_refl eq_refl Hall Hrun) as Hex.
  eexists. split.
  - eapply rtc_l; [exact Hstart|]. eapply rtc_r; [exact Hex|]. exists (CEnd p). simpl.
    unfold end_job. simpl. rewrite lookup_insert_eq. simpl. rewrite lookup_insert_eq. simpl.
    unfold database. simpl. rewrite Hret. simpl. rewrite Hfin.
    cbn [fst]. rewrite Hend. reflexivity.
  - split; simpl; try done; [by rewrite insert_insert_eq, H1|].
    apply delete_insert_id, lookup_empty.
Qed.

(** Every step of [Server.v] is a sequence of steps of the concurrent server. *)
Lemma step_simulated d sv sv' csv :
  cserver_ok d csv → same_server sv csv → step sv sv' →
  ∃ csv', rtc cstep csv csv' ∧ same_server sv' csv'.
Proof.
  intros Hok Hsame ([error| |i k c] & Hh); pose proof Hsame as [H1 H2 H3 H4 H5 H6]; simpl in Hh.
  - unfold handle_accept in Hh. destruct (down sv) eqn:Hd; [done|].
    destruct (negb (accepting sv)) eqn:Ha; [done|].
    assert (∀ f, handle_accept error (front csv) = Some f → cstep csv (CServer f (executing csv))) as Hc.
    { intros f Hf. exists (CAccept error). simpl. by rewrite Hf. }
    unfold handle_accept in Hc. rewrite H4, H3, Ha in Hc.
    destruct error; [|destruct (start new_session) as [s out]]; injection Hh as <-;
      (eexists; split; [apply rtc_once, Hc; reflexivity|]); split; simpl; by rewrite ?H1, ?H2.
  - unfold signal_handler in Hh. destruct (down sv) eqn:Hd; [done|]. injection Hh as <-.
    eexists. split; [apply rtc_once; exists CSignal; simpl; unfold signal_handler; by rewrite H4|].
    by split; simpl.
  - unfold handle_completion in Hh. destruct (down sv) eqn:Hd; [done|].
    destruct (links sv !! i) as [l|] eqn:Hl; [|done].
    destruct (pending l !! k) as [o|] eqn:Hk; [|done].
    destruct (completion_ok o (session l) c) eqn:Hc; [|done].
    destruct (local_complete o c (session l)) as [[s out]|] eqn:Hloc.
    + rewrite (complete_local _ _ _ _ _ _ Hloc) in Hh. injection Hh as <-.
      destruct (local_simulated d sv csv i k c l o s out Hok Hsame Hd Hl Hk Hc Hloc) as (csv' & Hst & H).
      exists csv'. split; [by apply rtc_once|done].
    + destruct o as [|n|data|j]; try done. simpl in Hloc, Hh.
      destruct (job_call j (session l)) as [op|] eqn:Hj; [|done].
      rewrite run_job_factored, Hj in Hh.
      destruct (perform op (storage sv)) as [result c'] eqn:Hp.
      destruct (job_end j result (session l)) as [s out] eqn:He. injection Hh as <-.
      by apply (job_simulated d sv csv i k j l op result c' s out).
Qed.

Lemma run_simulated c sv : tables_ok (tables c) → reachable c sv →
  ∃ csv, creachable (tables c) csv ∧ same_server sv csv.
Proof.
  unfold reachable. intros Ht Hr. remember (initial c) as sv0 eqn:H0.
  assert (∃ csv, creachable (tables c) csv ∧ same_server sv0 csv) as Hs.
  { exists (cinitial (tables c)). split; [by unfold creachable|]. subst. by split. }
  clear H0. induction Hr as [sv|sv1 sv2 sv3 Hst _ IH]; [done|].
  apply IH. destruct Hs as (csv & Hc & Hsame).
  destruct (step_simulated (tables c) sv1 sv2 csv (creachable_ok _ _ Ht Hc) Hsame Hst) as (csv' & Hr & H).
  exists csv'. split; [unfold creachable in *; by etrans|done].
Qed.
End Refinement.
