(* ===== verification/ServerTheorems.v ===== *)
(** * The properties of the server

    What the invariant of [ServerInvariant.v] and the handlers give for a
    whole run of the server, over any storage that meets its contract. *)
From stdpp Require Import gmap.
From S2P Require Import Prelude Wire Parser Message Requests Responses Envelope Framing.
From S2P Require Import WireInstance Storage Database Postgres Invariants Completeness.
From S2P Require Import PostgresSpec StorageTheorems Session Jobs Server ServerFacts.
From S2P Require Import ServerInvariant.

(** ** Steps of one session *)

Section Handlers.
Context `{W : WireFormat} {L : WireFormatLaws W} `{Mem : Memory}.

(** Memory for everything up to the size of a message. *)
Definition enough_memory : Prop := ∀ n, n ≤ int_max → can_allocate n = true.

Lemma resize_ok n s : enough_memory → n ≤ int_max →
  resize n s = Some (set_buffer (vec_resize (Z.to_nat n) (read_buffer_ s)) s).
Proof.
  intros Hm Hn. unfold resize, vector_max_size. rewrite Hm by done.
  destruct (Z.leb_spec n (2 ^ 63 - 1)); [done|]. unfold int_max in Hn. lia.
Qed.

Lemma write_packet m s : enough_memory → sendable m → stopped_ s = false →
  write m s = (set_buffer (packet m) s, [AsyncWrite (packet m)]).
Proof.
  intros Hmem Hm Hs. unfold write, do_async_write. rewrite Hs.
  pose proof (sendable_size m Hm) as Hsize. unfold int_max in Hsize.
  pose proof (byte_size_encode m Hm) as Hb. unfold PREFIX_SIZE.
  rewrite to_unsigned_ok by lia.
  rewrite resize_ok by (done || unfold int_max; lia).
  simpl (read_buffer_ _). change (Z.to_nat (8 + 1)) with 9%nat. change (8 + 1) with 9.
  rewrite serialize_packet; [done|done|]. apply zlen_vec_resize. lia.
Qed.

Lemma fill_whole data s : zlen data = zlen (read_buffer_ s) →
  read_buffer_ (fill_buffer (Completion false data) s) = data.
Proof.
  intros Hl. unfold fill_buffer, write_at. simpl.
  rewrite drop_ge by (unfold zlen in *; lia). apply app_nil_r.
Qed.

Lemma on_prefix n s : enough_memory → uint64_ok n → n ≠ 0 → n ≤ int_max →
  stopped_ s = false → read_buffer_ s = prefix_of n →
  on_read_prefix false 9 s =
  (set_buffer (vec_resize (Z.to_nat n) (prefix_of n)) s, [AsyncReadMessage n]).
Proof.
  intros Hmem Hn Hz Hmax Hs Hb. unfold on_read_prefix. rewrite Hs. simpl. rewrite Hb.
  change (to_signed 32 9) with 9.
  rewrite <- (app_nil_r (prefix_of n)) at 1. rewrite parse_prefix by done. simpl.
  unfold do_async_read_message. rewrite Hs, resize_ok by done. by rewrite Hb.
Qed.

Lemma request_in_encoded m r : sendable m → WrappedMessage.msg_ m = WrappedMessage.kRequest r →
  request_in (msg_encode m) = Some r.
Proof.
  intros Hm Hr. pose proof (sendable_size m Hm) as Hs. unfold int_max in Hs. unfold request_in.
  rewrite to_signed_ok by lia. rewrite parse_message by done. by rewrite Hr.
Qed.
End Handlers.

Section Cycle.
Context `{W : WireFormat} {L : WireFormatLaws W} `{Mem : Memory} {S : Type}
  `{DB : AbstractStorageConnection S}.

(** The server with session [i] and the storage as given. *)
Definition at_link (sv : server S) (i : nat) (l : link) (db : S) : server S :=
  Server (<[i := l]> (links sv)) (accepted sv) (accepting sv) db false.

Lemma at_link_self sv i l : down sv = false → links sv !! i = Some l →
  at_link sv i l (storage sv) = sv.
Proof.
  intros Hd Hl. unfold at_link. rewrite insert_id by done. destruct sv. simpl in *. by subst.
Qed.

(** The only operation of a session completes. *)
Lemma handle_only sv i c s o h db s' db' out :
  completion_ok o s c = true → complete o c s db = (s', db', out) → throws out = false →
  handle (Complete i 0 c) (at_link sv i (Link s [o] h) db) =
  Some (at_link sv i (Link s' (omap to_operation out)
                        (h ++ received o s' out ++ omap sent out)) db').
Proof.
  intros Hc Hrun Ht. simpl. unfold handle_completion, at_link. simpl.
  rewrite lookup_insert_eq. simpl. rewrite Hc, Hrun, Ht. unfold after_complete. simpl.
  by rewrite insert_insert_eq.
Qed.

(** The environment's part in serving one request: the two halves of the
    packet arrive, the two jobs run, the response is sent. *)
Definition serve (i : nat) (m : WrappedMessage.t) : list input :=
  [Complete i 0 (Completion false (prefix_of (zlen (msg_encode m))));
   Complete i 0 (Completion false (msg_encode m));
   Complete i 0 (Completion false []);
   Complete i 0 (Completion false []);
   Complete i 0 (Completion false [])].

(** The session when the job of the request starts. *)
Definition with_request (m : WrappedMessage.t) (s : ClientSession) : ClientSession :=
  set_buffer (msg_encode m) s.

Lemma serve_request i m r j sv s h s1 db1 frame :
  enough_memory → sendable m → WrappedMessage.msg_ m = WrappedMessage.kRequest r →
  request_job r = Some j →
  down sv = false → links sv !! i = Some (Link s [ReadPrefix] h) →
  stopped_ s = false → zlen (read_buffer_ s) = 9 →
  run_job j (with_request m s) (storage sv) = (s1, db1, [AsyncWrite frame]) →
  stopped_ s1 = false →
  ∃ s2 sv', run (serve i m) sv = Some sv' ∧ down sv' = false ∧ storage sv' = db1 ∧
    links sv' !! i = Some (Link s2 [ReadPrefix] (h ++ [Received (msg_encode m); Sent frame])) ∧
    stopped_ s2 = false ∧ state_ s2 = state_ s1 ∧ zlen (read_buffer_ s2) = 9 ∧
    (∀ k, k ≠ i → links sv' !! k = links sv !! k).
Proof.
  intros Hmem Hm Hr Hj Hd Hl Hs Hb Hrun Hs1.
  pose proof (sendable_size m Hm) as Hsize. set (n := zlen (msg_encode m)) in *.
  assert (uint64_ok n) as Hn by (unfold uint64_ok, int_max in *; lia).
  pose proof (zlen_prefix n Hn ltac:(lia)) as Hp.
  rewrite <- (at_link_self sv i _ Hd Hl). unfold serve. fold n. cbn [run].
  set (c1 := Completion false (prefix_of n)). set (sp := fill_buffer c1 s).
  set (s0 := set_buffer (vec_resize (Z.to_nat n) (prefix_of n)) sp).
  rewrite (handle_only sv i c1 s ReadPrefix h (storage sv) s0 (storage sv) [AsyncReadMessage n]);
    [|by simpl; rewrite Hp, Hb| |done].
  2: { simpl. fold sp. rewrite Hp. rewrite (on_prefix n sp); try done; [lia|lia|].
       apply fill_whole. by rewrite Hp. }
  cbn [omap list_omap to_operation received sent]. rewrite !app_nil_r.
  set (c2 := Completion false (msg_encode m)).
  assert (zlen (msg_encode m) = zlen (read_buffer_ s0)) as Hs0.
  { symmetry. apply (zlen_vec_resize n). lia. }
  assert (fill_buffer c2 s0 = with_request m s) as Hfill.
  { change (fill_buffer c2 s0) with (set_buffer (read_buffer_ (fill_buffer c2 s0)) s).
    unfold c2. by rewrite fill_whole. }
  rewrite (handle_only sv i c2 s0 (ReadMessage n) h (storage sv) (with_request m s) (storage sv)
    [Post ParseCommandJob]); [|by simpl; rewrite Z.eqb_eq| |done].
  2: { simpl complete. rewrite Hfill. unfold on_read_message. simpl. rewrite Hs.
       unfold n. by rewrite Z.eqb_refl. }
  cbn [omap list_omap to_operation received sent existsb orb]. rewrite !app_nil_r.
  rewrite (handle_only sv i _ (with_request m s) (RunJob ParseCommandJob) _ (storage sv)
    (with_request m s) (storage sv) [Post j]); [|done| |done].
  2: { cbn [complete run_job]. rewrite parse_command_spec.
       change (read_buffer_ (with_request m s)) with (msg_encode m).
       rewrite (request_in_encoded m r) by done. by rewrite Hj. }
  cbn [omap list_omap to_operation received sent]. rewrite !app_nil_r.
  rewrite (handle_only sv i _ (with_request m s) (RunJob j) _ (storage sv) s1 db1 [AsyncWrite frame]);
    [|done|exact Hrun|done].
  cbn [omap list_omap to_operation received sent]. rewrite <- !app_assoc.
  set (s2 := set_buffer (vec_resize 9 (read_buffer_ s1)) s1).
  rewrite (handle_only sv i _ s1 (Write frame) _ db1 s2 db1 [AsyncReadPrefix]); [|done| |done].
  2: { simpl. unfold on_write. simpl. rewrite Hs1. unfold do_async_read_prefix.
       rewrite Hs1, resize_ok by done. done. }
  cbn [omap list_omap to_operation received sent]. simpl (_ ++ []).
  eexists s2, _. split; [done|]. split; [done|]. split; [done|]. split.
  { unfold at_link. simpl. by rewrite lookup_insert_eq, app_nil_r. }
  split; [done|]. split; [done|]. split; [apply (zlen_vec_resize 9); lia|].
  intros k Hk. unfold at_link. simpl. rewrite lookup_insert_ne by done.
  by destruct (links sv !! k) eqn:?; rewrite lookup_insert_ne.
Qed.
End Cycle.

(** ** Properties *)

Section Theorems.
Context `{W : WireFormat} {L : WireFormatLaws W} `{Mem : Memory} {S : Type}
  `{Con : StorageContract S}.

(** In every state the server can reach while it is up, whatever the
    clients send and in whatever order operations complete, a running session
    has exactly one operation under way and a stopped session has none: no
    two handlers of a session overlap, no request is processed twice, and no
    session is forgotten. *)
Theorem one_operation_per_session db sv i l :
  storage_ok db → reachable db sv → down sv = false → links sv !! i = Some l →
  if stopped_ (session l) then pending l = [] else ∃ o, pending l = [o].
Proof.
  intros Hdb Hr Hd Hl. pose proof (sv_link sv (reachable_ok db sv Hdb Hr) i l Hd Hl) as Hok.
  unfold link_ok in Hok. destruct (stopped_ (session l)); naive_solver.
Qed.

(** The traffic of a session alternates between requests and responses,
    and every response answers the request before it with a message of its
    kind; only the last request may still be unanswered. *)
Theorem responses_answer_requests db sv i l :
  storage_ok db → reachable db sv → down sv = false → links sv !! i = Some l →
  answered (history l) ∨ ∃ d h, history l = h ++ [Received d] ∧ answered h.
Proof.
  intros Hdb Hr Hd Hl. pose proof (sv_link sv (reachable_ok db sv Hdb Hr) i l Hd Hl) as Hok.
  unfold link_ok, serving in Hok. destruct (stopped_ (session l)).
  - destruct Hok as [_ [Ha|(d & h & Ha)]]; [by left|right; eauto].
  - destruct Hok as (o & _ & Hp). destruct o as [|n|data|j]; try by left.
    right. destruct j; simpl in Hp; unfold serving in Hp; naive_solver.
Qed.

(** The storage keeps its invariant, and every session that is logged in
    acts for a registered user, however long ago it logged in. *)
Theorem sessions_belong_to_users db sv i l st :
  storage_ok db → reachable db sv → links sv !! i = Some l → state_ (session l) = Some st →
  storage_ok (storage sv) ∧ is_user (storage sv) (user_id_ st).
Proof.
  intros Hdb Hr Hl Hst. pose proof (reachable_ok db sv Hdb Hr) as Hok.
  split; [apply Hok|]. by apply (sv_profile sv Hok i l).
Qed.

(** A well-formed request on an idle session is served: once its packet
    has arrived the job of the request runs on the storage, one response of the
    right kind is sent and the session reads the next prefix, with the
    profile the job left. *)
Theorem request_is_served i m r j sv s h :
  enough_memory → sendable m → WrappedMessage.msg_ m = WrappedMessage.kRequest r →
  request_job r = Some j →
  down sv = false → links sv !! i = Some (Link s [ReadPrefix] h) →
  stopped_ s = false → zlen (read_buffer_ s) = 9 →
  throws (run_job j (with_request m s) (storage sv)).2 = false →
  ∃ frame s2 sv', run (serve i m) sv = Some sv' ∧ down sv' = false ∧
    storage sv' = (run_job j (with_request m s) (storage sv)).1.2 ∧
    links sv' !! i = Some (Link s2 [ReadPrefix] (h ++ [Received (msg_encode m); Sent frame])) ∧
    exchange (msg_encode m) frame ∧
    stopped_ s2 = false ∧
    state_ s2 = state_ (run_job j (with_request m s) (storage sv)).1.1.
Proof.
  intros Hmem Hm Hr Hj Hd Hl Hs Hb Ht.
  pose proof (run_job_done r j (with_request m s) (storage sv) Hs Hj) as Hdone.
  destruct (run_job j (with_request m s) (storage sv)) as [[s1 db1] out] eqn:Hrun.
  destruct Hdone as [[[Hst Ho]|[_ [Ho|(a & Ho & resp & frame & -> & Hmt & Hw)]]] Hs1 _ _];
    simpl in Ho, Ht; subst out; [simpl in Hst; congruence|done|].
  destruct (serve_request i m r j sv s h s1 db1 frame) as (s2 & sv' & H1 & H2 & H3 & H4 & H5 & H6 & _);
    try done.
  exists frame, s2, sv'. split_and!; try done. exists r, resp.
  split_and!; try done. by apply request_in_encoded.
Qed.

(** A client that is not logged in gets an empty response to each of the
    six requests about chats, contacts and messages, and the storage is not
    even called. *)
Theorem guests_change_nothing j s (db : S) :
  state_ s = None →
  match j with ParseCommandJob | RegisterRequestJob _ | LoginRequestJob _ => False | _ => True end →
  run_job j s db =
  ((write (wrap Response.SharedCtor) s).1, db, (write (wrap Response.SharedCtor) s).2).
Proof.
  intros Hst Hj. destruct j; try done; unfold run_job, run_chats, run_contacts, run_messages,
    run_send_mesg, run_add_contact, run_create_chat, if_logged_in, state, empty_response;
    rewrite Hst; by destruct (write _ s).
Qed.

(** A packet that is not a request, be it garbage, a response, an empty
    message or a request of no known kind, stops the session: the parser
    touches neither the storage nor another session, and closes the socket. *)
Theorem malformed_packet_stops_session s (db : S) :
  stopped_ s = false →
  (∀ r, request_in (read_buffer_ s) = Some r → request_job r = None) →
  run_job ParseCommandJob s db = (set_stopped true s, db, [SockClose]).
Proof.
  intros Hs Hno. simpl. rewrite parse_command_spec.
  assert (stop s = (set_stopped true s, [SockClose])) as Hstop by (unfold stop; by rewrite Hs).
  destruct (request_in (read_buffer_ s)) as [r|]; [rewrite (Hno r) by done|]; by rewrite Hstop.
Qed.

(** C39: the length in a prefix is not checked before the buffer is resized:
    a client that sends the nine bytes of a length no vector can have makes
    the exception of [resize] leave the event loop, and the server is down
    for everybody. *)
Theorem oversized_prefix_takes_server_down i n sv s h :
  uint64_ok n → vector_max_size < n →
  down sv = false → links sv !! i = Some (Link s [ReadPrefix] h) →
  stopped_ s = false → zlen (read_buffer_ s) = 9 →
  ∃ sv', handle (Complete i 0 (Completion false (prefix_of n))) sv = Some sv' ∧ down sv' = true.
Proof.
  intros Hn Hmax Hd Hl Hs Hb. unfold vector_max_size in Hmax.
  pose proof (zlen_prefix n Hn ltac:(lia)) as Hp.
  unfold handle, handle_completion. rewrite Hd, Hl. cbn [pending session].
  change ([ReadPrefix] !! 0%nat) with (Some ReadPrefix).
  cbn [completion_ok complete err data_read]. rewrite Hp, Hb. change (9 =? 9) with true.
  cbv iota. set (sp := fill_buffer _ s).
  assert (read_buffer_ sp = prefix_of n) as Hbuf by (apply fill_whole; by rewrite Hp).
  unfold on_read_prefix. change (stopped_ sp) with (stopped_ s). rewrite Hs.
  change (9 =? PREFIX_SIZE) with true. cbv iota.
  rewrite Hbuf. change (to_signed 32 9) with 9.
  rewrite <- (app_nil_r (prefix_of n)). rewrite parse_prefix by (done || lia). cbn [LengthPrefix.length].
  unfold do_async_read_message. change (stopped_ sp) with (stopped_ s). rewrite Hs.
  unfold resize, vector_max_size. destruct (Z.leb_spec n (2 ^ 63 - 1)); [lia|]. simpl.
  eexists. by split.
Qed.

(** A response reaches the client as one packet: whatever the buffer
    held, it is resized to the nine bytes of the prefix and the encoding, both
    parts fill it exactly, and parsing them gives the length and the message
    back. *)
Theorem response_is_a_packet m s :
  enough_memory → sendable m → stopped_ s = false →
  write m s = (set_buffer (packet m) s, [AsyncWrite (packet m)]) ∧
  ParseFromArray LengthPrefix.MergePartialFromCodedStream LengthPrefix.SharedCtor
    (take 9 (packet m)) 9 = Some (LengthPrefix.Build (zlen (drop 9 (packet m)))) ∧
  ParseFromArray WrappedMessage.MergePartialFromCodedStream WrappedMessage.SharedCtor
    (drop 9 (packet m)) (zlen (drop 9 (packet m))) = Some m.
Proof.
  intros Hmem Hm Hs. split; [by apply write_packet|].
  pose proof (sendable_size m Hm) as Hsize. unfold int_max in Hsize.
  assert (uint64_ok (zlen (msg_encode m))) as Hn by (unfold uint64_ok; lia).
  pose proof (zlen_prefix _ Hn ltac:(lia)) as Hp.
  assert (length (prefix_of (zlen (msg_encode m))) = 9%nat) as Hl by (unfold zlen in *; lia).
  assert (take 9 (packet m) = prefix_of (zlen (msg_encode m)) ∧ drop 9 (packet m) = msg_encode m)
    as [-> ->] by (unfold packet; rewrite <- Hl at 1; by rewrite take_app_length, <- Hl, drop_app_length).
  split; [|by apply parse_message].
  rewrite <- (app_nil_r (prefix_of _)) at 1. apply parse_prefix; [done|lia].
Qed.
End Theorems.

(** ** The properties at concrete inputs

    The server over the sample database, serving one login. *)

Lemma run_reachable `{W : WireFormat} `{Mem : Memory} {S : Type} `{DB : AbstractStorageConnection S}
    evs (sv sv' : server S) : run evs sv = Some sv' → rtc step sv sv'.
Proof.
  revert sv. induction evs as [|ev evs IH]; intros sv; simpl; [by intros [= ->]|].
  destruct (handle ev sv) as [sv1|] eqn:Hh; [|done]. intros Hr.
  eapply rtc_l; [by exists ev|]. by apply IH.
Qed.

Section Witnesses.
#[local] Existing Instance plain_pqxx.
#[local] Existing Instance plain_pqxx_laws.

Definition unlimited : Memory := {| can_allocate := λ _, true |}.
#[local] Existing Instance unlimited.

Definition login_packet : WrappedMessage.t :=
  WrappedMessage.Build (WrappedMessage.kRequest (Request.Build (Request.kLoginRequest
    (LoginRequest.Build [Byte.x42] [Byte.x71])))).

Lemma login_packet_sendable : sendable login_packet.
Proof. concrete_sendable. Defined.

Definition sample_start : server conn := initial (healthy sample_db).

Definition after_run (evs : list input) : server conn :=
  match run evs sample_start with Some sv => sv | None => sample_start end.

Definition one_client : server conn := after_run [Accept false].
Definition logged_in_client : server conn := after_run (Accept false :: serve 0 login_packet).

Lemma one_client_reachable : reachable (healthy sample_db) one_client.
Proof. by apply (run_reachable [Accept false]). Defined.

Lemma logged_in_client_reachable : reachable (healthy sample_db) logged_in_client.
Proof. apply (run_reachable (Accept false :: serve 0 login_packet)). vm_compute. reflexivity. Defined.

Lemma sample_storage_ok : storage_ok (healthy sample_db).
Proof. exact sample_db_ok. Defined.

Definition client_link (sv : server conn) : link :=
  match links sv !! 0%nat with Some l => l | None => Link new_session [] [] end.

Lemma one_operation_per_session_witness :
  stopped_ (session (client_link logged_in_client)) = false ∧
  ∃ o, pending (client_link logged_in_client) = [o].
Proof.
  split; [by vm_compute|].
  pose proof (one_operation_per_session (healthy sample_db) logged_in_client 0
    (client_link logged_in_client) sample_storage_ok logged_in_client_reachable
    ltac:(by vm_compute) ltac:(by vm_compute)) as Hw.
  replace (stopped_ (session (client_link logged_in_client))) with false in Hw by (by vm_compute).
  exact Hw.
Defined.

Lemma responses_answer_requests_witness :
  length (history (client_link logged_in_client)) = 2%nat ∧
  (answered (history (client_link logged_in_client)) ∨
   ∃ d h, history (client_link logged_in_client) = h ++ [Received d] ∧ answered h).
Proof.
  split; [by vm_compute|].
  apply (responses_answer_requests (healthy sample_db) logged_in_client 0
    (client_link logged_in_client) sample_storage_ok logged_in_client_reachable);
    by vm_compute.
Defined.

Lemma sessions_belong_to_users_witness :
  state_ (session (client_link logged_in_client)) = Some (MkClientState 2 [Byte.x62] [Byte.x42]) ∧
  is_user (storage logged_in_client) 2.
Proof.
  split; [by vm_compute|].
  apply (sessions_belong_to_users (healthy sample_db) logged_in_client 0
    (client_link logged_in_client) (MkClientState 2 [Byte.x62] [Byte.x42])
    sample_storage_ok logged_in_client_reachable); by vm_compute.
Defined.

Lemma request_is_served_witness :
  ∃ frame s2 sv', run (serve 0 login_packet) one_client = Some sv' ∧
    links sv' !! 0%nat = Some (Link s2 [ReadPrefix] [Received (msg_encode login_packet); Sent frame]) ∧
    exchange (msg_encode login_packet) frame ∧
    state_ s2 = Some (MkClientState 2 [Byte.x62] [Byte.x42]).
Proof.
  destruct (request_is_served 0 login_packet
    (Request.Build (Request.kLoginRequest (LoginRequest.Build [Byte.x42] [Byte.x71])))
    (LoginRequestJob (LoginRequest.Build [Byte.x42] [Byte.x71]))
    one_client (session (client_link one_client)) []) as (frame & s2 & sv' & H1 & H2 & H3 & H4 & H5 & H6 & H7).
  - by intros n _.
  - exact login_packet_sendable.
  - done.
  - done.
  - by vm_compute.
  - by vm_compute.
  - by vm_compute.
  - by vm_compute.
  - by vm_compute.
  - exists frame, s2, sv'. split; [exact H1|]. split; [exact H4|]. split; [exact H5|].
    rewrite H7. by vm_compute.
Defined.

Lemma guests_change_nothing_witness :
  (run_job ChatsRequestJob (session (client_link one_client)) (healthy sample_db)).1.2 =
  healthy sample_db.
Proof. by rewrite guests_change_nothing by (by vm_compute). Defined.

Lemma malformed_packet_stops_session_witness :
  run_job ParseCommandJob (MkClientSession false None [Byte.xff; Byte.xff]) (healthy sample_db) =
  (MkClientSession true None [Byte.xff; Byte.xff], healthy sample_db, [SockClose]).
Proof.
  rewrite malformed_packet_stops_session; [reflexivity|reflexivity|].
  intros r. by vm_compute.
Defined.

Lemma oversized_prefix_takes_server_down_witness :
  ∃ sv', handle (Complete 0 0 (Completion false (prefix_of (2 ^ 64 - 1)))) one_client = Some sv' ∧
         down sv' = true.
Proof.
  apply (oversized_prefix_takes_server_down 0 (2 ^ 64 - 1) one_client
    (session (client_link one_client)) []); by vm_compute.
Defined.

Definition accepted_message : WrappedMessage.t :=
  WrappedMessage.Build (WrappedMessage.kResponse (Response.Build (Response.kStatusResponse
    (StatusResponse.Build 0)))).

Lemma accepted_sendable : sendable accepted_message.
Proof. concrete_sendable. Defined.

Lemma response_is_a_packet_witness :
  (write accepted_message (session (client_link one_client))).2 = [AsyncWrite (packet accepted_message)] ∧
  packet accepted_message =
    [Byte.x09; Byte.x04; Byte.x00; Byte.x00; Byte.x00; Byte.x00; Byte.x00; Byte.x00; Byte.x00;
     Byte.x0a; Byte.x02; Byte.x0a; Byte.x00].
Proof.
  split; [|by vm_compute].
  by rewrite (proj1 (response_is_a_packet accepted_message (session (client_link one_client))
    ltac:(by intros n _) accepted_sendable ltac:(by vm_compute))).
Defined.
End Witnesses.
