(* ===== verification/ConcurrentServerTheorems.v ===== *)
(** * The properties of the server with concurrent jobs

    What holds in every state the server can reach while the jobs of different
    sessions interleave on one database. *)
From stdpp Require Import gmap.
From S2P Require Import Prelude Wire Parser Message Requests Responses Envelope Framing WireInstance.
From S2P Require Import Storage Database Postgres Growth Invariants Completeness PostgresSpec.
From S2P Require Import StorageTheorems Programs Interleaving Isolation Serial Progress Steps Session Jobs.
From S2P Require Import JobCalls Server ConcurrentServer ServerFacts ServerInvariant ServerTheorems.
From S2P Require Import ConcurrentFacts Traffic ConcurrentInvariant ConcurrentProgress.
From S2P Require Import Provenance ConcurrentRefinement Messenger Linearization.

Section Theorems.
Context `{W : WireFormat} `{Mem : Memory} `{P : Pqxx} {L : PqxxLaws P}.
Implicit Types (d : db) (sv : cserver).

(** C16: while the jobs of different sessions interleave, a running session
    still has exactly one operation or executing job under way, and a stopped
    one none, so the loop and the workers never touch a session at the same
    time; and its traffic alternates requests and responses of their kind. *)
Theorem jobs_do_not_share_sessions d sv i l :
  tables_ok d → creachable d sv → down (front sv) = false → links (front sv) !! i = Some l →
  (if stopped_ (session l) then pending l = [] ∧ jobs_of (executing sv) i = []
   else ∃ o, pending l ++ (RunJob <$> jobs_of (executing sv) i) = [o]) ∧
  (answered (history l) ∨ ∃ packet, serving packet (history l)).
Proof.
  intros Hd Hr Hdown Hl.
  destruct (co_link _ _ (creachable_ok _ _ Hd Hr) i l Hdown Hl) as [Hlk _ _ _].
  unfold link_ok in Hlk. simpl in Hlk. destruct (stopped_ (session l)).
  - destruct Hlk as [[-> ->%fmap_nil_inv]%app_eq_nil Hh]. done.
  - destruct Hlk as (o & Ho & Hp). split; [by exists o|].
    destruct o as [|n|data|[| | | | | | | |]]; simpl in Hp; eauto;
      destruct Hp as (packet & r & Hs & _); eauto.
Qed.

(** The user a call is made for. *)
Definition acts_for (op : storage_op) : option Z :=
  match op with
  | SendMessage user _ | AddContact user _ | CreateChat user _ _
  | GetChats user | GetContacts user => Some user
  | Registration _ _ _ | Login _ _ | GetMessages _ => None
  end.

Lemma acts_for_state j s op user : job_call j s = Some op → acts_for op = Some user →
  ∃ st, state_ s = Some st ∧ user_id st = user.
Proof.
  intros Hj Hu. destruct j; simpl in Hj; try done; try (injection Hj as <-; done);
    apply fmap_Some in Hj as (st & Hst & ->); try done; injection Hu as <-; by exists st.
Qed.

(** Only the request of somebody who is not logged in calls nothing. *)
Lemma no_call_no_state r j s : request_job r = Some j → job_call j s = None → state_ s = None.
Proof.
  destruct r as [u]. destruct u; try done; intros [= <-]; simpl; unfold state; by destruct (state_ s).
Qed.

(** C13: every call of the storage was requested by a packet, and a call for
    a user only after a packet on the same connection that had the email of
    this user and a password with his hash and was answered by his profile. *)
Theorem calls_are_authenticated d sv p c :
  tables_ok d → creachable d sv → calls (database sv) !! p = Some c →
  ∃ i l h1 packet h2 r j s, links (front sv) !! i = Some l ∧
    history l = h1 ++ Received packet :: h2 ∧
    request_in packet = Some r ∧ request_job r = Some j ∧ job_call j s = Some (op_of c) ∧
    ∀ user, acts_for (op_of c) = Some user →
      ∃ m row h3 login frame h4 r', h1 = h3 ++ Received login :: Sent frame :: h4 ∧
        request_in login = Some r' ∧ request_job r' = Some (LoginRequestJob m) ∧
        row ∈ Client (shared (database sv)) ∧ c_id row = user ∧
        quote_text (LoginRequest.email m) = Some (c_email row) ∧
        c_password_hash row = hash_password (LoginRequest.password m) ∧
        writes (wrap (login_response (Some (logged_in_as m user (c_name row))))) frame.
Proof.
  intros Hd Hr Hp.
  destruct (co_asked _ _ (creachable_ok _ _ Hd Hr) p c Hp)
    as (i & l & Hl & h1 & packet & h2 & j & s & Hh & (r & Hreq & Hj) & Hcall & Hauth & _).
  exists i, l, h1, packet, h2, r, j, s. split_and!; try done. intros user Hu.
  destruct (acts_for_state j s _ user Hcall Hu) as (st & Hst & Huser).
  destruct (Hauth st Hst)
    as (h3 & login & frame & h4 & r' & m & row & -> & Hr' & Hj' & Hw & Hrow & Hq & Hpw & ->).
  simpl in Huser. subst user. exists m, row, h3, login, frame, h4, r'. by split_and!.
Qed.

(** The response that reports the result of a call. *)
Definition reports (result : exn + answer) (resp : Response.t) : Prop :=
  match result with
  | inr (Status b) => resp = Response.Build (Response.kStatusResponse (StatusResponse.Build
      (if b then StatusResponse_RESULT_ACCEPTED else StatusResponse_RESULT_REJECTED)))
  | inr (UserFound id name) => ∃ email, resp = Response.Build (Response.kLoginResponse
      (LoginResponse.Build (LoginResponse.kProfile (Contact.Build id name email))))
  | inr (Chats chats) => resp = Response.Build (Response.kChatsResponse chats)
  | inr (Contacts contacts) => resp = Response.Build (Response.kContactsResponse contacts)
  | inr (Messages messages) => resp = Response.Build (Response.kMessagesResponse messages)
  | inl _ => resp = Response.Build (Response.kLoginResponse (LoginResponse.Build LoginResponse.OPTIONAL_PROFILE_NOT_SET))
  end.

Lemma job_response_reports j result s s' resp :
  job_response j result s = Some (s', resp) → reports result resp.
Proof.
  destruct j, result as [e|[b|id name|x|x|x]]; try done; intros [= _ <-]; try done;
    try (by destruct b). by exists (LoginRequest.email mesg).
Qed.

(** C15: every response in the traffic is that to the request before it, from
    whom the session's traffic up to then says: nobody, or the user of the last
    login that was answered with a profile.  If the job of the request asks the
    storage, the response reports the result of such a call, which has returned:
    a status is [true] if and only if the call was committed, unless its
    connection broke at the commit; the rows of a query are those of a
    committed state during the call, or none if its commit was not answered.
    If the job asks nothing, nobody is logged in and the response is empty. *)
Theorem responses_carry_answers d sv i l h1 packet frame h2 :
  tables_ok d → creachable d sv → down (front sv) = false → links (front sv) !! i = Some l →
  history l = h1 ++ Received packet :: Sent frame :: h2 →
  ∃ r j s, request_in packet = Some r ∧ request_job r = Some j ∧ known_by h1 (state_ s) ∧
  match job_call j s with
  | Some op => ∃ p result ph seen resp,
      calls (database sv) !! p = Some (Finished op result ph seen) ∧
      reports result resp ∧ writes (wrap resp) frame ∧
      promise op (states_of seen) ph result ∧
      (∀ x, x ∈ seen → grows x (shared (database sv))) ∧
      (modifies op → logged (database sv) p op result ph)
  | None => state_ s = None ∧ writes empty_response frame
  end.
Proof.
  intros Hd Hr Hdown Hl Hh. pose proof (creachable_ok _ _ Hd Hr) as Hok.
  destruct (cl_traffic _ _ _ _ (co_link _ _ Hok i l Hdown Hl) _ _ _ _ Hh)
    as (j & s & op & ((r & Hreq & Hj) & Hcall & _ & Hknown) & Hb).
  exists r, j, s. split_and!; [done..|]. rewrite Hcall. destruct op as [op|].
  - destruct Hb as (p & result & ph & seen & s' & resp & Hp & Hresp & Hw).
    exists p, result, ph, seen, resp. split_and!; try done.
    + by eapply job_response_reports.
    + exact (world_calls _ _ (co_world _ _ Hok) p _ Hp).
    + intros x Hx. by eapply (co_seen _ _ Hok p _ x Hp).
    + intros Hop. eapply finished_logged; [apply Hok|done..].
  - split; [|done]. by eapply no_call_no_state.
Qed.


(** C18: no job runs forever or is stuck, whatever the other sessions do: the
    call of a job takes at most eight steps in any run, and as long as a job
    waits or is executed some worker can take a step that is no fault. *)
Theorem jobs_are_executed d evs sv :
  tables_ok d → crun evs (cinitial d) = Some sv → down (front sv) = false →
  (∀ p, (cmoves p evs ≤ 8)%nat) ∧ (work_to_do sv → can_work sv).
Proof.
  intros Hd Hrun Hdown. split.
  - intros p. destruct (crun_schedule _ _ _ Hrun) as (wevs & Hw & Hm). rewrite <- Hm.
    eapply may_move_moves; [exact Hw|]. simpl. by rewrite lookup_empty.
  - intros Hwork. eapply work_goes_on; [|done..]. apply creachable_ok; [done|].
    by eapply crun_reachable.
Qed.

(** C19: every state of [Server.v] over PostgreSQL, where a job is one step,
    is a state of the server with concurrent jobs, with the same sessions,
    traffic and tables, whatever the faults of the connection: what is shown
    of concurrent jobs holds there too. *)
Theorem atomic_jobs_are_a_schedule (c : conn) (sv : server conn) :
  tables_ok (tables c) → reachable c sv →
  ∃ csv, creachable (tables c) csv ∧ links (front csv) = links sv ∧
    accepted (front csv) = accepted sv ∧ accepting (front csv) = accepting sv ∧
    down (front csv) = down sv ∧ shared (database csv) = tables (storage sv).
Proof.
  intros Ht Hr. destruct (run_simulated c sv Ht Hr) as (csv & Hc & []). by exists csv.
Qed.
End Theorems.

(** ** Two clients of the sample database

    User 2 and user 1 log in, their jobs interleaved; user 2 then writes to
    their chat while user 1 loads its messages. *)

Section Witnesses.
#[local] Existing Instance plain_pqxx.
#[local] Existing Instance plain_pqxx_laws.
#[local] Existing Instance unlimited.

Definition request_packet (u : Request.msg_union) : WrappedMessage.t :=
  WrappedMessage.Build (WrappedMessage.kRequest (Request.Build u)).

Definition login_of (email password : byte) : WrappedMessage.t :=
  request_packet (Request.kLoginRequest (LoginRequest.Build [email] [password])).

Definition send_hi : WrappedMessage.t :=
  request_packet (Request.kSendMesgRequest
    (SendMessageRequest.Build (Some (MessageToSend.Build 1 [Byte.x68])))).

Definition load_chat : WrappedMessage.t :=
  request_packet (Request.kMessagesRequest (MessagesRequest.Build 1)).

(** A packet arrives at session [i] and is parsed. *)
Definition arrives (i : nat) (m : WrappedMessage.t) : list cinput :=
  [CLocal i 0 (Completion false (prefix_of (zlen (msg_encode m))));
   CLocal i 0 (Completion false (msg_encode m));
   CLocal i 0 (Completion false [])].

Definition written (i : nat) : cinput := CLocal i 0 (Completion false []).

Definition step_of (p : nat) : cinput := CDatabase (Exchange p (4, 2, 2)).

Definition both_log_in : list cinput :=
  [CAccept false; CAccept false] ++ arrives 0 (login_of Byte.x42 Byte.x71) ++
  arrives 1 (login_of Byte.x41 Byte.x70) ++
  [CStart 0 0 0; step_of 0; CStart 1 0 1; step_of 1; step_of 0; step_of 1; CEnd 1; CEnd 0;
   written 1; written 0].

Definition both_chat : list cinput :=
  both_log_in ++ arrives 0 send_hi ++ arrives 1 load_chat ++
  [CStart 1 0 3; CStart 0 0 2; step_of 2; step_of 3; step_of 2; step_of 2; step_of 2; step_of 3;
   step_of 3; CEnd 3; CEnd 2; written 0; written 1].

Definition after_crun (evs : list cinput) : cserver :=
  default (cinitial sample_db) (crun evs (cinitial sample_db)).

Definition halfway : cserver := after_crun (take 27 both_chat).

Definition chatting : cserver := after_crun both_chat.

Lemma sample_crun evs : is_Some (crun evs (cinitial sample_db)) →
  crun evs (cinitial sample_db) = Some (after_crun evs).
Proof. unfold after_crun. by intros [sv ->]. Qed.

Lemma chatting_crun : crun both_chat (cinitial sample_db) = Some chatting.
Proof. apply sample_crun. vm_compute. eauto. Defined.

Lemma halfway_crun : crun (take 27 both_chat) (cinitial sample_db) = Some halfway.
Proof. apply sample_crun. vm_compute. eauto. Defined.

Definition session_link (i : nat) (sv : cserver) : link :=
  default (Link new_session [] []) (links (front sv) !! i).

(** Both jobs are executed, neither session has anything else under way. *)
Lemma jobs_do_not_share_sessions_witness :
  length (jobs_of (executing halfway) 0) = 1%nat ∧
  (∃ o, pending (session_link 0 halfway) ++ (RunJob <$> jobs_of (executing halfway) 0) = [o]) ∧
  (∃ o, pending (session_link 1 halfway) ++ (RunJob <$> jobs_of (executing halfway) 1) = [o]).
Proof.
  split; [by vm_compute|].
  assert (∀ i, is_Some (links (front halfway) !! i) → stopped_ (session (session_link i halfway)) = false →
    ∃ o, pending (session_link i halfway) ++ (RunJob <$> jobs_of (executing halfway) i) = [o]) as H.
  { intros i [l Hl] Hs.
    pose proof (jobs_do_not_share_sessions sample_db halfway i (session_link i halfway)
      (ok_tables _ sample_db_ok) (crun_reachable _ _ _ halfway_crun) ltac:(by vm_compute)
      ltac:(unfold session_link; by rewrite Hl)) as [Hw _].
    by rewrite Hs in Hw. }
  split; apply H; by (vm_compute; eauto).
Defined.

(** The message was sent under the identifier 2 after a login with the
    password of user 2. *)
Lemma calls_are_authenticated_witness :
  ∃ c, calls (database chatting) !! 2%nat = Some c ∧
  op_of c = SendMessage 2 (MessageToSend.Build 1 [Byte.x68]) ∧
  ∃ i l m row login r', links (front chatting) !! i = Some l ∧ Received login ∈ history l ∧
    request_in login = Some r' ∧ request_job r' = Some (LoginRequestJob m) ∧
    row ∈ Client sample_db ∧ c_id row = 2 ∧
    c_password_hash row = hash_password (LoginRequest.password m).
Proof.
  destruct (calls (database chatting) !! 2%nat) as [c|] eqn:Hc; [|by vm_compute in Hc].
  exists c. split; [done|].
  assert (op_of c = SendMessage 2 (MessageToSend.Build 1 [Byte.x68])) as Hop.
  { enough (op_of <$> calls (database chatting) !! 2%nat =
      Some (SendMessage 2 (MessageToSend.Build 1 [Byte.x68]))) as Hx by (rewrite Hc in Hx; by injection Hx).
    by vm_compute. }
  split; [done|].
  destruct (calls_are_authenticated sample_db chatting 2 c (ok_tables _ sample_db_ok)
    (crun_reachable _ _ _ chatting_crun) Hc)
    as (i & l & h1 & pk & h2 & r & j & s & Hl & Hh & Hr & Hj & Hcall & Hauth).
  rewrite Hop in Hauth. destruct (Hauth 2 eq_refl)
    as (m & row & h3 & login & frame & h4 & r' & -> & H1 & H2 & Hrow & H3 & _ & H4 & _).
  assert (Client (shared (database chatting)) = Client sample_db) as Hsame by (by vm_compute).
  rewrite Hsame in Hrow. exists i, l, m, row, login, r'.
  split; [exact Hl|]. split; [|by split_and!].
  rewrite Hh. apply elem_of_app. left. apply elem_of_app. right. apply list_elem_of_here.
Defined.

(** The response to the message comes from a call that is in the log if it
    says so. *)
Lemma responses_carry_answers_witness :
  ∃ s, known_by (take 2 (history (session_link 0 chatting))) (state_ s) ∧
  match job_call (SendMesgRequestJob (SendMessageRequest.Build
              (Some (MessageToSend.Build 1 [Byte.x68])))) s with
  | Some op => ∃ p result ph resp, reports result resp ∧
      writes (wrap resp) (packet accepted_message) ∧ (modifies op → logged (database chatting) p op result ph)
  | None => state_ s = None ∧ writes empty_response (packet accepted_message)
  end.
Proof.
  destruct (responses_carry_answers sample_db chatting 0 (session_link 0 chatting)
    (take 2 (history (session_link 0 chatting))) (msg_encode send_hi) (packet accepted_message) []
    (ok_tables _ sample_db_ok) (crun_reachable _ _ _ chatting_crun) ltac:(by vm_compute)
    ltac:(by vm_compute) ltac:(by vm_compute)) as (r & j & s & Hr & Hj & Hk & Hb).
  assert (request_in (msg_encode send_hi) = Some (Request.Build (Request.kSendMesgRequest
    (SendMessageRequest.Build (Some (MessageToSend.Build 1 [Byte.x68])))))) as Hr' by (by vm_compute).
  rewrite Hr' in Hr. injection Hr as <-. injection Hj as <-. exists s. split; [exact Hk|].
  destruct (job_call _ s) as [op|]; [|exact Hb].
  destruct Hb as (p & result & ph & seen & resp & _ & Hrep & Hw & _ & _ & Hlog).
  exists p, result, ph, resp. split; [exact Hrep|]. split; [exact Hw|exact Hlog].
Defined.






(** Halfway both calls are open and can go on. *)
Lemma jobs_are_executed_witness :
  busy (database halfway) = 2%nat ∧ cmoves 2 (take 27 both_chat) = 1%nat ∧
  (cmoves 2 (take 27 both_chat) ≤ 8)%nat ∧ can_work halfway.
Proof.
  destruct (jobs_are_executed sample_db (take 27 both_chat) halfway (ok_tables _ sample_db_ok)
    halfway_crun ltac:(by vm_compute)) as [Hm Hgo].
  split; [by vm_compute|]. split; [by vm_compute|]. split; [apply Hm|]. apply Hgo. left.
  destruct (executing halfway !! 2%nat) as [e|] eqn:He; [by exists 2%nat, e|by vm_compute in He].
Defined.

Lemma atomic_jobs_are_a_schedule_witness :
  length (history (client_link logged_in_client)) = 2%nat ∧
  ∃ csv, creachable sample_db csv ∧ shared (database csv) = sample_db ∧
    history (session_link 0 csv) = history (client_link logged_in_client).
Proof.
  split; [by vm_compute|].
  destruct (atomic_jobs_are_a_schedule (healthy sample_db) logged_in_client
    (ok_tables _ sample_db_ok) logged_in_client_reachable) as (csv & Hc & Hl & _ & _ & _ & Hd).
  exists csv. split; [exact Hc|]. split; [rewrite Hd; by vm_compute|].
  unfold session_link. rewrite Hl. by vm_compute.
Defined.
End Witnesses.
