(* ===== verification/ServerMain.v ===== *)
(** * The start of the server

    [main] and [set_up_arguments] of [server/src/main.cpp] with
    [terminate_exception] of [server/src/exceptions], and the end of the event
    loop, [ElegramServer::run] of [server/src/server/server.cpp].  The
    parser of boost::program_options and the binding of the port are
    parameters. *)
From stdpp Require Import strings gmap.
From S2P Require Import Prelude Wire Parser Message Requests Responses Envelope Storage Session.
From S2P Require Import Jobs Server Connection.

(** ** Exceptions *)

(** The classes that can be thrown, and their bases. *)
Inductive exception_class : Type :=
| std_exception_class
| std_logic_error
| std_invalid_argument
| std_runtime_error
| terminate_exception
| program_options_error
| system_error.

#[export] Instance exception_class_eq_dec : EqDecision exception_class.
Proof. solve_decision. Defined.

Definition base (c : exception_class) : option exception_class :=
  match c with
  | std_exception_class => None
  | std_logic_error | std_runtime_error => Some std_exception_class
  | std_invalid_argument => Some std_logic_error
  | terminate_exception => Some std_runtime_error
  | program_options_error => Some std_logic_error
  | system_error => Some std_runtime_error
  end.

(** [catch (const h &)] catches an exception of class [c]; no class is
    further than two bases from the root. *)
Fixpoint is_a (depth : nat) (c h : exception_class) : bool :=
  bool_decide (c = h) ||
  match depth, base c with
  | S depth, Some b => is_a depth b h
  | _, _ => false
  end.

Definition catches (h c : exception_class) : bool := is_a 2 c h.

(** The first handler that fits. *)
Fixpoint handler (hs : list (exception_class * Z)) (c : exception_class) : option Z :=
  match hs with
  | [] => None
  | (h, code) :: hs => if catches h c then Some code else handler hs c
  end.

(** ** The command line *)

Record variables_map := MkVariables {
  has_help : bool;
  port_value : option Z;
  logging_value : option bool
}.

(** [po::store(po::parse_command_line(argc, argv, desc), vm)] *)
Class ProgramOptions : Type := {
  store_command_line : list string → exception_class + variables_map
}.

(** Everything it throws is a [boost::program_options::error]; a [port] that
    it stores is an [unsigned short]. *)
Class ProgramOptionsLaws (O : ProgramOptions) : Prop := {
  store_throws args e : store_command_line args = inl e → e = program_options_error;
  store_port args vm port : store_command_line args = inr vm → port_value vm = Some port →
    0 ≤ port < 2 ^ 16
}.

Definition EXIT_SUCCESS : Z := 0.
Definition EXIT_FAILURE : Z := 1.

Section Main.
Context `{O : ProgramOptions}.

(** [po::notify(vm)]: [port] is required, [logging] has a default. *)
Definition notify (vm : variables_map) : exception_class + Z * bool :=
  match port_value vm with
  | Some port => inr (port, default false (logging_value vm))
  | None => inl program_options_error
  end.

Definition set_up_arguments (args : list string) : exception_class + Z * bool :=
  match store_command_line args with
  | inl e => inl e
  | inr vm => if has_help vm then inl terminate_exception else notify vm
  end.

(** The handlers of [main]. *)
Definition main_handlers : list (exception_class * Z) :=
  [(std_invalid_argument, EXIT_FAILURE); (terminate_exception, EXIT_SUCCESS)].

Inductive main_result : Type :=
| Exit (code : Z)
| Uncaught (e : exception_class)
| Serving (port : Z) (logging : bool) (factory : PostgresStorageFactory).

(** [main]; [bind port] says whether the acceptor gets the port. *)
Definition main (bind : Z → bool) (args : list string) : main_result :=
  match set_up_arguments args with
  | inl e => match handler main_handlers e with Some code => Exit code | None => Uncaught e end
  | inr (port, logging_enabled) =>
      if bind port then Serving port logging_enabled default_factory else Uncaught system_error
  end.
End Main.

(** ** The end of the event loop *)

Section Run.
Context `{W : WireFormat} `{Mem : Memory} {S : Type} `{DB : AbstractStorageConnection S}.

(** An operation of the io_service; a job is an operation of the thread pool. *)
Definition io_operation (o : operation) : bool :=
  match o with RunJob _ => false | _ => true end.

Definition io_work (sv : server S) : bool :=
  accepting sv || bool_decide (map_Exists (λ _ l, existsb io_operation (pending l)) (links sv)).

(** What [server->run()] and the rest of [main] come to: an exception of a
    handler ends the process; [run] returns when the io_service has nothing
    left to do, and then [main] does; otherwise it goes on. *)
Inductive process_end : Type :=
| Terminated
| Returned (code : Z).

Definition run_ends (sv : server S) : option process_end :=
  if down sv then Some Terminated
  else if io_work sv then None else Some (Returned EXIT_SUCCESS).
End Run.
