(* ===== verification/StartupTheorems.v ===== *)
(** * The properties of the start and the end of the server

    What the command line makes of the process, which connection the sessions
    get, and what the end of the event loop leaves behind. *)
From stdpp Require Import gmap strings.
From S2P Require Import Prelude Wire Parser Message Requests Responses Envelope WireInstance Storage.
From S2P Require Import Database Postgres Completeness StorageTheorems Programs Connection.
From S2P Require Import Session Jobs Server ServerFacts ServerTheorems ServerMain.

Definition registry : gmap string string :=
  match PostgresStorageConnection "" "" with Some c => prepared c | None => ∅ end.

(** The registry does not depend on the options of the connection. *)
Lemma prepare_all_registry l c c' d :
  prepared c = prepared c' → prepare_all l c = Some d →
  prepare_all l c' = Some (MkLazyConnection (options c') (prepared d)) ∧ options d = options c.
Proof.
  revert c c'. induction l as [|[name text] l IH]; intros c c' Hp; simpl.
  - intros [= <-]. rewrite Hp. by destruct c'.
  - unfold prepare. rewrite Hp. destruct (prepared c' !! name) as [t|].
    + case_decide; [|done]. by apply IH.
    + intros Hrun. apply (IH _ (MkLazyConnection (options c') (<[name:=text]> (prepared c')))) in Hrun;
        [|done]. destruct Hrun as [-> ->]. done.
Qed.

(** A call fits the text prepared under its name. *)
Definition fits (call : string * nat) : bool :=
  match registry !! call.1 with Some text => takes text call.2 | None => false end.

Lemma calls_fit op : forallb fits (calls_prepared op) = true.
Proof. destruct op; by vm_compute. Qed.

(** C36: a connection of the factory goes to the database and the user it was
    given, no statement is prepared twice, and every statement an operation
    calls is prepared with a text that takes as many parameters as the call
    gives. *)
Theorem statements_are_prepared (user_name dbname : string) :
  ∃ c, create_connection (MkFactory user_name dbname) = Some c ∧
    options c = ("dbname=" +:+ dbname +:+ " user=" +:+ user_name)%string ∧
    size (prepared c) = length statements ∧
    ∀ op name n, (name, n) ∈ calls_prepared op →
      ∃ text, prepared c !! name = Some text ∧ takes text n = true.
Proof.
  destruct (PostgresStorageConnection "" "") as [d|] eqn:Hd; [|by vm_compute in Hd].
  assert (registry = prepared d) as Hreg by (unfold registry; by rewrite Hd).
  apply (prepare_all_registry _ _ (LazyConnectionImpl user_name dbname)) in Hd as [Hrun _]; [|done].
  eexists. split; [exact Hrun|]. split; [done|]. simpl. rewrite <- Hreg. split; [by vm_compute|].
  intros op name n Hin. apply list_elem_of_In in Hin.
  pose proof (proj1 (forallb_forall _ _) (calls_fit op) _ Hin) as Hfit. unfold fits in Hfit. simpl in Hfit.
  destruct (registry !! name) as [text|]; [eauto|done].
Qed.

Section Theorems.
Context `{O : ProgramOptions} {OL : ProgramOptionsLaws O}.

(** Asked for help, the server exits with success without looking at
    the other options; with a port it serves it from the database [postgres]
    of the user [avallon], logging only if told to; and whatever else is
    wrong with the options, their exception is caught by no handler of
    [main], which therefore never returns [EXIT_FAILURE]. *)
Theorem command_line_decides (bind : Z → bool) (args : list string) :
  match store_command_line args with
  | inl _ => main bind args = Uncaught program_options_error
  | inr vm =>
      if has_help vm then main bind args = Exit EXIT_SUCCESS else
      match port_value vm with
      | None => main bind args = Uncaught program_options_error
      | Some port =>
          0 ≤ port < 2 ^ 16 ∧
          main bind args =
            (if bind port
             then Serving port (default false (logging_value vm)) (MkFactory "avallon" "postgres")
             else Uncaught system_error)
      end
  end ∧ main bind args ≠ Exit EXIT_FAILURE.
Proof.
  unfold main, set_up_arguments, notify. destruct (store_command_line args) as [e|vm] eqn:Hs.
  - pose proof (store_throws _ _ Hs) as ->. by split.
  - destruct (has_help vm); [by split|]. destruct (port_value vm) as [port|] eqn:Hp; [|by split].
    split; [split; [by eapply store_port|by destruct (bind port)]|by destruct (bind port)].
Qed.
End Theorems.

Section Witnesses.
#[local] Existing Instance plain_pqxx.
#[local] Existing Instance unlimited.

(** A command line of the options that are concrete here. *)
Definition plain_options : ProgramOptions := {|
  store_command_line args :=
    if decide (args = ["--help"%string]) then inr (MkVariables true None None) else
    if decide (args = ["--port=8000"%string]) then inr (MkVariables false (Some 8000) None) else
    if decide (args = []) then inr (MkVariables false None None) else inl program_options_error
|}.

Lemma plain_options_laws : ProgramOptionsLaws plain_options.
Proof.
  split; intros args *; simpl; repeat case_decide; try done; intros [= <-]; simpl; try done.
  intros [= <-]. lia.
Defined.

Lemma command_line_decides_witness :
  main (O:=plain_options) (λ _, true) ["--help"%string] = Exit EXIT_SUCCESS ∧
  main (O:=plain_options) (λ _, true) ["--port=8000"%string] =
    Serving 8000 false (MkFactory "avallon" "postgres") ∧
  main (O:=plain_options) (λ _, true) [] = Uncaught program_options_error ∧
  main (O:=plain_options) (λ _, true) ["--prot=8000"%string] ≠ Exit EXIT_FAILURE.
Proof.
  pose proof (λ args, command_line_decides (O:=plain_options) (OL:=plain_options_laws)
    (λ _, true) args) as H.
  split_and!.
  - exact (proj1 (H ["--help"%string])).
  - exact (proj2 (proj1 (H ["--port=8000"%string]))).
  - exact (proj1 (H [])).
  - exact (proj2 (H ["--prot=8000"%string])).
Defined.

(** After a signal the event loop ends, and with it the process, as soon
    as nothing but jobs is under way: a client whose request is with a worker
    gets no answer. *)
Theorem shutdown_drops_requests :
  ∃ sv l, reachable (healthy sample_db) sv ∧ links sv !! 0%nat = Some l ∧
    pending l = [RunJob ParseCommandJob] ∧ history l = [Received (msg_encode login_packet)] ∧
    run_ends sv = Some (Returned EXIT_SUCCESS).
Proof.
  set (evs := Accept false :: Signal :: take 2 (serve 0 login_packet)).
  exists (after_run evs), (client_link (after_run evs)). split.
  - apply (run_reachable evs). vm_compute. reflexivity.
  - split; [by vm_compute|]. split; [by vm_compute|]. split; by vm_compute.
Qed.
End Witnesses.
