(* ===== verification/Qt.v ===== *)
(** * What the client uses of Qt

    The strings of Qt and the two checks of connection settings are not part
    of the repository: [Qt] names them, [QtLaws] states what the theorems use
    of them. *)
From S2P Require Import Prelude.

Class Qt : Type := {
  QString : Type;
  fromUtf8 : bytes → QString;
  toStdString : QString → bytes;
  QString_eq (a b : QString) : bool;
  (** [QHostAddress{address}.isNull()] *)
  address_is_null : QString → bool;
  (** [QIntValidator{0, 65535}.validate(port) == Acceptable] *)
  port_acceptable : QString → bool
}.

Class QtLaws (Q : Qt) : Type := {
  (** the conversion to UTF-8 loses nothing *)
  fromUtf8_toStdString q : fromUtf8 (toStdString q) = q;
  QString_eq_spec a b : QString_eq a b = true ↔ a = b
}.
