(* ===== verification/ClientLists.v ===== *)
(** * The lists and models of the client

    [ChatsList], [ContactsList] and [MessagesList] of [client/src/model], the
    signals they emit, and the three item models that turn these signals into
    row insertions and removals.

    A signal is delivered at once to the slots of the model, which may look at
    the list: an emission carries the [size()] the list has at that moment.
    A [QVector] is a list; a [const ContactItem *] points to an index of one
    of the vectors the contacts list has owned, each with its serial number,
    so that a pointer into a vector that is gone can be told. *)
From stdpp Require Import gmap.
From Stdlib Require Import String.
From S2P Require Import Prelude Qt.
#[local] Open Scope elegram_scope.
#[local] Open Scope Z_scope.

(** ** Signals and rows *)

Inductive list_signal : Type :=
| preItemsSetted (size : Z)
| postItemsSetted
| preListCleared (size : option Z)
| postListCleared.

(** A signal, and [size()] when it is emitted. *)
Definition emission : Type := list_signal * Z.

(** The calls on [QAbstractItemModel]. *)
Inductive row_call : Type :=
| beginInsertRows (first last : Z)
| endInsertRows
| beginRemoveRows (first last : Z)
| endRemoveRows.

(** The slots that [setList] of the three models connects.  [preListCleared]
    carries the size for messages, the slot asks the list otherwise. *)
Definition on_signal (e : emission) : row_call :=
  match e with
  | (preItemsSetted size, _) => beginInsertRows 0 (size - 1)
  | (postItemsSetted, _) => endInsertRows
  | (preListCleared (Some size), _) => beginRemoveRows 0 (size - 1)
  | (preListCleared None, size) => let last := size in beginRemoveRows 0 (last - 1)
  | (postListCleared, _) => endRemoveRows
  end.

(** *** A model and the list it shows

    A list is an object with an identity.  [setList] leaves the signals of
    the old list and connects those of the new one, between the two calls
    that tell the view to start over. *)
Inductive signal_name : Type :=
| PreItemsSetted
| PostItemsSetted
| PreListCleared
| PostListCleared.

Definition name_of (e : emission) : signal_name :=
  match fst e with
  | preItemsSetted _ => PreItemsSetted
  | postItemsSetted => PostItemsSetted
  | preListCleared _ => PreListCleared
  | postListCleared => PostListCleared
  end.

#[export] Instance signal_name_eq_dec : EqDecision signal_name.
Proof. solve_decision. Defined.

Inductive reset_call : Type := beginResetModel | endResetModel.

Record item_model := ItemModel {
  m_list : option nat;
  connections : list (nat * signal_name)
}.

Definition new_model : item_model := ItemModel None [].

(** [m_list->disconnect(this)] *)
Definition disconnect (l : nat) (m : item_model) : item_model :=
  ItemModel (m_list m) (filter (λ c, fst c ≠ l) (connections m)).

(** [connect(m_list, signal, this, slot)] *)
Definition connect (l : nat) (g : signal_name) (m : item_model) : item_model :=
  ItemModel (m_list m) (connections m ++ [(l, g)]).

Definition set_list (target : option nat) (m : item_model) : item_model * list reset_call :=
  let m := match m_list m with Some l => disconnect l m | None => m end in
  let m := ItemModel target (connections m) in
  let m :=
    match m_list m with
    | Some l =>
        connect l PostListCleared (connect l PreListCleared
          (connect l PostItemsSetted (connect l PreItemsSetted m)))
    | None => m
    end in
  (m, [beginResetModel; endResetModel]).

(** List [l] emits: the slots connected to the signal run. *)
Definition deliver (l : nat) (e : emission) (m : item_model) : list row_call :=
  (λ _, on_signal e) <$> filter (λ c, c = (l, name_of e)) (connections m).

Definition Qt_DisplayRole : Z := 0.
Definition Qt_UserRole : Z := 256.

(** ** Chats *)

Module ChatsList.
Section Code.
Context `{Q : Qt}.

Record ChatItem := MkChatItem { id : Z; title : QString }.

Record t := Build { m_items : list ChatItem }.

Definition init : t := Build [].

Definition size (l : t) : Z := zlen (m_items l).

(** [at(index)]; [None]: out of range, which Qt forbids. *)
Definition at_ (index : Z) (l : t) : option ChatItem :=
  if 0 <=? index then m_items l !! Z.to_nat index else None.

Definition reset (l : t) : t * list emission :=
  match m_items l with
  | [] => (l, [])
  | _ :: _ =>
    let cleared := Build [] in
    (cleared, [(preListCleared None, size l); (postListCleared, size cleared)])
  end.

Definition setItems (vec : option (list ChatItem)) (l : t) : t * list emission :=
  let '(l, out) := reset l in
  match vec with
  | Some vec =>
    let l' := Build vec in
    (l', out ++ [(preItemsSetted (zlen vec), size l); (postItemsSetted, size l')])
  | None => (l, out)
  end.
End Code.
End ChatsList.

(** What [data] returns. *)
Section Variant.
Context `{Q : Qt}.

Inductive variant : Type :=
| VNone
| VId (v : Z)
| VString (s : QString)
(** the row is out of range, [QVector::at] asserts *)
| VAssert.
End Variant.

(** [ChatsModel]: the list it shows, if any. *)
Module ChatsModel.
Section Code.
Context `{Q : Qt}.

Definition ChatIdRole : Z := Qt_UserRole.

Definition rowCount (parent_valid : bool) (list : option ChatsList.t) : Z :=
  match list with
  | Some l => if parent_valid then 0 else ChatsList.size l
  | None => 0
  end.

(** [data(index, role)]: the index is valid or not, and has a row. *)
Definition data (index_valid : bool) (row role : Z) (list : option ChatsList.t) : variant :=
  match list with
  | Some l =>
    if negb index_valid then VNone else
    match ChatsList.at_ row l with
    | Some item =>
      if role =? ChatIdRole then VId (ChatsList.id item) else
      if role =? Qt_DisplayRole then VString (ChatsList.title item) else VNone
    | None => VAssert
    end
  | None => VNone
  end.

Definition roleNames : gmap Z string := (<[ChatIdRole := "chat_id"]> (<[Qt_DisplayRole := "chat_title"]> ∅))%string.

Definition list_ (m : item_model) : option nat := m_list m.

Definition setList : option nat → item_model → item_model * list reset_call := set_list.
End Code.
End ChatsModel.

(** ** Contacts *)

Module ContactsList.
Section Code.
Context `{Q : Qt}.

Record ContactItem := MkContactItem { user_id : Z; name : QString; email : QString }.

(** A [const ContactItem *]: the vector it points into and the index. *)
Record pointer := Pointer { vector : nat; offset : nat }.

(** [serial] is the number of the vector [m_items] owns now. *)
Record t := Build {
  m_items : list ContactItem;
  serial : nat;
  m_idToItem : gmap Z pointer
}.

Definition init : t := Build [] 0 ∅.

Definition size (l : t) : Z := zlen (m_items l).

Definition at_ (index : Z) (l : t) : option ContactItem :=
  if 0 <=? index then m_items l !! Z.to_nat index else None.

(** [*p]: [None] when what it pointed to is destroyed. *)
Definition deref (p : pointer) (l : t) : option ContactItem :=
  if Nat.eqb (vector p) (serial l) then m_items l !! offset p else None.

(** [clear()] destroys the items. *)
Definition reset (l : t) : t * list emission :=
  match m_items l with
  | [] => (l, [])
  | _ :: _ =>
    let cleared := Build [] (serial l) (m_idToItem l) in
    (cleared, [(preListCleared None, size l); (postListCleared, size cleared)])
  end.

Inductive user_name : Type :=
| Name (s : QString)
| UnknownUser
| Dangling.

Definition getUserBy (sender_id : Z) (l : t) : user_name :=
  match m_idToItem l !! sender_id with
  | Some p => match deref p l with Some item => Name (name item) | None => Dangling end
  | None => UnknownUser
  end.

(** [for (const auto &item : *m_items) m_idToItem[item.user_id] = &item;] *)
Fixpoint fill_map (items : list ContactItem) (v i : nat) (acc : gmap Z pointer) : gmap Z pointer :=
  match items with
  | [] => acc
  | item :: items => fill_map items v (S i) (<[user_id item := Pointer v i]> acc)
  end.

Definition setItems (vec : option (list ContactItem)) (l : t) : t * list emission :=
  let '(l, out) := reset l in
  let '(l, out) :=
    match vec with
    | Some vec =>
      let l' := Build vec (S (serial l)) (m_idToItem l) in
      (l', out ++ [(preItemsSetted (zlen vec), size l); (postItemsSetted, size l')])
    | None => (l, out)
    end in
  (Build (m_items l) (serial l) (fill_map (m_items l) (serial l) 0 ∅), out).
End Code.
End ContactsList.

Module ContactsModel.
Section Code.
Context `{Q : Qt}.

Definition UserIdRole : Z := Qt_UserRole.
Definition NameRole : Z := Qt_UserRole + 1.
Definition EmailRole : Z := Qt_UserRole + 2.

Definition rowCount (parent_valid : bool) (list : option ContactsList.t) : Z :=
  match list with
  | Some l => if parent_valid then 0 else ContactsList.size l
  | None => 0
  end.

Definition data (index_valid : bool) (row role : Z) (list : option ContactsList.t) : variant :=
  match list with
  | Some l =>
    if negb index_valid then VNone else
    match ContactsList.at_ row l with
    | Some item =>
      if role =? UserIdRole then VId (ContactsList.user_id item) else
      if role =? NameRole then VString (ContactsList.name item) else
      if role =? EmailRole then VString (ContactsList.email item) else VNone
    | None => VAssert
    end
  | None => VNone
  end.

Definition roleNames : gmap Z string := (<[UserIdRole := "user_id"]> (<[NameRole := "name"]> (<[EmailRole := "email"]> ∅)))%string.

Definition list_ (m : item_model) : option nat := m_list m.

Definition setList : option nat → item_model → item_model * list reset_call := set_list.
End Code.
End ContactsModel.

(** ** Messages *)

Module MessagesList.
Section Code.
Context `{Q : Qt}.

Record MessageItem := MkMessageItem { sender_id : Z; text : QString }.

(** The vectors are shared between the map and [m_items] and never changed
    once they are stored. *)
Record t := Build {
  m_mapToItems : gmap Z (list MessageItem);
  m_currentChatId : Z;
  m_items : option (list MessageItem)
}.

Definition init : t := Build ∅ 0 None.

Definition size (l : t) : Z := match m_items l with Some v => zlen v | None => 0 end.

(** [at(index)]; [None]: no items ([assert]) or out of range. *)
Definition at_ (index : Z) (l : t) : option MessageItem :=
  match m_items l with
  | Some v => if 0 <=? index then v !! Z.to_nat index else None
  | None => None
  end.

Definition currentChatId (l : t) : Z := m_currentChatId l.

Definition drop_items (l : t) : t := Build (m_mapToItems l) (m_currentChatId l) None.

Definition setCurrentChatId (chatId : Z) (l : t) : t * list emission :=
  if m_currentChatId l =? chatId then (l, []) else
  let dropped := drop_items l in
  let out := [(preListCleared (Some (size l)), size l); (postListCleared, size dropped)] in
  let l := Build (m_mapToItems dropped) chatId None in
  match m_mapToItems l !! chatId with
  | Some v =>
    let l' := Build (m_mapToItems l) chatId (Some v) in
    (l', out ++ [(preItemsSetted (zlen v), size l); (postItemsSetted, size l')])
  | None => (l, out)
  end.

Definition setItems (vec : option (list MessageItem)) (l : t) : t * list emission :=
  let '(l, out) :=
    match m_items l with
    | Some _ =>
      let dropped := drop_items l in
      (dropped, [(preListCleared (Some (size l)), size l); (postListCleared, size dropped)])
    | None => (l, [])
    end in
  match vec with
  | Some vec =>
    let l' := Build (<[m_currentChatId l := vec]> (m_mapToItems l)) (m_currentChatId l) (Some vec) in
    (l', out ++ [(preItemsSetted (zlen vec), size l); (postItemsSetted, size l')])
  | None => (l, out)
  end.
End Code.
End MessagesList.

Module MessagesModel.
Section Code.
Context `{Q : Qt}.

Definition SenderIdRole : Z := Qt_UserRole.

Definition rowCount (parent_valid : bool) (list : option MessagesList.t) : Z :=
  match list with
  | Some l => if parent_valid then 0 else MessagesList.size l
  | None => 0
  end.

Definition data (index_valid : bool) (row role : Z) (list : option MessagesList.t) : variant :=
  match list with
  | Some l =>
    if negb index_valid then VNone else
    match MessagesList.at_ row l with
    | Some item =>
      if role =? SenderIdRole then VId (MessagesList.sender_id item) else
      if role =? Qt_DisplayRole then VString (MessagesList.text item) else VNone
    | None => VAssert
    end
  | None => VNone
  end.

Definition roleNames : gmap Z string := (<[SenderIdRole := "sender_id"]> (<[Qt_DisplayRole := "mesg"]> ∅))%string.

Definition list_ (m : item_model) : option nat := m_list m.

Definition setList : option nat → item_model → item_model * list reset_call := set_list.
End Code.
End MessagesModel.
