(* ===== verification/NetworkSession.v ===== *)
(** * The client's connection

    [Session] of [client/src/network/network_session.*]: sending a request
    and collecting the response from the bytes the socket announces.  The
    socket is its state and the bytes that have arrived and were not read. *)
From Stdlib Require Import String.
From S2P Require Import Prelude Wire Parser Message Requests Responses Envelope Qt.
#[local] Open Scope elegram_scope.
#[local] Open Scope Z_scope.

(** [qint64] and [int] conversions. *)
Definition to_qint64 (v : Z) : Z := to_signed 64 v.
Definition to_int (v : Z) : Z := to_signed 32 v.

Definition PARSE_ERROR : Z := -1.
Definition PREFIX_SIZE : Z := 8 + 1.

Record socket := Socket { connected : bool; incoming : bytes }.

Definition bytesAvailable (k : socket) : Z := zlen (incoming k).

(** The state of a session; [Callback] stands for the stored function. *)
Record t (Callback : Type) := Build {
  m_sock : socket;
  m_buffer : bytes;
  m_callback : option Callback;
  m_bytesReaded : Z;
  m_messageSize : Z
}.
Arguments Build {Callback}.
Arguments m_sock {Callback}.
Arguments m_buffer {Callback}.
Arguments m_callback {Callback}.
Arguments m_bytesReaded {Callback}.
Arguments m_messageSize {Callback}.

(** What a member function asks of the world. *)
Inductive effect (Callback : Type) : Type :=
| SockWrite (data : bytes)
| SockAbort
| ConnectToHost
| OperationAborted
| ShowConnected
| Disconnected
| CallBack (f : Callback) (response : Response.t)
(** a negative size or a write past the end of the buffer, or the call of an
    empty function *)
| Undefined.
Arguments SockWrite {Callback}.
Arguments SockAbort {Callback}.
Arguments ConnectToHost {Callback}.
Arguments OperationAborted {Callback}.
Arguments ShowConnected {Callback}.
Arguments Disconnected {Callback}.
Arguments CallBack {Callback}.
Arguments Undefined {Callback}.

Section Code.
Context `{W : WireFormat} `{Q : Qt} {Callback : Type}.

Notation session := (t Callback).
Notation effects := (list (effect Callback)).

Definition init : session := Build (Socket false []) [] None 0 0.

Definition set_sock (k : socket) (s : session) : session :=
  Build k (m_buffer s) (m_callback s) (m_bytesReaded s) (m_messageSize s).
Definition set_buffer (b : bytes) (s : session) : session :=
  Build (m_sock s) b (m_callback s) (m_bytesReaded s) (m_messageSize s).
Definition set_callback (f : Callback) (s : session) : session :=
  Build (m_sock s) (m_buffer s) (Some f) (m_bytesReaded s) (m_messageSize s).
Definition set_bytesReaded (n : Z) (s : session) : session :=
  Build (m_sock s) (m_buffer s) (m_callback s) n (m_messageSize s).
Definition set_messageSize (n : Z) (s : session) : session :=
  Build (m_sock s) (m_buffer s) (m_callback s) (m_bytesReaded s) n.

Definition isConnected (s : session) : bool := connected (m_sock s).

Definition request (request : Request.t) (callback : Callback) (s : session) : session * effects :=
  if isConnected s then
    let s := set_callback callback s in
    let mesg := WrappedMessage.set_allocated_request WrappedMessage.SharedCtor (Some request) in
    let size := WrappedMessage.ByteSize mesg in
    let buf := vec_resize (Z.to_nat (size + to_int PREFIX_SIZE)) (m_buffer s) in
    let length_prefix := LengthPrefix.set_length LengthPrefix.SharedCtor (to_unsigned 64 size) in
    let buf := SerializeToArray LengthPrefix.ByteSize
                 LengthPrefix.InternalSerializeWithCachedSizesToArray length_prefix
                 0 (to_int PREFIX_SIZE) buf in
    let buf := SerializeToArray WrappedMessage.ByteSize
                 WrappedMessage.InternalSerializeWithCachedSizesToArray mesg
                 (Z.to_nat PREFIX_SIZE) size buf in
    (set_buffer buf s, [SockWrite buf])
  else (s, [OperationAborted]).

(** The slots of the socket's signals. *)
Definition onError (remote_closed : bool) (s : session) : session * effects :=
  (s, if remote_closed then [] else [OperationAborted]).

Definition onConnection (s : session) : session * effects := (s, [ShowConnected]).

Definition onDisconnection (s : session) : session * effects := (s, [Disconnected]).

(** [m_sock->abort()]: what had arrived is dropped, and a socket that was
    connected emits [disconnected] before [abort] returns. *)
Definition sock_abort (s : session) : session * effects :=
  let was_connected := isConnected s in
  let s := set_sock (Socket false []) s in
  if was_connected then let '(s, out) := onDisconnection s in (s, SockAbort :: out)
  else (s, [SockAbort]).

(** [QString("...")] *)
Definition text_of (literal : string) : QString := fromUtf8 (list_byte_of_string literal).

(** [connect(address, port)]: the explanation of an error, if any. *)
Definition connect (address port : QString) (s : session) : option QString * session * effects :=
  if address_is_null address then (Some (text_of "Invalid ip address"), s, []) else
  if negb (port_acceptable port) then (Some (text_of "Invalid port"), s, []) else
  let '(s, out) := sock_abort s in (None, s, out ++ [ConnectToHost]).

(** [m_sock->read(m_buffer.data(), n)] after [m_buffer.resize(size)]: the
    number of bytes read, -1 for a negative [n]; [None] if the read does not
    fit the buffer or the size is negative. *)
Definition sock_read (size n : Z) (s : session) : option (Z * session) :=
  if size <? 0 then None else
  let buf := vec_resize (Z.to_nat size) (m_buffer s) in
  if n <? 0 then Some (-1, set_buffer buf s) else
  let data := take (Z.to_nat n) (incoming (m_sock s)) in
  if size <? zlen data then None else
  Some (zlen data,
        set_sock (Socket (connected (m_sock s)) (drop (length data) (incoming (m_sock s))))
          (set_buffer (write_at 0 data buf) s)).

Definition readPrefix (s : session) : option (Z * session) :=
  match sock_read (to_int PREFIX_SIZE) PREFIX_SIZE s with
  | Some (readed, s) =>
    let s := set_bytesReaded readed s in
    match ParseFromArray LengthPrefix.MergePartialFromCodedStream LengthPrefix.SharedCtor
            (m_buffer s) (to_int readed) with
    | Some prefix => Some (to_qint64 (LengthPrefix.length prefix), s)
    | None => Some (PARSE_ERROR, s)
    end
  | None => None
  end.

Definition readMessage (mesg_size : Z) (s : session) : option (option WrappedMessage.t * session) :=
  match sock_read (to_int mesg_size) mesg_size s with
  | Some (readed, s) =>
    let s := set_bytesReaded (to_qint64 (m_bytesReaded s + to_unsigned 64 readed)) s in
    Some (ParseFromArray WrappedMessage.MergePartialFromCodedStream WrappedMessage.SharedCtor
            (m_buffer s) (to_int readed), s)
  | None => None
  end.

(** A message without a response is only warned about. *)
Definition processResponse (message : WrappedMessage.t) (s : session) : effects :=
  match fst (WrappedMessage.release_response message) with
  | Some response =>
    match m_callback s with
    | Some f => [CallBack f response]
    | None => [Undefined]
    end
  | None => []
  end.

Definition load_mesg (s : session) : session * effects :=
  match readMessage (m_messageSize s) s with
  | Some (Some readedMesg, s) => (s, processResponse readedMesg s)
  | Some (None, s) => sock_abort s
  | None => (s, [Undefined])
  end.

(** The slot of [readyRead]. *)
Definition onReadyRead (s : session) : session * effects :=
  if (m_bytesReaded s <? PREFIX_SIZE) && (PREFIX_SIZE <=? bytesAvailable (m_sock s)) then
    let s := set_bytesReaded 0 s in
    match readPrefix s with
    | None => (s, [Undefined])
    | Some (messageSize, s) =>
      let s := set_messageSize messageSize s in
      if m_messageSize s =? PARSE_ERROR then
        let '(s, out) := sock_abort s in (set_bytesReaded 0 s, out)
      else if bytesAvailable (m_sock s) =? m_messageSize s then
        let '(s, out) := load_mesg s in (set_bytesReaded 0 s, out)
      else (s, [])
    end
  else if (m_bytesReaded s =? PREFIX_SIZE) && (m_messageSize s <=? bytesAvailable (m_sock s)) then
    let '(s, out) := load_mesg s in (set_bytesReaded 0 s, out)
  else (set_bytesReaded 0 s, []).

(** Bytes arrive and [readyRead] is emitted. *)
Definition arrive (data : bytes) (s : session) : session * effects :=
  onReadyRead (set_sock (Socket (connected (m_sock s)) (incoming (m_sock s) ++ data)) s).

Fixpoint arrivals (chunks : list bytes) (s : session) : session * effects :=
  match chunks with
  | [] => (s, [])
  | data :: chunks =>
    let '(s, out) := arrive data s in
    let '(s, out') := arrivals chunks s in
    (s, out ++ out')
  end.
End Code.
