(* ===== verification/Client.v ===== *)
(** * The client behind its window

    [MessageFactory] and [MessageParser], the jobs of [client/src/jobs], the
    [Backend] and the [BackEndFacade] the QML code calls.  A job is an object
    that sends one request and whose callback handles the response; the
    callback stored in the session is the job itself.  The signals of the
    backend run the slots the facade connected to them at once. *)
From Stdlib Require Import String.
From S2P Require Import Prelude Wire Parser Message Requests Responses Envelope Qt ClientLists.
From S2P Require Import NetworkSession.
#[local] Open Scope elegram_scope.
#[local] Open Scope Z_scope.

(** ** Messages *)

Module MessageFactory.
Section Code.
Context `{W : WireFormat} `{Q : Qt}.

Definition createLoginRequest (email password : QString) : Request.t :=
  let loginRequest :=
    LoginRequest.set_password (LoginRequest.set_email LoginRequest.SharedCtor (toStdString email))
      (toStdString password) in
  Request.set_allocated_login_request Request.SharedCtor (Some loginRequest).

Definition createRegisterRequest (name email password : QString) : Request.t :=
  let registerRequest :=
    RegisterRequest.set_password (RegisterRequest.set_email (RegisterRequest.set_name
      RegisterRequest.SharedCtor (toStdString name)) (toStdString email)) (toStdString password) in
  Request.set_allocated_register_request Request.SharedCtor (Some registerRequest).

Definition createAllMyChatsRequest : Request.t :=
  Request.set_allocated_chats_request Request.SharedCtor (Some AllMyChatsRequest.SharedCtor).

Definition createAllMyContactsRequest : Request.t :=
  Request.set_allocated_contacts_request Request.SharedCtor (Some AllMyContactsRequest.SharedCtor).

Definition createLoadMessagesRequest (chatId : Z) : Request.t :=
  Request.set_allocated_messages_request Request.SharedCtor
    (Some (MessagesRequest.set_chat_id MessagesRequest.SharedCtor chatId)).

Definition createSendMessageRequest (chatId : Z) (text : QString) : Request.t :=
  let mesg := MessageToSend.set_text (MessageToSend.set_chat_id MessageToSend.SharedCtor chatId)
                (toStdString text) in
  Request.set_allocated_send_mesg_request Request.SharedCtor
    (Some (SendMessageRequest.set_allocated_mesg SendMessageRequest.SharedCtor (Some mesg))).

Definition createAddContactRequest (email : QString) : Request.t :=
  Request.set_allocated_add_contact_request Request.SharedCtor
    (Some (AddContactRequest.set_email AddContactRequest.SharedCtor (toStdString email))).

Definition createCreateChatRequest (friendId : Z) : Request.t :=
  Request.set_allocated_create_chat_request Request.SharedCtor
    (Some (CreateChatRequest.set_friend_id CreateChatRequest.SharedCtor friendId)).
End Code.
End MessageFactory.

Module MessageParser.
Section Code.
Context `{W : WireFormat}.

Definition parse_response (buf : bytes) : option Response.t :=
  match ParseFromArray WrappedMessage.MergePartialFromCodedStream WrappedMessage.SharedCtor
          buf (to_int (zlen buf)) with
  | Some message =>
    if WrappedMessage.has_response message then fst (WrappedMessage.release_response message)
    else None
  | None => None
  end.
End Code.
End MessageParser.

(** ** State *)

(** The job objects; each is the callback of its request. *)
Inductive client_job : Type :=
| LoginJob
| RegisterJob
| LoadChatsJob
| LoadContactsJob
| LoadMessagesJob
| SendMessageJob
| AddContactJob
| LoadDataJob
| CreateChatJob.

Section State.
Context `{Q : Qt}.

Record Profile := MkProfile { m_userId : Z; m_userName : QString; m_userEmail : QString }.

(** The signals of the facade, which QML receives. *)
Inductive reaction : Type :=
| doLoginReaction (isLogged : bool)
| doRegisterReaction (isRegistered : bool)
| doLoadChatsReaction
| doLoadContactsReaction
| doLoadMessagesReaction
| doSendMessageReaction (status : bool)
| doAddContactReaction (isAdded : bool)
| doLoadDataReaction
| doUpdateConnectionSettingsReaction (errorMesg : QString)
| doOperationAborted
| doShowMessage
| doChatCreatedReaction (isCreated : bool)
| doDisconnected
| serverIpChanged
| serverPortChanged.

(** The signals of the backend. *)
Inductive backend_signal : Type :=
| loggedIn (status : bool)
| registered (status : bool)
| addedContact (isAdded : bool)
| loadedChats
| loadedContacts
| loadedMessages
| loadedData
| sendedMessage (status : bool)
| updatedConnectionSettings (statusMesg : QString)
| operationAborted
| showMessage
| chatCreated (isCreated : bool)
| disconnected.

(** What reaches the outside: bytes and commands for the socket, signals for
    QML, signals of the lists for their models, and undefined behaviour. *)
Inductive output : Type :=
| ToServer (data : bytes)
| Abort
| Connect
| ToQml (r : reaction)
| ToChatsModel (e : emission)
| ToContactsModel (e : emission)
| ToMessagesModel (e : emission)
| UndefinedBehaviour.

Record client := Client {
  m_availible : bool;
  m_serverIp : QString;
  m_serverPort : QString;
  m_profile : option Profile;
  m_chatsList : ChatsList.t;
  m_contactsList : ContactsList.t;
  m_messagesList : MessagesList.t;
  m_session : NetworkSession.t client_job
}.
End State.

Section Code.
Context `{W : WireFormat} `{Q : Qt}.

Definition set_availible (b : bool) (c : client) : client :=
  Client b (m_serverIp c) (m_serverPort c) (m_profile c) (m_chatsList c) (m_contactsList c)
    (m_messagesList c) (m_session c).
Definition set_serverIp (ip : QString) (c : client) : client :=
  Client (m_availible c) ip (m_serverPort c) (m_profile c) (m_chatsList c) (m_contactsList c)
    (m_messagesList c) (m_session c).
Definition set_serverPort (port : QString) (c : client) : client :=
  Client (m_availible c) (m_serverIp c) port (m_profile c) (m_chatsList c) (m_contactsList c)
    (m_messagesList c) (m_session c).
Definition setProfile (p : Profile) (c : client) : client :=
  Client (m_availible c) (m_serverIp c) (m_serverPort c) (Some p) (m_chatsList c)
    (m_contactsList c) (m_messagesList c) (m_session c).
Definition set_chatsList (l : ChatsList.t) (c : client) : client :=
  Client (m_availible c) (m_serverIp c) (m_serverPort c) (m_profile c) l (m_contactsList c)
    (m_messagesList c) (m_session c).
Definition set_contactsList (l : ContactsList.t) (c : client) : client :=
  Client (m_availible c) (m_serverIp c) (m_serverPort c) (m_profile c) (m_chatsList c) l
    (m_messagesList c) (m_session c).
Definition set_messagesList (l : MessagesList.t) (c : client) : client :=
  Client (m_availible c) (m_serverIp c) (m_serverPort c) (m_profile c) (m_chatsList c)
    (m_contactsList c) l (m_session c).
Definition set_session (s : NetworkSession.t client_job) (c : client) : client :=
  Client (m_availible c) (m_serverIp c) (m_serverPort c) (m_profile c) (m_chatsList c)
    (m_contactsList c) (m_messagesList c) s.

(** Members of the facade that read. *)
Definition availible (c : client) : bool := m_availible c.

Definition serverIp (c : client) : QString := m_serverIp c.
Definition serverPort (c : client) : QString := m_serverPort c.

(** Members of the profile and of the backend that read. *)
Definition profile_userId (p : Profile) : Z := m_userId p.
Definition profile_userName (p : Profile) : QString := m_userName p.
Definition profile_userEmail (p : Profile) : QString := m_userEmail p.

Definition chatsList (c : client) : ChatsList.t := m_chatsList c.
Definition contactsList (c : client) : ContactsList.t := m_contactsList c.
Definition mesagesList (c : client) : MessagesList.t := m_messagesList c.
Definition connection (c : client) : NetworkSession.t client_job := m_session c.

Definition userId (c : client) : Z :=
  match m_profile c with Some p => profile_userId p | None => 0 end.
Definition userName (c : client) : QString :=
  match m_profile c with Some p => profile_userName p | None => text_of "Undefined" end.
Definition userEmail (c : client) : QString :=
  match m_profile c with Some p => profile_userEmail p | None => text_of "Undefined" end.

Definition get_contact_name (sender_id : Z) (c : client) : ContactsList.user_name :=
  if sender_id =? userId c then ContactsList.Name (userName c)
  else ContactsList.getUserBy sender_id (contactsList c).

(** ** Signals of the backend: the slots connected by the facade *)

Definition emit (g : backend_signal) (c : client) : client * list output :=
  match g with
  | loggedIn status => (set_availible true c, [ToQml (doLoginReaction status)])
  | registered status => (set_availible true c, [ToQml (doRegisterReaction status)])
  | loadedChats => (set_availible true c, [ToQml doLoadChatsReaction])
  | loadedContacts => (set_availible true c, [ToQml doLoadContactsReaction])
  | loadedMessages => (set_availible true c, [ToQml doLoadMessagesReaction])
  | sendedMessage status => (set_availible true c, [ToQml (doSendMessageReaction status)])
  | addedContact isAdded => (set_availible true c, [ToQml (doAddContactReaction isAdded)])
  | loadedData => (set_availible true c, [ToQml doLoadDataReaction])
  | updatedConnectionSettings statusMesg =>
      (set_availible true c, [ToQml (doUpdateConnectionSettingsReaction statusMesg)])
  | operationAborted => (set_availible true c, [ToQml doOperationAborted])
  | showMessage => (c, [ToQml doShowMessage])
  | chatCreated isCreated => (set_availible true c, [ToQml (doChatCreatedReaction isCreated)])
  | disconnected => (set_availible true c, [ToQml doDisconnected])
  end.

(** ** Effects of the session *)

(** All but the call of a callback, which [do_effect] adds. *)
Definition plain_effect (e : effect client_job) (c : client) : client * list output :=
  match e with
  | SockWrite data => (c, [ToServer data])
  | SockAbort => (c, [Abort])
  | ConnectToHost => (c, [Connect])
  | OperationAborted => emit operationAborted c
  | ShowConnected => emit showMessage c
  | Disconnected => emit disconnected c
  | CallBack _ _ => (c, [])
  | Undefined => (c, [UndefinedBehaviour])
  end.

Fixpoint do_all (run : effect client_job → client → client * list output)
    (es : list (effect client_job)) (c : client) : client * list output :=
  match es with
  | [] => (c, [])
  | e :: es =>
    let '(c, out) := run e c in
    let '(c, out') := do_all run es c in
    (c, out ++ out')
  end.

(** [m_backend->connection().request(std::move(request), callback)]. *)
Definition send_request (r : Request.t) (callback : client_job) (c : client)
    : client * list output :=
  let '(s, es) := NetworkSession.request r callback (connection c) in
  do_all plain_effect es (set_session s c).

(** ** Jobs *)

(** [client/src/jobs/jobsutils.cpp] *)
Definition setChats (chats : ChatsResponse.t) (c : client) : client * list output :=
  let vec := (λ chat, ChatsList.MkChatItem (Chat.chat_id chat) (fromUtf8 (c_str (Chat.title chat))))
               <$> ChatsResponse.chats chats in
  let '(l, es) := ChatsList.setItems (Some vec) (chatsList c) in
  (set_chatsList l c, ToChatsModel <$> es).

Definition setContacts (contacts : ContactsResponse.t) (c : client) : client * list output :=
  let vec := (λ contact, ContactsList.MkContactItem (Contact.user_id contact)
                (fromUtf8 (c_str (Contact.name contact))) (fromUtf8 (c_str (Contact.email contact))))
               <$> ContactsResponse.contacts contacts in
  let '(l, es) := ContactsList.setItems (Some vec) (contactsList c) in
  (set_contactsList l c, ToContactsModel <$> es).

(** [exec] of the jobs. *)
Definition exec_login (email password : QString) : client → client * list output :=
  send_request (MessageFactory.createLoginRequest email password) LoginJob.
Definition exec_register (name email password : QString) : client → client * list output :=
  send_request (MessageFactory.createRegisterRequest name email password) RegisterJob.
Definition exec_load_chats : client → client * list output :=
  send_request MessageFactory.createAllMyChatsRequest LoadChatsJob.
Definition exec_load_contacts : client → client * list output :=
  send_request MessageFactory.createAllMyContactsRequest LoadContactsJob.
Definition exec_load_messages (chatId : Z) : client → client * list output :=
  send_request (MessageFactory.createLoadMessagesRequest chatId) LoadMessagesJob.
Definition exec_send_message (chatId : Z) (message : QString) : client → client * list output :=
  send_request (MessageFactory.createSendMessageRequest chatId message) SendMessageJob.
Definition exec_add_contact (email : QString) : client → client * list output :=
  send_request (MessageFactory.createAddContactRequest email) AddContactJob.
Definition exec_load_data : client → client * list output :=
  send_request MessageFactory.createAllMyContactsRequest LoadDataJob.
Definition exec_create_chat (friendId : Z) : client → client * list output :=
  send_request (MessageFactory.createCreateChatRequest friendId) CreateChatJob.

(** [response->has_status_response() && ...result() == ACCEPTED] *)
Definition accepted_status (response : Response.t) : bool :=
  Response.has_status_response response &&
  (StatusResponse.result (Response.status_response response) =? StatusResponse_RESULT_ACCEPTED).

(** Runs [f], then emits. *)
Definition then_emit (g : backend_signal) (r : client * list output) : client * list output :=
  let '(c, out) := r in
  let '(c, out') := emit g c in
  (c, out ++ out').

Definition login_callback (response : Response.t) (c : client) : client * list output :=
  if Response.has_login_response response then
    let loginResponse := Response.login_response response in
    if LoginResponse.has_profile loginResponse then
      let profile := LoginResponse.profile loginResponse in
      let c := setProfile (MkProfile (Contact.user_id profile) (fromUtf8 (Contact.name profile))
                             (fromUtf8 (Contact.email profile))) c in
      emit (loggedIn true) c
    else emit (loggedIn false) c
  else emit (loggedIn false) c.

Definition load_chats_callback (response : Response.t) (c : client) : client * list output :=
  then_emit loadedChats
    (if Response.has_chats_response response then setChats (Response.chats_response response) c
     else (c, [])).

Definition load_contacts_callback (response : Response.t) (c : client) : client * list output :=
  then_emit loadedContacts
    (if Response.has_contacts_response response
     then setContacts (Response.contacts_response response) c else (c, [])).

Definition load_messages_callback (response : Response.t) (c : client) : client * list output :=
  then_emit loadedMessages
    (if Response.has_messages_response response then
       let messages := Response.messages_response response in
       let vec := (λ mesg, MessagesList.MkMessageItem (MessageToRecieve.sender_id mesg)
                     (fromUtf8 (c_str (MessageToRecieve.text mesg))))
                    <$> MessagesResponse.messages messages in
       let '(l, es) := MessagesList.setItems (Some vec) (mesagesList c) in
       (set_messagesList l c, ToMessagesModel <$> es)
     else (c, [])).

(** The contacts first; their response makes the job ask for the chats. *)
Definition load_data_callback (response : Response.t) (c : client) : client * list output :=
  if Response.has_contacts_response response then
    let '(c, out) := setContacts (Response.contacts_response response) c in
    let '(c, out') := send_request MessageFactory.createAllMyChatsRequest LoadDataJob c in
    (c, out ++ out')
  else if Response.has_chats_response response then
    then_emit loadedData (setChats (Response.chats_response response) c)
  else emit loadedData c.

Definition register_callback (response : Response.t) : client → client * list output :=
  let success := accepted_status response in
  emit (registered success).
Definition send_message_callback (response : Response.t) : client → client * list output :=
  let success := accepted_status response in
  emit (sendedMessage success).
Definition add_contact_callback (response : Response.t) : client → client * list output :=
  let success := accepted_status response in
  emit (addedContact success).
Definition create_chat_callback (response : Response.t) : client → client * list output :=
  let success := accepted_status response in
  emit (chatCreated success).

Definition responseProcessingCallback (j : client_job) (response : Response.t) (c : client)
    : client * list output :=
  match j with
  | LoginJob => login_callback response c
  | RegisterJob => register_callback response c
  | LoadChatsJob => load_chats_callback response c
  | LoadContactsJob => load_contacts_callback response c
  | LoadMessagesJob => load_messages_callback response c
  | SendMessageJob => send_message_callback response c
  | AddContactJob => add_contact_callback response c
  | LoadDataJob => load_data_callback response c
  | CreateChatJob => create_chat_callback response c
  end.

Definition do_effect (e : effect client_job) (c : client) : client * list output :=
  match e with
  | CallBack f response => responseProcessingCallback f response c
  | _ => plain_effect e c
  end.

(** A slot of the session runs. *)
Definition session_slot
    (slot : NetworkSession.t client_job → NetworkSession.t client_job * list (effect client_job))
    (c : client) : client * list output :=
  let '(s, es) := slot (m_session c) in
  do_all do_effect es (set_session s c).

(** ** The backend: an operation makes its job and executes it *)

Definition backend_signin (email password : QString) : client → client * list output :=
  exec_login email password.
Definition backend_signup (name email password : QString) : client → client * list output :=
  exec_register name email password.
Definition backend_sendMessage (chatId : Z) (message : QString) : client → client * list output :=
  exec_send_message chatId message.
Definition backend_addContact (email : QString) : client → client * list output :=
  exec_add_contact email.
Definition backend_loadChats : client → client * list output := exec_load_chats.
Definition backend_loadContacts : client → client * list output := exec_load_contacts.
Definition backend_loadData : client → client * list output := exec_load_data.
Definition backend_loadMessages (chatId : Z) : client → client * list output :=
  exec_load_messages chatId.
Definition backend_createChat (friendId : Z) : client → client * list output :=
  exec_create_chat friendId.

(** ** The facade *)

(** Every operation refuses to start while another one is under way. *)
Definition if_availible (operation : client → client * list output) (c : client)
    : client * list output :=
  if availible c then operation (set_availible false c) else (c, []).

Definition signin (email password : QString) : client → client * list output :=
  if_availible (backend_signin email password).
Definition signup (name email password : QString) : client → client * list output :=
  if_availible (backend_signup name email password).
Definition sendMessage (chatId : Z) (message : QString) : client → client * list output :=
  if_availible (backend_sendMessage chatId message).
Definition addContact (email : QString) : client → client * list output :=
  if_availible (backend_addContact email).
Definition loadChats : client → client * list output := if_availible backend_loadChats.
Definition loadContacts : client → client * list output := if_availible backend_loadContacts.
Definition loadData : client → client * list output := if_availible backend_loadData.
Definition loadMessages (chatId : Z) : client → client * list output :=
  if_availible (backend_loadMessages chatId).
Definition createChat (friendId : Z) : client → client * list output :=
  if_availible (backend_createChat friendId).

Definition setServerIp (ip : QString) (c : client) : client * list output :=
  if QString_eq (m_serverIp c) ip then (c, []) else (set_serverIp ip c, [ToQml serverIpChanged]).
Definition setServerPort (port : QString) (c : client) : client * list output :=
  if QString_eq (m_serverPort c) port then (c, [])
  else (set_serverPort port c, [ToQml serverPortChanged]).

(** [Backend::updateConnectionSettings] *)
Definition backend_update (ip port : QString) (c : client) : bool * (client * list output) :=
  let '(error, s, es) := NetworkSession.connect ip port (m_session c) in
  let '(c, out) := do_all plain_effect es (set_session s c) in
  match error with
  | Some description =>
      let '(c, out') := emit (updatedConnectionSettings description) c in (false, (c, out ++ out'))
  | None =>
      let '(c, out') := emit (updatedConnectionSettings (fromUtf8 [])) c in (true, (c, out ++ out'))
  end.

Definition updateConnectionSettings (ip port : QString) : client → client * list output :=
  if_availible (λ c,
    let '(ok, (c, out)) := backend_update ip port c in
    if ok then
      let '(c, out1) := setServerIp ip c in
      let '(c, out2) := setServerPort port c in
      (c, out ++ out1 ++ out2)
    else (c, out)).

(** ** Everything that can happen to the client *)

Inductive happening : Type :=
| Signin (email password : QString)
| Signup (name email password : QString)
| SendMessage (chatId : Z) (message : QString)
| AddContact (email : QString)
| LoadChats
| LoadContacts
| LoadData
| LoadMessages (chatId : Z)
| CreateChat (friendId : Z)
| UpdateSettings (ip port : QString)
| SelectChat (chatId : Z)
| Arrival (data : bytes)
| SocketError (remote_closed : bool)
| SocketConnected
| SocketDisconnected.

Definition happens (h : happening) (c : client) : client * list output :=
  match h with
  | Signin email password => signin email password c
  | Signup name email password => signup name email password c
  | SendMessage chatId message => sendMessage chatId message c
  | AddContact email => addContact email c
  | LoadChats => loadChats c
  | LoadContacts => loadContacts c
  | LoadData => loadData c
  | LoadMessages chatId => loadMessages chatId c
  | CreateChat friendId => createChat friendId c
  | UpdateSettings ip port => updateConnectionSettings ip port c
  | SelectChat chatId =>
      let '(l, es) := MessagesList.setCurrentChatId chatId (m_messagesList c) in
      (set_messagesList l c, ToMessagesModel <$> es)
  | Arrival data => session_slot (arrive data) c
  | SocketError remote_closed => session_slot (onError remote_closed) c
  | SocketConnected =>
      session_slot (λ s, onConnection (set_sock (Socket true (incoming (m_sock s))) s)) c
  | SocketDisconnected =>
      session_slot (λ s, onDisconnection (set_sock (Socket false (incoming (m_sock s))) s)) c
  end.

(** The constructors: default settings, with which the session connects at
    once; what [connect] returns is ignored. *)
Definition constructed : client :=
  Client true (text_of "127.0.0.1") (text_of "8000") None ChatsList.init ContactsList.init
    MessagesList.init NetworkSession.init.

Definition startup : client * list output :=
  let '(_, s, es) := NetworkSession.connect (m_serverIp constructed) (m_serverPort constructed)
                       (m_session constructed) in
  do_all plain_effect es (set_session s constructed).

Definition new_client : client := fst startup.
End Code.
