(* ===== verification/ClientListTheorems.v ===== *)
(** * The properties of the lists of the client

    The signals of the lists against the documented protocol of an item model
    ([beginInsertRows] and the three calls that go with it), the look-up of
    contacts through pointers, and the messages kept per chat. *)
From stdpp Require Import gmap.
From Stdlib Require Import String.
From S2P Require Import Prelude Qt ClientLists.

(** ** The protocol of an item model

    What the view knows: a number of rows, or a change of rows that has begun. *)
Inductive rows_state : Type :=
| Rows (n : Z)
| Inserting (n k : Z)
| Removing (n k : Z).

(** A legal call: the range is not empty, a removed row exists, a new row is
    next to an old one, and a change ends before another one begins. *)
Definition row_step (s : rows_state) (c : row_call) : option rows_state :=
  match s, c with
  | Rows n, beginInsertRows first last =>
      if (0 <=? first) && (first <=? n) && (first <=? last)
      then Some (Inserting n (last - first + 1)) else None
  | Inserting n k, endInsertRows => Some (Rows (n + k))
  | Rows n, beginRemoveRows first last =>
      if (0 <=? first) && (first <=? last) && (last <? n)
      then Some (Removing n (last - first + 1)) else None
  | Removing n k, endRemoveRows => Some (Rows (n - k))
  | _, _ => None
  end.

Fixpoint row_run (s : rows_state) (cs : list row_call) : option rows_state :=
  match cs with
  | [] => Some s
  | c :: cs => match row_step s c with Some s => row_run s cs | None => None end
  end.

(** The emissions take a view of [n] rows to one of [m] rows, legally. *)
Definition shows (n : Z) (es : list emission) (m : Z) : Prop :=
  row_run (Rows n) (on_signal <$> es) = Some (Rows m).

Section Rows.
Lemma row_run_app s cs cs' :
  row_run s (cs ++ cs') = match row_run s cs with Some s => row_run s cs' | None => None end.
Proof. revert s. induction cs as [|c cs IH]; intros s; simpl; [done|]. by destruct (row_step s c). Qed.

Lemma shows_app n es m es' k : shows n es m → shows m es' k → shows n (es ++ es') k.
Proof. unfold shows. intros H1 H2. by rewrite fmap_app, row_run_app, H1. Qed.

Lemma shows_nil n : shows n [] n.
Proof. done. Qed.

Lemma shows_set n k k' : 0 < k → n = 0 →
  shows n [(preItemsSetted k, n); (postItemsSetted, k')] k.
Proof.
  intros Hk ->. unfold shows. simpl.
  destruct (Z.leb_spec 0 (k - 1)); [|lia]. simpl. do 2 f_equal. lia.
Qed.

Lemma shows_clear n size k : 0 < n → size = Some n ∨ size = None →
  shows n [(preListCleared size, n); (postListCleared, k)] 0.
Proof.
  intros Hn Hsize. unfold shows. cbn [fmap list_fmap].
  assert (on_signal (preListCleared size, n) = beginRemoveRows 0 (n - 1)) as ->
    by (destruct Hsize as [-> | ->]; done).
  simpl. destruct (Z.leb_spec 0 (n - 1)); [|lia]. destruct (Z.ltb_spec (n - 1) n); [|lia].
  simpl. do 2 f_equal. lia.
Qed.

Lemma zlen_pos {A} (x : A) l : 0 < zlen (x :: l).
Proof. rewrite zlen_cons. pose proof (zlen_nonneg l). lia. Qed.

Lemma nonempty_pos {A} (l : list A) : l ≠ [] → 0 < zlen l.
Proof. destruct l; [done|]. intros _. apply zlen_pos. Qed.
End Rows.

(** ** Contacts by identifier *)

Section Contacts.
Context `{Q : Qt}.
Import ContactsList.

(** The pointer stored for a contact points to the last item with his
    identifier. *)
Lemma fill_map_spec items v i acc id p :
  fill_map items v i acc !! id = Some p →
  acc !! id = Some p ∧ (∀ item, item ∈ items → user_id item ≠ id) ∨
  ∃ k item, p = Pointer v (i + k) ∧ items !! k = Some item ∧ user_id item = id ∧
    ∀ k' item', items !! k' = Some item' → user_id item' = id → (k' ≤ k)%nat.
Proof.
  revert i acc. induction items as [|item items IH]; intros i acc; simpl.
  - intros Hp. left. split; [done|]. intros item []%elem_of_nil.
  - intros [[Hp Hno]|(k & it & -> & Hk & Hid & Hmax)]%IH.
    + apply lookup_insert_Some in Hp as [[Hid <-]|[Hid Hp]].
      * right. exists 0%nat, item. split_and!; [f_equal; lia|done|done|].
        intros [|k'] it'; simpl; [lia|]. intros Hk' Hid'.
        by destruct (Hno it'); [eapply list_elem_of_lookup_2|].
      * left. split; [done|]. intros it [-> |Hin]%elem_of_cons; [done|by apply Hno].
    + right. exists (S k), it. split_and!; [f_equal; lia|done|done|].
      intros [|k'] it'; simpl; [lia|]. intros Hk' Hid'. specialize (Hmax k' it' Hk' Hid'). lia.
Qed.

Lemma fill_map_some items v i acc id :
  (∃ item, item ∈ items ∧ user_id item = id) ∨ is_Some (acc !! id) →
  is_Some (fill_map items v i acc !! id).
Proof.
  revert i acc. induction items as [|item items IH]; intros i acc; simpl.
  - intros [(? & []%elem_of_nil & _)|H]; done.
  - intros H. apply IH. destruct H as [(it & [-> |Hin]%elem_of_cons & Hid)|H]; [right|left; eauto|right].
    + rewrite <- Hid. rewrite lookup_insert_eq. eauto.
    + destruct (decide (user_id item = id)) as [->|]; [rewrite lookup_insert_eq; eauto|].
      by rewrite lookup_insert_ne.
Qed.

(** Every stored pointer designates a live item with its identifier. *)
Definition pointers_ok (l : t) : Prop :=
  (∀ id p, m_idToItem l !! id = Some p → ∃ item, deref p l = Some item ∧ user_id item = id) ∧
  (∀ item, item ∈ m_items l → is_Some (m_idToItem l !! user_id item)).

Lemma setItems_pointers vec l : pointers_ok (setItems vec l).1.
Proof.
  assert (∀ items v, pointers_ok (Build items v (fill_map items v 0 ∅))) as Hfill.
  { intros items v. split; simpl.
    - intros id p Hp. apply fill_map_spec in Hp as [[Hp _]|(k & item & -> & Hk & Hid & _)].
      + by rewrite lookup_empty in Hp.
      + exists item. unfold deref. simpl. by rewrite Nat.eqb_refl.
    - intros item Hin. apply fill_map_some. left. eauto. }
  unfold setItems. destruct (reset l) as [l1 out]. destruct vec; apply Hfill.
Qed.

Lemma getUserBy_setItems vec l id :
  (∃ item k, getUserBy id (setItems (Some vec) l).1 = Name (name item) ∧
     vec !! k = Some item ∧ user_id item = id ∧
     ∀ k' item', vec !! k' = Some item' → user_id item' = id → (k' ≤ k)%nat) ∨
  getUserBy id (setItems (Some vec) l).1 = UnknownUser ∧ ∀ item, item ∈ vec → user_id item ≠ id.
Proof.
  unfold setItems. destruct (reset l) as [l1 out]. unfold getUserBy. simpl.
  destruct (fill_map vec (S (serial l1)) 0 ∅ !! id) as [p|] eqn:Hp.
  - left. apply fill_map_spec in Hp as [[Hp _]|(k & item & -> & Hk & Hid & Hmax)].
    + by rewrite lookup_empty in Hp.
    + exists item, k. unfold deref. simpl. rewrite Nat.eqb_refl, Hk. eauto.
  - right. split; [done|]. intros item Hin Hid.
    destruct (fill_map_some vec (S (serial l1)) 0 ∅ id) as [p Hp']; [left; eauto|].
    by rewrite Hp' in Hp.
Qed.
End Contacts.

(** Clearing a list takes the view to no rows; what follows is the insertion
    of the new rows. *)
Section Setting.
Context `{Q : Qt}.

Lemma chats_set_items vec l :
  ∃ es, shows (ChatsList.size l) es 0 ∧
    (ChatsList.setItems (Some vec) l).2 =
      es ++ [(preItemsSetted (zlen vec), 0); (postItemsSetted, zlen vec)].
Proof.
  destruct l as [[|x items]].
  - exists []. split; [apply shows_nil|done].
  - eexists [_; _]. split; [apply shows_clear; [apply zlen_pos|by right]|done].
Qed.

Lemma contacts_set_items vec l :
  ∃ es, shows (ContactsList.size l) es 0 ∧
    (ContactsList.setItems (Some vec) l).2 =
      es ++ [(preItemsSetted (zlen vec), 0); (postItemsSetted, zlen vec)].
Proof.
  destruct l as [[|x items] v g].
  - exists []. split; [apply shows_nil|done].
  - eexists [_; _]. split; [apply shows_clear; [apply zlen_pos|by right]|done].
Qed.

Lemma messages_set_items vec l :
  MessagesList.m_items l ≠ Some [] →
  ∃ es, shows (MessagesList.size l) es 0 ∧
    (MessagesList.setItems (Some vec) l).2 =
      es ++ [(preItemsSetted (zlen vec), 0); (postItemsSetted, zlen vec)].
Proof.
  destruct l as [g c [[|x items]|]]; [done| |]; intros _.
  - eexists [_; _]. split; [apply shows_clear; [apply zlen_pos|by left]|done].
  - exists []. split; [apply shows_nil|done].
Qed.

Lemma shows_set_nonempty {A} n es (vec : list A) :
  vec ≠ [] → shows n es 0 →
  shows n (es ++ [(preItemsSetted (zlen vec), 0); (postItemsSetted, zlen vec)]) (zlen vec).
Proof. intros Hv Hs. eapply shows_app; [exact Hs|]. by apply shows_set; [apply nonempty_pos|]. Qed.

Lemma shows_set_empty {A} n es :
  shows n es 0 →
  row_run (Rows n) (on_signal <$>
    (es ++ [(preItemsSetted (zlen (@nil A)), 0); (postItemsSetted, zlen (@nil A))])) = None.
Proof. unfold shows. intros Hs. by rewrite fmap_app, row_run_app, Hs. Qed.
End Setting.

(** ** Models *)

Section Models.
Context `{Q : Qt}.

Definition slots_of (l : nat) : list (nat * signal_name) :=
  [(l, PreItemsSetted); (l, PostItemsSetted); (l, PreListCleared); (l, PostListCleared)].

(** A model listens to the list it shows, once, and to nothing else. *)
Definition listens (m : item_model) : Prop :=
  connections m = match m_list m with Some l => slots_of l | None => [] end.

Lemma set_list_listens target m : listens m → listens (set_list target m).1.
Proof.
  unfold listens, set_list, disconnect, connect. destruct m as [[l|] cs]; simpl; intros ->.
  - unfold slots_of. rewrite !filter_cons_False, filter_nil by (simpl; tauto). by destruct target.
  - by destruct target.
Qed.

Lemma set_list_target target m : m_list (set_list target m).1 = target.
Proof. unfold set_list. destruct (m_list m), target; done. Qed.

Lemma deliver_listens l e m : listens m →
  deliver l e m = if decide (m_list m = Some l) then [on_signal e] else [].
Proof.
  unfold deliver. intros ->. destruct (m_list m) as [l'|]; [|by rewrite decide_False].
  destruct (decide (Some l' = Some l)) as [[= ->]|Hne].
  - destruct (name_of e); unfold slots_of;
      rewrite ?filter_cons, ?filter_nil; repeat (case_decide; try congruence); done.
  - unfold slots_of. rewrite !filter_cons_False, filter_nil by congruence. done.
Qed.

(** The item at a row of a vector. *)
Lemma row_item {A} (v : list A) row : 0 <= row < zlen v →
  ∃ x, (if 0 <=? row then v !! Z.to_nat row else None) = Some x.
Proof.
  intros [H1 H2]. rewrite (proj2 (Z.leb_le 0 row) H1). apply lookup_lt_is_Some_2.
  unfold zlen in H2. lia.
Qed.
End Models.

(** The next role of a model is the one asked for, or not. *)
Ltac next_role :=
  match goal with
  | |- context [?role =? ?r] =>
      destruct (Z.eqb_spec role r) as [->|];
      [rewrite lookup_insert_eq || (rewrite lookup_insert_ne by done; rewrite lookup_insert_eq);
       eauto 8 using list_elem_of_fmap_2
      |rewrite lookup_insert_ne by congruence]
  end.

Section Theorems.
Context `{Q : Qt}.

(** C35: however often QML gives a model another list, the same list again or
    none, every signal of the list it shows last runs one slot of the model
    once, and signals of other lists none. *)
Theorem models_follow_their_list (targets : list (option nat)) (l : nat) (e : emission) :
  let m := fold_left (λ m target, (set_list target m).1) targets new_model in
  m_list m = default None (last targets) ∧
  deliver l e m = if decide (m_list m = Some l) then [on_signal e] else [].
Proof.
  assert (∀ m, listens m →
    listens (fold_left (λ m target, (set_list target m).1) targets m) ∧
    m_list (fold_left (λ m target, (set_list target m).1) targets m) =
      default (m_list m) (last targets)) as H.
  { induction targets as [|t ts IH]; intros m Hm; [done|]. rewrite last_cons. cbn [fold_left].
    destruct (IH _ (set_list_listens t m Hm)) as [H1 H2]. split; [done|].
    etrans; [exact H2|]. rewrite set_list_target. by destruct (last ts). }
  destruct (H new_model eq_refl) as [H1 H2]. split; [done|]. by apply deliver_listens.
Qed.

(** At every row a model has, the roles it names are those with a value,
    an identifier or a text as the item has it; nothing is read outside of
    the list. *)
Theorem roles_have_values (row role : Z) :
  (∀ l : ChatsList.t, 0 <= row < ChatsModel.rowCount false (Some l) →
     match ChatsModel.roleNames !! role, ChatsModel.data true row role (Some l) with
     | Some _, VId v => role = ChatsModel.ChatIdRole ∧ v ∈ ChatsList.id <$> ChatsList.m_items l
     | Some _, VString s => role = Qt_DisplayRole ∧ s ∈ ChatsList.title <$> ChatsList.m_items l
     | None, VNone => True
     | _, _ => False
     end) ∧
  (∀ l : ContactsList.t, 0 <= row < ContactsModel.rowCount false (Some l) →
     match ContactsModel.roleNames !! role, ContactsModel.data true row role (Some l) with
     | Some _, VId v => role = ContactsModel.UserIdRole ∧
         v ∈ ContactsList.user_id <$> ContactsList.m_items l
     | Some _, VString s =>
         role = ContactsModel.NameRole ∧ s ∈ ContactsList.name <$> ContactsList.m_items l ∨
         role = ContactsModel.EmailRole ∧ s ∈ ContactsList.email <$> ContactsList.m_items l
     | None, VNone => True
     | _, _ => False
     end) ∧
  (∀ l : MessagesList.t, 0 <= row < MessagesModel.rowCount false (Some l) →
     match MessagesModel.roleNames !! role, MessagesModel.data true row role (Some l) with
     | Some _, VId v => role = MessagesModel.SenderIdRole ∧
         ∃ items, MessagesList.m_items l = Some items ∧ v ∈ MessagesList.sender_id <$> items
     | Some _, VString s => role = Qt_DisplayRole ∧
         ∃ items, MessagesList.m_items l = Some items ∧ s ∈ MessagesList.text <$> items
     | None, VNone => True
     | _, _ => False
     end).
Proof.
  split_and!; intros l Hrow.
  - unfold ChatsModel.data, ChatsList.at_, ChatsModel.roleNames.
    destruct (row_item (ChatsList.m_items l) row Hrow) as (x & Hx). rewrite Hx. simpl.
    destruct (0 <=? row); [|done]. apply list_elem_of_lookup_2 in Hx.
    next_role. next_role. done.
  - unfold ContactsModel.data, ContactsList.at_, ContactsModel.roleNames.
    destruct (row_item (ContactsList.m_items l) row Hrow) as (x & Hx). rewrite Hx. simpl.
    destruct (0 <=? row); [|done]. apply list_elem_of_lookup_2 in Hx.
    next_role. next_role. next_role. done.
  - unfold MessagesModel.data, MessagesList.at_, MessagesModel.roleNames.
    cbn [MessagesModel.rowCount] in Hrow. unfold MessagesList.size in Hrow.
    destruct (MessagesList.m_items l) as [v|]; [|lia].
    destruct (row_item v row Hrow) as (x & Hx). rewrite Hx. simpl.
    destruct (0 <=? row); [|done]. apply list_elem_of_lookup_2 in Hx.
    next_role. next_role. done.
Qed.

(** Replacing the items of a list by a non-empty vector, whatever it
    held, takes the view legally from the old number of rows to the new one:
    for chats, for contacts and for messages. *)
Theorem set_items_shows :
  (∀ vec (l : ChatsList.t), vec ≠ [] →
     shows (ChatsList.size l) (ChatsList.setItems (Some vec) l).2
           (ChatsList.size (ChatsList.setItems (Some vec) l).1)) ∧
  (∀ vec (l : ContactsList.t), vec ≠ [] →
     shows (ContactsList.size l) (ContactsList.setItems (Some vec) l).2
           (ContactsList.size (ContactsList.setItems (Some vec) l).1)) ∧
  (∀ vec (l : MessagesList.t), vec ≠ [] → MessagesList.m_items l ≠ Some [] →
     shows (MessagesList.size l) (MessagesList.setItems (Some vec) l).2
           (MessagesList.size (MessagesList.setItems (Some vec) l).1)).
Proof.
  split_and!; intros vec l Hv.
  - destruct (chats_set_items vec l) as (es & Hs & ->).
    replace (ChatsList.size (ChatsList.setItems (Some vec) l).1) with (zlen vec)
      by (by destruct l as [[]]). by apply shows_set_nonempty.
  - destruct (contacts_set_items vec l) as (es & Hs & ->).
    replace (ContactsList.size (ContactsList.setItems (Some vec) l).1) with (zlen vec)
      by (by destruct l as [[]]). by apply shows_set_nonempty.
  - intros Hl. destruct (messages_set_items vec l Hl) as (es & Hs & ->).
    replace (MessagesList.size (MessagesList.setItems (Some vec) l).1) with (zlen vec)
      by (by destruct l as [? ? []]). by apply shows_set_nonempty.
Qed.

(** An empty answer of the server (a user without chats, without
    contacts, a chat without messages) makes the list announce the insertion
    of the rows 0 to -1, which no view may accept. *)
Theorem empty_answer_breaks_view :
  (∀ l : ChatsList.t,
     row_run (Rows (ChatsList.size l)) (on_signal <$> (ChatsList.setItems (Some []) l).2) = None) ∧
  (∀ l : ContactsList.t,
     row_run (Rows (ContactsList.size l)) (on_signal <$> (ContactsList.setItems (Some []) l).2) = None) ∧
  (∀ l : MessagesList.t, MessagesList.m_items l ≠ Some [] →
     row_run (Rows (MessagesList.size l)) (on_signal <$> (MessagesList.setItems (Some []) l).2) = None).
Proof.
  split_and!.
  - intros l. destruct (chats_set_items [] l) as (es & Hs & ->). by apply shows_set_empty.
  - intros l. destruct (contacts_set_items [] l) as (es & Hs & ->). by apply shows_set_empty.
  - intros l Hl. destruct (messages_set_items [] l Hl) as (es & Hs & ->). by apply shows_set_empty.
Qed.

(** After the contacts were set, from any state of the list, no stored
    pointer dangles, and the name looked up for an identifier is that of the
    last contact with it, or the list says that there is none. *)
Theorem contact_names_are_found vec (l : ContactsList.t) id :
  (∀ id p, ContactsList.m_idToItem (ContactsList.setItems (Some vec) l).1 !! id = Some p →
     ∃ item, ContactsList.deref p (ContactsList.setItems (Some vec) l).1 = Some item ∧
             ContactsList.user_id item = id) ∧
  ((∃ item k, ContactsList.getUserBy id (ContactsList.setItems (Some vec) l).1 =
                ContactsList.Name (ContactsList.name item) ∧
      vec !! k = Some item ∧ ContactsList.user_id item = id ∧
      ∀ k' item', vec !! k' = Some item' → ContactsList.user_id item' = id → (k' ≤ k)%nat) ∨
   ContactsList.getUserBy id (ContactsList.setItems (Some vec) l).1 = ContactsList.UnknownUser ∧
   ∀ item, item ∈ vec → ContactsList.user_id item ≠ id).
Proof.
  split; [exact (proj1 (setItems_pointers (Some vec) l))|]. apply getUserBy_setItems.
Qed.

(** [reset] on its own leaves every pointer of a non-empty list
    dangling: it destroys the items and keeps the map. *)
Theorem reset_leaves_dangling vec (l : ContactsList.t) item :
  item ∈ vec →
  ContactsList.getUserBy (ContactsList.user_id item)
    (ContactsList.reset (ContactsList.setItems (Some vec) l).1).1 = ContactsList.Dangling.
Proof.
  intros Hin. destruct (setItems_pointers (Some vec) l) as [Hlive Hsome].
  assert (ContactsList.m_items (ContactsList.setItems (Some vec) l).1 = vec) as Hvec.
  { unfold ContactsList.setItems. by destruct (ContactsList.reset l). }
  destruct (Hsome item) as [p Hp]; [by rewrite Hvec|].
  unfold ContactsList.reset. rewrite Hvec. destruct vec as [|x vec]; [by apply elem_of_nil in Hin|].
  unfold ContactsList.getUserBy. simpl. rewrite Hp. unfold ContactsList.deref. simpl.
  by destruct (Nat.eqb _ _).
Qed.

(** The messages of a chat survive a look at another chat: they are
    shown again when the user comes back, without the server. *)
Theorem messages_are_kept (l : MessagesList.t) vec other :
  other ≠ MessagesList.m_currentChatId l →
  let l1 := (MessagesList.setItems (Some vec) l).1 in
  let l2 := (MessagesList.setCurrentChatId other l1).1 in
  let l3 := (MessagesList.setCurrentChatId (MessagesList.m_currentChatId l) l2).1 in
  MessagesList.m_items l3 = Some vec ∧
  MessagesList.currentChatId l3 = MessagesList.m_currentChatId l ∧
  MessagesList.m_items l2 = MessagesList.m_mapToItems l !! other.
Proof.
  intros Hne. cbv zeta. destruct l as [g cur items]. simpl in Hne.
  assert ((MessagesList.setItems (Some vec) (MessagesList.Build g cur items)).1 =
    MessagesList.Build (<[cur := vec]> g) cur (Some vec)) as -> by (by destruct items).
  assert ((MessagesList.setCurrentChatId other (MessagesList.Build (<[cur := vec]> g) cur (Some vec))).1
    = MessagesList.Build (<[cur := vec]> g) other (g !! other)) as ->.
  { unfold MessagesList.setCurrentChatId. simpl.
    destruct (Z.eqb_spec cur other); [congruence|]. rewrite lookup_insert_ne by congruence.
    by destruct (g !! other). }
  unfold MessagesList.setCurrentChatId. simpl.
  destruct (Z.eqb_spec other cur); [done|]. by rewrite lookup_insert_eq.
Qed.

(** Opening a chat announces the removal of the rows shown so far even
    when there are none, so the first chat a user opens already breaks the
    protocol of the view. *)
Theorem first_chat_breaks_view (l : MessagesList.t) chat :
  MessagesList.size l = 0 → chat ≠ MessagesList.m_currentChatId l →
  row_run (Rows 0) (on_signal <$> (MessagesList.setCurrentChatId chat l).2) = None.
Proof.
  intros Hs Hne. unfold MessagesList.setCurrentChatId.
  destruct (Z.eqb_spec (MessagesList.m_currentChatId l) chat); [congruence|].
  rewrite Hs. by case_match.
Qed.
End Theorems.

(** ** The properties at concrete inputs *)

(** Strings are their UTF-8 bytes. *)
Definition utf8_qt : Qt := {|
  QString := bytes;
  fromUtf8 s := s;
  toStdString s := s;
  QString_eq a b := bool_decide (a = b);
  address_is_null s := bool_decide (s = []);
  port_acceptable s := negb (bool_decide (s = []))
|}.

Lemma utf8_qt_laws : QtLaws utf8_qt.
Proof. split; [done|]. intros a b. apply bool_decide_eq_true. Defined.

Section Witnesses.
#[local] Existing Instance utf8_qt.

Definition alice : ContactsList.ContactItem := ContactsList.MkContactItem 1 [Byte.x61] [Byte.x41].
Definition bob : ContactsList.ContactItem := ContactsList.MkContactItem 2 [Byte.x62] [Byte.x42].

Definition two_contacts : ContactsList.t := ContactsList.Build [alice; bob] 1 ∅.

Lemma roles_have_values_witness :
  match ContactsModel.roleNames !! 257, ContactsModel.data true 1 257 (Some two_contacts) with
  | Some _, VId v => 257 = ContactsModel.UserIdRole ∧ v ∈ [1; 2]
  | Some _, VString s => 257 = ContactsModel.NameRole ∧ s ∈ [[Byte.x61]; [Byte.x62]] ∨
      257 = ContactsModel.EmailRole ∧ s ∈ [[Byte.x41]; [Byte.x42]]
  | None, VNone => True
  | _, _ => False
  end ∧ ContactsModel.data true 1 257 (Some two_contacts) = VString [Byte.x62].
Proof.
  split; [|reflexivity].
  assert (0 <= 1 < ContactsModel.rowCount false (Some two_contacts)) as Hrow
    by (vm_compute; by split).
  exact (proj1 (proj2 (roles_have_values 1 257)) two_contacts Hrow).
Defined.

Lemma set_items_shows_witness :
  shows 0 (ContactsList.setItems (Some [alice; bob]) ContactsList.init).2 2.
Proof. exact (proj1 (proj2 set_items_shows) [alice; bob] ContactsList.init ltac:(done)). Defined.

Lemma empty_answer_breaks_view_witness :
  row_run (Rows 0) (on_signal <$> (ContactsList.setItems (Some []) ContactsList.init).2) = None.
Proof. exact (proj1 (proj2 empty_answer_breaks_view) ContactsList.init). Defined.

Lemma contact_names_are_found_witness :
  ContactsList.getUserBy 2 (ContactsList.setItems (Some [alice; bob]) ContactsList.init).1 =
    ContactsList.Name [Byte.x62] ∧
  ∃ item, ContactsList.deref (ContactsList.Pointer 1 0)
            (ContactsList.setItems (Some [alice; bob]) ContactsList.init).1 = Some item ∧
          ContactsList.user_id item = 1.
Proof.
  split; [by vm_compute|].
  apply (contact_names_are_found [alice; bob] ContactsList.init 2). by vm_compute.
Defined.

Lemma reset_leaves_dangling_witness :
  ContactsList.getUserBy 2
    (ContactsList.reset (ContactsList.setItems (Some [alice; bob]) ContactsList.init).1).1 =
  ContactsList.Dangling.
Proof. apply (reset_leaves_dangling [alice; bob] ContactsList.init bob). right. left. Defined.

Definition hello : MessagesList.MessageItem := MessagesList.MkMessageItem 1 [Byte.x68].

Lemma messages_are_kept_witness :
  MessagesList.m_items
    (MessagesList.setCurrentChatId 0
      (MessagesList.setCurrentChatId 5
        (MessagesList.setItems (Some [hello]) MessagesList.init).1).1).1 = Some [hello].
Proof. apply (messages_are_kept MessagesList.init [hello] 5). done. Defined.

Lemma first_chat_breaks_view_witness :
  row_run (Rows 0) (on_signal <$> (MessagesList.setCurrentChatId 5 MessagesList.init).2) = None.
Proof. by apply first_chat_breaks_view. Defined.
End Witnesses.
