(* ===== verification/NetworkTheorems.v ===== *)
(** * The properties of the client's connection

    What the client sends, and which arrivals of a response it can put
    together. *)
From S2P Require Import Prelude Wire Parser Message Requests Responses Envelope Framing.
From S2P Require Import WireInstance Qt NetworkSession ClientListTheorems.

Section Facts.
Context `{W : WireFormat} {L : WireFormatLaws W} `{Q : Qt} {Callback : Type}.

Notation session := (NetworkSession.t Callback).

(** Between two responses; and after the prefix of a message of [n] bytes. *)
Definition idle (s : session) : Prop := m_bytesReaded s = 0.
Definition prefix_read (n : Z) (s : session) : Prop :=
  m_bytesReaded s = 9 ∧ m_messageSize s = n.

Definition received_so_far (s : session) : bytes := incoming (m_sock s).

(** [idle_with data s]: idle, connected, with [data] waiting in the socket. *)
Definition with_incoming (data : bytes) (s : session) : session :=
  set_sock (Socket (connected (m_sock s)) data) s.

Lemma request_packet r f (s : session) :
  sendable (WrappedMessage.Build (WrappedMessage.kRequest r)) → isConnected s = true →
  let m := WrappedMessage.Build (WrappedMessage.kRequest r) in
  request r f s = (set_buffer (packet m) (set_callback f s), [SockWrite (packet m)]).
Proof.
  intros Hm Hc m. unfold request. rewrite Hc. cbv zeta.
  change (WrappedMessage.set_allocated_request WrappedMessage.SharedCtor (Some r)) with m.
  pose proof (sendable_size m Hm) as Hsize. unfold int_max in Hsize.
  change (to_int PREFIX_SIZE) with 9. change (Z.to_nat PREFIX_SIZE) with 9%nat.
  rewrite serialize_packet; [done|done|]. apply zlen_vec_resize.
  rewrite byte_size_encode by done. lia.
Qed.

(** The socket gives the bytes asked for if they have arrived. *)
Lemma sock_read_ok n data rest (s : session) :
  0 ≤ n → zlen data = n → received_so_far s = data ++ rest →
  sock_read n n s = Some (n, with_incoming rest (set_buffer data s)).
Proof.
  intros Hn Hl Hin. unfold sock_read, received_so_far in *.
  destruct (Z.ltb_spec n 0); [lia|].
  assert (Z.to_nat n = length data) as Hnat by (unfold zlen in *; lia).
  rewrite Hin, Hnat, take_app_length, drop_app_length, Hl.
  destruct (Z.ltb_spec n n); [lia|]. do 2 f_equal. unfold with_incoming. simpl.
  assert (write_at 0 data (vec_resize (length data) (m_buffer s)) = data) as ->; [|done].
  unfold write_at. simpl. rewrite drop_ge by (by rewrite length_vec_resize). apply app_nil_r.
Qed.

Lemma read_prefix n rest (s : session) :
  0 < n → n ≤ int_max → received_so_far s = prefix_of n ++ rest →
  readPrefix s = Some (n, set_bytesReaded 9 (with_incoming rest (set_buffer (prefix_of n) s))).
Proof.
  intros Hn Hmax Hin. unfold int_max in Hmax.
  assert (uint64_ok n) as Hu by (unfold uint64_ok; lia).
  pose proof (zlen_prefix n Hu ltac:(lia)) as Hp.
  unfold readPrefix. change (to_int PREFIX_SIZE) with 9. unfold PREFIX_SIZE. change (8 + 1) with 9.
  rewrite (sock_read_ok 9 (prefix_of n) rest) by (done || lia). cbv zeta.
  change (to_int 9) with 9. cbn [m_buffer set_bytesReaded with_incoming set_sock set_buffer].
  rewrite <- (app_nil_r (prefix_of n)) at 1. rewrite parse_prefix by (done || lia).
  do 2 f_equal. unfold to_qint64. simpl. apply to_signed_ok; lia.
Qed.

Lemma load_message m (s : session) :
  sendable m → received_so_far s = msg_encode m → m_messageSize s = zlen (msg_encode m) →
  ∃ s', load_mesg s = (s', processResponse m s') ∧ received_so_far s' = [] ∧
        m_callback s' = m_callback s ∧ connected (m_sock s') = connected (m_sock s).
Proof.
  intros Hm Hin Hsize. pose proof (sendable_size m Hm) as Hs. unfold int_max in Hs.
  unfold load_mesg, readMessage. rewrite Hsize. unfold to_int.
  rewrite to_signed_ok by lia. rewrite <- (app_nil_r (msg_encode m)) in Hin.
  rewrite (sock_read_ok (zlen (msg_encode m)) (msg_encode m) []) by (done || lia). cbv zeta.
  cbn [m_buffer set_bytesReaded with_incoming set_sock set_buffer].
  rewrite to_signed_ok by lia. rewrite parse_message by done.
  eexists. split; [done|]. done.
Qed.

(** The response a message holds goes to the callback. *)
Lemma process_response r f (s : session) :
  m_callback s = Some f →
  processResponse (WrappedMessage.Build (WrappedMessage.kResponse r)) s = [CallBack f r].
Proof. intros Hf. unfold processResponse. simpl. by rewrite Hf. Qed.

(** One arrival, by what the socket then holds. *)
Lemma arrive_little data (s : session) :
  idle s → zlen (received_so_far s ++ data) < 9 →
  arrive data s = (set_bytesReaded 0 (with_incoming (received_so_far s ++ data) s), []).
Proof.
  intros Hi Hl. unfold arrive, onReadyRead, bytesAvailable, PREFIX_SIZE. change (8 + 1) with 9.
  cbn [m_bytesReaded m_sock set_sock incoming connected]. unfold received_so_far in Hl.
  destruct (Z.leb_spec 9 (zlen (incoming (m_sock s) ++ data))); [lia|].
  rewrite andb_false_r. unfold idle in Hi. by rewrite Hi.
Qed.

(** With its prefix, and [rest] of the message, in the socket. *)
Definition with_prefix (n : Z) (rest : bytes) (s : session) : session :=
  set_messageSize n (set_bytesReaded 9 (with_incoming rest (set_buffer (prefix_of n) s))).

Lemma arrive_prefix m data rest (s : session) :
  sendable m → idle s →
  received_so_far s ++ data = prefix_of (zlen (msg_encode m)) ++ rest →
  zlen rest < zlen (msg_encode m) →
  arrive data s = (with_prefix (zlen (msg_encode m)) rest s, []).
Proof.
  intros Hm Hi Hin Hrest. pose proof (sendable_size m Hm) as Hs. unfold int_max in Hs.
  assert (uint64_ok (zlen (msg_encode m))) as Hu by (unfold uint64_ok; lia).
  pose proof (zlen_prefix _ Hu ltac:(lia)) as Hp. pose proof (zlen_nonneg rest).
  unfold arrive, onReadyRead, bytesAvailable, PREFIX_SIZE. change (8 + 1) with 9.
  cbn [m_bytesReaded m_sock set_sock incoming connected]. unfold received_so_far in Hin.
  unfold idle in Hi. rewrite Hi, Hin. rewrite zlen_app, Hp.
  destruct (Z.leb_spec 9 (9 + zlen rest)); [|lia]. change ((0 <? 9) && true) with true. cbv iota.
  rewrite (read_prefix (zlen (msg_encode m)) rest) by (done || unfold int_max; lia).
  cbn [m_messageSize set_messageSize set_bytesReaded with_incoming set_sock set_buffer m_sock incoming].
  destruct (Z.eqb_spec (zlen (msg_encode m)) PARSE_ERROR); [unfold PARSE_ERROR in *; lia|].
  destruct (Z.eqb_spec (zlen rest) (zlen (msg_encode m))); [lia|]. done.
Qed.

(** The rest of the message is read. *)
Definition load_rest (s : session) : session * list (effect Callback) :=
  let '(s, out) := load_mesg s in (set_bytesReaded 0 s, out).

Lemma arrive_at_once m data (s : session) :
  sendable m → idle s → received_so_far s ++ data = packet m →
  arrive data s = load_rest (with_prefix (zlen (msg_encode m)) (msg_encode m) s).
Proof.
  intros Hm Hi Hin. pose proof (sendable_size m Hm) as Hs. unfold int_max in Hs.
  assert (uint64_ok (zlen (msg_encode m))) as Hu by (unfold uint64_ok; lia).
  pose proof (zlen_prefix _ Hu ltac:(lia)) as Hp.
  unfold arrive, onReadyRead, bytesAvailable, PREFIX_SIZE. change (8 + 1) with 9.
  cbn [m_bytesReaded m_sock set_sock incoming connected]. unfold received_so_far in Hin.
  unfold idle in Hi. rewrite Hi, Hin. unfold packet. rewrite zlen_app, Hp.
  destruct (Z.leb_spec 9 (9 + zlen (msg_encode m))); [|lia].
  change ((0 <? 9) && true) with true. cbv iota.
  rewrite (read_prefix (zlen (msg_encode m)) (msg_encode m)) by (done || unfold int_max; lia).
  cbn [m_messageSize set_messageSize set_bytesReaded with_incoming set_sock set_buffer m_sock incoming].
  destruct (Z.eqb_spec (zlen (msg_encode m)) PARSE_ERROR); [unfold PARSE_ERROR in *; lia|].
  by rewrite Z.eqb_refl.
Qed.

Lemma arrive_last (m : WrappedMessage.t) data (s : session) :
  prefix_read (zlen (msg_encode m)) s → received_so_far s ++ data = msg_encode m →
  arrive data s = load_rest (with_incoming (msg_encode m) s).
Proof.
  intros [Hb Hsize] Hin. unfold arrive, onReadyRead, bytesAvailable, PREFIX_SIZE.
  change (8 + 1) with 9. cbn [m_bytesReaded m_messageSize m_sock set_sock incoming connected].
  unfold received_so_far in Hin. rewrite Hb, Hsize, Hin. simpl (9 <? 9). cbn [andb].
  rewrite Z.leb_refl. change (9 =? 9) with true. cbn [andb]. unfold with_incoming, load_rest.
  by destruct (load_mesg _).
Qed.

Lemma arrive_whole m data (s : session) :
  sendable m → idle s →
  received_so_far s ++ data = packet m →
  ∃ s', arrive data s = (set_bytesReaded 0 s', processResponse m s') ∧
        received_so_far s' = [] ∧ m_callback s' = m_callback s ∧
        connected (m_sock s') = connected (m_sock s).
Proof.
  intros Hm Hi Hin. rewrite (arrive_at_once m) by done. unfold load_rest.
  destruct (load_message m (with_prefix (zlen (msg_encode m)) (msg_encode m) s))
    as (s' & -> & H1 & H2 & H3); [done..|]. by exists s'.
Qed.

Lemma arrive_rest m data (s : session) :
  sendable m → prefix_read (zlen (msg_encode m)) s →
  received_so_far s ++ data = msg_encode m →
  ∃ s', arrive data s = (set_bytesReaded 0 s', processResponse m s') ∧
        received_so_far s' = [] ∧ m_callback s' = m_callback s.
Proof.
  intros Hm Hp Hin. rewrite (arrive_last m) by done. unfold load_rest.
  match goal with |- context [load_mesg ?s1] => destruct (load_message m s1) as (s' & -> & H1 & H2 & _);
    [done|done|apply Hp|] end. by exists s'.
Qed.

(** The prefix in small pieces. *)
Lemma arrivals_little chunks (s : session) :
  idle s → zlen (received_so_far s ++ concat chunks) < 9 →
  ∃ s', arrivals chunks s = (s', []) ∧ idle s' ∧
        received_so_far s' = received_so_far s ++ concat chunks ∧ m_callback s' = m_callback s.
Proof.
  revert s. induction chunks as [|data chunks IH]; intros s Hi Hl; simpl in *.
  - exists s. by rewrite app_nil_r.
  - rewrite arrive_little; [|done|].
    2: { rewrite !zlen_app in *. pose proof (zlen_nonneg (concat chunks)). lia. }
    destruct (IH (set_bytesReaded 0 (with_incoming (received_so_far s ++ data) s))) as (s' & -> & H1 & H2 & H3);
      [done|unfold received_so_far in *; simpl; by rewrite <- app_assoc|].
    exists s'. split_and!; try done. rewrite H2. unfold received_so_far. simpl. by rewrite <- app_assoc.
Qed.

Lemma arrivals_app chunks chunks' (s : session) :
  arrivals (chunks ++ chunks') s =
  let '(s, out) := arrivals chunks s in
  let '(s, out') := arrivals chunks' s in (s, out ++ out').
Proof.
  revert s. induction chunks as [|data chunks IH]; intros s; simpl.
  - by destruct (arrivals chunks' s).
  - destruct (arrive data s) as [s1 out1]. rewrite IH.
    destruct (arrivals chunks s1) as [s2 out2]. destruct (arrivals chunks' s2) as [s3 out3].
    by rewrite app_assoc.
Qed.

(** More of a message, but not all of it: the progress is forgotten. *)
Lemma arrive_part n data (s : session) :
  prefix_read n s → zlen (received_so_far s ++ data) < n →
  arrive data s = (set_bytesReaded 0 (with_incoming (received_so_far s ++ data) s), []).
Proof.
  intros [Hb Hsize] Hl. unfold arrive, onReadyRead, bytesAvailable, PREFIX_SIZE.
  change (8 + 1) with 9. cbn [m_bytesReaded m_messageSize m_sock set_sock incoming connected].
  unfold received_so_far in Hl. rewrite Hb, Hsize. change (9 <? 9) with false.
  cbn [andb]. destruct (Z.leb_spec n (zlen (incoming (m_sock s) ++ data))); [lia|].
  by rewrite andb_false_r.
Qed.

(** A prefix in pieces, the last of which brings some of the message. *)
Lemma arrivals_prefix m early second third (s : session) :
  sendable m → idle s → received_so_far s = [] →
  zlen (concat early) < 9 → 9 ≤ zlen (concat early ++ second) → third ≠ [] →
  concat early ++ second ++ third = packet m →
  ∃ s' rest, arrivals (early ++ [second]) s = (s', []) ∧
    prefix_read (zlen (msg_encode m)) s' ∧ received_so_far s' = rest ∧
    rest ++ third = msg_encode m ∧ m_callback s' = m_callback s.
Proof.
  intros Hm Hi Hin Hearly Hsecond Hthird Hall.
  pose proof (sendable_size m Hm) as Hs. unfold int_max in Hs.
  assert (uint64_ok (zlen (msg_encode m))) as Hu by (unfold uint64_ok; lia).
  pose proof (zlen_prefix _ Hu ltac:(lia)) as Hp.
  destruct (arrivals_little early s Hi) as (s1 & He & Hi1 & Hin1 & Hf1); [by rewrite Hin|].
  rewrite Hin in Hin1. simpl in Hin1.
  set (rest := drop 9 (concat early ++ second)).
  assert (length (prefix_of (zlen (msg_encode m))) = 9%nat) as Hlen by (unfold zlen in *; lia).
  assert (concat early ++ second = prefix_of (zlen (msg_encode m)) ++ rest ∧
          rest ++ third = msg_encode m) as [Hsplit Hrest].
  { unfold packet in Hall. rewrite app_assoc in Hall.
    rewrite <- (take_drop 9 (concat early ++ second)) in Hall. fold rest in Hall.
    rewrite <- app_assoc in Hall. apply app_inj_1 in Hall as [Ht Hr].
    - split; [|done]. rewrite <- Ht. symmetry. apply take_drop.
    - rewrite length_take. unfold zlen in *. lia. }
  assert (0 < zlen third) by (by apply nonempty_pos).
  exists (with_prefix (zlen (msg_encode m)) rest s1), rest. split_and!; try done.
  rewrite arrivals_app, He. simpl. rewrite (arrive_prefix m second rest); [done|done|done|by rewrite Hin1|].
  rewrite <- Hrest, zlen_app. lia.
Qed.
End Facts.

Section Theorems.
Context `{W : WireFormat} {L : WireFormatLaws W} `{Q : Qt} {Callback : Type}.

(** A connected session sends a request as one packet, which the server
    takes apart into its length and the request, and remembers who asked. *)
Theorem request_is_a_packet r f (s : NetworkSession.t Callback) :
  sendable (WrappedMessage.Build (WrappedMessage.kRequest r)) → isConnected s = true →
  ∃ s', request r f s =
    (s', [SockWrite (packet (WrappedMessage.Build (WrappedMessage.kRequest r)))]) ∧
    m_callback s' = Some f ∧ m_bytesReaded s' = m_bytesReaded s ∧ m_sock s' = m_sock s.
Proof. intros Hm Hc. rewrite request_packet by done. by eexists. Qed.

(** C6: A response is handed to the callback exactly once, and the session is
    ready for the next one, if it arrives in one piece, or with its prefix in
    pieces, the last of which brings the message or a part of it, and then
    the rest of the message at once. *)
Theorem response_is_delivered r f early second third (s : NetworkSession.t Callback) :
  sendable (WrappedMessage.Build (WrappedMessage.kResponse r)) →
  idle s → received_so_far s = [] → m_callback s = Some f →
  zlen (concat early) < 9 → 9 ≤ zlen (concat early ++ second) →
  concat early ++ second ++ third = packet (WrappedMessage.Build (WrappedMessage.kResponse r)) →
  ∃ s', arrivals (early ++ [second] ++ (if bool_decide (third = []) then [] else [third])) s =
          (s', [CallBack f r]) ∧
        idle s' ∧ received_so_far s' = [] ∧ m_callback s' = Some f.
Proof.
  intros Hm Hi Hin Hf Hearly Hsecond Hall. case_bool_decide as Ht.
  - subst third. rewrite !app_nil_r in *.
    destruct (arrivals_little early s Hi) as (s1 & He & Hi1 & Hin1 & Hf1); [by rewrite Hin|].
    destruct (arrive_whole _ second s1 Hm Hi1) as (s2 & H2 & Hin2 & Hf2 & _).
    { by rewrite Hin1, Hin. }
    exists (set_bytesReaded 0 s2). rewrite arrivals_app, He. simpl. rewrite H2.
    rewrite (process_response r f) by congruence. split_and!; try done. simpl. congruence.
  - destruct (arrivals_prefix _ early second third s Hm Hi Hin Hearly Hsecond Ht Hall)
      as (s1 & rest & He & Hpr & Hin1 & Hrest & Hf1).
    destruct (arrive_rest _ third s1 Hm Hpr) as (s2 & H2 & Hin2 & Hf2).
    { by rewrite Hin1. }
    exists (set_bytesReaded 0 s2). rewrite app_assoc, arrivals_app, He. simpl. rewrite H2.
    rewrite (process_response r f) by congruence. split_and!; try done. simpl. congruence.
Qed.

(** C38: a response whose message needs two more arrivals after its prefix is
    not delivered: the first of them resets the progress, and a short message
    (a status is four bytes) then waits for ever to be taken for a prefix. *)
Theorem slow_response_is_lost r early second third fourth (s : NetworkSession.t Callback) :
  sendable (WrappedMessage.Build (WrappedMessage.kResponse r)) →
  zlen (msg_encode (WrappedMessage.Build (WrappedMessage.kResponse r))) < 9 →
  idle s → received_so_far s = [] →
  zlen (concat early) < 9 → 9 ≤ zlen (concat early ++ second) → fourth ≠ [] →
  concat early ++ second ++ third ++ fourth =
    packet (WrappedMessage.Build (WrappedMessage.kResponse r)) →
  ∃ s', arrivals (early ++ [second; third; fourth]) s = (s', []) ∧ idle s'.
Proof.
  intros Hm Hshort Hi Hin Hearly Hsecond Hfourth Hall.
  destruct (arrivals_prefix _ early second (third ++ fourth) s Hm Hi Hin Hearly Hsecond)
    as (s1 & rest & He & Hpr & Hin1 & Hrest & Hf1); [|done|].
  { intros Hnil. by apply app_nil in Hnil as [_ ?]. }
  pose proof (nonempty_pos fourth Hfourth) as Hpos.
  assert (zlen (msg_encode (WrappedMessage.Build (WrappedMessage.kResponse r))) =
    zlen (rest ++ third) + zlen fourth) as Hlen.
  { by rewrite <- Hrest, !zlen_app, Z.add_assoc. }
  eexists. replace (early ++ [second; third; fourth]) with ((early ++ [second]) ++ [third; fourth])
    by (by rewrite <- app_assoc).
  rewrite arrivals_app, He. simpl.
  rewrite (arrive_part _ third s1 Hpr) by (rewrite Hin1; lia).
  rewrite arrive_little; [by split|done|].
  unfold received_so_far. simpl. unfold received_so_far in Hin1.
  rewrite Hin1, zlen_app. rewrite Hlen in Hshort. lia.
Qed.
End Theorems.

(** ** The properties at concrete inputs *)

Section Witnesses.
#[local] Existing Instance utf8_qt.

Definition status_ok : Response.t :=
  Response.Build (Response.kStatusResponse (StatusResponse.Build 0)).

Lemma status_ok_sendable : sendable (WrappedMessage.Build (WrappedMessage.kResponse status_ok)).
Proof. concrete_sendable. Defined.

Definition chats_request : Request.t :=
  Request.Build (Request.kChatsRequest AllMyChatsRequest.SharedCtor).

Lemma chats_request_sendable :
  sendable (WrappedMessage.Build (WrappedMessage.kRequest chats_request)).
Proof. concrete_sendable. Defined.

(** A connected session that waits for a response. *)
Definition waiting : NetworkSession.t nat :=
  NetworkSession.Build (Socket true []) [] (Some 7%nat) 0 0.

Lemma request_is_a_packet_witness :
  ∃ s', request chats_request 3%nat waiting =
    (s', [SockWrite [Byte.x09; Byte.x04; Byte.x00; Byte.x00; Byte.x00; Byte.x00; Byte.x00; Byte.x00;
                     Byte.x00; Byte.x12; Byte.x02; Byte.x1a; Byte.x00]]).
Proof.
  destruct (request_is_a_packet chats_request 3%nat waiting chats_request_sendable eq_refl)
    as (s' & H & _).
  exists s'. exact H.
Defined.

Definition status_packet : bytes :=
  [Byte.x09; Byte.x04; Byte.x00; Byte.x00; Byte.x00; Byte.x00; Byte.x00; Byte.x00; Byte.x00;
   Byte.x0a; Byte.x02; Byte.x0a; Byte.x00].

Lemma response_is_delivered_witness :
  ∃ s', arrivals [take 3 status_packet; take 7 (drop 3 status_packet); drop 10 status_packet] waiting =
        (s', [CallBack 7%nat status_ok]).
Proof.
  destruct (response_is_delivered status_ok 7%nat [take 3 status_packet]
    (take 7 (drop 3 status_packet)) (drop 10 status_packet) waiting status_ok_sendable)
    as (s' & H & _); try by vm_compute.
  exists s'. exact H.
Defined.

Lemma slow_response_is_lost_witness :
  ∃ s', arrivals [take 9 status_packet; take 2 (drop 9 status_packet); drop 11 status_packet] waiting =
        (s', []) ∧ idle s'.
Proof.
  apply (slow_response_is_lost status_ok [] (take 9 status_packet)
    (take 2 (drop 9 status_packet)) (drop 11 status_packet) waiting status_ok_sendable);
    by vm_compute.
Defined.
End Witnesses.
