(* ===== verification/ClientTheorems.v ===== *)
(** * The properties of the client

    The lock of the facade over everything that can happen to a client, the
    reaction to each response, and what leaves the lock closed. *)
From stdpp Require Import gmap.
From Stdlib Require Import String.
From S2P Require Import Prelude Wire Parser Message Requests Responses Envelope Framing.
From S2P Require Import WireInstance Qt ClientLists NetworkSession Client ClientListTheorems.
From S2P Require Import NetworkTheorems.

(** ** Answers

    Between an operation of the window and the next one the facade must emit
    one of the signals that free it. *)

Section Answers.
Context `{Q : Qt}.

Definition frees (r : reaction) : bool :=
  match r with
  | doShowMessage | serverIpChanged | serverPortChanged => false
  | _ => true
  end.

(** The reactions that free the facade, the requests that were sent. *)
Definition answers (out : list output) : list reaction :=
  omap (λ o, match o with ToQml r => if frees r then Some r else None | _ => None end) out.

Definition packets (out : list output) : list bytes :=
  omap (λ o, match o with ToServer data => Some data | _ => None end) out.

Definition busy (c : client) : nat := if availible c then 0%nat else 1%nat.

(** The operations of the window that the facade guards. *)
Definition is_operation (h : happening) : bool :=
  match h with
  | SelectChat _ | Arrival _ | SocketError _ | SocketConnected | SocketDisconnected => false
  | _ => true
  end.

(** A busy client knows whom the response is for. *)
Definition expecting (c : client) : Prop :=
  availible c = false → m_callback (m_session c) ≠ None.

(** [paid n r c]: what happened to [c] answers the operations it started, up
    to the one still under way. *)
Definition paid (n : nat) (c : client) (r : client * list output) : Prop :=
  (n + busy c ≤ length (answers r.2) + busy r.1)%nat ∧ (expecting c → expecting r.1).

Lemma answers_app out out' : answers (out ++ out') = answers out ++ answers out'.
Proof. apply omap_app. Qed.

Lemma packets_app out out' : packets (out ++ out') = packets out ++ packets out'.
Proof. apply omap_app. Qed.

(** Signals of lists are no reactions. *)
Lemma answers_lists {A} (f : A → output) l :
  (∀ a, match f a with ToQml _ => False | _ => True end) → answers (f <$> l) = [].
Proof.
  intros Hf. induction l as [|a l IH]; [done|]. unfold answers in *.
  cbn [fmap list_fmap omap list_omap] in *. rewrite IH. specialize (Hf a). by destruct (f a).
Qed.

Lemma packets_lists {A} (f : A → output) l :
  (∀ a, match f a with ToServer _ => False | _ => True end) → packets (f <$> l) = [].
Proof.
  intros Hf. induction l as [|a l IH]; [done|]. unfold packets in *.
  cbn [fmap list_fmap omap list_omap] in *. rewrite IH. specialize (Hf a). by destruct (f a).
Qed.

Lemma paid_seq n c r r' :
  paid n c r → paid 0 r.1 r' → paid n c (r'.1, r.2 ++ r'.2).
Proof.
  intros [H1 H2] [H3 H4]. split; simpl; [|auto].
  rewrite answers_app, length_app. lia.
Qed.

(** What changes neither the lock nor the callback. *)
Lemma paid_neutral (c c' : client) out :
  availible c' = availible c → m_callback (m_session c') = m_callback (m_session c) →
  paid 0 c (c', out).
Proof.
  intros Ha Hf. unfold paid, busy, expecting. simpl. rewrite Ha, Hf. split; [lia|done].
Qed.

Lemma paid_free n c (c' : client) out :
  availible c' = true → (n + busy c ≤ length (answers out))%nat → paid n c (c', out).
Proof. intros Ha Hn. unfold paid, expecting. simpl. split; [lia|]. by rewrite Ha. Qed.

Lemma busy_le (c : client) : (busy c ≤ 1)%nat.
Proof. unfold busy. by destruct (availible c); lia. Qed.
End Answers.

Section Lock.
Context `{W : WireFormat} `{Q : Qt}.

Lemma emit_paid g c : paid 0 c (emit g c).
Proof.
  pose proof (busy_le c). destruct g; simpl;
    solve [apply paid_free; [done|simpl; lia] | by apply paid_neutral].
Qed.

Lemma plain_effect_paid e c : paid 0 c (plain_effect e c).
Proof. destruct e; solve [apply emit_paid | by apply paid_neutral]. Qed.

Lemma do_all_paid run es c :
  (∀ e c, paid 0 c (run e c)) → paid 0 c (do_all run es c).
Proof.
  intros Hrun. revert c. induction es as [|e es IH]; intros c; simpl; [by apply paid_neutral|].
  pose proof (Hrun e c) as H1. destruct (run e c) as [c1 out1]. pose proof (IH c1) as H2.
  destruct (do_all run es c1) as [c2 out2]. apply (paid_seq 0 c (c1, out1) (c2, out2)); done.
Qed.

(** A request of a busy client: sent, it is waited for; else it is aborted. *)
Lemma send_request_paid n r j c :
  (n ≤ 1)%nat → (n = 0%nat ∨ availible c = false) →
  (n + 0 ≤ length (answers (send_request r j c).2) + busy (send_request r j c).1)%nat ∧
  expecting (send_request r j c).1.
Proof.
  intros Hn Hc. unfold send_request, connection, request. destruct (isConnected (m_session c)); simpl.
  - split; [|done]. destruct Hc as [->|Hc]; [lia|]. unfold busy. unfold availible in *. simpl.
    rewrite Hc. lia.
  - split; [lia|]. by unfold expecting.
Qed.

Lemma send_request_neutral r j c : paid 0 c (send_request r j c).
Proof.
  destruct (availible c) eqn:Ha.
  - destruct (send_request_paid 0 r j c) as [H1 H2]; [lia|by left|].
    split; [|done]. unfold busy at 1. rewrite Ha. simpl. lia.
  - destruct (send_request_paid 1 r j c) as [H1 H2]; [lia|by right|].
    split; [|done]. unfold busy at 1. rewrite Ha. simpl. lia.
Qed.

(** Did anything come out? *)
Definition acted (out : list output) : nat := match out with [] => 0%nat | _ => 1%nat end.

Lemma if_availible_paid (operation : client → client * list output) c :
  (∀ c, availible c = false →
     (1 ≤ length (answers (operation c).2) + busy (operation c).1)%nat ∧ expecting (operation c).1) →
  paid (acted (if_availible operation c).2) c (if_availible operation c).
Proof.
  intros Hop. unfold if_availible. destruct (availible c) eqn:Ha; [|by apply paid_neutral].
  destruct (Hop (set_availible false c) eq_refl) as [H1 H2].
  split; [|done]. unfold busy at 1. rewrite Ha. unfold acted. case_match; lia.
Qed.

Lemma setChats_paid chats c : paid 0 c (setChats chats c).
Proof.
  unfold setChats. destruct (ChatsList.setItems _ _) as [l es]. by apply paid_neutral.
Qed.

Lemma setContacts_paid contacts c : paid 0 c (setContacts contacts c).
Proof.
  unfold setContacts. destruct (ContactsList.setItems _ _) as [l es]. by apply paid_neutral.
Qed.

Lemma then_emit_paid g c r : paid 0 c r → paid 0 c (then_emit g r).
Proof.
  destruct r as [c1 out1]. intros H1. unfold then_emit. pose proof (emit_paid g c1) as H2.
  destruct (emit g c1) as [c2 out2]. by apply (paid_seq 0 c (c1, out1) (c2, out2)).
Qed.

Lemma callback_paid j response c : paid 0 c (responseProcessingCallback j response c).
Proof.
  destruct j; cbn [responseProcessingCallback]; try apply emit_paid.
  - unfold login_callback. pose proof (busy_le c).
    repeat case_match; by (apply paid_free; [done|simpl; lia]).
  - apply then_emit_paid. case_match; [apply setChats_paid|by apply paid_neutral].
  - apply then_emit_paid. case_match; [apply setContacts_paid|by apply paid_neutral].
  - apply then_emit_paid. case_match; [|by apply paid_neutral].
    cbv zeta. case_match. by apply paid_neutral.
  - unfold load_data_callback. destruct (Response.has_contacts_response response).
    + pose proof (setContacts_paid (Response.contacts_response response) c) as H1.
      destruct (setContacts _ c) as [c1 out1].
      pose proof (send_request_neutral MessageFactory.createAllMyChatsRequest LoadDataJob c1) as H2.
      destruct (send_request _ _ c1) as [c2 out2].
      by apply (paid_seq 0 c (c1, out1) (c2, out2)).
    + case_match; [|apply emit_paid]. apply then_emit_paid, setChats_paid.
Qed.

Lemma do_effect_paid e c : paid 0 c (do_effect e c).
Proof. destruct e; try apply plain_effect_paid. apply callback_paid. Qed.
End Lock.

(** ** Everything that can happen *)

Section Happenings.
Context `{W : WireFormat} `{Q : Qt}.

(** The slots of the session keep the callback. *)
Lemma sock_read_callback {F} size n (s : NetworkSession.t F) x s' :
  sock_read size n s = Some (x, s') → m_callback s' = m_callback s.
Proof. unfold sock_read. intros H. repeat case_match; naive_solver. Qed.

Lemma sock_abort_callback {F} (s : NetworkSession.t F) : m_callback (sock_abort s).1 = m_callback s.
Proof. unfold sock_abort. by destruct (isConnected s). Qed.

Lemma load_mesg_callback {F} (s : NetworkSession.t F) : m_callback (load_mesg s).1 = m_callback s.
Proof.
  unfold load_mesg, readMessage.
  destruct (sock_read _ _ s) as [[x s1]|] eqn:Hr; [|done]. apply sock_read_callback in Hr.
  cbv zeta. destruct (ParseFromArray _ _ _ _); [done|]. by rewrite sock_abort_callback.
Qed.

Lemma readPrefix_callback {F} (s : NetworkSession.t F) x s' :
  readPrefix s = Some (x, s') → m_callback s' = m_callback s.
Proof.
  unfold readPrefix. destruct (sock_read _ _ s) as [[y s1]|] eqn:Hr; [|done].
  apply sock_read_callback in Hr. cbv zeta. case_match; naive_solver.
Qed.

Lemma onReadyRead_callback {F} (s : NetworkSession.t F) : m_callback (onReadyRead s).1 = m_callback s.
Proof.
  unfold onReadyRead. case_match.
  - destruct (readPrefix (set_bytesReaded 0 s)) as [[n s1]|] eqn:Hr; [|done].
    apply readPrefix_callback in Hr. cbv zeta. case_match.
    { pose proof (sock_abort_callback (set_messageSize n s1)) as Ha.
      destruct (sock_abort _). simpl in *. congruence. }
    case_match; [|done].
    pose proof (load_mesg_callback (set_messageSize n s1)) as Hl.
    destruct (load_mesg _) as [s2 out]. simpl in *. congruence.
  - case_match; [|done]. pose proof (load_mesg_callback s) as Hl. by destruct (load_mesg s).
Qed.

Lemma session_slot_paid slot (c : client) :
  (∀ s, m_callback (slot s).1 = m_callback s) → paid 0 c (session_slot slot c).
Proof.
  intros Hs. unfold session_slot. specialize (Hs (m_session c)).
  destruct (slot (m_session c)) as [s es].
  pose proof (do_all_paid do_effect es (set_session s c) do_effect_paid) as [H1 H2].
  split; [exact H1|]. intros He. apply H2. unfold expecting in *. simpl in *. by rewrite Hs.
Qed.

Lemma exec_paid r j (c : client) :
  availible c = false →
  (1 ≤ length (answers (send_request r j c).2) + busy (send_request r j c).1)%nat ∧
  expecting (send_request r j c).1.
Proof. intros Ha. destruct (send_request_paid 1 r j c); [lia|by right|]. split; [lia|done]. Qed.

(** The settings are answered at once, whether they are valid or not. *)
Lemma update_paid ip port (c : client) :
  let r := (let '(ok, (c, out)) := backend_update ip port c in
    if ok then
      let '(c, out1) := setServerIp ip c in
      let '(c, out2) := setServerPort port c in
      (c, out ++ out1 ++ out2)
    else (c, out)) in
  (1 ≤ length (answers r.2) + busy r.1)%nat ∧ expecting r.1.
Proof.
  unfold backend_update, connect, sock_abort, onDisconnection, setServerIp, setServerPort, expecting.
  repeat (case_match; simplify_eq/=); split; (lia || done).
Qed.

(** An operation of the window that the client lets through: something comes
    out of it, a request or a signal.  The others are dropped in silence. *)
Definition starts (h : happening) (c : client) : nat :=
  if is_operation h then acted (happens h c).2 else 0%nat.

Lemma happens_paid h (c : client) : paid (starts h c) c (happens h c).
Proof.
  destruct h; unfold starts, is_operation; cbn [happens];
    try (apply if_availible_paid; intros; by apply exec_paid).
  - apply if_availible_paid. intros. apply update_paid.
  - destruct (MessagesList.setCurrentChatId _ _) as [l es]. by apply paid_neutral.
  - apply session_slot_paid. intros s. unfold arrive. by rewrite onReadyRead_callback.
  - by apply session_slot_paid.
  - by apply session_slot_paid.
  - by apply session_slot_paid.
Qed.

(** A free client lets every operation through, a busy one none. *)
Lemma if_availible_acts operation (c : client) :
  (∀ c, (operation c).2 ≠ []) → acted (if_availible operation c).2 = 1%nat ↔ availible c = true.
Proof.
  intros Hop. unfold if_availible. destruct (availible c); [|done].
  specialize (Hop (set_availible false c)). by destruct (operation _).2.
Qed.

Lemma send_request_acts r j (c : client) : (send_request r j c).2 ≠ [].
Proof. unfold send_request, connection, request. by destruct (isConnected (m_session c)). Qed.

Lemma update_acts ip port (c : client) :
  (let '(ok, (c, out)) := backend_update ip port c in
   if ok then
     let '(c, out1) := setServerIp ip c in
     let '(c, out2) := setServerPort port c in
     (c, out ++ out1 ++ out2)
   else (c, out)).2 ≠ [].
Proof.
  unfold backend_update, connect, sock_abort, onDisconnection, setServerIp, setServerPort.
  by repeat (case_match; simplify_eq/=).
Qed.

Lemma starts_if_free h (c : client) : is_operation h = true → starts h c = 1%nat ↔ availible c = true.
Proof.
  intros Hop. unfold starts. rewrite Hop. destruct h; try done; cbn [happens];
    apply if_availible_acts; intros; (apply send_request_acts || apply update_acts).
Qed.

(** A life of the client: what came out, and how many operations started. *)
Fixpoint life (hs : list happening) (c : client) : client * list output * nat :=
  match hs with
  | [] => (c, [], 0%nat)
  | h :: hs =>
    let '(c1, out) := happens h c in
    let '(c2, out', n) := life hs c1 in
    (c2, out ++ out', (starts h c + n)%nat)
  end.

Lemma life_paid hs (c : client) :
  let '(c', out, n) := life hs c in paid n c (c', out).
Proof.
  revert c. induction hs as [|h hs IH]; intros c; simpl; [by apply paid_neutral|].
  pose proof (happens_paid h c) as [H1 H2]. destruct (happens h c) as [c1 out1].
  specialize (IH c1). destruct (life hs c1) as [[c2 out2] n]. destruct IH as [H3 H4].
  split; simpl in *; [|auto]. rewrite answers_app, length_app. lia.
Qed.

(** A new client is free, whatever became of its first connection. *)
Lemma new_client_free : availible new_client = true.
Proof. unfold new_client, startup, connect, sock_abort. by repeat case_match; simplify_eq/=. Qed.
End Happenings.

(** ** Requests and responses *)

Section Exchange.
Context `{W : WireFormat} {L : WireFormatLaws W} `{Q : Qt}.

(** Connected, between two messages. *)
Definition ready (c : client) : Prop :=
  isConnected (m_session c) = true ∧ idle (m_session c) ∧ received_so_far (m_session c) = [].

Definition request_message (r : Request.t) : WrappedMessage.t :=
  WrappedMessage.Build (WrappedMessage.kRequest r).
Definition response_message (r : Response.t) : WrappedMessage.t :=
  WrappedMessage.Build (WrappedMessage.kResponse r).

(** Same client, but for its session, which waits for the response of [j]. *)
Definition waits_for (j : client_job) (c c' : client) : Prop :=
  ready c' ∧ m_callback (m_session c') = Some j ∧ c' = set_session (m_session c') c.

Lemma request_goes_out r j c :
  ready c → sendable (request_message r) →
  ∃ c', send_request r j c = (c', [ToServer (packet (request_message r))]) ∧ waits_for j c c'.
Proof.
  intros (Hc & Hi & Hin) Hm. unfold send_request, connection. rewrite request_packet by done.
  eexists. split; [done|]. by unfold waits_for, ready.
Qed.

Lemma operation_goes_out r j c :
  availible c = true → ready c → sendable (request_message r) →
  ∃ c', if_availible (send_request r j) c = (c', [ToServer (packet (request_message r))]) ∧
        waits_for j (set_availible false c) c'.
Proof.
  intros Ha Hr Hm. unfold if_availible. rewrite Ha. by apply request_goes_out.
Qed.

(** A message of the server arrives in one piece. *)
Lemma message_comes_in m c :
  ready c → sendable m →
  ∃ s', happens (Arrival (packet m)) c = do_all do_effect (processResponse m s') (set_session s' c) ∧
        ready (set_session s' c) ∧ m_callback s' = m_callback (m_session c).
Proof.
  intros (Hc & Hi & Hin) Hm.
  destruct (arrive_whole m (packet m) (m_session c) Hm Hi) as (s' & Ha & H1 & H2 & H3).
  { by rewrite Hin. }
  exists (set_bytesReaded 0 s'). cbn [happens]. unfold session_slot. rewrite Ha.
  split; [by destruct m as [[]]|]. split; [|done].
  split; [|by split]. unfold isConnected in *. simpl. congruence.
Qed.

Lemma do_all_one {e} c :
  do_all do_effect [e] c = do_effect e c.
Proof.
  simpl. destruct (do_effect e c) as [c1 out]. by rewrite app_nil_r.
Qed.

Lemma response_comes_in r j c c0 :
  waits_for j c c0 → sendable (response_message r) →
  ∃ c', happens (Arrival (packet (response_message r))) c0 = responseProcessingCallback j r c' ∧
        waits_for j c c'.
Proof.
  intros (Hr & Hj & Hc) Hm.
  destruct (message_comes_in (response_message r) c0 Hr Hm) as (s' & -> & Hr' & Hf).
  rewrite (process_response r j) by congruence. rewrite do_all_one.
  exists (set_session s' c0). split; [done|]. split; [done|]. simpl.
  split; [congruence|]. by rewrite Hc.
Qed.
End Exchange.

(** ** Properties *)

(** The signal a response is answered with. *)
Definition answer_of `{Q : Qt} (j : client_job) (response : Response.t) : reaction :=
  match j with
  | LoginJob => doLoginReaction (Response.has_login_response response &&
                  LoginResponse.has_profile (Response.login_response response))
  | RegisterJob => doRegisterReaction (accepted_status response)
  | LoadChatsJob => doLoadChatsReaction
  | LoadContactsJob => doLoadContactsReaction
  | LoadMessagesJob => doLoadMessagesReaction
  | SendMessageJob => doSendMessageReaction (accepted_status response)
  | AddContactJob => doAddContactReaction (accepted_status response)
  | LoadDataJob => doLoadDataReaction
  | CreateChatJob => doChatCreatedReaction (accepted_status response)
  end.

(** The contacts have arrived and the chats are still to be asked for. *)
Definition half_loaded (j : client_job) (response : Response.t) : bool :=
  match j with LoadDataJob => Response.has_contacts_response response | _ => false end.

Section Theorems.
Context `{W : WireFormat} {L : WireFormatLaws W} `{Q : Qt}.

Lemma answers_emissions (f : emission → output) es r :
  (∀ e, match f e with ToQml _ | ToServer _ => False | _ => True end) → frees r = true →
  answers ((f <$> es) ++ [ToQml r]) = [r] ∧ packets ((f <$> es) ++ [ToQml r]) = [].
Proof.
  intros Hf Hr. rewrite answers_app, packets_app, answers_lists, packets_lists.
  - unfold answers. simpl. by rewrite Hr.
  - intros e. specialize (Hf e). by destruct (f e).
  - intros e. specialize (Hf e). by destruct (f e).
Qed.

(** C24: whatever happens to a client, in any order, it lets an operation of the
    window through only after all the earlier ones were answered by a signal:
    the operations that made it send or announce anything outnumber the
    signals that free it by at most the one under way; a client that is busy has
    the callback of its request; and an operation is let through exactly when
    the client is free. *)
Theorem every_operation_is_answered hs c out n :
  life hs new_client = (c, out, n) →
  (n ≤ length (answers out) + busy c)%nat ∧ expecting c ∧
  ∀ h, is_operation h = true → starts h c = 1%nat ↔ availible c = true.
Proof.
  intros Hl. pose proof (life_paid hs new_client) as Hp. rewrite Hl in Hp.
  destruct Hp as [H1 H2]. cbn [fst snd] in *. split; [lia|]. split; [|by intros; apply starts_if_free].
  apply H2. unfold expecting. by rewrite new_client_free.
Qed.

(** Every response, expected or not, frees the facade with exactly one
    signal, the one of the job that asked, and sends nothing; except that the
    contacts of a data load are followed by the request for the chats. *)
Theorem response_frees_facade j response c :
  half_loaded j response = false →
  let r := responseProcessingCallback j response c in
  availible r.1 = true ∧ answers r.2 = [answer_of j response] ∧ packets r.2 = [].
Proof.
  intros Hh. destruct j; cbn [responseProcessingCallback]; try done.
  - unfold login_callback, answer_of.
    destruct (Response.has_login_response response); [|done]. cbv zeta.
    by destruct (LoginResponse.has_profile _).
  - unfold load_chats_callback. destruct (Response.has_chats_response response); [|done].
    unfold setChats. cbv zeta. case_match. split; [done|]. by apply answers_emissions.
  - unfold load_contacts_callback. destruct (Response.has_contacts_response response); [|done].
    unfold setContacts. cbv zeta. case_match. split; [done|]. by apply answers_emissions.
  - unfold load_messages_callback. destruct (Response.has_messages_response response); [|done].
    cbv zeta. case_match. split; [done|]. by apply answers_emissions.
  - unfold load_data_callback. simpl in Hh. rewrite Hh.
    destruct (Response.has_chats_response response); [|done].
    unfold setChats. cbv zeta. case_match. split; [done|]. by apply answers_emissions.
Qed.

(** C40: a packet of the server that holds no response is dropped without a
    signal: the client stays busy, and refuses every operation from then on,
    the change of the server's address included. *)
Theorem silence_blocks_client m c h :
  availible c = false → ready c → sendable m → WrappedMessage.has_response m = false →
  ∃ c', happens (Arrival (packet m)) c = (c', []) ∧ availible c' = false ∧ ready c' ∧
    (is_operation h = true → happens h c' = (c', [])).
Proof.
  intros Ha Hr Hm Hno. destruct (message_comes_in m c Hr Hm) as (s' & -> & Hr' & _).
  exists (set_session s' c). split; [by destruct m as [[]]|]. split; [done|]. split; [done|].
  intros Hop. assert (∀ op, if_availible op (set_session s' c) = (set_session s' c, [])) as Hif.
  { intros op. unfold if_availible, availible in *. simpl. by rewrite Ha. }
  destruct h; try done; apply Hif.
Qed.

(** New connection settings are taken over exactly when they are valid:
    the socket is then aborted, which tells the window if it was connected, and
    connects again, but what was counted of an unfinished response is kept;
    otherwise the window gets the explanation and nothing else changes.  Either
    way the client is free again at once. *)
Theorem settings_are_checked {QL : QtLaws Q} ip port c :
  availible c = true →
  let r := updateConnectionSettings ip port c in
  if negb (address_is_null ip) && port_acceptable port then
    let told := if isConnected (m_session c) then [doDisconnected] else [] in
    m_serverIp r.1 = ip ∧ m_serverPort r.1 = port ∧ availible r.1 = true ∧
    isConnected (m_session r.1) = false ∧ incoming (m_sock (m_session r.1)) = [] ∧
    m_bytesReaded (m_session r.1) = m_bytesReaded (m_session c) ∧
    m_messageSize (m_session r.1) = m_messageSize (m_session c) ∧
    answers r.2 = told ++ [doUpdateConnectionSettingsReaction (fromUtf8 [])] ∧
    ∃ rest, r.2 = Abort :: (ToQml <$> told) ++ Connect :: rest
  else
    ∃ why, r = (c, [ToQml (doUpdateConnectionSettingsReaction why)]) ∧
      why = text_of (if address_is_null ip then "Invalid ip address" else "Invalid port").
Proof.
  intros Ha r. unfold r, updateConnectionSettings, if_availible. rewrite Ha.
  assert (set_session (m_session c) (set_availible true (set_availible false c)) = c) as Hc
    by (destruct c; unfold availible in Ha; simpl in *; by subst).
  unfold backend_update, connect. destruct (address_is_null ip) eqn:Hip; simpl.
  { eexists. split; [|done]. do 2 f_equal. exact Hc. }
  destruct (port_acceptable port) eqn:Hport; simpl.
  2: { eexists. split; [|done]. do 2 f_equal. exact Hc. }
  unfold sock_abort. destruct (isConnected (m_session c)); unfold setServerIp, setServerPort; simpl;
    destruct (QString_eq (m_serverIp c) ip) eqn:Eip; simpl;
    destruct (QString_eq (m_serverPort c) port) eqn:Eport; simpl; split_and!; try done;
    rewrite ?QString_eq_spec in *; eauto.
Qed.
End Theorems.

(** ** The properties at concrete inputs *)

Section Witnesses.
#[local] Existing Instance utf8_qt.
#[local] Existing Instance utf8_qt_laws.

(** A text of the client. *)
Definition str (s : bytes) : QString := s.

(** The new client connects, signs in, tries to sign in again, gets a refusal
    and signs in once more. *)
Definition sign_in : happening := Signin (str [Byte.x42]) (str [Byte.x71]).

Definition refusal : Response.t :=
  Response.Build (Response.kLoginResponse LoginResponse.SharedCtor).

Definition sample_life : list happening :=
  [SocketConnected; sign_in; sign_in; Arrival (packet (response_message refusal)); sign_in].

Lemma every_operation_is_answered_witness :
  ∃ c out, life sample_life new_client = (c, out, 2%nat) ∧
    answers out = [doLoginReaction false] ∧ (2 ≤ 1 + busy c)%nat.
Proof.
  pose proof (every_operation_is_answered sample_life) as H.
  assert ((life sample_life new_client).2 = 2%nat ∧
          answers (life sample_life new_client).1.2 = [doLoginReaction false]) as [Hn Ha]
    by (split; vm_compute; reflexivity).
  destruct (life sample_life new_client) as [[c out] n]. cbn [fst snd] in Hn, Ha. subst n.
  exists c, out. split; [reflexivity|]. split; [exact Ha|].
  destruct (H c out 2%nat eq_refl) as [H1 _]. rewrite Ha in H1. exact H1.
Defined.

Lemma response_frees_facade_witness :
  answers (responseProcessingCallback AddContactJob status_ok new_client).2 =
  [doAddContactReaction true].
Proof. exact (proj1 (proj2 (response_frees_facade AddContactJob status_ok new_client eq_refl))). Defined.

(** A client that has sent a request. *)
Definition connected_client : client := (happens SocketConnected new_client).1.
Definition busy_client : client := (happens sign_in connected_client).1.

Lemma silence_blocks_client_witness :
  ∃ c', happens (Arrival (packet (WrappedMessage.Build (WrappedMessage.kRequest chats_request))))
          busy_client = (c', []) ∧
        happens (UpdateSettings (str [Byte.x31]) (str [Byte.x32])) c' = (c', []).
Proof.
  destruct (silence_blocks_client (WrappedMessage.Build (WrappedMessage.kRequest chats_request))
    busy_client (UpdateSettings (str [Byte.x31]) (str [Byte.x32]))) as (c' & H1 & _ & _ & H2);
    [by vm_compute|by split; [|split]; vm_compute|exact chats_request_sendable|done|].
  exists c'. split; [exact H1|exact (H2 eq_refl)].
Defined.

Lemma settings_are_checked_witness :
  (updateConnectionSettings (str []) (str [Byte.x32]) connected_client).2 =
    [ToQml (doUpdateConnectionSettingsReaction (text_of "Invalid ip address"))] ∧
  m_serverIp (updateConnectionSettings (str [Byte.x31]) (str [Byte.x32]) connected_client).1 = str [Byte.x31].
Proof.
  split.
  - destruct (settings_are_checked (str []) (str [Byte.x32]) connected_client eq_refl) as (why & -> & ->).
    reflexivity.
  - exact (proj1 (settings_are_checked (str [Byte.x31]) (str [Byte.x32]) connected_client eq_refl)).
Defined.

(** A client that asks to add a contact, and one whose connection closes
    behind the prefix of the answer, and that then connects with other settings
    and asks again. *)
Definition asked_once : list happening := [SocketConnected; AddContact (str [Byte.x41])].

Definition asked_again : list happening :=
  asked_once ++ [Arrival (take 9 status_packet); SocketDisconnected;
    UpdateSettings (str [Byte.x31]) (str [Byte.x32])] ++ asked_once.

(** A connection that closes in the middle of a response spoils the next
    one: what was counted of the response is not reset, so that the prefix of
    the next response is read as a message, which cannot be parsed, and the
    client aborts the new connection instead of reporting the answer. *)
Theorem cut_response_breaks_next_connection :
  (happens (Arrival status_packet) (life asked_once new_client).1.1).2 =
    [ToQml (doAddContactReaction true)] ∧
  ready (set_session (set_bytesReaded 0 (m_session (life asked_again new_client).1.1))
    (life asked_again new_client).1.1) ∧
  m_bytesReaded (m_session (life asked_again new_client).1.1) = 9 ∧
  (happens (Arrival status_packet) (life asked_again new_client).1.1).2 =
    [Abort; ToQml doDisconnected].
Proof. split; [by vm_compute|]. split; [by split_and!; vm_compute|]. split; by vm_compute. Qed.
End Witnesses.
