(* ===== verification/ClientMain.v ===== *)
(** * The start of the client

    [main] of [client/src/main.cpp]: the network configuration it opens and
    saves, the types and objects it hands to QML, its exit code.  Qt's network
    manager, the settings file and the QML engine are parameters. *)
From Stdlib Require Import String.
From S2P Require Import Prelude Wire Qt ClientLists NetworkSession Client ClientListTheorems.
#[local] Open Scope elegram_scope.
#[local] Open Scope Z_scope.

(** ** Network configurations *)

(** [QNetworkConfigurationManager], [QNetworkConfiguration] and
    [QNetworkSession] as far as [main] uses them. *)
Class NetworkManager `{Q : Qt} : Type := {
  QNetworkConfiguration : Type;
  network_session_required : bool;
  configurationFromIdentifier : QString → QNetworkConfiguration;
  discovered : QNetworkConfiguration → bool;
  defaultConfiguration : QNetworkConfiguration;
  is_user_choice : QNetworkConfiguration → bool;
  identifier : QNetworkConfiguration → QString;
  (** opening a session: its configuration and its property
      [UserChoiceConfiguration], unless it does not open *)
  open_session : QNetworkConfiguration → option (QNetworkConfiguration * QString)
}.

(** An identifier designates its configuration. *)
Class NetworkManagerLaws `(N : NetworkManager) : Prop := {
  from_identifier c : configurationFromIdentifier (identifier c) = c
}.

Section Network.
Context `{N : NetworkManager}.

(** The settings hold [DefaultNetworkConfiguration] or not; an absent value
    reads as the empty string. *)
Definition saved_configuration (settings : option QString) : QString :=
  default (fromUtf8 []) settings.

Definition choose_configuration (settings : option QString) : QNetworkConfiguration :=
  let config := configurationFromIdentifier (saved_configuration settings) in
  if discovered config then config else defaultConfiguration.

Definition session_identifier (config : QNetworkConfiguration) (user_choice : QString) : QString :=
  if is_user_choice config then user_choice else identifier config.

(** The settings after the network part of [main]. *)
Definition open_network (settings : option QString) : option QString :=
  if network_session_required then
    match open_session (choose_configuration settings) with
    | Some (config, user_choice) => Some (session_identifier config user_choice)
    | None => settings
    end
  else settings.
End Network.

(** ** What QML gets *)

(** A C++ type registered under a name of a module of version 1.0. *)
Record qml_type := QmlType { module_name : string; type_name : string; creatable : bool }.

Definition qml_types : list qml_type := [
  QmlType "BackEnd" "BackEnd" false;
  QmlType "Chats" "ChatsModel" true; QmlType "Chats" "ChatsList" false;
  QmlType "Contacts" "ContactsModel" true; QmlType "Contacts" "ContactsList" false;
  QmlType "Messages" "MessagesModel" true; QmlType "Messages" "MessagesList" false]%string.

(** The objects on the stack of [main]. *)
Inductive main_object : Type := TheChatsList | TheContactsList | TheMessagesList | TheBackend.

(** The name of an object's class among the registered types. *)
Definition class_of (o : main_object) : string :=
  match o with
  | TheChatsList => "ChatsList"
  | TheContactsList => "ContactsList"
  | TheMessagesList => "MessagesList"
  | TheBackend => "BackEnd"
  end%string.

Definition context_properties : list (string * main_object) := [
  ("chatsList", TheChatsList); ("contactsList", TheContactsList);
  ("messagesList", TheMessagesList); ("backend", TheBackend)]%string.

(** ** [main] *)

Section Main.
Context `{W : WireFormat} `{N : NetworkManager}.

(** The exit code, if the process ends before the event loop, or the client
    the loop serves; and the settings it leaves. *)
Inductive client_main_result : Type :=
| ClientExit (code : Z)
| ClientRuns (c : client) (started : list output).

(** [root_objects]: the number of objects [engine.load] made of [main.qml]. *)
Definition client_main (root_objects : Z) (settings : option QString)
    : client_main_result * option QString :=
  let settings := open_network settings in
  let '(backend, out) := startup in
  if root_objects =? 0 then (ClientExit (-1), settings)
  else (ClientRuns backend out, settings).
End Main.

(** Every object of the context is of a class that QML knows and cannot make. *)
Lemma context_is_registered :
  Forall (λ p, Exists (λ t, type_name t = class_of p.2 ∧ creatable t = false) qml_types)
    context_properties.
Proof. apply (bool_decide_unpack _). by vm_compute. Qed.

Section Theorems.
Context `{N : NetworkManager}.

(** The client saves the configuration it opened, and the next start
    finds and opens it again as long as it is in reach. *)
Theorem saved_configuration_is_reused {NL : NetworkManagerLaws N} settings config user_choice :
  network_session_required = true →
  open_session (choose_configuration settings) = Some (config, user_choice) →
  is_user_choice config = false → discovered config = true →
  choose_configuration (open_network settings) = config.
Proof.
  intros Hreq Hopen Huser Hdisc. unfold open_network. rewrite Hreq, Hopen.
  unfold session_identifier, choose_configuration. rewrite Huser. simpl.
  by rewrite from_identifier, Hdisc.
Qed.
End Theorems.

Section Witnesses.
#[local] Existing Instance utf8_qt.

(** Configurations are their identifiers; the default one is in reach. *)
Definition one_network : NetworkManager := {|
  QNetworkConfiguration := bytes;
  network_session_required := true;
  configurationFromIdentifier s := s;
  discovered c := bool_decide (c = [Byte.x77]);
  defaultConfiguration := [Byte.x77];
  is_user_choice c := false;
  identifier c := c;
  open_session c := Some (c, [])
|}.

Lemma saved_configuration_is_reused_witness :
  choose_configuration (N:=one_network) (Some [Byte.x78]) = [Byte.x77] ∧
  open_network (N:=one_network) (Some [Byte.x78]) = Some [Byte.x77] ∧
  choose_configuration (N:=one_network) (open_network (N:=one_network) (Some [Byte.x78])) = [Byte.x77].
Proof.
  split; [reflexivity|]. split; [reflexivity|].
  apply (saved_configuration_is_reused (N:=one_network) (NL:=Build_NetworkManagerLaws _ one_network (λ c, eq_refl))
    (Some [Byte.x78]) [Byte.x77] []); reflexivity.
Defined.
End Witnesses.
