(* ===== verification/Pages.v ===== *)
(** * The pages of the window

    The QML of [client/qml]: a stack of pages with their text fields, the
    notices that pop up, what each button does and what each page does on a
    signal of the backend.  All pages of the stack react to the signals, not
    only the one on top.  A page calls the backend through [happens]; the
    signals that come out of the call reach the pages before the next
    statement of the caller runs.  A popped page is gone at once, and a notice
    that is open keeps the user from the pages. *)
From Stdlib Require Import String.
From S2P Require Import Prelude Wire Qt ClientLists NetworkSession Client.
#[local] Open Scope elegram_scope.
#[local] Open Scope Z_scope.

(** How many of [n] rows a list view has delegates for is up to Qt. *)
Class Views : Type := { delegates : nat → nat }.

(** ** Numbers of QML *)

(** The double next to an integer, ties to even. *)
Definition js_number (v : Z) : Z :=
  if v <? 2 ^ 53 then v else
  let e := Z.log2 v - 52 in
  let q := v / 2 ^ e in
  let r := v mod 2 ^ e in
  (if (2 ^ (e - 1) <? r) || ((r =? 2 ^ (e - 1)) && Z.odd q) then q + 1 else q) * 2 ^ e.

(** [property int], and an argument of type [quint64]. *)
Definition qml_int (v : Z) : Z := to_signed 32 v.
Definition quint64_arg (v : Z) : Z := to_unsigned 64 v.

(** ** State *)

Section State.
Context `{Q : Qt}.

(** A page with what was typed into its fields; the profile is read once, when
    the page is made. *)
Inductive page : Type :=
| LoginWindow (email_input passwd_input : QString)
| RegisterWindow (name_input email_input password_input : QString)
| ChatsWindow
| ContactsWindow
| AddContactWindow (email_input : QString)
| MessagesWindow (mesg_input : QString)
| SettingsWindow (ip_field port_field : QString)
| ProfileWindow (name email : QString).

(** A notice of a page, or a text of the backend, which [Client.v] leaves out. *)
Inductive notice : Type :=
| Says (text : QString)
| Explains.

(** [stack]: the page on top is the last one. *)
Record window := Window {
  backend : client;
  stack : list page;
  current_chat : Z;
  popup : option notice
}.

Definition set_backend (c : client) (w : window) : window :=
  Window c (stack w) (current_chat w) (popup w).
Definition set_stack (ps : list page) (w : window) : window :=
  Window (backend w) ps (current_chat w) (popup w).
Definition set_current_chat (chat : Z) (w : window) : window :=
  Window (backend w) (stack w) chat (popup w).
Definition set_popup (n : option notice) (w : window) : window :=
  Window (backend w) (stack w) (current_chat w) n.

Definition top (w : window) : option page := last (stack w).
Definition set_page (i : nat) (p : page) (w : window) : window := set_stack (<[i := p]> (stack w)) w.
End State.

(** ** Statements

    A statement changes the window and calls the backend; the calls are
    recorded.  [None] only if calls nest deeper than the bound. *)

Section Statements.
Context `{Q : Qt}.

Definition act : Type := window → option (window * list happening).

Definition skip : act := λ w, Some (w, []).
Definition modify (f : window → window) : act := λ w, Some (f w, []).
Definition andthen (a b : act) : act := λ w,
  match a w with
  | Some (w1, hs) =>
    match b w1 with
    | Some (w2, hs') => Some (w2, hs ++ hs')
    | None => None
    end
  | None => None
  end.
Definition when (b : window → bool) (a : act) : act := λ w, if b w then a w else skip w.
Fixpoint each {A} (f : A → act) (l : list A) : act :=
  match l with
  | [] => skip
  | x :: l => andthen (f x) (each f l)
  end.

(** [notificator.showMessage(...)], [notificator.operationAborted(...)] *)
Definition showMessage (text : QString) : act := modify (set_popup (Some (Says text))).
Definition explain : act := modify (set_popup (Some Explains)).

Definition is_empty (text : QString) : bool := QString_eq text (fromUtf8 []).

(** [a + b] of strings *)
Definition joined (a b : QString) : QString := fromUtf8 (toStdString a ++ toStdString b).

Definition free (w : window) : bool := availible (backend w).
End Statements.

Declare Scope page_scope.
Delimit Scope page_scope with page.
Notation "a ;; b" := (andthen a b) (at level 100, b at level 200, right associativity) : page_scope.
#[local] Open Scope page_scope.

(** ** Reactions of the pages *)

Section Pages.
Context `{W : WireFormat} `{Q : Qt} `{V : Views}.

Section Handlers.
(** A call of the backend. *)
Variable call : happening → act.

(** [MessagesWindow]: the button that reloads, and what it does first. *)
Definition reload_messages : act :=
  when free (λ w,
    (call (SelectChat (quint64_arg (current_chat w))) ;;
     call (LoadMessages (quint64_arg (current_chat w)))) w).

(** [Component.onCompleted] *)
Definition onCompleted (p : page) : act :=
  match p with
  | ChatsWindow => when free (call LoadData)
  | ContactsWindow => when free (call LoadContacts)
  | MessagesWindow _ => reload_messages
  | _ => skip
  end.

(** [stackView.push(...)] *)
Definition push (p : page) : act :=
  modify (λ w, set_stack (stack w ++ [p]) w) ;; onCompleted p.

(** [stackView.pop()] leaves the last page. *)
Definition pop : act :=
  modify (λ w, if (1 <? length (stack w))%nat then set_stack (removelast (stack w)) w else w).

Definition login_window : page := LoginWindow (fromUtf8 []) (fromUtf8 []).

Definition loginReaction (isLogged : bool) : act :=
  if isLogged then
    (λ w, showMessage (joined (joined (text_of "Hello, ") (userName (backend w))) (text_of "!")) w) ;;
    push ChatsWindow
  else showMessage (text_of "Wrong name or password").

Definition registerReaction (i : nat) (isRegistered : bool) : act :=
  if isRegistered then
    showMessage (text_of "Succesfully registred") ;;
    modify (set_page i (RegisterWindow (fromUtf8 []) (fromUtf8 []) (fromUtf8 [])))
  else showMessage (text_of "Email already in use").

(** One row of the contacts; the call is not guarded by the page. *)
Definition createChatReaction (isCreated : bool) : act :=
  if isCreated then showMessage (text_of "Chat created!") ;; call LoadChats
  else showMessage (text_of "Chat NOT created! Maybe already exist or something else  ¯_(ツ)_/¯ ").

Definition addContactReaction (i : nat) (email_input : QString) (isAdded : bool) : act :=
  if isAdded then
    showMessage (text_of "Contact added succesfully") ;;
    modify (set_page i (AddContactWindow (fromUtf8 []))) ;;
    when free (call LoadContacts)
  else showMessage (joined email_input (text_of " not found")).

Definition sendMessageReaction (status : bool) : act :=
  if status then reload_messages else skip.

Definition updateSettingsReaction (errorMesg : QString) : act :=
  if is_empty errorMesg then skip else showMessage errorMesg.

(** The [Connections] of the [i]-th page of the stack. *)
Definition page_reacts (i : nat) (p : page) (r : reaction) : act :=
  match p, r with
  | LoginWindow _ _, doLoginReaction isLogged => loginReaction isLogged
  | RegisterWindow _ _ _, doRegisterReaction isRegistered => registerReaction i isRegistered
  | ContactsWindow, doChatCreatedReaction isCreated => λ w,
      each (λ _, createChatReaction isCreated)
        (seq 0 (delegates (length (ContactsList.m_items (m_contactsList (backend w)))))) w
  | AddContactWindow email_input, doAddContactReaction isAdded =>
      addContactReaction i email_input isAdded
  | MessagesWindow _, doSendMessageReaction status => sendMessageReaction status
  | SettingsWindow _ _, doUpdateConnectionSettingsReaction errorMesg =>
      updateSettingsReaction errorMesg
  | SettingsWindow _ port_field, serverIpChanged => λ w,
      modify (set_page i (SettingsWindow (serverIp (backend w)) port_field)) w
  | SettingsWindow ip_field _, serverPortChanged => λ w,
      modify (set_page i (SettingsWindow ip_field (serverPort (backend w)))) w
  | _, _ => skip
  end.

(** The [Connections] of [main.qml]. *)
Definition main_reacts (r : reaction) : act :=
  match r with
  | doOperationAborted | doShowMessage => explain
  | doDisconnected => modify (set_stack [login_window])
  | _ => skip
  end.

Definition listens (r : reaction) (i : nat) : act := λ w,
  match stack w !! i with
  | Some p => page_reacts i p r w
  | None => skip w
  end.

(** A page that is made while a signal is handled does not get it. *)
Definition reacts (r : reaction) : act := λ w,
  (main_reacts r ;; each (listens r) (seq 0 (length (stack w)))) w.
End Handlers.

Definition reactions (out : list output) : list reaction :=
  omap (λ o, match o with ToQml r => Some r | _ => None end) out.

(** A call of the backend, with all it leads to. *)
Fixpoint call (depth : nat) (h : happening) : act :=
  match depth with
  | O => λ _, None
  | S depth => λ w,
    let '(c, out) := happens h (backend w) in
    match each (reacts (call depth)) (reactions out) (set_backend c w) with
    | Some (w', hs) => Some (w', h :: hs)
    | None => None
    end
  end.

(** A signal makes a page call the backend, whose signals make no page call. *)
Definition DEPTH : nat := 2.
Definition invoke : happening → act := call DEPTH.

(** ** What the user does *)

Inductive button : Type :=
| signin_btn | signup_btn | settings_btn | contacts_btn | reload_chats_btn | profile_btn
| chat_row (n : nat) | createChatBtn (n : nat)
| add_contacts_btn | reload_contacts_btn | add_contact_btn
| send_mesg_btn | reload_messages_btn | set_settings_btn | back_btn.

Definition login_press (email_input passwd_input : QString) (b : button) : option act :=
  match b with
  | signin_btn => Some (when free
      (if is_empty email_input then showMessage (text_of "Empty email")
       else if is_empty passwd_input then showMessage (text_of "Empty password")
       else invoke (Signin email_input passwd_input)))
  | signup_btn => Some (when free
      (push invoke (RegisterWindow (fromUtf8 []) (fromUtf8 []) (fromUtf8 []))))
  | _ => None
  end.

Definition register_press (name_input email_input password_input : QString) (b : button)
    : option act :=
  match b with
  | signup_btn => Some (when free
      (if is_empty name_input then showMessage (text_of "Empty name ")
       else if is_empty email_input then showMessage (text_of "Empty email")
       else if is_empty password_input then showMessage (text_of "Empty password ")
       else invoke (Signup name_input email_input password_input)))
  | _ => None
  end.

(** [chatsState.current_chat = chat_id] *)
Definition chats_press (b : button) (w : window) : option act :=
  match b with
  | chat_row n =>
    match ChatsList.m_items (m_chatsList (backend w)) !! n with
    | Some chat => Some (modify (set_current_chat (qml_int (js_number (ChatsList.id chat)))) ;;
                         push invoke (MessagesWindow (fromUtf8 [])))
    | None => None
    end
  | contacts_btn => Some (push invoke ContactsWindow)
  | reload_chats_btn => Some (when free (invoke LoadChats))
  | profile_btn => Some (push invoke (ProfileWindow (userName (backend w)) (userEmail (backend w))))
  | _ => None
  end.

Definition contacts_press (b : button) (w : window) : option act :=
  match b with
  | createChatBtn n =>
    match ContactsList.m_items (m_contactsList (backend w)) !! n with
    | Some contact => Some (when free
        (invoke (CreateChat (quint64_arg (js_number (ContactsList.user_id contact))))))
    | None => None
    end
  | add_contacts_btn => Some (push invoke (AddContactWindow (fromUtf8 [])))
  | reload_contacts_btn => Some (when free (invoke LoadContacts))
  | _ => None
  end.

Definition add_contact_press (email_input : QString) (b : button) : option act :=
  match b with
  | add_contact_btn => Some (when free
      (if is_empty email_input then showMessage (text_of "Empty email")
       else invoke (AddContact email_input)))
  | _ => None
  end.

Definition messages_press (mesg_input : QString) (b : button) (w : window) : option act :=
  match b with
  | send_mesg_btn => Some
      (if is_empty mesg_input then showMessage (text_of "Empty message!")
       else when free
         (invoke (SendMessage (quint64_arg (current_chat w)) mesg_input) ;;
          modify (set_page (length (stack w) - 1) (MessagesWindow (fromUtf8 [])))))
  | reload_messages_btn => Some (reload_messages invoke)
  | _ => None
  end.

Definition settings_press (ip_field port_field : QString) (b : button) : option act :=
  match b with
  | set_settings_btn => Some
      (if is_empty ip_field then showMessage (text_of "Empty server ip ")
       else if is_empty port_field then showMessage (text_of "Empty server port ")
       else invoke (UpdateSettings ip_field port_field))
  | _ => None
  end.

(** The buttons three and six pages have. *)
Definition settings_or_back (p : page) (b : button) (w : window) : option act :=
  match p, b with
  | (LoginWindow _ _ | RegisterWindow _ _ _ | ChatsWindow), settings_btn =>
      Some (push invoke (SettingsWindow (serverIp (backend w)) (serverPort (backend w))))
  | (RegisterWindow _ _ _ | ContactsWindow | AddContactWindow _ | MessagesWindow _
     | SettingsWindow _ _ | ProfileWindow _ _), back_btn => Some pop
  | _, _ => None
  end.

(** [onClicked]; [None]: the page has no such button. *)
Definition press (p : page) (b : button) (w : window) : option act :=
  match settings_or_back p b w with
  | Some a => Some a
  | None =>
    match p with
    | LoginWindow email_input passwd_input => login_press email_input passwd_input b
    | RegisterWindow name_input email_input password_input =>
        register_press name_input email_input password_input b
    | ChatsWindow => chats_press b w
    | ContactsWindow => contacts_press b w
    | AddContactWindow email_input => add_contact_press email_input b
    | MessagesWindow mesg_input => messages_press mesg_input b w
    | SettingsWindow ip_field port_field => settings_press ip_field port_field b
    | ProfileWindow _ _ => None
    end
  end.

(** The [n]-th text field of a page. *)
Definition typed (n : nat) (text : QString) (p : page) : option page :=
  match p, n with
  | LoginWindow _ passwd, O => Some (LoginWindow text passwd)
  | LoginWindow email _, S O => Some (LoginWindow email text)
  | RegisterWindow _ email password, O => Some (RegisterWindow text email password)
  | RegisterWindow name _ password, S O => Some (RegisterWindow name text password)
  | RegisterWindow name email _, S (S O) => Some (RegisterWindow name email text)
  | AddContactWindow _, O => Some (AddContactWindow text)
  | MessagesWindow _, O => Some (MessagesWindow text)
  | SettingsWindow _ port, O => Some (SettingsWindow text port)
  | SettingsWindow ip _, S O => Some (SettingsWindow ip text)
  | _, _ => None
  end.

(** ** Everything that can happen to the window *)

Inductive page_event : Type :=
| Types (field : nat) (text : QString)
| Presses (b : button)
| BackKey
| Dismisses
| Gets (h : happening).

(** What comes from the socket. *)
Definition from_socket (h : happening) : bool :=
  match h with
  | Arrival _ | SocketError _ | SocketConnected | SocketDisconnected => true
  | _ => false
  end.

(** The statements of an event; [None] if it cannot happen. *)
Definition page_act (ev : page_event) (w : window) : option act :=
  match ev, popup w with
  | Gets h, _ => if from_socket h then Some (invoke h) else None
  | Dismisses, Some _ => Some (modify (set_popup None))
  | BackKey, None => Some pop
  | Presses b, None => match top w with Some p => press p b w | None => None end
  | Types n text, None =>
    match top w with
    | Some p =>
      match typed n text p with
      | Some p' => Some (modify (set_page (length (stack w) - 1) p'))
      | None => None
      end
    | None => None
    end
  | _, _ => None
  end.

Definition page_step (ev : page_event) (w : window) : option (window * list happening) :=
  match page_act ev w with Some a => a w | None => None end.

(** The engine loads [main.qml] when the backend is there. *)
Definition opened : window := Window new_client [login_window] 0 None.

(** A run, with the calls of the backend in order. *)
Inductive page_run : window → list happening → Prop :=
| run_opened : page_run opened []
| run_step w hs ev w' hs' : page_run w hs → page_step ev w = Some (w', hs') → page_run w' (hs ++ hs').

Fixpoint page_runs (evs : list page_event) (w : window) : option (window * list happening) :=
  match evs with
  | [] => Some (w, [])
  | ev :: evs =>
    match page_step ev w with
    | Some (w1, hs) =>
      match page_runs evs w1 with
      | Some (w2, hs') => Some (w2, hs ++ hs')
      | None => None
      end
    | None => None
    end
  end.
End Pages.
