(* ===== verification/PageFacts.v ===== *)
(** * Facts about the pages

    What a call of the backend comes to on the pages, and a small logic of
    statements: [sure P a Q] says that [a] comes to its end from every state
    of [P], in a state of [Q]. *)
From Stdlib Require Import String.
From S2P Require Import Prelude Wire Message Requests Responses Envelope Framing Qt ClientLists NetworkSession.
From S2P Require Import Client ClientTheorems Pages.
#[local] Open Scope page_scope.

Section Calls.
Context `{W : WireFormat} `{Q : Qt} `{V : Views}.
Implicit Types (h : happening) (w : window) (c : client).

(** Operations that are no change of settings, and the choice of a chat. *)
Definition calm h : bool :=
  match h with
  | UpdateSettings _ _ | Arrival _ | SocketError _ | SocketConnected | SocketDisconnected => false
  | _ => true
  end.

Lemma reactions_app out out' : reactions (out ++ out') = reactions out ++ reactions out'.
Proof. apply omap_app. Qed.

Lemma reactions_lists {A} (f : A → output) l :
  (∀ a, match f a with ToQml _ => False | _ => True end) → reactions (f <$> l) = [].
Proof.
  intros Hf. induction l as [|a l IH]; [done|]. unfold reactions in *.
  cbn [fmap list_fmap omap list_omap] in *. rewrite IH. specialize (Hf a). by destruct (f a).
Qed.

(** What a request leaves alone. *)
Definition same_contents c c' : Prop :=
  m_profile c' = m_profile c ∧ m_messagesList c' = m_messagesList c ∧
  m_contactsList c' = m_contactsList c ∧ m_chatsList c' = m_chatsList c.

Lemma same_contents_refl c : same_contents c c.
Proof. done. Qed.

Lemma send_request_calm r j c :
  (reactions (send_request r j c).2 = [] ∨ reactions (send_request r j c).2 = [doOperationAborted]) ∧
  same_contents c (send_request r j c).1.
Proof.
  unfold send_request, NetworkSession.request, same_contents, connection.
  destruct (isConnected (m_session c)); simpl; (split; [auto|done]).
Qed.

Lemma if_availible_calm (f : client → client * list output) c :
  (∀ c, (reactions (f c).2 = [] ∨ reactions (f c).2 = [doOperationAborted]) ∧
        same_contents c (f c).1) →
  (reactions (if_availible f c).2 = [] ∨ reactions (if_availible f c).2 = [doOperationAborted]) ∧
  same_contents c (if_availible f c).1.
Proof.
  intros Hf. unfold if_availible. case_match; [|simpl; auto using same_contents_refl].
  destruct (Hf (set_availible false c)) as [H1 H2]. auto.
Qed.

Lemma calm_reactions h c : calm h = true →
  reactions (happens h c).2 = [] ∨ reactions (happens h c).2 = [doOperationAborted].
Proof.
  intros Hq. destruct h; try done; cbn [happens];
    try (apply if_availible_calm; intros; apply send_request_calm).
  destruct (MessagesList.setCurrentChatId _ _) as [l es]. left. by apply reactions_lists.
Qed.

Lemma operation_contents h c : calm h = true → is_operation h = true →
  same_contents c (happens h c).1.
Proof.
  intros Hq Hop. destruct h; try done; cbn [happens];
    (apply if_availible_calm; intros; apply send_request_calm).
Qed.

(** A calm call on the pages: at most a notice. *)
Definition asked h w : window :=
  let w1 := set_backend (happens h (backend w)).1 w in
  match reactions (happens h (backend w)).2 with
  | [] => w1
  | _ => set_popup (Some Explains) w1
  end.

Lemma skips {A} (f : A → act) l w : (∀ x w, f x w = skip w) → each f l w = Some (w, []).
Proof. intros Hf. induction l as [|x l IH]; [done|]. simpl. unfold andthen. rewrite Hf. simpl. by rewrite IH. Qed.

Lemma call_calm n h w : calm h = true → call (S n) h w = Some (asked h w, [h]).
Proof.
  intros Hq. unfold asked. simpl. destruct (calm_reactions h (backend w) Hq) as [He|He];
    destruct (happens h (backend w)) as [c out]; simpl in He |- *; rewrite He; simpl; [done|].
  unfold andthen at 1, reacts, andthen at 1. simpl. rewrite skips; [done|].
  intros i w'. unfold listens. case_match; [|done]. by destruct p.
Qed.

Lemma asked_stack h w : stack (asked h w) = stack w.
Proof. unfold asked. by case_match. Qed.
Lemma asked_chat h w : current_chat (asked h w) = current_chat w.
Proof. unfold asked. by case_match. Qed.
Lemma asked_backend h w : backend (asked h w) = (happens h (backend w)).1.
Proof. unfold asked. by case_match. Qed.
End Calls.

(** ** A logic of statements *)

Section Logic.
Context `{W : WireFormat} `{Q : Qt} `{V : Views}.
Implicit Types (P R : list happening → window → Prop) (a b : act).

(** [hs]: the calls so far. *)
Definition sure P a R : Prop :=
  ∀ hs w, P hs w → ∃ w' hs', a w = Some (w', hs') ∧ R (hs ++ hs') w'.

Lemma sure_skip P R : (∀ hs w, P hs w → R hs w) → sure P skip R.
Proof. intros H hs w HP. exists w, []. rewrite app_nil_r. auto. Qed.

Lemma sure_modify P R f : (∀ hs w, P hs w → R hs (f w)) → sure P (modify f) R.
Proof. intros H hs w HP. exists (f w), []. rewrite app_nil_r. auto. Qed.

Lemma sure_andthen M P R a b : sure P a M → sure M b R → sure P (a ;; b) R.
Proof.
  intros Ha Hb hs w HP. destruct (Ha hs w HP) as (w1 & hs1 & H1 & HM).
  destruct (Hb _ _ HM) as (w2 & hs2 & H2 & HR). exists w2, (hs1 ++ hs2).
  unfold andthen. rewrite H1, H2, (assoc_L (++)). auto.
Qed.

Lemma sure_when P R (t : window → bool) a :
  sure (λ hs w, P hs w ∧ t w = true) a R → (∀ hs w, P hs w → t w = false → R hs w) →
  sure P (when t a) R.
Proof.
  intros Ha Hs hs w HP. unfold when. destruct (t w) eqn:Ht; [by apply Ha|].
  by apply (sure_skip (λ hs w, P hs w ∧ t w = false)); [intros ?? []; auto|].
Qed.

(** The statement looks at the window first. *)
Lemma sure_look P R (f : window → act) :
  (∀ w0, sure (λ hs w, P hs w ∧ w = w0) (f w0) R) → sure P (λ w, f w w) R.
Proof. intros H hs w HP. by apply (H w). Qed.

Lemma sure_each {A} P (f : A → act) l : (∀ x, x ∈ l → sure P (f x) P) → sure P (each f l) P.
Proof.
  induction l as [|x l IH]; intros H; [by apply sure_skip|].
  eapply sure_andthen; [apply H; by left|]. apply IH. intros y Hy. apply H. by right.
Qed.

Lemma sure_weaken P P' R R' a :
  sure P a R → (∀ hs w, P' hs w → P hs w) → (∀ hs w, R hs w → R' hs w) → sure P' a R'.
Proof. intros H HP HR hs w HP'. destruct (H hs w (HP _ _ HP')) as (w' & hs' & ? & ?). eauto. Qed.

Lemma sure_call n P R h : calm h = true →
  (∀ hs w, P hs w → R (hs ++ [h]) (asked h w)) → sure P (call (S n) h) R.
Proof. intros Hq H hs w HP. exists (asked h w), [h]. split; [by apply call_calm|auto]. Qed.
End Logic.
