(* ===== verification/PageInvariant.v ===== *)
(** * The invariant of the pages

    Which page lies on which, who is logged in below them, for which chat the
    list of messages is, and that forms are filled in. *)
From Stdlib Require Import String.
From S2P Require Import Prelude Wire Message Requests Responses Envelope Framing Qt ClientLists NetworkSession.
From S2P Require Import Client ClientTheorems Pages PageFacts.
#[local] Open Scope page_scope.

Inductive kind : Type :=
| KLogin | KRegister | KChats | KContacts | KAddContact | KMessages | KSettings | KProfile.

#[export] Instance kind_eq_dec : EqDecision kind.
Proof. solve_decision. Defined.

(** A page for [above] has a way in on the page below; the login page can open
    the chats below any other page. *)
Definition may_lie (below above : kind) : bool :=
  match above, below with
  | KRegister, KLogin => true
  | KChats, _ => true
  | (KContacts | KMessages | KProfile), KChats => true
  | KAddContact, KContacts => true
  | KSettings, (KLogin | KRegister | KChats) => true
  | _, _ => false
  end.

Fixpoint stacked (below : kind) (ks : list kind) : bool :=
  match ks with
  | [] => true
  | k :: ks => may_lie below k && stacked k ks
  end.

Lemma stacked_snoc ks : ∀ k below, stacked below (ks ++ [k]) =
  stacked below ks && may_lie (default below (last ks)) k.
Proof.
  induction ks as [|k' ks IH]; intros k below.
  { simpl. by rewrite andb_true_r. }
  rewrite last_cons. cbn [app stacked]. rewrite IH, andb_assoc. by destruct (last ks).
Qed.

(** The last [LoadMessages] of the calls. *)
Definition last_chat `{Q : Qt} (hs : list happening) : Z :=
  foldl (λ k h, match h with LoadMessages k' => k' | _ => k end) 0 hs.

Lemma last_chat_snoc `{Q : Qt} hs h :
  last_chat (hs ++ [h]) = match h with LoadMessages k => k | _ => last_chat hs end.
Proof. unfold last_chat. rewrite foldl_snoc. by destruct h. Qed.

Section Backend.
Context `{W : WireFormat} `{Q : Qt}.
Implicit Types (c : client) (r : client * list output).

(** What every call of the backend but the choice of a chat does to profile
    and chat. *)
Definition carried c r : Prop :=
  (m_profile c ≠ None → m_profile r.1 ≠ None) ∧
  MessagesList.m_currentChatId (m_messagesList r.1) = MessagesList.m_currentChatId (m_messagesList c) ∧
  (doLoginReaction true ∈ reactions r.2 → m_profile r.1 ≠ None).

Lemma carried_same c c' out : m_profile c' = m_profile c → m_messagesList c' = m_messagesList c →
  doLoginReaction true ∉ reactions out → carried c (c', out).
Proof. unfold carried. simpl. intros -> -> H. by split_and!. Qed.

Lemma carried_seq c r r' : carried c r → carried r.1 r' → carried c (r'.1, r.2 ++ r'.2).
Proof.
  intros (H1 & H2 & H3) (H4 & H5 & H6). unfold carried. simpl. split_and!; [auto|congruence|].
  rewrite reactions_app, elem_of_app. intros [H|H]; auto.
Qed.

Lemma emit_carried g c : g ≠ loggedIn true → carried c (emit g c).
Proof.
  intros Hg. destruct g as [[]| | | | | | | | | | | |]; try done;
    (apply carried_same; [done|done|]; simpl; intros Hin%list_elem_of_singleton; congruence).
Qed.

Lemma plain_effect_carried e c : carried c (plain_effect e c).
Proof. destruct e; simpl; try (by apply carried_same; try set_solver); by apply emit_carried. Qed.

Lemma do_all_carried run es c : (∀ e c, carried c (run e c)) → carried c (do_all run es c).
Proof.
  intros Hr. revert c. induction es as [|e es IH]; intros c; simpl.
  { apply carried_same; [done|done|set_solver]. }
  specialize (Hr e c). destruct (run e c) as [c1 out1]. specialize (IH c1).
  destruct (do_all run es c1) as [c2 out2]. by apply (carried_seq c (c1, out1) (c2, out2)).
Qed.

Lemma send_request_carried request j c : carried c (send_request request j c).
Proof.
  unfold send_request. destruct (NetworkSession.request _ _ _) as [s es].
  apply (do_all_carried plain_effect es (set_session s c)). apply plain_effect_carried.
Qed.

Lemma setChats_carried chats c : carried c (setChats chats c).
Proof.
  unfold setChats. destruct (ChatsList.setItems _ _) as [l es]. apply carried_same; [done|done|].
  rewrite reactions_lists by done. set_solver.
Qed.

Lemma setContacts_carried contacts c : carried c (setContacts contacts c).
Proof.
  unfold setContacts. destruct (ContactsList.setItems _ _) as [l es]. apply carried_same; [done|done|].
  rewrite reactions_lists by done. set_solver.
Qed.

Lemma then_emit_carried g c r : g ≠ loggedIn true → carried c r → carried c (then_emit g r).
Proof.
  intros Hg Hr. unfold then_emit. destruct r as [c1 out1].
  pose proof (emit_carried g c1 Hg) as He. destruct (emit g c1) as [c2 out2].
  by apply (carried_seq c (c1, out1) (c2, out2)).
Qed.

Lemma nothing_carried c : carried c (c, []).
Proof. apply carried_same; [done|done|set_solver]. Qed.

Lemma setItems_chat vec l :
  MessagesList.m_currentChatId (MessagesList.setItems vec l).1 = MessagesList.m_currentChatId l.
Proof. unfold MessagesList.setItems. by repeat (case_match; simplify_eq/=). Qed.

Lemma callback_carried j response c : carried c (responseProcessingCallback j response c).
Proof.
  destruct j; cbn [responseProcessingCallback].
  - unfold login_callback. repeat case_match; try by apply emit_carried. by split_and!.
  - by apply emit_carried.
  - apply then_emit_carried; [done|]. case_match; [apply setChats_carried|apply nothing_carried].
  - apply then_emit_carried; [done|]. case_match; [apply setContacts_carried|apply nothing_carried].
  - apply then_emit_carried; [done|]. case_match; [|apply nothing_carried].
    pose proof (setItems_chat (Some ((λ mesg, MessagesList.MkMessageItem (MessageToRecieve.sender_id mesg)
      (fromUtf8 (c_str (MessageToRecieve.text mesg)))) <$> MessagesResponse.messages
        (Response.messages_response response))) (m_messagesList c)) as Hchat. unfold mesagesList.
    destruct (MessagesList.setItems _ _) as [l es]. unfold carried. simpl in *.
    rewrite reactions_lists by done. split_and!; [done|done|set_solver].
  - by apply emit_carried.
  - by apply emit_carried.
  - unfold load_data_callback. destruct (Response.has_contacts_response response).
    { pose proof (setContacts_carried (Response.contacts_response response) c) as H1.
      destruct (setContacts _ c) as [c1 out1].
      pose proof (send_request_carried MessageFactory.createAllMyChatsRequest LoadDataJob c1) as H2.
      destruct (send_request _ _ c1) as [c2 out2]. by apply (carried_seq c (c1, out1) (c2, out2)). }
    case_match; [by apply then_emit_carried, setChats_carried|by apply emit_carried].
  - by apply emit_carried.
Qed.

Lemma session_slot_carried slot c : carried c (session_slot slot c).
Proof.
  unfold session_slot. destruct (slot (m_session c)) as [s es].
  apply (do_all_carried do_effect es (set_session s c)). intros e c'.
  destruct e; try apply plain_effect_carried. apply callback_carried.
Qed.

Lemma if_availible_carried (f : client → client * list output) c :
  (∀ c, carried c (f c)) → carried c (if_availible f c).
Proof. intros Hf. unfold if_availible. case_match; [|apply nothing_carried]. apply (Hf (set_availible false c)). Qed.

Lemma update_carried ip port c : carried c (updateConnectionSettings ip port c).
Proof.
  apply if_availible_carried. clear c. intros c. unfold backend_update.
  destruct (NetworkSession.connect _ _ _) as [[error s] es].
  pose proof (do_all_carried plain_effect es (set_session s c) plain_effect_carried) as H1.
  destruct (do_all _ _ _) as [c1 out1].
  destruct error as [text|]; simpl.
  { by apply (carried_seq c (c1, out1) (set_availible true c1, _)), (emit_carried (updatedConnectionSettings _)). }
  unfold setServerIp, setServerPort, emit. repeat case_match; simplify_eq/=;
    (rewrite <- ?app_assoc; apply (carried_seq c (c1, out1) (_, _)); [done|]; apply carried_same; [done|done|];
     simpl; set_solver).
Qed.

Lemma happens_carried h c : (∀ k, h ≠ SelectChat k) → carried c (happens h c).
Proof.
  intros Hk. destruct h; cbn [happens];
    try (apply if_availible_carried; intros; apply send_request_carried);
    try apply session_slot_carried.
  - apply update_carried.
  - by edestruct Hk.
Qed.

Lemma setCurrentChatId_chat k l : MessagesList.m_currentChatId (MessagesList.setCurrentChatId k l).1 = k.
Proof. unfold MessagesList.setCurrentChatId. case_match; [by apply Z.eqb_eq|]. by case_match. Qed.

Lemma select_chat k c : m_profile (happens (SelectChat k) c).1 = m_profile c ∧
  MessagesList.m_currentChatId (m_messagesList (happens (SelectChat k) c).1) = k ∧
  availible (happens (SelectChat k) c).1 = availible c.
Proof.
  pose proof (setCurrentChatId_chat k (m_messagesList c)) as H. cbn [happens].
  by destruct (MessagesList.setCurrentChatId _ _) as [l es].
Qed.

Lemma calm_profile h c : calm h = true → m_profile (happens h c).1 = m_profile c.
Proof.
  intros Hq. destruct (is_operation h) eqn:Hop; [by apply operation_contents|].
  destruct h; try done. apply select_chat.
Qed.
End Backend.

(** ** What was called *)

Section Called.
Context `{W : WireFormat} `{Q : Qt}.
Implicit Types (hs : list happening) (c : client).

(** The client that the calls leave. *)
Definition lived hs c : client := foldl (λ c h, (happens h c).1) c hs.

Lemma lived_app hs hs' c : lived (hs ++ hs') c = lived hs' (lived hs c).
Proof. apply foldl_app. Qed.

Lemma lived_life hs c : (life hs c).1.1 = lived hs c.
Proof.
  revert c. induction hs as [|h hs IH]; intros c; [done|]. simpl. unfold lived in *. simpl.
  destruct (happens h c) as [c1 out]. specialize (IH c1). by destruct (life hs c1) as [[c2 out2] k].
Qed.

(** A chat is chosen only to load it, by a free client, and only the chat that
    was chosen is loaded. *)
Fixpoint guarded hs c : Prop :=
  match hs with
  | [] => True
  | h :: hs =>
    match h with
    | SelectChat k => availible c = true ∧ head hs = Some (LoadMessages k)
    | LoadMessages k => MessagesList.m_currentChatId (m_messagesList c) = k
    | _ => True
    end ∧ guarded hs (happens h c).1
  end.

Lemma guarded_app hs hs' c : guarded hs c → guarded hs' (lived hs c) → guarded (hs ++ hs') c.
Proof.
  revert c. induction hs as [|h hs IH]; intros c; [done|]. simpl. intros [H1 H2] H3.
  split; [|by apply IH]. destruct h; try done. destruct H1 as [? Hh]. split; [done|]. by destruct hs.
Qed.

Lemma guarded_rest hs hs' c : guarded (hs ++ hs') c → guarded hs' (lived hs c).
Proof.
  revert c. induction hs as [|h hs IH]; intros c; [done|]. simpl. intros [_ H]. by apply IH in H.
Qed.

Lemma guarded_one h c : (∀ k, h ≠ SelectChat k) →
  (∀ k, h = LoadMessages k → MessagesList.m_currentChatId (m_messagesList c) = k) → guarded [h] c.
Proof. intros Hk Hl. simpl. split; [|done]. destruct h; try done; [by apply Hl|by edestruct Hk]. Qed.
End Called.

(** ** The invariant *)

Section Invariant.
Context `{W : WireFormat} `{Q : Qt} `{V : Views}.
Implicit Types (hs : list happening) (h : happening) (w : window) (p : page).

Definition kind_of p : kind :=
  match p with
  | LoginWindow _ _ => KLogin
  | RegisterWindow _ _ _ => KRegister
  | ChatsWindow => KChats
  | ContactsWindow => KContacts
  | AddContactWindow _ => KAddContact
  | MessagesWindow _ => KMessages
  | SettingsWindow _ _ => KSettings
  | ProfileWindow _ _ => KProfile
  end.

Definition kinds w : list kind := kind_of <$> stack w.

(** The one login page at the bottom, the others where they can lie. *)
Definition stack_ok (ks : list kind) : Prop := ∃ ks', ks = KLogin :: ks' ∧ stacked KLogin ks' = true.

(** No text of a form is empty. *)
Definition filled h : bool :=
  match h with
  | Signin email password => negb (is_empty email) && negb (is_empty password)
  | Signup name email password =>
      negb (is_empty name) && negb (is_empty email) && negb (is_empty password)
  | SendMessage _ text => negb (is_empty text)
  | AddContact email => negb (is_empty email)
  | UpdateSettings ip port => negb (is_empty ip) && negb (is_empty port)
  | _ => true
  end.

Record pages_ok hs w : Prop := {
  po_stack : stack_ok (kinds w);
  po_login : KChats ∈ kinds w → m_profile (backend w) ≠ None;
  po_chat : MessagesList.m_currentChatId (m_messagesList (backend w)) = last_chat hs;
  po_calls : Forall (λ h, filled h = true) hs;
  po_life : backend w = lived hs new_client;
  po_guarded : guarded hs new_client
}.

(** [b]: somebody is logged in. *)
Definition pages_and (b : bool) hs w : Prop :=
  pages_ok hs w ∧ (b = true → m_profile (backend w) ≠ None).

Lemma opened_ok : pages_ok [] opened.
Proof.
  assert (m_messagesList new_client = MessagesList.init) as Hm.
  { unfold new_client, startup, connect, sock_abort. by repeat case_match; simplify_eq/=. }
  constructor; [by exists []|set_solver| |by constructor|done|done]. simpl. by rewrite Hm.
Qed.

(** *** Stacks *)

Definition top_kind (ks : list kind) : kind := default KLogin (last ks).

Lemma stack_push ks k : stack_ok ks → may_lie (top_kind ks) k = true → stack_ok (ks ++ [k]).
Proof.
  intros (ks' & -> & Hs) Hk. exists (ks' ++ [k]). split; [done|].
  rewrite stacked_snoc, Hs. unfold top_kind in Hk. rewrite last_cons in Hk. simpl in Hk.
  by destruct (last ks').
Qed.

Lemma stack_pop ks : stack_ok ks → (1 < length ks)%nat → stack_ok (removelast ks).
Proof.
  intros (ks' & -> & Hs) Hlen. destruct ks' as [|k ks' _] using rev_ind; [simpl in Hlen; lia|].
  exists ks'. rewrite app_comm_cons, removelast_last. split; [done|].
  rewrite stacked_snoc in Hs. by apply andb_prop in Hs as [? _].
Qed.

Lemma kinds_set_page i p w : kinds w !! i = Some (kind_of p) → kinds (set_page i p w) = kinds w.
Proof. intros H. unfold kinds, set_page. simpl. rewrite list_fmap_insert. by apply list_insert_id. Qed.

Lemma removelast_fmap {A B} (f : A → B) l : removelast (f <$> l) = f <$> removelast l.
Proof.
  induction l as [|x l _] using rev_ind; [done|]. rewrite fmap_app. simpl. by rewrite !removelast_last.
Qed.

(** *** Statements that keep it *)

Section Keeps.
Variable n : nat.
Variable b : bool.
Notation ok := (pages_and b).

Lemma ok_asked h hs w : ok hs w → calm h = true → filled h = true → is_operation h = true →
  (∀ k, h = LoadMessages k → last_chat hs = k) → ok (hs ++ [h]) (asked h w).
Proof.
  intros [Hok Hb] Hq Hf Hop Hk. destruct (operation_contents h (backend w) Hq Hop) as (Hp & Hm & _).
  split; [|by rewrite asked_backend, Hp]. destruct Hok as [H1 H2 H3 H4 H5 H6].
  constructor; unfold kinds in *; rewrite ?asked_stack, ?asked_backend, ?Hp, ?Hm; try done.
  - rewrite last_chat_snoc, H3. destruct h; try done. by apply Hk.
  - apply Forall_app; auto.
  - by rewrite lived_app, H5.
  - apply guarded_app; [done|]. rewrite <- H5, <- H3 in *. by apply guarded_one; [destruct h|].
Qed.

Lemma sure_asked h : calm h = true → filled h = true → is_operation h = true →
  (∀ k, h ≠ LoadMessages k) → sure ok (call (S n) h) ok.
Proof. intros Hq Hf Hop Hk. apply sure_call; [done|]. intros hs w Hok. apply ok_asked; try done. naive_solver. Qed.

(** Choosing a chat and loading it go together. *)
Lemma sure_reload : sure ok (reload_messages (call (S n))) ok.
Proof.
  intros hs w Hok. unfold reload_messages, when. destruct (free w) eqn:Hfree; [|by apply (sure_skip ok)].
  set (k := quint64_arg (current_chat w)). unfold andthen. rewrite !call_calm by done.
  eexists _, _. split; [done|]. destruct Hok as [[H1 H2 H3 H4 H5 H6] Hb].
  set (w2 := asked (LoadMessages k) (asked (SelectChat k) w)).
  destruct (select_chat k (backend w)) as (Hp & Hc & _).
  destruct (operation_contents (LoadMessages k) (backend (asked (SelectChat k) w)) eq_refl eq_refl)
    as (Hp' & Hm' & _).
  rewrite <- asked_backend in Hp', Hm'. fold w2 in Hp', Hm'. rewrite asked_backend in Hp', Hm'.
  assert (kinds w2 = kinds w) as Hs by (unfold kinds, w2; by rewrite !asked_stack).
  rewrite Hp in Hp'. split; [constructor|]; rewrite ?Hs, ?Hp', ?Hm', ?Hc; try done.
  - simpl. unfold last_chat. by rewrite foldl_app.
  - apply Forall_app. split; [done|]. by repeat constructor.
  - unfold w2. by rewrite !asked_backend, lived_app, <- H5.
  - apply guarded_app; [done|]. rewrite <- H5. by repeat split.
Qed.

Lemma sure_popup o : sure ok (modify (set_popup o)) ok.
Proof. apply sure_modify. intros hs w [[H1 H2 H3 H4 H5 H6] Hb]. by split. Qed.

Lemma sure_showMessage text : sure ok (showMessage text) ok.
Proof. apply sure_popup. Qed.

(** The [i]-th page is of a kind. *)
Definition at_kind (i : nat) (k : kind) (w : window) : Prop := kinds w !! i = Some k.

Lemma ok_set_page i p hs w : ok hs w → at_kind i (kind_of p) w → ok hs (set_page i p w).
Proof.
  intros [[H1 H2 H3 H4 H5 H6] Hb] Hi. pose proof (kinds_set_page i p w Hi) as Hk.
  split; [constructor|]; by rewrite ?Hk.
Qed.

Lemma sure_at text i k :
  sure (λ hs w, ok hs w ∧ at_kind i k w) (showMessage text) (λ hs w, ok hs w ∧ at_kind i k w).
Proof. apply sure_modify. intros hs w [[[H1 H2 H3 H4 H5 H6] Hb] Hi]. by split. Qed.

Lemma sure_set_page i p : sure (λ hs w, ok hs w ∧ at_kind i (kind_of p) w) (modify (set_page i p)) ok.
Proof. apply sure_modify. intros hs w []. by apply ok_set_page. Qed.

Lemma sure_when_free a : sure ok a ok → sure ok (when free a) ok.
Proof. intros Ha. apply sure_when; [|auto]. eapply sure_weaken; [exact Ha|by intros ?? []|auto]. Qed.

Lemma sure_push p :
  sure (λ hs w, ok hs w ∧ may_lie (top_kind (kinds w)) (kind_of p) = true ∧
                (kind_of p = KChats → m_profile (backend w) ≠ None))
    (push (call (S n)) p) ok.
Proof.
  apply (sure_andthen ok).
  - apply sure_modify. intros hs w ([[H1 H2 H3 H4 H5 H6] Hb] & Hk & Hp).
    assert (kinds (set_stack (stack w ++ [p]) w) = kinds w ++ [kind_of p]) as Hs.
    { unfold kinds. simpl. by rewrite fmap_app. }
    split; [constructor|done]; rewrite ?Hs; [by apply stack_push| |done..].
    rewrite elem_of_app, list_elem_of_singleton. intros [H|H]; [by apply H2|by apply Hp].
  - destruct p; cbn [onCompleted]; try (by apply sure_skip); try (by apply sure_when_free, sure_asked).
    apply sure_reload.
Qed.
End Keeps.
End Invariant.
