(* ===== verification/PageSteps.v ===== *)
(** * Every event keeps the invariant of the pages

    And is handled to its end: calls nest no deeper than [DEPTH]. *)
From Stdlib Require Import String.
From S2P Require Import Prelude Wire Message Requests Responses Envelope Framing Qt ClientLists NetworkSession.
From S2P Require Import Client ClientTheorems Pages PageFacts PageInvariant.
#[local] Open Scope page_scope.

Section Steps.
Context `{W : WireFormat} `{Q : Qt} `{V : Views}.
Implicit Types (hs : list happening) (h : happening) (w : window) (p : page) (r : reaction).

(** ** Reactions *)

Section Reactions.
Variable n : nat.
Variable b : bool.
Notation ok := (pages_and b).
Notation call := (call (S n)).

Lemma sure_explain : sure ok explain ok.
Proof. apply sure_popup. Qed.

Lemma sure_main r : sure ok (main_reacts r) ok.
Proof.
  destruct r; cbn [main_reacts]; try (by apply sure_skip); try apply sure_explain.
  apply sure_modify. intros hs w [[H1 H2 H3 H4 H5 H6] Hb]. split; [constructor|]; try done.
  - by exists [].
  - unfold kinds. simpl. set_solver.
Qed.

Lemma sure_createChat isCreated : sure ok (createChatReaction call isCreated) ok.
Proof.
  destruct isCreated; [|apply sure_showMessage]. apply (sure_andthen ok); [apply sure_showMessage|].
  by apply sure_asked.
Qed.

(** The [i]-th page is [p]. *)
Definition page_at (i : nat) p hs w : Prop := ok hs w ∧ stack w !! i = Some p.

Lemma page_at_kind i p hs w : page_at i p hs w → ok hs w ∧ at_kind i (kind_of p) w.
Proof. intros [Hok Hi]. split; [done|]. unfold at_kind, kinds. by rewrite list_lookup_fmap, Hi. Qed.

Lemma sure_drop i p a : sure ok a ok → sure (page_at i p) a ok.
Proof. intros H. apply (sure_weaken ok _ ok); [exact H|by intros ?? []|done]. Qed.

Lemma sure_page_notice i p text :
  sure (page_at i p) (showMessage text) (λ hs w, ok hs w ∧ at_kind i (kind_of p) w).
Proof. eapply sure_weaken; [apply (sure_at b text i (kind_of p))|apply page_at_kind|done]. Qed.

Lemma sure_login i email passwd isLogged : (isLogged = true → b = true) →
  sure (page_at i (LoginWindow email passwd)) (loginReaction call isLogged) ok.
Proof.
  intros Hb. apply sure_drop. destruct isLogged; [|apply sure_showMessage].
  apply (sure_look _ _ (λ w, (showMessage _ ;; push call ChatsWindow))). intros w0.
  apply (sure_andthen ok).
  - apply (sure_weaken ok _ ok); [apply sure_showMessage|by intros ?? []|done].
  - eapply sure_weaken; [apply sure_push| |done]. intros hs w Hok.
    split_and!; [done|done|]. intros _. by apply Hok, Hb.
Qed.

Lemma sure_page i p r : (r = doLoginReaction true → b = true) →
  sure (page_at i p) (page_reacts call i p r) ok.
Proof.
  intros Hb. assert (sure (page_at i p) skip ok) as Hskip by (apply sure_skip; by intros ?? []).
  destruct p, r; cbn [page_reacts]; try exact Hskip.
  - apply sure_login. naive_solver.
  - destruct isRegistered; cbn [registerReaction].
    + apply (sure_andthen (λ hs w, ok hs w ∧ at_kind i KRegister w)); [apply sure_page_notice|].
      by apply (sure_set_page b i (RegisterWindow _ _ _)).
    + by apply sure_drop, sure_showMessage.
  - intros hs w [Hok _]. eapply sure_each; [|done]. intros x _. apply sure_createChat.
  - destruct isAdded; cbn [addContactReaction]; [|by apply sure_drop, sure_showMessage].
    apply (sure_andthen (λ hs w, ok hs w ∧ at_kind i KAddContact w)); [apply sure_page_notice|].
    apply (sure_andthen ok); [by apply (sure_set_page b i (AddContactWindow _))|].
    by apply sure_when_free, sure_asked.
  - destruct status; [|exact Hskip]. apply sure_drop, sure_reload.
  - unfold updateSettingsReaction. case_match; [exact Hskip|]. apply sure_drop, sure_showMessage.
  - apply (sure_look _ _ (λ w, modify _)). intros w0. eapply sure_weaken; [apply (sure_set_page b i (SettingsWindow _ _))| |done].
    intros hs w [Hat _]. by apply page_at_kind in Hat.
  - apply (sure_look _ _ (λ w, modify _)). intros w0. eapply sure_weaken; [apply (sure_set_page b i (SettingsWindow _ _))| |done].
    intros hs w [Hat _]. by apply page_at_kind in Hat.
Qed.

Lemma sure_reacts r : (r = doLoginReaction true → b = true) → sure ok (reacts call r) ok.
Proof.
  intros Hb. apply (sure_look _ _ (λ w, (main_reacts r ;; each (listens call r) (seq 0 (length (stack w)))))).
  intros w0. eapply sure_andthen; [eapply sure_weaken; [apply sure_main|by intros ?? []|done]|].
  apply sure_each. intros i _ hs w Hok. unfold listens. destruct (stack w !! i) as [p|] eqn:Hi.
  - by apply (sure_page i p r Hb).
  - by apply (sure_skip ok).
Qed.
End Reactions.

(** ** Calls *)

(** Any call but that of [reload_messages]. *)
Lemma sure_call_any n b h : filled h = true → (∀ k, h ≠ SelectChat k) → (∀ k, h ≠ LoadMessages k) →
  sure (pages_and b) (call (S (S n)) h) (pages_and b).
Proof.
  intros Hf Hs Hl hs w [Hok Hb]. cbn [call]. destruct (happens_carried h (backend w) Hs) as (H1 & H2 & H3).
  destruct (happens h (backend w)) as [c out] eqn:Hh. simpl in *.
  set (b' := match m_profile c with Some _ => true | None => false end).
  assert (m_profile c ≠ None ↔ b' = true) as Hb' by (unfold b'; by destruct (m_profile c)).
  assert (pages_and b' (hs ++ [h]) (set_backend c w)) as Hok'.
  { destruct Hok as [G1 G2 G3 G4 G5 G6]. split; [constructor|by apply Hb']; simpl; try done.
    - intros Hin. by apply H1, G2.
    - rewrite H2, G3, last_chat_snoc. destruct h; try done. by edestruct Hl.
    - apply Forall_app. auto.
    - rewrite lived_app, <- G5. unfold lived. simpl. by rewrite Hh.
    - apply guarded_app; [done|]. apply guarded_one; [done|]. intros k ->. by edestruct Hl. }
  edestruct (sure_each (pages_and b') (reacts (Pages.call (S n))) (reactions out)) as (w' & hs' & -> & [Hw Hw']);
    [|exact Hok'|].
  { intros r Hr. apply sure_reacts. intros ->. by apply Hb', H3. }
  exists w', (h :: hs'). split; [done|]. replace (hs ++ h :: hs') with ((hs ++ [h]) ++ hs')
    by (by rewrite <- app_assoc). split; [done|]. intros Hbt. by apply Hw', Hb', H1, Hb.
Qed.

(** ** Events *)

Notation ok := (pages_and false).

Definition on_top p hs w : Prop := ok hs w ∧ top w = Some p.

Lemma sure_on_top p a : sure ok a ok → sure (on_top p) a ok.
Proof. intros H. eapply sure_weaken; [exact H|by intros ?? []|done]. Qed.

Lemma top_kind_top p w : top w = Some p → top_kind (kinds w) = kind_of p.
Proof. intros H. unfold top_kind, kinds. rewrite fmap_last. unfold top in H. by rewrite H. Qed.

Lemma sure_push_from p q : may_lie (kind_of p) (kind_of q) = true → kind_of q ≠ KChats →
  sure (on_top p) (push invoke q) ok.
Proof.
  intros Hl Hq. eapply sure_weaken; [apply sure_push| |done]. intros hs w [Hok Ht].
  split_and!; [done|by rewrite (top_kind_top p)|done].
Qed.

Lemma sure_free_push p q : may_lie (kind_of p) (kind_of q) = true → kind_of q ≠ KChats →
  sure (on_top p) (when free (push invoke q)) ok.
Proof.
  intros. apply sure_when; [|by intros ?? []]. eapply sure_weaken; [by apply (sure_push_from p)| |done].
  by intros ?? [].
Qed.

Lemma sure_pop p : sure (on_top p) pop ok.
Proof.
  apply sure_on_top, sure_modify. intros hs w Hok. destruct (Nat.ltb_spec 1 (length (stack w))); [|done].
  destruct Hok as [[H1 H2 H3 H4 H5 H6] Hb]. unfold kinds in *. split; [constructor|]; try done; unfold kinds; simpl.
  - rewrite <- removelast_fmap. apply stack_pop; [done|]. by rewrite length_fmap.
  - rewrite <- removelast_fmap. intros Hin. apply H2. destruct (kind_of <$> stack w) as [|k ks _] using rev_ind;
      [done|]. rewrite removelast_last in Hin. set_solver.
Qed.

Lemma sure_form p (t : bool) text a : (t = false → sure ok a ok) →
  sure (on_top p) (if t then showMessage text else a) ok.
Proof. intros Ha. apply sure_on_top. destruct t; [apply sure_showMessage|auto]. Qed.

Lemma at_kind_top p w : top w = Some p → at_kind (length (stack w) - 1) (kind_of p) w.
Proof.
  intros H. unfold at_kind, kinds. rewrite list_lookup_fmap.
  replace (length (stack w) - 1)%nat with (pred (length (stack w))) by lia.
  rewrite <- last_lookup. unfold top in H. by rewrite H.
Qed.

(** A guarded call of a filled form. *)
Lemma sure_free_call h : calm h = true → filled h = true → is_operation h = true →
  (∀ k, h ≠ LoadMessages k) → sure ok (when free (invoke h)) ok.
Proof. intros. by apply sure_when_free, sure_asked. Qed.

Lemma sure_if_empty (t : bool) text a : (t = false → sure ok a ok) →
  sure ok (if t then showMessage text else a) ok.
Proof. intros Ha. destruct t; [apply sure_showMessage|auto]. Qed.

Lemma sure_login_press email passwd b a :
  login_press email passwd b = Some a → sure (on_top (LoginWindow email passwd)) a ok.
Proof.
  destruct b; try done; intros [= <-]; [|by apply sure_free_push].
  apply sure_on_top, sure_when_free, sure_if_empty. intros He. apply sure_if_empty. intros Hp.
  apply sure_asked; try done. simpl. by rewrite He, Hp.
Qed.

Lemma sure_register_press name email password b a :
  register_press name email password b = Some a → sure (on_top (RegisterWindow name email password)) a ok.
Proof.
  destruct b; try done. intros [= <-]. apply sure_on_top, sure_when_free, sure_if_empty. intros Hn.
  apply sure_if_empty. intros He. apply sure_if_empty. intros Hp.
  apply sure_asked; try done. simpl. by rewrite Hn, He, Hp.
Qed.

Lemma sure_chats_press b w0 a :
  chats_press b w0 = Some a → sure (on_top ChatsWindow) a ok.
Proof.
  destruct b; try done; cbn [chats_press]; [| | |case_match; [|done]]; intros [= <-].
  - by apply sure_push_from.
  - by apply sure_on_top, sure_free_call.
  - by apply sure_push_from.
  - apply (sure_andthen (on_top ChatsWindow)); [|by apply sure_push_from].
    apply sure_modify. intros hs w [[[H1 H2 H3 H4 H5 H6] Hb] Ht]. by split.
Qed.

Lemma sure_contacts_press b w0 a :
  contacts_press b w0 = Some a → sure (on_top ContactsWindow) a ok.
Proof.
  destruct b; try done; cbn [contacts_press]; [case_match; [|done]| |]; intros [= <-].
  - by apply sure_on_top, sure_free_call.
  - by apply sure_push_from.
  - by apply sure_on_top, sure_free_call.
Qed.

Lemma sure_add_contact_press email b a :
  add_contact_press email b = Some a → sure (on_top (AddContactWindow email)) a ok.
Proof.
  destruct b; try done. intros [= <-]. apply sure_on_top, sure_when_free, sure_if_empty. intros He.
  apply sure_asked; try done. simpl. by rewrite He.
Qed.

Lemma sure_messages_press mesg b w0 a :
  messages_press mesg b w0 = Some a →
  sure (λ hs w, on_top (MessagesWindow mesg) hs w ∧ w = w0) a ok.
Proof.
  destruct b; try done; intros [= <-].
  - assert (sure (λ hs w, on_top (MessagesWindow mesg) hs w ∧ w = w0) skip ok) as Hskip
      by (apply sure_skip; by intros ?? [[] _]).
    destruct (is_empty mesg) eqn:He.
    { eapply sure_weaken; [apply sure_showMessage|by intros ?? [[] _]|done]. }
    apply sure_when; [|by intros ?? [[] _]].
    apply (sure_andthen (λ hs w, ok hs w ∧ at_kind (length (stack w0) - 1) KMessages w));
      [|apply (sure_set_page false _ (MessagesWindow _))].
    apply sure_call; [done|]. intros hs w [[[Hok Ht] ->] _]. split.
    + apply ok_asked; try done. simpl. by rewrite He.
    + apply at_kind_top in Ht. unfold at_kind, kinds in *. by rewrite asked_stack.
  - eapply sure_weaken; [apply sure_reload|by intros ?? [[] _]|done].
Qed.

Lemma sure_settings_press ip port b a :
  settings_press ip port b = Some a → sure (on_top (SettingsWindow ip port)) a ok.
Proof.
  destruct b; try done. intros [= <-]. apply sure_on_top, sure_if_empty. intros Hi. apply sure_if_empty.
  intros Hp. apply sure_call_any; try done. simpl. by rewrite Hi, Hp.
Qed.

Lemma sure_settings_or_back p b w0 a :
  settings_or_back p b w0 = Some a → sure (on_top p) a ok.
Proof.
  destruct p, b; try done; intros [= <-]; try apply sure_pop; by apply sure_push_from.
Qed.

Lemma sure_press p b w0 a : press p b w0 = Some a → sure (λ hs w, on_top p hs w ∧ w = w0) a ok.
Proof.
  unfold press. intros Ha.
  assert (sure (on_top p) a ok → sure (λ hs w, on_top p hs w ∧ w = w0) a ok) as Hdrop.
  { intros H. eapply sure_weaken; [exact H|by intros ?? []|done]. }
  destruct (settings_or_back p b w0) eqn:Hs.
  { injection Ha as <-. by eapply Hdrop, sure_settings_or_back. }
  destruct p; try done; eauto using sure_login_press, sure_register_press, sure_chats_press,
    sure_contacts_press, sure_add_contact_press, sure_messages_press, sure_settings_press.
Qed.

Lemma typed_kind n text p p' : typed n text p = Some p' → kind_of p' = kind_of p.
Proof. intros H. destruct p; simpl in H; try done; destruct n as [|[|[|n]]]; by simplify_eq/=. Qed.

Lemma event_ok ev hs w a : page_act ev w = Some a → pages_ok hs w →
  ∃ w' hs', a w = Some (w', hs') ∧ pages_ok (hs ++ hs') w'.
Proof.
  intros Ha Hok. assert (ok hs w) as Hok' by done.
  assert (∀ P, sure P a ok → P hs w → ∃ w' hs', a w = Some (w', hs') ∧ pages_ok (hs ++ hs') w') as Hend.
  { intros P H HP. destruct (H hs w HP) as (w' & hs' & ? & ? & _). eauto. }
  destruct ev as [n text|b| | |h]; simpl in Ha.
  - destruct (popup w); [done|]. destruct (top w) as [p|] eqn:Ht; [|done].
    destruct (typed n text p) as [p'|] eqn:Hp; [|done]. injection Ha as <-.
    eapply Hend; [apply (sure_set_page false)|]. split; [done|].
    rewrite (typed_kind _ _ _ _ Hp). by apply at_kind_top.
  - destruct (popup w); [done|]. destruct (top w) as [p|] eqn:Ht; [|done].
    eapply Hend; [by eapply sure_press|done].
  - destruct (popup w); [done|]. injection Ha as <-.
    destruct (top w) as [p|] eqn:Ht; [by eapply Hend; [apply (sure_pop p)|]|].
    unfold top in Ht. apply last_None in Ht. exists w, []. rewrite app_nil_r. split; [|done].
    unfold pop, modify. by rewrite Ht.
  - destruct (popup w); [|done]. injection Ha as <-. eapply Hend; [apply sure_popup|done].
  - destruct (from_socket h) eqn:Hs; [|by destruct (popup w)].
    assert (a = invoke h) as -> by (by destruct (popup w); injection Ha).
    eapply Hend; [apply sure_call_any|done]; destruct h; done.
Qed.

Lemma run_ok w hs : page_run w hs → pages_ok hs w.
Proof.
  induction 1 as [|w hs ev w' hs' _ IH Hst]; [apply opened_ok|].
  unfold page_step in Hst. destruct (page_act ev w) as [a|] eqn:Ha; [|done].
  destruct (event_ok ev hs w a Ha IH) as (w1 & hs1 & H1 & H2). by simplify_eq.
Qed.
End Steps.
