(* ===== verification/PageTheorems.v ===== *)
(** * What the pages do

    The properties of the window as the user has it: pages over the client. *)
From Stdlib Require Import String.
From S2P Require Import Prelude Wire Message Requests Responses Envelope Framing WireInstance.
From S2P Require Import Qt ClientLists NetworkSession Client ClientListTheorems NetworkTheorems ClientTheorems.
From S2P Require Import Pages PageFacts PageInvariant PageSteps.
#[local] Open Scope page_scope.

Section Theorems.
Context `{W : WireFormat} `{Q : Qt} `{V : Views}.
Implicit Types (hs : list happening) (h : happening) (w : window) (p : page).

(** The pages that show what belongs to a user. *)
Definition needs_login p : bool :=
  match kind_of p with
  | KChats | KContacts | KAddContact | KMessages | KProfile => true
  | _ => false
  end.

(** Below each of them are the chats. *)
Lemma chats_below ks below k : stacked below ks = true → k ∈ ks →
  match k with KContacts | KAddContact | KMessages | KProfile => True | _ => False end →
  below = KChats ∨ below = KContacts ∨ KChats ∈ ks.
Proof.
  revert below. induction ks as [|k' ks IH]; intros below; simpl; [set_solver|].
  intros [Hm Hs]%andb_prop Hin Hk. apply elem_of_cons in Hin as [<-|Hin].
  - destruct k, below; try done; auto.
  - destruct (IH k' Hs Hin Hk) as [-> | [-> | Hc]]; [right; right; by left| |right; right; by right].
    destruct below; try done; auto.
Qed.

Lemma data_pages_have_chats ks k : stack_ok ks → k ∈ ks →
  match k with KChats | KContacts | KAddContact | KMessages | KProfile => True | _ => False end →
  KChats ∈ ks.
Proof.
  intros (ks' & -> & Hs) Hin Hk. destruct (decide (k = KChats)) as [->|Hne]; [done|].
  apply elem_of_cons in Hin as [->|Hin]; [done|].
  destruct (chats_below ks' KLogin k Hs Hin) as [H|[H|H]]; [by destruct k|done|done|by right].
Qed.

(** C10: whatever the user and the network do, the login page is the bottom of the
    stack and there is no other one, every other page lies where a button, or
    the login, has put it, and pages with chats, contacts, messages or a
    profile are open only if somebody has logged in. *)
Theorem pages_need_login w hs :
  page_run w hs →
  stack_ok (kinds w) ∧
  ∀ p, p ∈ stack w → needs_login p = true → m_profile (backend w) ≠ None.
Proof.
  intros Hr. destruct (run_ok w hs Hr) as [H1 H2 _ _ _ _]. split; [done|]. intros p Hp Hn. apply H2.
  apply (data_pages_have_chats _ (kind_of p)); [done|by apply list_elem_of_fmap_2|].
  unfold needs_login in Hn. by destruct (kind_of p).
Qed.

(** C11: every event that can happen to the window is handled to its end: signals
    make pages call the backend, whose signals make pages act, and this stops. *)
Theorem cascades_end w hs ev a :
  page_run w hs → page_act ev w = Some a →
  ∃ w' hs', page_step ev w = Some (w', hs') ∧ page_run w' (hs ++ hs').
Proof.
  intros Hr Ha. destruct (event_ok ev hs w a Ha (run_ok w hs Hr)) as (w' & hs' & H & _).
  exists w', hs'. assert (page_step ev w = Some (w', hs')) as Hst by (unfold page_step; by rewrite Ha).
  split; [done|]. by eapply run_step.
Qed.

(** C12: the pages are a user of the client: what the backend came to is what their
    calls and the socket make of a new client; no form is sent with an empty
    field; a chat is chosen only while no operation is under way, and loaded at
    once, so that the list of messages is for the chat loaded last. *)
Theorem pages_use_the_client w hs :
  page_run w hs →
  backend w = (life hs new_client).1.1 ∧
  Forall (λ h, filled h = true) hs ∧
  guarded hs new_client ∧
  MessagesList.m_currentChatId (m_messagesList (backend w)) = last_chat hs.
Proof. intros Hr. destruct (run_ok w hs Hr) as [_ _ H3 H4 H5 H6]. by rewrite lived_life. Qed.

(** ** Opening a chat *)

Lemma chat_number k : 0 ≤ k < 2 ^ 31 → quint64_arg (qml_int (js_number k)) = k.
Proof.
  intros Hk. unfold js_number. rewrite (proj2 (Z.ltb_lt k (2 ^ 53))) by lia.
  unfold qml_int. rewrite to_signed_ok by lia. apply to_unsigned_ok. lia.
Qed.

(** C27: A press on a chat opens its page.  If no operation is under way the chat
    is loaded and the list of messages is the chat's; otherwise nothing is
    asked for, and the page shows the messages of the chat before. *)
Theorem chat_page_opens w n chat :
  popup w = None → top w = Some ChatsWindow →
  ChatsList.m_items (m_chatsList (backend w)) !! n = Some chat →
  0 ≤ ChatsList.id chat < 2 ^ 31 →
  ∃ w' hs, page_step (Presses (chat_row n)) w = Some (w', hs) ∧
    stack w' = stack w ++ [MessagesWindow (fromUtf8 [])] ∧
    quint64_arg (current_chat w') = ChatsList.id chat ∧
    if free w then
      hs = [SelectChat (ChatsList.id chat); LoadMessages (ChatsList.id chat)] ∧
      MessagesList.m_currentChatId (m_messagesList (backend w')) = ChatsList.id chat
    else hs = [] ∧ backend w' = backend w.
Proof.
  intros Hp Ht Hn Hid. unfold page_step. simpl. rewrite Hp, Ht. unfold press. simpl. rewrite Hn.
  unfold andthen at 1, modify at 1, push, andthen at 1, modify. simpl. unfold reload_messages, when.
  unfold free at 1. simpl. fold (free w). pose proof (chat_number _ Hid) as Hk.
  destruct (free w); [|eexists _, []; by split_and!]. simpl. unfold andthen, invoke, DEPTH.
  rewrite !call_calm by done. simpl. rewrite Hk. eexists _, _. split; [done|].
  rewrite !asked_stack, !asked_chat. simpl. split_and!; [done|done|done|]. rewrite asked_backend.
  match goal with |- context [happens (LoadMessages ?k) ?c] =>
    destruct (operation_contents (LoadMessages k) c eq_refl eq_refl) as (_ & -> & _) end.
  rewrite asked_backend. apply select_chat.
Qed.

(** ** What is accepted is loaded again *)

Lemma each_app {A} (f : A → act) l l' w : each f (l ++ l') w = (each f l ;; each f l') w.
Proof.
  revert w. induction l as [|x l IH]; intros w; simpl; unfold andthen in *.
  { simpl. by destruct (each f l' w) as [[w' hs]|]. }
  destruct (f x w) as [[w1 hs1]|]; [|done]. rewrite IH.
  destruct (each f l w1) as [[w2 hs2]|]; [|done].
  destruct (each f l' w2) as [[w3 hs3]|]; [|done]. by rewrite (assoc_L (++)).
Qed.

Lemma each_skips {A} (f : A → act) l w : (∀ x, x ∈ l → f x w = Some (w, [])) → each f l w = Some (w, []).
Proof.
  induction l as [|x l IH]; intros Hf; [done|]. simpl. unfold andthen. rewrite Hf by (by left).
  rewrite IH; [done|]. intros y Hy. apply Hf. by right.
Qed.

(** Only the page on top has a slot for [r]. *)
Lemma reacts_top call r below p w : main_reacts r = skip → stack w = below ++ [p] →
  (∀ i q, q ∈ below → page_reacts call i q r = skip) →
  reacts call r w = page_reacts call (length below) p r w.
Proof.
  intros Hm Hs Hq. unfold reacts. rewrite Hm, Hs, length_app, Nat.add_1_r, seq_S. unfold andthen at 1.
  cbn [skip]. rewrite each_app. unfold andthen. rewrite each_skips.
  - simpl. unfold andthen, listens. rewrite Hs, lookup_app_r, Nat.sub_diag by lia. simpl.
    destruct (page_reacts _ _ _ _ w) as [[w1 hs1]|]; [|done]. simpl. by rewrite app_nil_r.
  - intros i Hi%elem_of_seq. unfold listens. rewrite Hs, lookup_app_l by lia.
    destruct (below !! i) as [q|] eqn:Hb; [|done]. rewrite Hq; [done|]. by eapply list_elem_of_lookup_2.
Qed.

(** ** Changing the connection *)

(** The login page alone takes no notice of anything but a login. *)
Lemma login_alone call r w : stack w = [login_window] → main_reacts r = skip →
  (∀ b, r ≠ doLoginReaction b) → reacts call r w = Some (w, []).
Proof.
  intros Hs Hm Hr. unfold reacts. rewrite Hm, Hs. simpl. unfold andthen, listens, skip. rewrite Hs. simpl.
  by destruct r; try done; destruct (Hr isLogged).
Qed.

Lemma disconnected_reacts call w : reacts call doDisconnected w = Some (set_stack [login_window] w, []).
Proof.
  unfold reacts, andthen, main_reacts, modify at 1. rewrite each_skips; [done|].
  intros i _. unfold listens. by destruct i as [|i].
Qed.

(** The signals a change of the settings ends with. *)
Lemma settings_announced call rs w : stack w = [login_window] →
  Forall (λ r, r ∈ [doUpdateConnectionSettingsReaction (fromUtf8 []); serverIpChanged; serverPortChanged]) rs →
  each (reacts call) rs w = Some (w, []).
Proof.
  intros Hs Hrs. apply each_skips. intros r Hr. rewrite Forall_forall in Hrs. specialize (Hrs r Hr).
  apply login_alone; [done|..].
  - repeat (apply elem_of_cons in Hrs as [->|Hrs]; [done|]). by apply elem_of_nil in Hrs.
  - intros b ->. repeat (apply elem_of_cons in Hrs as [[=]|Hrs]). by apply elem_of_nil in Hrs.
Qed.

(** What the client does with settings it accepts. *)
Lemma settings_change ip port c : availible c = true → isConnected (m_session c) = true →
  address_is_null ip = false → port_acceptable port = true →
  ∃ rs, reactions (happens (UpdateSettings ip port) c).2 = doDisconnected :: rs ∧
    Forall (λ r, r ∈ [doUpdateConnectionSettingsReaction (fromUtf8 []); serverIpChanged; serverPortChanged]) rs ∧
    same_contents c (happens (UpdateSettings ip port) c).1 ∧
    isConnected (m_session (happens (UpdateSettings ip port) c).1) = false ∧
    availible (happens (UpdateSettings ip port) c).1 = true.
Proof.
  intros Ha Hc Hip Hport. simpl. unfold updateConnectionSettings, if_availible. rewrite Ha.
  unfold backend_update, NetworkSession.connect. rewrite Hip, Hport. simpl. unfold sock_abort.
  change (isConnected (m_session (set_availible false c))) with (isConnected (m_session c)). rewrite Hc. simpl.
  unfold setServerIp, setServerPort. simpl.
  destruct (QString_eq (m_serverIp c) ip); simpl; destruct (QString_eq (m_serverPort c) port); simpl;
    eexists; (split; [reflexivity|]); (split; [|by split_and!]);
    repeat constructor; set_solver.
Qed.

(** C28: a press that sets new valid settings, while the window has nothing under
    way, ends the connection, leaves the client free and the login page alone on
    the stack, and keeps the profile, the contacts, the chats and the messages
    of the user; while an operation is under way it changes nothing. *)
Theorem settings_keep_contents w ip port :
  popup w = None → top w = Some (SettingsWindow ip port) →
  isConnected (m_session (backend w)) = true → is_empty ip = false → is_empty port = false →
  address_is_null ip = false → port_acceptable port = true →
  if free w then
    ∃ w', page_step (Presses set_settings_btn) w = Some (w', [UpdateSettings ip port]) ∧
      stack w' = [login_window] ∧ isConnected (m_session (backend w')) = false ∧ free w' = true ∧
      same_contents (backend w) (backend w')
  else page_step (Presses set_settings_btn) w = Some (w, [UpdateSettings ip port]).
Proof.
  intros Hp Ht Hc Hip0 Hport0 Hip Hport. destruct (free w) eqn:Hf.
  - destruct (settings_change ip port (backend w) Hf Hc Hip Hport) as (rs & Hr & Hrs & Hsame & Hdis & Hav).
    destruct (happens (UpdateSettings ip port) (backend w)) as [c out] eqn:Hh. simpl in Hr, Hsame, Hdis, Hav.
    exists (set_stack [login_window] (set_backend c w)). split; [|done].
    unfold page_step. simpl. rewrite Hp, Ht. unfold press. simpl. rewrite Hip0, Hport0.
    unfold invoke, DEPTH. cbn [call]. rewrite Hh, Hr. cbn [each]. unfold andthen at 1.
    rewrite disconnected_reacts, settings_announced by done. done.
  - unfold page_step. simpl. rewrite Hp, Ht. unfold press. simpl. rewrite Hip0, Hport0.
    unfold invoke, DEPTH. cbn [call].
    assert (happens (UpdateSettings ip port) (backend w) = (backend w, [])) as ->.
    { cbn [happens]. unfold updateConnectionSettings, if_availible. unfold free in Hf. by rewrite Hf. }
    simpl. by destruct w.
Qed.

Context {L : WireFormatLaws W}.

(** An accepted response reaches the page on top. *)
Lemma accepted_comes_in j r resp (c : client) w below p :
  waits_for j c (backend w) → sendable (response_message resp) →
  (∀ c, responseProcessingCallback j resp c = (set_availible true c, [ToQml r])) →
  main_reacts r = skip → stack w = below ++ [p] →
  (∀ call i q, q ∈ below → page_reacts call i q r = skip) →
  ∃ c', waits_for j c c' ∧
    page_step (Gets (Arrival (packet (response_message resp)))) w =
      match page_reacts (call 1) (length below) p r (set_backend (set_availible true c') w) with
      | Some (w', hs) => Some (w', Arrival (packet (response_message resp)) :: hs)
      | None => None
      end.
Proof.
  intros Hw Hm Hcb Hr Hs Hq. destruct (response_comes_in resp j c (backend w) Hw Hm) as (c' & He & Hc').
  exists c'. split; [done|]. unfold page_step. simpl. unfold invoke, DEPTH. 
  replace (match popup w with Some _ => _ | None => _ end) with (Some (call 2 (Arrival (packet (response_message resp)))))
    by (by destruct (popup w)). cbn [call]. rewrite He, Hcb. simpl. unfold andthen at 1.
  rewrite (reacts_top _ _ below p) by eauto.
  destruct (page_reacts _ _ _ _ _) as [[w1 hs1]|]; [|done]. simpl. by rewrite app_nil_r.
Qed.

(** The calls the page of an accepted message makes. *)
Lemma accepted_message_calls resp (c : client) w below text :
  waits_for SendMessageJob c (backend w) → sendable (response_message resp) →
  accepted_status resp = true → stack w = below ++ [MessagesWindow text] →
  Forall (λ q, kind_of q ≠ KMessages) below →
  let k := quint64_arg (current_chat w) in
  ∃ c', waits_for SendMessageJob c c' ∧
    page_step (Gets (Arrival (packet (response_message resp)))) w =
      Some (asked (LoadMessages k) (asked (SelectChat k) (set_backend (set_availible true c') w)),
            [Arrival (packet (response_message resp)); SelectChat k; LoadMessages k]).
Proof.
  intros Hw Hm Hacc Hs Hb k.
  destruct (accepted_comes_in SendMessageJob (doSendMessageReaction true) resp c w below (MessagesWindow text) Hw Hm)
    as (c' & Hc' & ->); [|done|exact Hs| |].
  { intros c1. simpl. unfold send_message_callback. by rewrite Hacc. }
  { intros call i q Hq%(proj1 (Forall_forall _ _) Hb). by destruct q. }
  exists c'. split; [done|].
  cbn [page_reacts sendMessageReaction]. unfold reload_messages, when, andthen, free.
  cbn [backend set_backend availible set_availible m_availible current_chat]. by rewrite !call_calm by done.
Qed.

(** When a message was accepted its page loads the chat again, without a press
    of the user; the request goes out. *)
Theorem accepted_message_reloads resp (c : client) w below text :
  waits_for SendMessageJob c (backend w) → sendable (response_message resp) →
  accepted_status resp = true → stack w = below ++ [MessagesWindow text] →
  Forall (λ q, kind_of q ≠ KMessages) below →
  let k := quint64_arg (current_chat w) in
  sendable (request_message (MessageFactory.createLoadMessagesRequest k)) →
  ∃ w', page_step (Gets (Arrival (packet (response_message resp)))) w =
      Some (w', [Arrival (packet (response_message resp)); SelectChat k; LoadMessages k]) ∧
    stack w' = stack w ∧ availible (backend w') = false ∧
    m_callback (m_session (backend w')) = Some LoadMessagesJob.
Proof.
  intros Hw Hm Hacc Hs Hb k Hk.
  destruct (accepted_message_calls resp c w below text Hw Hm Hacc Hs Hb) as (c' & Hc' & ->).
  eexists. split; [done|]. rewrite !asked_stack, asked_backend. split; [done|].
  fold k. set (w1 := asked (SelectChat k) _).
  assert (availible (backend w1) = true ∧ ready (backend w1)) as [Hf Hr].
  { unfold w1. rewrite asked_backend. simpl. destruct (MessagesList.setCurrentChatId _ _).
    split; [done|]. by destruct Hc'. }
  destruct (operation_goes_out (MessageFactory.createLoadMessagesRequest k) LoadMessagesJob (backend w1) Hf Hr Hk)
    as (c2 & Hgo & (_ & H2 & H3)).
  change (happens _ (backend w1)) with (if_availible (send_request
    (MessageFactory.createLoadMessagesRequest k) LoadMessagesJob) (backend w1)).
  rewrite Hgo. simpl. by rewrite H3.
Qed.
End Theorems.

(** ** The pages at work *)

Section Witnesses.
#[local] Existing Instance utf8_qt.
#[local] Existing Instance utf8_qt_laws.
#[local] Instance all_rows : Views := {| delegates n := n |}.

Definition answer_packet (r : Response.t) : page_event := Gets (Arrival (packet (response_message r))).

Definition profile_answer : Response.t :=
  Response.Build (Response.kLoginResponse
    (LoginResponse.set_allocated_profile LoginResponse.SharedCtor
      (Some (Contact.Build 1 [Byte.x61] [Byte.x41])))).

Definition contacts_answer : Response.t :=
  Response.Build (Response.kContactsResponse (ContactsResponse.Build [Contact.Build 2 [Byte.x62] [Byte.x42]])).

Definition chats_answer : Response.t :=
  Response.Build (Response.kChatsResponse
    (ChatsResponse.Build [Chat.Build 1 [Byte.x62]; Chat.Build 2 [Byte.x63]])).

Definition messages_answer : Response.t :=
  Response.Build (Response.kMessagesResponse
    (MessagesResponse.Build [MessageToRecieve.Build 2 [Byte.x68]])).

(** Alice signs in and has her two chats. *)
Definition alice_arrives : list page_event :=
  [Gets SocketConnected; Dismisses; Types 0 (str [Byte.x41]); Types 1 (str [Byte.x70]);
   Presses signin_btn; answer_packet profile_answer; Dismisses;
   answer_packet contacts_answer; answer_packet chats_answer].

(** She opens the first chat, turns back before its messages are there, and
    opens the second one. *)
Definition alice_is_quick : list page_event :=
  [Presses (chat_row 0); Presses back_btn; Presses (chat_row 1); answer_packet messages_answer;
   Types 0 (str [Byte.x78])].

Definition paged (evs : list page_event) : window := default opened (fst <$> page_runs evs opened).
Definition called (evs : list page_event) : list happening := default [] (snd <$> page_runs evs opened).
Definition plays (evs : list page_event) : bool :=
  match page_runs evs opened with Some _ => true | None => false end.

Lemma page_runs_run evs w hs w' hs' :
  page_run w hs → page_runs evs w = Some (w', hs') → page_run w' (hs ++ hs').
Proof.
  revert w hs hs'. induction evs as [|ev evs IH]; intros w hs hs' Hr; simpl.
  { intros [= <- <-]. by rewrite app_nil_r. }
  destruct (page_step ev w) as [[w1 hs1]|] eqn:Hst; [|done].
  destruct (page_runs evs w1) as [[w2 hs2]|] eqn:Hrest; [|done]. intros [= <- <-].
  rewrite (assoc_L (++)). eapply IH; [by eapply run_step|done].
Defined.

Lemma paged_run evs : plays evs = true → page_run (paged evs) (called evs).
Proof.
  unfold plays, paged, called. destruct (page_runs evs opened) as [[w hs]|] eqn:Hr; [|done]. intros _.
  exact (page_runs_run evs opened [] w hs run_opened Hr).
Defined.

Definition at_home : window := paged alice_arrives.
Definition confused : window := paged (alice_arrives ++ alice_is_quick).

(** A page that is opened while the client is busy shows another chat: the page
    of chat 2 shows the message of chat 1, nothing is under way any more, and
    what the user writes under it is sent to chat 2. *)
Theorem wrong_chat_is_shown :
  page_run confused (called (alice_arrives ++ alice_is_quick)) ∧
  top confused = Some (MessagesWindow (str [Byte.x78])) ∧ popup confused = None ∧ free confused = true ∧
  current_chat confused = 2 ∧
  m_messagesList (backend confused) =
    MessagesList.Build (<[1 := [MessagesList.MkMessageItem 2 (str [Byte.x68])]]> ∅) 1
      (Some [MessagesList.MkMessageItem 2 (str [Byte.x68])]) ∧
  snd <$> page_step (Presses send_mesg_btn) confused = Some [SendMessage 2 (str [Byte.x78])].
Proof.
  split; [apply paged_run; by vm_compute|]. split_and!; by vm_compute.
Qed.

Lemma pages_need_login_witness :
  page_run confused (called (alice_arrives ++ alice_is_quick)) ∧ m_profile (backend confused) ≠ None.
Proof.
  assert (page_run confused (called (alice_arrives ++ alice_is_quick))) as Hr
    by (apply paged_run; by vm_compute).
  split; [exact Hr|]. apply (proj2 (pages_need_login _ _ Hr) (MessagesWindow (str [Byte.x78]))); [|done].
  assert (stack confused !! 2%nat = Some (MessagesWindow (str [Byte.x78]))) as H by (by vm_compute).
  exact (list_elem_of_lookup_2 _ _ _ H).
Defined.

Lemma cascades_end_witness :
  ∃ w' hs', page_step (Presses send_mesg_btn) confused = Some (w', hs').
Proof.
  assert (page_run confused (called (alice_arrives ++ alice_is_quick))) as Hr
    by (apply paged_run; by vm_compute).
  assert (match page_act (Presses send_mesg_btn) confused with Some _ => true | None => false end = true)
    as Hact by (by vm_compute).
  destruct (page_act (Presses send_mesg_btn) confused) as [a|] eqn:Ha; [|discriminate Hact].
  destruct (cascades_end confused _ (Presses send_mesg_btn) a Hr Ha) as (w' & hs' & H & _).
  exists w', hs'. exact H.
Defined.

Lemma pages_use_the_client_witness :
  last_chat (called (alice_arrives ++ alice_is_quick)) = 1 ∧
  MessagesList.m_currentChatId (m_messagesList (backend confused)) = 1.
Proof.
  assert (page_run confused (called (alice_arrives ++ alice_is_quick))) as Hr
    by (apply paged_run; by vm_compute).
  destruct (pages_use_the_client _ _ Hr) as (_ & _ & _ & H).
  assert (last_chat (called (alice_arrives ++ alice_is_quick)) = 1) as Hl by (by vm_compute).
  split; [exact Hl|]. by rewrite H.
Defined.

Lemma chat_page_opens_witness :
  ∃ w' hs, page_step (Presses (chat_row 1)) at_home = Some (w', hs) ∧ quint64_arg (current_chat w') = 2 ∧
    free at_home = true ∧ hs = [SelectChat 2; LoadMessages 2].
Proof.
  assert (free at_home = true) as Hf by (by vm_compute).
  assert (popup at_home = None) as Hp by (by vm_compute).
  assert (top at_home = Some ChatsWindow) as Ht by (by vm_compute).
  assert (ChatsList.m_items (m_chatsList (backend at_home)) !! 1%nat =
    Some (ChatsList.MkChatItem 2 (str [Byte.x63]))) as Hn by (by vm_compute).
  assert (0 ≤ 2 < 2 ^ 31) as Hid by lia.
  pose proof (chat_page_opens at_home 1 _ Hp Ht Hn Hid) as (w' & hs & H1 & _ & H2 & H3).
  rewrite Hf in H3. exists w', hs. split_and!; [exact H1|exact H2|exact Hf|exact (proj1 H3)].
Defined.

(** Alice has written to chat 2 and waits. *)
Definition has_sent : window := paged (alice_arrives ++ alice_is_quick ++ [Presses send_mesg_btn]).

Lemma accepted_message_reloads_witness :
  ∃ w', page_step (answer_packet status_ok) has_sent =
      Some (w', [Arrival (packet (response_message status_ok)); SelectChat 2; LoadMessages 2]) ∧
    availible (backend w') = false.
Proof.
  assert (quint64_arg (current_chat has_sent) = 2) as Hk by (by vm_compute).
  assert (stack has_sent = [LoginWindow (str [Byte.x41]) (str [Byte.x70]); ChatsWindow] ++
    [MessagesWindow (fromUtf8 [])]) as Hs by (by vm_compute).
  destruct (accepted_message_reloads status_ok (backend has_sent) has_sent
    [LoginWindow (str [Byte.x41]) (str [Byte.x70]); ChatsWindow] (fromUtf8 []))
    as (w' & H1 & _ & H2 & _).
  - by split; [split; [|split]|split]; vm_compute.
  - concrete_sendable.
  - by vm_compute.
  - exact Hs.
  - by repeat constructor.
  - rewrite Hk. concrete_sendable.
  - rewrite Hk in H1. exists w'. split; [exact H1|exact H2].
Defined.
(** Alice changes the settings; Bob signs in at her window, and before anything
    else has arrived it shows him her chats. *)
Definition bob_profile : Response.t :=
  Response.Build (Response.kLoginResponse
    (LoginResponse.set_allocated_profile LoginResponse.SharedCtor
      (Some (Contact.Build 2 [Byte.x62] [Byte.x42])))).

Definition at_settings : window := paged (alice_arrives ++ [Presses settings_btn]).

Definition after_settings : window :=
  default opened (fst <$> page_step (Presses set_settings_btn) at_settings).

Definition bob_takes_over : list page_event :=
  [Gets SocketConnected; Dismisses; Types 0 (str [Byte.x42]); Types 1 (str [Byte.x71]);
   Presses signin_btn; answer_packet bob_profile].

Definition taken_over (w : window) : window := default opened (fst <$> page_runs bob_takes_over w).

Lemma settings_keep_contents_witness :
  ∃ w', page_step (Presses set_settings_btn) at_settings =
      Some (w', [UpdateSettings (text_of "127.0.0.1") (text_of "8000")]) ∧
    ChatsList.m_items (m_chatsList (backend w')) = ChatsList.m_items (m_chatsList (backend at_settings)) ∧
    top (taken_over w') = Some ChatsWindow ∧ userId (backend (taken_over w')) = 2 ∧
    ChatsList.m_items (m_chatsList (backend (taken_over w'))) =
      [ChatsList.MkChatItem 1 (str [Byte.x62]); ChatsList.MkChatItem 2 (str [Byte.x63])].
Proof.
  assert (free at_settings = true) as Hfree by (by vm_compute).
  pose proof (settings_keep_contents at_settings (text_of "127.0.0.1") (text_of "8000")
    ltac:(by vm_compute) ltac:(by vm_compute) ltac:(by vm_compute) ltac:(by vm_compute)
    ltac:(by vm_compute) ltac:(by vm_compute) ltac:(by vm_compute)) as H.
  rewrite Hfree in H. destruct H as (w' & Hst & _ & _ & _ & (_ & _ & _ & Hchats)).
  exists w'. split; [exact Hst|]. split; [by rewrite Hchats|].
  assert (after_settings = w') as <- by (unfold after_settings; by rewrite Hst).
  split_and!; by vm_compute.
Defined.
End Witnesses.
