(* ===== verification/EndToEnd.v ===== *)
(** * From the window of the client to the storage of the server and back

    The two programs put together: what an operation sends is served by a
    session of the server, whose response frees the facade; and two clients
    with the database between them.  The network delivers each packet whole. *)
From stdpp Require Import gmap.
From Stdlib Require Import String.
From S2P Require Import Prelude Wire Parser Message Requests Responses Envelope Framing.
From S2P Require Import WireInstance Storage Session Jobs Server ServerFacts Database Postgres.
From S2P Require Import Transactions Effects Invariants Completeness PostgresSpec StorageTheorems ServerTheorems Qt ClientLists.
From S2P Require Import NetworkSession Client ClientListTheorems NetworkTheorems ClientTheorems.

Section EndToEnd.
Context `{W : WireFormat} {L : WireFormatLaws W} `{Mem : Memory} `{Q : Qt} {S : Type}
  `{DB : AbstractStorageConnection S}.

(** Session [i] of the server waits for a request. *)
Definition awaiting (sv : server S) (i : nat) (s : ClientSession) (h : list event) : Prop :=
  down sv = false ∧ links sv !! i = Some (Link s [ReadPrefix] h) ∧
  stopped_ s = false ∧ zlen (read_buffer_ s) = 9.

(** The server answers request [r] of session [i] with [resp], and touches no
    other session. *)
Definition answers_with (i : nat) (r : Request.t) (resp : Response.t) (sv sv' : server S)
    (s s' : ClientSession) (h : list event) : Prop :=
  run (serve i (request_message r)) sv = Some sv' ∧
  awaiting sv' i s' (h ++ [Received (msg_encode (request_message r));
                           Sent (packet (response_message resp))]) ∧
  (∀ k, k ≠ i → links sv' !! k = links sv !! k).

(** A job that writes one response. *)
Lemma server_answers i r j resp sv s h st db :
  enough_memory → sendable (request_message r) → sendable (response_message resp) →
  request_job r = Some j → awaiting sv i s h →
  run_job j (with_request (request_message r) s) (storage sv) =
    (let '(s1, out) := Session.write (wrap resp)
       (MkClientSession false st (msg_encode (request_message r))) in (s1, db, out)) →
  ∃ s' sv', answers_with i r resp sv sv' s s' h ∧ storage sv' = db ∧ state_ s' = st.
Proof.
  intros Hmem Hr Hresp Hj (Hd & Hl & Hs & Hb) Hrun.
  change (wrap resp) with (response_message resp) in Hrun.
  rewrite write_packet in Hrun by done.
  destruct (serve_request i (request_message r) r j sv s h _ _ _ Hmem Hr eq_refl Hj Hd Hl Hs Hb Hrun)
    as (s2 & sv' & H1 & H2 & H3 & H4 & H5 & H6 & H7 & H8); [done|].
  exists s2, sv'. split; [|done]. split; [done|]. split; [|done]. by split_and!.
Qed.

(** The job of a logged-in client. *)
Lemma logged_in_job st body s r (db db' : S) resp :
  state_ s = Some st → stopped_ s = false → body st db = (resp, db') →
  if_logged_in body (with_request (request_message r) s) db =
    (let '(s1, out) := Session.write (wrap resp)
       (MkClientSession false (Some st) (msg_encode (request_message r))) in (s1, db', out)).
Proof.
  intros Hst Hs Hb. unfold if_logged_in, state. simpl. rewrite Hst, Hb.
  unfold with_request, Session.set_buffer. by rewrite Hst, Hs.
Qed.

(** What the login job answers. *)
Definition login_reply (email : bytes) (result : exn + Z * bytes) : Response.t :=
  Response.set_allocated_login_response Response.SharedCtor (Some
    match result with
    | inr (id, name) =>
        LoginResponse.set_allocated_profile LoginResponse.SharedCtor
          (Some (Contact.set_email (Contact.set_name (Contact.set_user_id Contact.SharedCtor id)
                                      name) email))
    | inl _ => LoginResponse.SharedCtor
    end).

(** Signing in, end to end: the client sends its credentials, the server
    asks its storage about them, and the reaction of the window is the answer.
    If the storage knows the user both ends have his profile from then on;
    else neither changes its mind about who he is. *)
Theorem signin_end_to_end i email password c sv s h result db :
  let r := MessageFactory.createLoginRequest email password in
  let resp := login_reply (toStdString email) result in
  enough_memory → sendable (request_message r) → sendable (response_message resp) →
  availible c = true → ready c → awaiting sv i s h →
  login (toStdString email) (toStdString password) (storage sv) = (result, db) →
  ∃ c1 c2 s' sv',
    happens (Signin email password) c = (c1, [ToServer (packet (request_message r))]) ∧
    answers_with i r resp sv sv' s s' h ∧ storage sv' = db ∧
    happens (Arrival (packet (response_message resp))) c1 =
      (c2, [ToQml (doLoginReaction (if result then false else true))]) ∧
    availible c2 = true ∧ ready c2 ∧
    match result with
    | inr (id, name) =>
        state_ s' = Some (MkClientState id name (toStdString email)) ∧
        m_profile c2 = Some (MkProfile id (fromUtf8 name) (fromUtf8 (toStdString email)))
    | inl _ => state_ s' = state_ s ∧ m_profile c2 = m_profile c
    end.
Proof.
  intros r resp Hmem Hr Hresp Ha Hc Hsv Hlogin.
  destruct (operation_goes_out r LoginJob c Ha Hc Hr) as (c1 & Hout & Hw).
  set (st := match result with
             | inr (id, name) => Some (MkClientState id name (toStdString email))
             | inl _ => state_ s end).
  destruct (server_answers i r (LoginRequestJob (LoginRequest.Build (toStdString email)
      (toStdString password))) resp sv s h st db) as (s' & sv' & Hans & Hdb & Hst); try done.
  { cbn [run_job]. unfold run_login_job. cbn [LoginRequest.email LoginRequest.password].
    rewrite Hlogin. destruct Hsv as (_ & _ & Hs & _).
    destruct result as [e|[id name]]; cbv zeta; unfold with_request, Session.set_buffer, set_state;
      simpl stopped_; simpl state_; rewrite Hs; done. }
  destruct (response_comes_in resp LoginJob _ c1 Hw Hresp) as (c' & Hin & (Hr' & _ & Hc')).
  exists c1. rewrite Hin. destruct result as [e|[id name]].
  - exists (set_availible true c'), s', sv'. split_and!; try done. by rewrite Hc'.
  - exists (set_availible true (setProfile (MkProfile id (fromUtf8 name)
      (fromUtf8 (toStdString email))) c')), s', sv'. by split_and!.
Qed.

(** The operations that write: what happens in the window, the request, the
    call of the storage under the state [st] of the session, and the reaction
    to a status. *)
Inductive submits (st : option ClientState)
    : happening → Request.t → (S → bool * S) → (bool → reaction) → Prop :=
| submits_signup name email password :
    submits st (Signup name email password) (MessageFactory.createRegisterRequest name email password)
      (registration (toStdString name) (toStdString email) (toStdString password)) doRegisterReaction
| submits_message u chat text : st = Some u →
    submits st (SendMessage chat text) (MessageFactory.createSendMessageRequest chat text)
      (send_message (user_id u) (MessageToSend.Build chat (toStdString text))) doSendMessageReaction
| submits_contact u email : st = Some u →
    submits st (AddContact email) (MessageFactory.createAddContactRequest email)
      (add_contact (user_id u) (toStdString email)) doAddContactReaction
| submits_chat u friend : st = Some u →
    submits st (CreateChat friend) (MessageFactory.createCreateChatRequest friend)
      (create_chat (user_id u) (user_name u) friend) doChatCreatedReaction.

(** Their jobs, on the client and on the server. *)
Lemma submits_jobs st what r call react s (db db' : S) ok :
  submits st what r call react → state_ s = st → stopped_ s = false → call db = (ok, db') →
  ∃ cj j, (∀ c, happens what c = if_availible (send_request r cj) c) ∧
    (∀ c, responseProcessingCallback cj (status_response ok) c =
          (set_availible true c, [ToQml (react ok)])) ∧
    request_job r = Some j ∧
    run_job j (with_request (request_message r) s) db =
      (let '(s1, out) := Session.write (wrap (status_response ok))
         (MkClientSession false st (msg_encode (request_message r))) in (s1, db', out)).
Proof.
  intros Hsub Hst Hs Hcall.
  destruct Hsub as [name email password|u chat text Hu|u email Hu|u friend Hu].
  - exists RegisterJob, (RegisterRequestJob (RegisterRequest.Build (toStdString name) (toStdString email)
      (toStdString password))). split_and!; [done|by destruct ok|done|]. cbn [run_job].
    unfold run_register. cbn [RegisterRequest.name RegisterRequest.email RegisterRequest.password].
    rewrite Hcall.
    unfold with_request, Session.set_buffer. by rewrite Hst, Hs.
  - exists SendMessageJob, (SendMesgRequestJob (SendMessageRequest.Build
      (Some (MessageToSend.Build chat (toStdString text))))). split_and!; [done|by destruct ok|done|]. rewrite Hu.
    apply logged_in_job; [congruence|done|]. unfold SendMessageRequest.mesg. simpl. by rewrite Hcall.
  - exists AddContactJob, (AddContactRequestJob (AddContactRequest.Build (toStdString email))). split_and!; [done|by destruct ok|done|]. rewrite Hu.
    apply logged_in_job; [congruence|done|]. simpl. by rewrite Hcall.
  - exists CreateChatJob, (CreateChatRequestJob (CreateChatRequest.Build friend)). split_and!; [done|by destruct ok|done|]. rewrite Hu.
    apply logged_in_job; [congruence|done|]. simpl. by rewrite Hcall.
Qed.

(** A write goes out, and the answer of the storage comes back. *)
Lemma submit_round i st what r call react c sv s h ok db :
  let resp := status_response ok in
  submits st what r call react →
  enough_memory → sendable (request_message r) → sendable (response_message resp) →
  availible c = true → ready c → awaiting sv i s h → state_ s = st →
  call (storage sv) = (ok, db) →
  ∃ c1 c2 s' sv',
    happens what c = (c1, [ToServer (packet (request_message r))]) ∧
    answers_with i r resp sv sv' s s' h ∧ storage sv' = db ∧ state_ s' = st ∧
    happens (Arrival (packet (response_message resp))) c1 = (c2, [ToQml (react ok)]) ∧
    availible c2 = true ∧ ready c2.
Proof.
  intros resp Hsub Hmem Hr Hresp Ha Hc Hsv Hst Hcall. pose proof Hsv as (_ & _ & Hs & _).
  destruct (submits_jobs st what r call react s _ _ ok Hsub Hst Hs Hcall)
    as (cj & j & Hwhat & Hback & Hj & Hrun).
  destruct (operation_goes_out r cj c Ha Hc Hr) as (c1 & Hout & Hw).
  destruct (server_answers i r j resp sv s h st db) as (s' & sv' & Hans & Hdb & Hst'); try done.
  destruct (response_comes_in resp cj _ c1 Hw Hresp) as (c' & Hin & (Hr' & _ & Hc')).
  exists c1, (set_availible true c'), s', sv'. rewrite Hwhat, Hin, Hback. by split_and!.
Qed.

(** Signing up, sending a message, adding a contact and creating a chat,
    end to end: the window learns exactly what the storage answered to the
    call for the user of the session with what was typed. *)
Theorem writes_end_to_end i st what r call react c sv s h ok db :
  let resp := status_response ok in
  submits st what r call react →
  enough_memory → sendable (request_message r) → sendable (response_message resp) →
  availible c = true → ready c → awaiting sv i s h → state_ s = st →
  call (storage sv) = (ok, db) →
  ∃ c1 c2 s' sv',
    happens what c = (c1, [ToServer (packet (request_message r))]) ∧
    answers_with i r resp sv sv' s s' h ∧ storage sv' = db ∧ state_ s' = st ∧
    happens (Arrival (packet (response_message resp))) c1 = (c2, [ToQml (react ok)]) ∧
    availible c2 = true ∧ ready c2.
Proof. apply submit_round. Qed.

(** What the window shows for the answers of the server. *)
Definition shown_chats (chats : ChatsResponse.t) : list ChatsList.ChatItem :=
  (λ chat, ChatsList.MkChatItem (Chat.chat_id chat) (fromUtf8 (c_str (Chat.title chat))))
    <$> ChatsResponse.chats chats.

Definition shown_contacts (contacts : ContactsResponse.t) : list ContactsList.ContactItem :=
  (λ contact, ContactsList.MkContactItem (Contact.user_id contact)
     (fromUtf8 (c_str (Contact.name contact))) (fromUtf8 (c_str (Contact.email contact))))
    <$> ContactsResponse.contacts contacts.

Lemma setContacts_shows contacts c :
  ∃ l es, setContacts contacts c = (set_contactsList l c, ToContactsModel <$> es) ∧
          ContactsList.m_items l = shown_contacts contacts.
Proof.
  unfold setContacts, ContactsList.setItems. cbv zeta.
  destruct (ContactsList.reset _) as [l out]. by eexists _, _.
Qed.

Lemma setChats_shows chats c :
  ∃ l es, setChats chats c = (set_chatsList l c, ToChatsModel <$> es) ∧
          ChatsList.m_items l = shown_chats chats.
Proof.
  unfold setChats, ChatsList.setItems. cbv zeta.
  destruct (ChatsList.reset _) as [l out]. by eexists _, _.
Qed.

Definition contacts_reply (contacts : ContactsResponse.t) : Response.t :=
  Response.set_allocated_contacts_response Response.SharedCtor (Some contacts).
Definition chats_reply (chats : ChatsResponse.t) : Response.t :=
  Response.set_allocated_chats_response Response.SharedCtor (Some chats).

Definition messages_reply (messages : MessagesResponse.t) : Response.t :=
  Response.set_allocated_messages_response Response.SharedCtor (Some messages).

Definition shown_message (mesg : MessageToRecieve.t) : MessagesList.MessageItem :=
  MessagesList.MkMessageItem (MessageToRecieve.sender_id mesg)
    (fromUtf8 (c_str (MessageToRecieve.text mesg))).

(** The messages of a chat are asked for, and shown. *)
Lemma load_messages_round i chat c sv s h st messages db :
  let r := MessageFactory.createLoadMessagesRequest chat in
  let resp := messages_reply messages in
  enough_memory → sendable (request_message r) → sendable (response_message resp) →
  availible c = true → ready c → awaiting sv i s h → state_ s = Some st →
  get_messages chat (storage sv) = (messages, db) →
  ∃ c1 c2 s' sv' out,
    happens (LoadMessages chat) c = (c1, [ToServer (packet (request_message r))]) ∧
    answers_with i r resp sv sv' s s' h ∧ storage sv' = db ∧
    happens (Arrival (packet (response_message resp))) c1 = (c2, out) ∧
    answers out = [doLoadMessagesReaction] ∧ availible c2 = true ∧ ready c2 ∧
    MessagesList.m_items (m_messagesList c2) =
      Some (shown_message <$> MessagesResponse.messages messages).
Proof.
  intros r resp Hmem Hr Hresp Ha Hc Hsv Hst Hget.
  destruct (operation_goes_out r LoadMessagesJob c Ha Hc Hr) as (c1 & Hout & Hw).
  destruct (server_answers i r (MessagesRequestJob (MessagesRequest.Build chat)) resp sv s h
      (Some st) db) as (s' & sv' & Hans & Hdb & Hst'); try done.
  { cbn [run_job]. unfold run_messages. apply logged_in_job; [done|apply Hsv|]. simpl.
    by rewrite Hget. }
  destruct (response_comes_in resp LoadMessagesJob _ c1 Hw Hresp) as (c' & Hin & (Hr' & _ & Hc')).
  cbn [responseProcessingCallback] in Hin. unfold load_messages_callback in Hin.
  simpl (Response.has_messages_response _) in Hin. cbv iota zeta in Hin.
  change (Response.messages_response resp) with messages in Hin.
  unfold MessagesList.setItems in Hin.
  destruct (MessagesList.m_items (mesagesList c')); simpl in Hin;
    (eexists c1, _, s', sv', _; split; [exact Hout|]; split; [exact Hans|]; split; [done|];
     split; [exact Hin|]; by split_and!).
Qed.

(** The contacts arrive and are followed by the request for the chats. *)
Lemma contacts_loaded contacts c c0 :
  waits_for LoadDataJob c c0 → sendable (response_message (contacts_reply contacts)) →
  sendable (request_message MessageFactory.createAllMyChatsRequest) →
  ∃ c1 l es,
    happens (Arrival (packet (response_message (contacts_reply contacts)))) c0 =
      (c1, (ToContactsModel <$> es) ++
           [ToServer (packet (request_message MessageFactory.createAllMyChatsRequest))]) ∧
    waits_for LoadDataJob (set_contactsList l c) c1 ∧
    ContactsList.m_items l = shown_contacts contacts.
Proof.
  intros Hw Hresp Hr.
  destruct (response_comes_in _ LoadDataJob c c0 Hw Hresp) as (c' & -> & (Hr' & _ & Hc')).
  cbn [responseProcessingCallback]. unfold load_data_callback. simpl (Response.has_contacts_response _).
  cbv iota. change (Response.contacts_response (contacts_reply contacts)) with contacts.
  destruct (setContacts_shows contacts c') as (l & es & -> & Hl).
  destruct (request_goes_out MessageFactory.createAllMyChatsRequest LoadDataJob (set_contactsList l c'))
    as (c1 & -> & Hw'); [done|done|].
  exists c1, l, es. split; [done|]. split; [|done].
  destruct Hw' as (H1 & H2 & H3). split; [done|]. split; [done|].
  rewrite H3. by rewrite Hc'.
Qed.

(** The chats arrive and end the load. *)
Lemma chats_loaded chats c c0 :
  waits_for LoadDataJob c c0 → sendable (response_message (chats_reply chats)) →
  ∃ c1 l es,
    happens (Arrival (packet (response_message (chats_reply chats)))) c0 =
      (c1, (ToChatsModel <$> es) ++ [ToQml doLoadDataReaction]) ∧
    ready c1 ∧ c1 = set_session (m_session c1) (set_availible true (set_chatsList l c)) ∧
    ChatsList.m_items l = shown_chats chats.
Proof.
  intros Hw Hresp.
  destruct (response_comes_in _ LoadDataJob c c0 Hw Hresp) as (c' & -> & (Hr' & _ & Hc')).
  cbn [responseProcessingCallback]. unfold load_data_callback. simpl (Response.has_contacts_response _).
  simpl (Response.has_chats_response _). cbv iota.
  change (Response.chats_response (chats_reply chats)) with chats.
  destruct (setChats_shows chats c') as (l & es & -> & Hl).
  eexists _, l, es. split; [done|]. split; [done|]. split; [|done]. by rewrite Hc'.
Qed.

(** Loading the data, end to end: one operation of the window takes two
    requests; in the end the lists hold the contacts and the chats that the
    storage has for the user, with their texts up to the first NUL, and the
    window has got exactly one signal. *)
Theorem load_data_end_to_end i c sv s h st contacts chats db1 db2 :
  let r1 := MessageFactory.createAllMyContactsRequest in
  let r2 := MessageFactory.createAllMyChatsRequest in
  enough_memory → sendable (request_message r1) → sendable (request_message r2) →
  sendable (response_message (contacts_reply contacts)) →
  sendable (response_message (chats_reply chats)) →
  availible c = true → ready c → awaiting sv i s h → state_ s = Some st →
  get_contacts (user_id st) (storage sv) = (contacts, db1) →
  get_chats (user_id st) db1 = (chats, db2) →
  ∃ c1 c2 c3 s1 s2 sv1 sv2 h1 out1 out2,
    happens LoadData c = (c1, [ToServer (packet (request_message r1))]) ∧
    answers_with i r1 (contacts_reply contacts) sv sv1 s s1 h ∧
    happens (Arrival (packet (response_message (contacts_reply contacts)))) c1 = (c2, out1) ∧
    packets out1 = [packet (request_message r2)] ∧ answers out1 = [] ∧ availible c2 = false ∧
    answers_with i r2 (chats_reply chats) sv1 sv2 s1 s2 h1 ∧ storage sv2 = db2 ∧
    happens (Arrival (packet (response_message (chats_reply chats)))) c2 = (c3, out2) ∧
    packets out2 = [] ∧ answers out2 = [doLoadDataReaction] ∧ availible c3 = true ∧ ready c3 ∧
    ContactsList.m_items (m_contactsList c3) = shown_contacts contacts ∧
    ChatsList.m_items (m_chatsList c3) = shown_chats chats.
Proof.
  intros r1 r2 Hmem Hr1 Hr2 Hresp1 Hresp2 Ha Hc Hsv Hst Hcon Hch.
  destruct (operation_goes_out r1 LoadDataJob c Ha Hc Hr1) as (c1 & Hout1 & Hw1).
  destruct (server_answers i r1 ContactsRequestJob (contacts_reply contacts) sv s h (Some st) db1)
    as (s1 & sv1 & Hans1 & Hdb1 & Hst1); try done.
  { cbn [run_job]. unfold run_contacts. apply logged_in_job; [done|apply Hsv|]. by rewrite Hcon. }
  destruct (contacts_loaded contacts _ c1 Hw1 Hresp1 Hr2) as (c2 & l & es & Hin1 & Hw2 & Hl).
  destruct (server_answers i r2 ChatsRequestJob (chats_reply chats) sv1 s1 _ (Some st) db2
    Hmem Hr2 Hresp2 eq_refl (proj1 (proj2 Hans1))) as (s2 & sv2 & Hans2 & Hdb2 & Hst2).
  { cbn [run_job]. unfold run_chats. rewrite Hdb1. apply logged_in_job; [done|apply Hans1|].
    by rewrite Hch. }
  destruct (chats_loaded chats _ c2 Hw2 Hresp2) as (c3 & l' & es' & Hin2 & Hr3 & Hc3 & Hl').
  eexists c1, c2, c3, s1, s2, sv1, sv2, _, _, _.
  destruct (answers_emissions ToChatsModel es' doLoadDataReaction) as [Hans Hpack]; [done|done|].
  split_and!; try done.
  - by rewrite packets_app, packets_lists.
  - by rewrite answers_app, answers_lists.
  - by destruct Hw2 as (_ & _ & ->).
  - by rewrite Hc3.
  - by rewrite Hc3.
  - by rewrite Hc3.
Qed.
End EndToEnd.

(** ** Two clients and the database *)

Section Friends.
Context `{W : WireFormat} {L : WireFormatLaws W} `{Mem : Memory} `{Q : Qt} {QL : QtLaws Q}
  `{P : Pqxx} {PL : PqxxLaws P}.

(** The database after a message. *)
Definition with_message (d : db) (sender chat : Z) (text : bytes) : db :=
  Database.Db (Database.Client d) (Database.Chat d) (ClientToChat d)
     (Message d ++ [MessageRow (message_seq d) sender chat text])
     (ClientToContact d) (client_seq d) (chat_seq d) (message_seq d + 1).

Lemma member_sends d sender chat text :
  db_ok d → member d sender chat → plain_text text → message_seq d ≤ int8_max →
  send_message sender (MessageToSend.Build chat text) (healthy d) =
    (true, healthy (with_message d sender chat text)) ∧ db_ok (with_message d sender chat text).
Proof.
  intros Hok Hm Ht Hs.
  assert (message_sent sender (MessageToSend.Build chat text) d (with_message d sender chat text))
    as He.
  { exists text. rewrite sql_text_plain by done.
    split_and!; try done; [by eapply member_is_user|by eapply member_is_chat|by apply fresh_message]. }
  split; [|by eapply message_sent_ok].
  cbn [send_message postgres_storage]. unfold run_or. by erewrite run_send_message.
Qed.

(** What a client sees of a chat of the database. *)
Definition shown_rows (d : db) (chat : Z) : list MessagesList.MessageItem :=
  (λ row, shown_message (message_of_row row)) <$> message_rows d chat.

Lemma shown_rows_answer d chat :
  db_ok d →
  (shown_message <$> MessagesResponse.messages (get_messages chat (healthy d)).1) ≡ₚ
  shown_rows d chat.
Proof.
  intros Hok. destruct (get_messages_rows (healthy d) chat Hok) as [_ [Hp|[_ Hf]]]; [|done].
  rewrite Hp. unfold shown_rows. by rewrite <- list_fmap_compose.
Qed.

Lemma shown_rows_message d sender chat text :
  nul_free (toStdString text) →
  shown_rows (with_message d sender chat (toStdString text)) chat =
  shown_rows d chat ++ [MessagesList.MkMessageItem sender text].
Proof.
  intros Hn. unfold shown_rows, message_rows. simpl.
  rewrite filter_app, filter_cons_True by done. rewrite !fmap_app. simpl.
  unfold shown_message. simpl. by rewrite c_str_nul_free, fromUtf8_toStdString.
Qed.

(** A message reaches the other members of its chat: one client sends it,
    another one loads the chat from the same server, and sees the text he
    wrote, with his identifier, beside everything that was there before. *)
Theorem message_reaches_friend i j chat text a b sv si sj hi hj u v d messages :
  let r := MessageFactory.createSendMessageRequest chat text in
  let resp := status_response true in
  let r' := MessageFactory.createLoadMessagesRequest chat in
  let resp' := messages_reply messages in
  enough_memory → sendable (request_message r) → sendable (response_message resp) →
  sendable (request_message r') → sendable (response_message resp') →
  availible a = true → ready a → availible b = true → ready b →
  i ≠ j → awaiting sv i si hi → awaiting sv j sj hj → state_ si = Some u → state_ sj = Some v →
  storage sv = healthy d → db_ok d → message_seq d ≤ int8_max →
  member d (user_id u) chat → plain_text (toStdString text) →
  messages = (get_messages chat (healthy (with_message d (user_id u) chat (toStdString text)))).1 →
  ∃ a1 a2 b1 b2 si' sj' sv1 sv2 out items,
    happens (SendMessage chat text) a = (a1, [ToServer (packet (request_message r))]) ∧
    answers_with i r resp sv sv1 si si' hi ∧
    happens (Arrival (packet (response_message resp))) a1 =
      (a2, [ToQml (doSendMessageReaction true)]) ∧
    happens (LoadMessages chat) b = (b1, [ToServer (packet (request_message r'))]) ∧
    answers_with j r' resp' sv1 sv2 sj sj' hj ∧
    happens (Arrival (packet (response_message resp'))) b1 = (b2, out) ∧
    answers out = [doLoadMessagesReaction] ∧
    MessagesList.m_items (m_messagesList b2) = Some items ∧
    items ≡ₚ shown_rows d chat ++ [MessagesList.MkMessageItem (user_id u) text].
Proof.
  intros r resp r' resp' Hmem Hr Hresp Hr' Hresp' Ha Hra Hb Hrb Hij Hi Hj Hu Hv Hd Hok Hs Hm Ht Hmes.
  destruct (member_sends d (user_id u) chat (toStdString text)) as [Hsend Hok']; [done..|].
  rewrite <- Hd in Hsend.
  destruct (submit_round i (Some u) _ r _ _ a sv si hi true _ (submits_message (Some u) u chat text eq_refl)
    Hmem Hr Hresp Ha Hra Hi Hu Hsend)
    as (a1 & a2 & si' & sv1 & H1 & H2 & Hdb & _ & H3 & _).
  set (d' := with_message d (user_id u) chat (toStdString text)) in *.
  assert (awaiting sv1 j sj hj) as Hj1.
  { destruct H2 as (_ & (Hdown & _) & Hrest). destruct Hj as (_ & Hl & ? & ?).
    split_and!; try done. by rewrite Hrest. }
  assert (get_messages chat (storage sv1) = (messages, (get_messages chat (healthy d')).2)) as Hget.
  { rewrite Hdb, Hmes. apply surjective_pairing. }
  destruct (load_messages_round j chat b sv1 sj hj v messages _ Hmem Hr' Hresp' Hb Hrb Hj1 Hv Hget)
    as (b1 & b2 & sj' & sv2 & out & H4 & H5 & _ & H6 & H7 & _ & _ & H8).
  exists a1, a2, b1, b2, si', sj', sv1, sv2, out, (shown_message <$> MessagesResponse.messages messages).
  split_and!; try done.
  rewrite Hmes, shown_rows_answer by done. unfold d'.
  by rewrite shown_rows_message by (by apply plain_nul_free).
Qed.
End Friends.

(** ** The properties at concrete inputs

    A client of the server over the sample database. *)

Section Witnesses.
#[local] Existing Instance plain_pqxx.
#[local] Existing Instance plain_pqxx_laws.
#[local] Existing Instance unlimited.
#[local] Existing Instance utf8_qt.
#[local] Existing Instance utf8_qt_laws.

Lemma unlimited_enough : enough_memory.
Proof. by intros n _. Defined.

Lemma one_client_awaits : awaiting one_client 0 (session (client_link one_client)) [].
Proof. split_and!; by vm_compute. Defined.

Lemma connected_ready : ready connected_client.
Proof. by split; [|split]; vm_compute. Defined.

Lemma signin_end_to_end_witness :
  ∃ c1 c2 sv', happens (Signin (str [Byte.x42]) (str [Byte.x71])) connected_client =
      (c1, [ToServer (packet (request_message
        (MessageFactory.createLoginRequest (str [Byte.x42]) (str [Byte.x71]))))]) ∧
    run (serve 0 (request_message (MessageFactory.createLoginRequest (str [Byte.x42]) (str [Byte.x71]))))
      one_client = Some sv' ∧
    m_profile c2 = Some (MkProfile 2 (str [Byte.x62]) (str [Byte.x42])).
Proof.
  destruct (signin_end_to_end 0 (str [Byte.x42]) (str [Byte.x71]) connected_client one_client
    (session (client_link one_client)) [] (inr (2, [Byte.x62])) (healthy sample_db))
    as (c1 & c2 & s' & sv' & H1 & H2 & _ & _ & _ & _ & _ & H3).
  - exact unlimited_enough.
  - concrete_sendable.
  - concrete_sendable.
  - reflexivity.
  - exact connected_ready.
  - exact one_client_awaits.
  - by vm_compute.
  - exists c1, c2, sv'. split; [exact H1|]. split; [exact (proj1 H2)|exact H3].
Defined.

Lemma logged_in_awaits :
  awaiting logged_in_client 0 (session (client_link logged_in_client))
    (history (client_link logged_in_client)).
Proof. split_and!; by vm_compute. Defined.

(** Bob adds Carol. *)
Lemma writes_end_to_end_witness :
  ∃ c1 c2 sv', happens (AddContact (str [Byte.x43])) connected_client = c1 ∧
    happens (Arrival (packet (response_message (status_response true)))) c1.1 =
      (c2, [ToQml (doAddContactReaction true)]) ∧
    contact (tables (storage sv')) 2 3 ∧ contact (tables (storage sv')) 3 2.
Proof.
  destruct (writes_end_to_end 0 (Some (MkClientState 2 [Byte.x62] [Byte.x42])) (AddContact (str [Byte.x43]))
    (MessageFactory.createAddContactRequest (str [Byte.x43]))
    (add_contact 2 [Byte.x43]) doAddContactReaction connected_client logged_in_client
    (session (client_link logged_in_client)) (history (client_link logged_in_client)) true
    (add_contact 2 [Byte.x43] (storage logged_in_client)).2)
    as (c1 & c2 & s' & sv' & H1 & _ & H2 & _ & H3 & _).
  - exact (submits_contact _ (MkClientState 2 [Byte.x62] [Byte.x42]) (str [Byte.x43]) eq_refl).
  - exact unlimited_enough.
  - concrete_sendable.
  - concrete_sendable.
  - reflexivity.
  - exact connected_ready.
  - exact logged_in_awaits.
  - by vm_compute.
  - by vm_compute.
  - exists (c1, [ToServer (packet (request_message
      (MessageFactory.createAddContactRequest (str [Byte.x43]))))]), c2, sv'.
    split; [exact H1|]. split; [exact H3|]. rewrite H2. split; eapply bool_decide_eq_true_1; by vm_compute.
Defined.

Lemma load_data_end_to_end_witness :
  ∃ c2 c3 out2,
    happens (Arrival (packet (response_message (chats_reply
      (ChatsResponse.Build [Chat.Build 1 [Byte.x61]]))))) c2 = (c3, out2) ∧
    answers out2 = [doLoadDataReaction] ∧
    ContactsList.m_items (m_contactsList c3) = [alice] ∧
    ChatsList.m_items (m_chatsList c3) = [ChatsList.MkChatItem 1 (str [Byte.x61])].
Proof.
  destruct (load_data_end_to_end 0 connected_client logged_in_client
    (session (client_link logged_in_client)) (history (client_link logged_in_client))
    (MkClientState 2 [Byte.x62] [Byte.x42])
    (ContactsResponse.Build [Contact.Build 1 [Byte.x61] [Byte.x41]])
    (ChatsResponse.Build [Chat.Build 1 [Byte.x61]]) (storage logged_in_client)
    (storage logged_in_client))
    as (c1 & c2 & c3 & s1 & s2 & sv1 & sv2 & h1 & out1 & out2 & _ & _ & _ & _ & _ & _ & _ & _ &
        H1 & _ & H2 & _ & _ & H3 & H4).
  - exact unlimited_enough.
  - concrete_sendable.
  - concrete_sendable.
  - concrete_sendable.
  - concrete_sendable.
  - reflexivity.
  - exact connected_ready.
  - exact logged_in_awaits.
  - by vm_compute.
  - by vm_compute.
  - by vm_compute.
  - exists c2, c3, out2. split; [exact H1|]. split; [exact H2|]. split; [exact H3|exact H4].
Defined.

(** Both users are logged in; Bob, on session 0, writes to Alice, on session 1. *)
Definition alice_packet : WrappedMessage.t :=
  request_message (MessageFactory.createLoginRequest (str [Byte.x41]) (str [Byte.x70])).

Definition two_clients : server conn :=
  after_run ([Accept false; Accept false] ++ serve 0 login_packet ++ serve 1 alice_packet).

Definition link_of (i : nat) (sv : server conn) : link :=
  match links sv !! i with Some l => l | None => Link new_session [] [] end.

Lemma both_await i : (i < 2)%nat →
  awaiting two_clients i (session (link_of i two_clients)) (history (link_of i two_clients)).
Proof. intros Hi. destruct i as [|[|i]]; [| |lia]; split_and!; by vm_compute. Defined.

Lemma message_reaches_friend_witness :
  ∃ b2 items, MessagesList.m_items (m_messagesList b2) = Some items ∧
    items ≡ₚ [MessagesList.MkMessageItem 2 (str [Byte.x68; Byte.x69]);
              MessagesList.MkMessageItem 2 (str [Byte.x68])].
Proof.
  destruct (message_reaches_friend 0 1 1 (str [Byte.x68]) connected_client connected_client
    two_clients (session (link_of 0 two_clients)) (session (link_of 1 two_clients))
    (history (link_of 0 two_clients)) (history (link_of 1 two_clients))
    (MkClientState 2 [Byte.x62] [Byte.x42]) (MkClientState 1 [Byte.x61] [Byte.x41]) sample_db
    (MessagesResponse.Build [MessageToRecieve.Build 2 [Byte.x68; Byte.x69];
                             MessageToRecieve.Build 2 [Byte.x68]]))
    as (a1 & a2 & b1 & b2 & si' & sj' & sv1 & sv2 & out & items & _ & _ & _ & _ & _ & _ & _ & H1 & H2).
  - exact unlimited_enough.
  - concrete_sendable.
  - concrete_sendable.
  - concrete_sendable.
  - concrete_sendable.
  - reflexivity.
  - exact connected_ready.
  - reflexivity.
  - exact connected_ready.
  - done.
  - apply both_await. lia.
  - apply both_await. lia.
  - by vm_compute.
  - by vm_compute.
  - by vm_compute.
  - exact sample_db_ok.
  - by vm_compute.
  - by apply (bool_decide_unpack _).
  - apply plain_bytes. set_solver.
  - by vm_compute.
  - exists b2, items. split; [exact H1|]. exact H2.
Defined.
End Witnesses.
