(* ===== verification/System.v ===== *)
(** * The whole system

    Windows of the client, the network and the server with concurrent jobs as
    one transition system.  A window is a [client] of [Client.v] whose first
    connection is up; the session of [ConcurrentServer.v] with the same number
    is its other end.  The network keeps the bytes of a window in order and
    hands them to the reads of its session in whatever portions these ask for,
    and delivers each packet of the session as one arrival.  A window can
    leave at any time, and there may be other connections, whose ends send
    whatever they like. *)
From stdpp Require Import gmap.
From S2P Require Import Prelude Wire Parser Message Requests Responses Envelope Framing Storage Database.
From S2P Require Import Postgres Programs Interleaving Session Jobs JobCalls Server ConcurrentServer.
From S2P Require Import Qt ClientLists NetworkSession Client ClientTheorems.

Section System.
Context `{W : WireFormat} {L : WireFormatLaws W} `{Mem : Memory} `{Q : Qt} `{P : Pqxx}.

(** A response arrived: the operation it was for, what came out of the window
    and the window it left. *)
Record round := Round { started : option happening; outputs : list output; after : client }.

(** [current]: the operation under way; [upstream]: the bytes that were sent
    and not read; [screen]: the responses so far. *)
Record peer := Peer {
  window : client;
  current : option happening;
  upstream : bytes;
  screen : list round
}.

Record system := System { srv : cserver; peers : gmap nat peer }.

(** ** What the network carries *)

Definition to_server (out : list output) : bytes := concat (packets out).

Definition frames (h : list event) : list bytes :=
  omap (λ e, match e with Sent frame => Some frame | _ => None end) h.

(** What session [i] received and sent. *)
Definition talk_of (sv : cserver) (i : nat) : list event :=
  match links (front sv) !! i with Some l => history l | None => [] end.

(** A read of a session takes bytes of its window. *)
Definition read_from (i k : nat) (c : completion) (S : system) : option system :=
  match peers S !! i, links (front (srv S)) !! i ≫= λ l, pending l !! k with
  | Some p, Some (ReadPrefix | ReadMessage _) =>
      if decide (data_read c `prefix_of` upstream p) then
        Some (System (srv S) (<[i := Peer (window p) (current p)
                (drop (length (data_read c)) (upstream p)) (screen p)]> (peers S)))
      else None
  | _, _ => Some S
  end.

(** ** Steps *)

Inductive sys_event : Type :=
| Joins
| Leaves (i : nat)
| Serves (ev : cinput)
| Uses (i : nat) (h : happening)
| Delivers (i : nat).

(** A window that has just connected. *)
Definition newcomer : client := (happens SocketConnected new_client).1.

Definition joins (S : system) : option system :=
  sv ← chandle (CAccept false) (srv S);
  Some (System sv (<[accepted (front (srv S)) := Peer newcomer None [] []]> (peers S))).

Definition serves (ev : cinput) (S : system) : option system :=
  S ← match ev with CLocal i k c => read_from i k c S | _ => Some S end;
  sv ← chandle ev (srv S);
  Some (System sv (peers S)).

(** The request of an operation and the job that waits for the response. *)
Definition asks (h : happening) : option (Request.t * client_job) :=
  match h with
  | Signin email password => Some (MessageFactory.createLoginRequest email password, LoginJob)
  | Signup name email password =>
      Some (MessageFactory.createRegisterRequest name email password, RegisterJob)
  | Client.SendMessage chatId message =>
      Some (MessageFactory.createSendMessageRequest chatId message, SendMessageJob)
  | Client.AddContact email => Some (MessageFactory.createAddContactRequest email, AddContactJob)
  | LoadChats => Some (MessageFactory.createAllMyChatsRequest, LoadChatsJob)
  | LoadContacts => Some (MessageFactory.createAllMyContactsRequest, LoadContactsJob)
  | LoadData => Some (MessageFactory.createAllMyContactsRequest, LoadDataJob)
  | LoadMessages chatId => Some (MessageFactory.createLoadMessagesRequest chatId, LoadMessagesJob)
  | Client.CreateChat friendId => Some (MessageFactory.createCreateChatRequest friendId, CreateChatJob)
  | UpdateSettings _ _ | SelectChat _ | Arrival _ | SocketError _ | SocketConnected
  | SocketDisconnected => None
  end.

(** What the user can do while the connection lasts. *)
Definition usable (h : happening) : bool :=
  match h with
  | SelectChat _ => true
  | _ => match asks h with Some _ => true | None => false end
  end.

Definition uses (i : nat) (h : happening) (S : system) : option system :=
  p ← peers S !! i;
  if usable h then
    let '(c, out) := happens h (window p) in
    let now := if is_operation h && availible (window p) then Some h else current p in
    Some (System (srv S)
            (<[i := Peer c now (upstream p ++ to_server out) (screen p)]> (peers S)))
  else None.

(** The next packet of the session arrives. *)
Definition delivers (i : nat) (S : system) : option system :=
  p ← peers S !! i;
  frame ← frames (talk_of (srv S) i) !! length (screen p);
  let '(c, out) := happens (Arrival frame) (window p) in
  let now := if availible c then None else current p in
  Some (System (srv S)
          (<[i := Peer c now (upstream p ++ to_server out)
                    (screen p ++ [Round (current p) out c])]> (peers S))).

Definition shandle (ev : sys_event) (S : system) : option system :=
  match ev with
  | Joins => joins S
  | Leaves i => Some (System (srv S) (delete i (peers S)))
  | Serves ev => serves ev S
  | Uses i h => uses i h S
  | Delivers i => delivers i S
  end.

(** ** The messages a step sends between windows and server *)

(** The response of a job that ends. *)
Definition reply (p : nat) (sv : cserver) : option Response.t :=
  e ← executing sv !! p;
  l ← links (front sv) !! e.1;
  w ← return_call p (database sv);
  match calls w !! p with
  | Some (Finished _ result _ _) => snd <$> job_response e.2 result (session l)
  | _ => None
  end.

Definition mails (ev : sys_event) (S : system) : list WrappedMessage.t :=
  match ev with
  | Uses i h =>
      match peers S !! i, asks h with
      | Some p, Some (r, _) => if availible (window p) then [request_message r] else []
      | _, _ => []
      end
  | Serves (CEnd p) =>
      match executing (srv S) !! p with
      | Some (i, _) =>
          match peers S !! i, reply p (srv S) with
          | Some _, Some resp => [response_message resp]
          | _, _ => []
          end
      | None => []
      end
  | _ => []
  end.

(** The runs in which every message of a window and of its session can be
    framed: it fits an [int] and its numbers fit their fields. *)
Definition sys_step (S S' : system) : Prop :=
  ∃ ev, shandle ev S = Some S' ∧ Forall sendable (mails ev S).

Definition sys_initial (d : db) : system := System (cinitial d) ∅.

Definition sys_reachable (d : db) (S : system) : Prop := rtc sys_step (sys_initial d) S.

(** Runs for concrete inputs, with their messages. *)
Fixpoint srun (evs : list sys_event) (S : system) : option (system * list WrappedMessage.t) :=
  match evs with
  | [] => Some (S, [])
  | ev :: evs =>
    S' ← shandle ev S;
    r ← srun evs S';
    Some (r.1, mails ev S ++ r.2)
  end.

Lemma srun_steps evs S S' ms : srun evs S = Some (S', ms) → Forall sendable ms → rtc sys_step S S'.
Proof.
  revert S ms. induction evs as [|ev evs IH]; intros S ms; simpl.
  { by intros [= -> _] _. }
  intros (S1 & Hst & ([S2 ms2] & Hrun & [= -> <-])%bind_Some)%bind_Some Hms. simpl in Hms.
  apply Forall_app in Hms as [H1 H2]. eapply rtc_l; [by exists ev|by eapply IH].
Qed.
End System.
