(* ===== verification/SystemInvariant.v ===== *)
(** * The invariant of the whole system

    Between a window and its session there is at most one request under way,
    and each end knows where it is: the bytes in the network, the operation
    the session has started, the callback of the window and the traffic so
    far agree on one [stage]. *)
From stdpp Require Import gmap.
From S2P Require Import Prelude Wire Parser Message Requests Responses Envelope Framing WireInstance.
From S2P Require Import Storage Database Postgres Programs Interleaving Isolation Serial Steps.
From S2P Require Import Session Jobs JobCalls Server ConcurrentServer ServerFacts ServerInvariant.
From S2P Require Import ServerTheorems ConcurrentFacts Traffic ConcurrentInvariant.
From S2P Require Import Qt ClientLists NetworkSession NetworkTheorems Client ClientTheorems System.

Section Stages.
Context `{W : WireFormat} {L : WireFormatLaws W} `{Mem : Memory} `{Q : Qt} `{P : Pqxx}.
Implicit Types (r : Request.t) (j : client_job) (resp : Response.t).

(** [h] asks [r]; a data load asks twice. *)
Definition asking (h : happening) r j : Prop :=
  asks h = Some (r, j) ∨
  h = LoadData ∧ r = MessageFactory.createAllMyChatsRequest ∧ j = LoadDataJob.

(** The last response has not ended its operation. *)
Definition half_done (p : peer) : bool :=
  match last (screen p) with Some rd => negb (availible (after rd)) | None => false end.

(** What it asks first, and when the first response has not ended it. *)
Definition asking_now (half : bool) (h : happening) r j : Prop :=
  if half then h = LoadData ∧ r = MessageFactory.createAllMyChatsRequest ∧ j = LoadDataJob
  else asks h = Some (r, j).

Lemma asking_now_asks half h r j : asking_now half h r j → asking h r j.
Proof. unfold asking. destruct half; auto. Qed.

Definition enc r : bytes := msg_encode (request_message r).

Inductive stage : Type :=
| Free
| Asked (r : Request.t) (j : client_job)
| Heard (r : Request.t) (j : client_job)
| Replied (r : Request.t) (j : client_job) (resp : Response.t).

(** The request under way. *)
Definition waiting (st : stage) : option (Request.t * client_job) :=
  match st with Free => None | Asked r j | Heard r j | Replied r j _ => Some (r, j) end.

(** The traffic since the last response that arrived. *)
Definition unmatched (st : stage) : list event :=
  match st with
  | Free | Asked _ _ => []
  | Heard r _ => [Received (enc r)]
  | Replied r _ resp => [Received (enc r); Sent (packet (response_message resp))]
  end.

Definition window_ok st (p : peer) : Prop :=
  ready (window p) ∧
  match waiting st with
  | None => current p = None ∧ availible (window p) = true ∧ half_done p = false
  | Some (r, j) =>
      (∃ h, current p = Some h ∧ asking_now (half_done p) h r j) ∧ availible (window p) = false ∧
      m_callback (m_session (window p)) = Some j ∧ sendable (request_message r)
  end.

(** The bytes in the network and the operation the session has started. *)
Definition line_ok st (up : bytes) (o : operation) (s : ClientSession) : Prop :=
  match st, o with
  | Asked r _, ReadPrefix => up = packet (request_message r) ∧ zlen (read_buffer_ s) = 9
  | Asked r _, Write _ => up = packet (request_message r)
  | Asked r _, ReadMessage n => up = enc r ∧ n = zlen (enc r) ∧ zlen (read_buffer_ s) = n
  | Heard r _, RunJob j' =>
      up = [] ∧ (j' = ParseCommandJob ∧ read_buffer_ s = enc r ∨ request_job r = Some j')
  | (Free | Replied _ _ _), ReadPrefix => up = [] ∧ zlen (read_buffer_ s) = 9
  | (Free | Replied _ _ _), Write _ => up = []
  | _, _ => False
  end.

(** Both ends know the same user. *)
Definition profile_shown (st : ClientState) : Profile :=
  MkProfile (user_id st) (fromUtf8 (user_name st)) (fromUtf8 (email st)).

Definition agrees (st : option ClientState) (pr : option Profile) : Prop :=
  pr = profile_shown <$> st.

(** The profile of the window after a response. *)
Definition profile_after j resp (pr : option Profile) : option Profile :=
  match j with
  | LoginJob =>
      if Response.has_login_response resp &&
         LoginResponse.has_profile (Response.login_response resp)
      then let profile := LoginResponse.profile (Response.login_response resp) in
           Some (MkProfile (Contact.user_id profile) (fromUtf8 (Contact.name profile))
                   (fromUtf8 (Contact.email profile)))
      else pr
  | _ => pr
  end.

(** [resp] is what the job [sj] of a session answers, from a call that is
    [fresh]. *)
Definition answer_from (fresh : nat → Prop) (w : world) (sj : job) (s : ClientSession) resp : Prop :=
  match job_call sj s with
  | Some op => ∃ q result ph seen s', fresh q ∧ calls w !! q = Some (Finished op result ph seen) ∧
      job_response sj result s = Some (s', resp)
  | None => resp = Response.SharedCtor
  end.

(** The answer to [r] that is on its way to a window with profile [pr]. *)
Definition answers_to fresh w r resp (pr : option Profile) : Prop :=
  sendable (response_message resp) ∧ response_matches r resp ∧
  ∃ sj s, request_job r = Some sj ∧ agrees (state_ s) pr ∧ answer_from fresh w sj s resp.

Definition reply_ok fresh w st (p : peer) : Prop :=
  match st with
  | Replied r j resp => answers_to fresh w r resp (m_profile (window p))
  | _ => True
  end.

(** A round is the answer to the request of its operation, handled by the
    callback of the job. *)
Definition told fresh w (rd : round) (ex : bytes * bytes) : Prop :=
  ∃ h r j resp c, started rd = Some h ∧ asking h r j ∧ sendable (request_message r) ∧
    ex = (enc r, packet (response_message resp)) ∧ answers_to fresh w r resp (m_profile c) ∧
    responseProcessingCallback j resp c = (after rd, outputs rd).

Definition flatten (talk : list (bytes * bytes)) : list event :=
  talk ≫= λ ex, [Received ex.1; Sent ex.2].

(** What a window knows of its session. *)
Definition known st (p : peer) : option Profile :=
  match st with
  | Replied _ j resp => profile_after j resp (m_profile (window p))
  | _ => m_profile (window p)
  end.

(** The calls that are executed are fresh, too. *)
Definition session_ok (fresh : nat → Prop) st (ex : gmap nat (nat * job)) (i : nat) (l : link)
    (p : peer) : Prop :=
  agrees (state_ (session l)) (known st p) ∧
  (stopped_ (session l) = false →
     (∃ o, pending (whole ex i l) = [o] ∧ line_ok st (upstream p) o (session l)) ∧
     ∀ q sj, ex !! q = Some (i, sj) → fresh q).

(** The invariant is relative to an earlier world [w0] and the number of
    rounds each window had begun then: later rounds come from calls that are
    not of [w0]. *)
Section Since.
Context (w0 : world) (begun : nat → nat).

Definition since_call (i k q : nat) : Prop := (begun i ≤ k)%nat → calls w0 !! q = None.

Definition all_told w (i : nat) (rds : list round) (talk : list (bytes * bytes)) : Prop :=
  length rds = length talk ∧
  ∀ k rd ex, rds !! k = Some rd → talk !! k = Some ex → told (since_call i k) w rd ex.

Definition peer_ok (sv : cserver) (i : nat) (p : peer) : Prop :=
  ∃ l talk st, links (front sv) !! i = Some l ∧ history l = flatten talk ++ unmatched st ∧
    all_told (database sv) i (screen p) talk ∧ window_ok st p ∧
    reply_ok (since_call i (length talk)) (database sv) st p ∧
    (down (front sv) = false → session_ok (since_call i (length talk)) st (executing sv) i l p).

Record system_ok (d : db) (S : system) : Prop := {
  so_server : cserver_ok d (srv S);
  so_next : next w0 (database (srv S));
  so_peer i p : peers S !! i = Some p → peer_ok (srv S) i p
}.
End Since.
End Stages.

(** ** Messages *)

Section Messages.
Context `{W : WireFormat} {L : WireFormatLaws W} `{Mem : Memory} `{Q : Qt} `{P : Pqxx}.
Implicit Types (r : Request.t) (j : client_job) (resp : Response.t).

Lemma writes_packet m data : sendable m → writes m data → data = packet m.
Proof.
  intros Hm (s & s' & Hw). unfold write, do_async_write in Hw.
  destruct (stopped_ s); [done|]. pose proof (sendable_size m Hm) as Hsize. unfold int_max in Hsize.
  pose proof (byte_size_encode m Hm) as Hb. unfold Session.PREFIX_SIZE in Hw.
  rewrite to_unsigned_ok in Hw by lia. destruct (resize _ s) as [s1|] eqn:Hr; [|done].
  apply resize_spec in Hr as (_ & _ & Hbuf). injection Hw as _ <-.
  change (Z.to_nat (8 + 1)) with 9%nat. change (8 + 1) with 9.
  apply serialize_packet; [done|]. rewrite Hbuf. apply zlen_vec_resize. lia.
Qed.

(** So a frame is that of one message. *)
Lemma writes_unique m m' data : sendable m → sendable m' → writes m data → writes m' data → m = m'.
Proof.
  intros Hm Hm' Hw Hw'. apply packet_unique; [done..|].
  by rewrite <- (writes_packet m data), <- (writes_packet m' data).
Qed.
End Messages.

(** ** The session of a window *)

Section Lines.
Context `{W : WireFormat} {L : WireFormatLaws W} `{Mem : Memory} `{Q : Qt} `{P : Pqxx}.
Implicit Types (r : Request.t) (j : client_job) (st : stage).

(** What a handler leaves: an exception, a stopped session, or its next
    operation. *)
Definition carries_on st (up : bytes) (s : ClientSession) (out : list action) : Prop :=
  out = [Throw] ∨ stopped_ s = true ∧ out = [SockClose] ∨
  stopped_ s = false ∧ ∃ a o, out = [a] ∧ to_operation a = Some o ∧ line_ok st up o s.

Lemma stop_carries st up s : stopped_ s = false → carries_on st up (stop s).1 (stop s).2.
Proof. intros Hs. right. left. unfold stop. by rewrite Hs. Qed.

Lemma read_prefix_carries st up s : stopped_ s = false → (∀ r j, st ≠ Heard r j) →
  up = match st with Asked r _ => packet (request_message r) | _ => [] end →
  carries_on st up (do_async_read_prefix s).1 (do_async_read_prefix s).2.
Proof.
  intros Hs Hst Hup. unfold do_async_read_prefix. rewrite Hs.
  destruct (resize Session.PREFIX_SIZE s) as [s'|] eqn:Hr; [|by left]. right. right.
  apply resize_spec in Hr as (Hs' & _ & Hb). split; [simpl; congruence|].
  exists AsyncReadPrefix, ReadPrefix. split; [done|]. split; [done|].
  assert (zlen (read_buffer_ s') = 9) as H9 by (rewrite Hb; by apply zlen_vec_resize).
  simpl. destruct st; simpl; try done. by destruct (Hst r j).
Qed.

Lemma write_sends m s s' out : stopped_ s = false → write m s = (s', out) → sendable m →
  out = [Throw] ∨ out = [AsyncWrite (packet m)] ∧ stopped_ s' = false.
Proof.
  intros Hs Hw Hm. destruct (write_proceeds m s Hs) as (Hp & Hrun & _). rewrite Hw in Hp, Hrun.
  destruct Hp as [[Hx _]|[_ [Ho|(a & Ho & data & -> & Hd)]]]; simpl in *; [congruence|by left|].
  right. by rewrite <- (writes_packet m data).
Qed.

Lemma prefix_of_whole (a b c : bytes) : a `prefix_of` b ++ c → zlen a = zlen b → a = b ∧ drop (length a) (b ++ c) = c.
Proof.
  unfold zlen. intros [k Hk] Hl. apply app_inj_1 in Hk as [-> _]; [|lia]. split; [done|].
  by rewrite drop_app_length.
Qed.

(** The prefix of a request arrives. *)
Lemma prefix_line st up c s :
  stopped_ s = false → line_ok st up ReadPrefix s →
  (∀ r j, waiting st = Some (r, j) → sendable (request_message r)) →
  completion_ok ReadPrefix s c = true → data_read c `prefix_of` up →
  carries_on st (drop (length (data_read c)) up)
    (on_read_prefix (err c) (zlen (data_read c)) (fill_buffer c s)).1
    (on_read_prefix (err c) (zlen (data_read c)) (fill_buffer c s)).2.
Proof.
  intros Hs Hl Hsend Hc Hd. destruct c as [e data]. simpl in *. destruct e.
  { right. left. unfold on_read_prefix, stop. simpl. by rewrite Hs. }
  apply Z.eqb_eq in Hc. assert (∃ r j, st = Asked r j) as (r & j & ->).
  { destruct st as [|r j|r j|r j resp]; simpl in *; try done; [|by exists r, j|];
      (destruct Hl as [-> Hb]; apply prefix_nil_inv in Hd as ->; by rewrite Hb in Hc). }
  destruct Hl as [-> Hb]. pose proof (sendable_size _ (Hsend r j eq_refl)) as Hsize.
  unfold packet in Hd |- *. set (n := zlen (msg_encode (request_message r))) in *.
  unfold int_max in Hsize. assert (uint64_ok n) as Hn by (unfold uint64_ok; lia).
  pose proof (zlen_prefix n Hn ltac:(lia)) as Hp.
  destruct (prefix_of_whole _ _ _ Hd) as [-> ->]; [congruence|]. rewrite Hp.
  assert (read_buffer_ (fill_buffer (Completion false (prefix_of n)) s) = prefix_of n) as Hfill
    by (apply fill_whole; congruence).
  unfold on_read_prefix. rewrite fill_stopped, Hs. simpl (9 =? _). rewrite Hfill.
  change (to_signed 32 9) with 9. rewrite <- (app_nil_r (prefix_of n)).
  rewrite parse_prefix by (done || lia). simpl. unfold do_async_read_message.
  rewrite app_nil_r, fill_stopped, Hs.
  destruct (resize n _) as [s'|] eqn:Hr; [|by left]. right. right.
  apply resize_spec in Hr as (Hs' & _ & Hb'). split; [simpl; by rewrite Hs', fill_stopped|].
  exists (AsyncReadMessage n), (ReadMessage n). split; [done|]. split; [done|].
  split_and!; [done..|]. cbn [fst]. rewrite Hb'. apply zlen_vec_resize. lia.
Qed.

(** The rest of it. *)
Lemma message_line st n up c s :
  stopped_ s = false → line_ok st up (ReadMessage n) s →
  completion_ok (ReadMessage n) s c = true → data_read c `prefix_of` up →
  let r := on_read_message (err c) (zlen (data_read c)) n (fill_buffer c s) in
  stopped_ r.1 = true ∧ r.2 = [SockClose] ∨
  ∃ q j, st = Asked q j ∧ r = (fill_buffer c s, [Post ParseCommandJob]) ∧
    read_buffer_ r.1 = enc q ∧ drop (length (data_read c)) up = [].
Proof.
  intros Hs Hl Hc Hd. destruct c as [e data]. simpl in *. destruct e.
  { left. unfold on_read_message, stop. simpl. by rewrite Hs. }
  apply Z.eqb_eq in Hc. destruct st as [|r j|r j|r j resp]; try done.
  destruct Hl as (-> & -> & Hb). right. exists r, j. rewrite <- (app_nil_r (enc r)) in Hd.
  destruct (prefix_of_whole _ _ _ Hd) as [-> Hdrop]; [congruence|]. rewrite app_nil_r in Hdrop.
  unfold on_read_message. rewrite fill_stopped, Hs, Z.eqb_refl. split_and!; try done.
  apply fill_whole. congruence.
Qed.

(** The jobs of a request at both ends. *)
Definition paired j (sj : job) : Prop :=
  match j, sj with
  | LoginJob, LoginRequestJob _ => True
  | LoginJob, _ | _, LoginRequestJob _ => False
  | _, _ => True
  end.

Lemma asking_job h r j : asking h r j → ∃ sj, request_job r = Some sj ∧ paired j sj.
Proof.
  intros [Ha|(-> & -> & ->)]; [|by eexists].
  destruct h; try done; injection Ha as <- <-; by eexists.
Qed.

(** How a handler of the event loop moves the stage. *)
Inductive advances (s : ClientSession) : stage → stage → Prop :=
| advances_not st : advances s st st
| advances_heard r j : advances s (Asked r j) (Heard r j)
| advances_guest r j sj : request_job r = Some sj → job_call sj s = None →
    advances s (Heard r j) (Replied r j Response.SharedCtor).

Definition requests_fit st : Prop :=
  ∀ r j, waiting st = Some (r, j) → sendable (request_message r) ∧ ∃ sj, request_job r = Some sj.

(** What a read leaves of the bytes in the network. *)
Definition reads_up (o : operation) (c : completion) (up up' : bytes) : Prop :=
  match o with
  | ReadPrefix | ReadMessage _ =>
      data_read c `prefix_of` up ∧ up' = drop (length (data_read c)) up
  | Write _ | RunJob _ => up' = up
  end.

Lemma job_advance st up sj s c s' out :
  stopped_ s = false → line_ok st up (RunJob sj) s → requests_fit st →
  local_complete (RunJob sj) c s = Some (s', out) →
  ∃ st', advances s st st' ∧ unmatched st ++ omap sent out = unmatched st' ∧
    carries_on st' up s' out.
Proof.
  intros Hs Hl Hfit Hc. destruct st as [|r j|r j|r j resp]; try done.
  destruct Hl as [-> Hjob]. destruct (Hfit r j eq_refl) as (Hsend & sj0 & Hsj).
  simpl in Hc. destruct (job_call sj s) eqn:Hcall; [done|]. injection Hc as Hc.
  destruct Hjob as [[-> Hb]|Hj].
  - exists (Heard r j). split; [constructor|]. simpl in Hc.
    rewrite parse_command_spec, Hb in Hc. unfold enc in Hc.
    rewrite (request_in_encoded _ r), Hsj in Hc by done. injection Hc as <- <-.
    split; [done|]. right. right. split; [done|]. exists (Post sj0), (RunJob sj0).
    split; [done|]. split; [done|]. split; [done|by right].
  - assert (sj ≠ ParseCommandJob) as Hne by (intros ->; by apply request_job_not_parse in Hj).
    replace (job_alone sj s) with (write empty_response s) in Hc by (by destruct sj).
    destruct (write_sends empty_response s s' out Hs Hc empty_response_fits) as [->|[-> Hs']].
    + exists (Heard r j). split; [constructor|]. split; [done|]. by left.
    + exists (Replied r j Response.SharedCtor). split; [by apply (advances_guest s r j sj)|].
      split; [done|].
      right. right. split; [done|]. eexists _, _. by split_and!.
Qed.

Lemma local_advance st up up' o c s s' out :
  stopped_ s = false → line_ok st up o s → requests_fit st → completion_ok o s c = true →
  reads_up o c up up' → local_complete o c s = Some (s', out) →
  ∃ st', advances s st st' ∧ unmatched st ++ received o s' out ++ omap sent out = unmatched st' ∧
    carries_on st' up' s' out.
Proof.
  intros Hs Hl Hfit Hc Hup Hrun. destruct o as [|n|data|sj].
  - destruct Hup as [Hd ->]. injection Hrun as Hrun.
    pose proof (prefix_line st up c s Hs Hl (λ r j H, proj1 (Hfit r j H)) Hc Hd) as Hcar.
    pose proof (on_read_prefix_proceeds (err c) (zlen (data_read c)) (fill_buffer c s) Hs) as Hp.
    rewrite Hrun in Hcar, Hp. exists st. split; [constructor|]. split; [|done].
    destruct Hp as [[_ Ho]|[_ [Ho|(a & Ho & n & ->)]]]; simpl in Ho; subst out; by rewrite app_nil_r.
  - destruct Hup as [Hd ->]. injection Hrun as Hrun.
    pose proof (message_line st n up c s Hs Hl Hc Hd) as Hm. simpl in Hm. rewrite Hrun in Hm. simpl in Hm.
    destruct Hm as [[Hst ->]|(q & j & -> & [= -> ->] & Hb & Hdrop)].
    + exists st. split; [constructor|]. split; [by rewrite app_nil_r|]. right. by left.
    + exists (Heard q j). split; [constructor|]. split; [cbn [unmatched]; by rewrite <- Hb|].
      right. right. split; [done|]. exists (Post ParseCommandJob), (RunJob ParseCommandJob).
      split; [done|]. split; [done|]. split; [done|by left].
  - simpl in Hup. subst up'. injection Hrun as Hrun. exists st. split; [constructor|].
    assert (∀ r j, st ≠ Heard r j) as Hh by (by intros r j ->).
    unfold on_write in Hrun. destruct (err c).
    { unfold stop in Hrun. rewrite Hs in Hrun. injection Hrun as <- <-. split; [by rewrite app_nil_r|].
      right. by left. }
    rewrite Hs in Hrun. pose proof (read_prefix_carries st up s Hs Hh) as Hcar.
    pose proof (read_prefix_proceeds s Hs) as Hp. rewrite Hrun in Hcar, Hp. split.
    + destruct Hp as [[_ Ho]|[_ [Ho|(a & Ho & ->)]]]; simpl in Ho; subst out; by rewrite app_nil_r.
    + apply Hcar. by destruct st.
  - simpl in Hup. subst up'. by apply (job_advance st up sj s c).
Qed.
End Lines.
