(* ===== verification/SystemWindows.v ===== *)
(** * The windows of the system

    What an operation of the user and a response of the server do to a window
    of [SystemInvariant.v], and what it then knows. *)
From stdpp Require Import gmap.
From S2P Require Import Prelude Wire Parser Message Requests Responses Envelope Framing WireInstance.
From S2P Require Import Storage Database Postgres Programs Interleaving Isolation Serial Steps.
From S2P Require Import Session Jobs JobCalls Server ConcurrentServer ServerFacts ServerInvariant.
From S2P Require Import Qt ClientLists NetworkSession NetworkTheorems Client ClientTheorems System.
From S2P Require Import SystemInvariant.

Section Windows.
Context `{W : WireFormat} {L : WireFormatLaws W} `{Mem : Memory} `{Q : Qt} `{P : Pqxx}.
Implicit Types (r : Request.t) (j : client_job) (resp : Response.t) (st : stage).

Lemma to_server_app out out' : to_server (out ++ out') = to_server out ++ to_server out'.
Proof. unfold to_server. by rewrite packets_app, concat_app. Qed.

Lemma asks_sends h r j c : asks h = Some (r, j) →
  happens h c = if_availible (send_request r j) c ∧ is_operation h = true.
Proof. intros Ha. destruct h; try done; by injection Ha as <- <-. Qed.

(** A window that has just connected. *)
Lemma newcomer_ready : ready newcomer ∧ availible newcomer = true ∧ m_profile newcomer = None.
Proof.
  unfold newcomer, new_client, startup, connect, sock_abort, ready, idle, received_so_far.
  repeat case_match; by simplify_eq/=.
Qed.

Lemma newcomer_ok up : window_ok Free (Peer newcomer None up []).
Proof. destruct newcomer_ready as (H1 & H2 & _). by split. Qed.

(** What the user does. *)
Lemma uses_window st p h c out :
  window_ok st p → usable h = true → happens h (window p) = (c, out) →
  (∀ r j, asks h = Some (r, j) → availible (window p) = true → sendable (request_message r)) →
  let now := if is_operation h && availible (window p) then Some h else current p in
  ∃ st', (∀ up, window_ok st' (Peer c now up (screen p))) ∧ m_profile c = m_profile (window p) ∧
    (st' = st ∧ to_server out = [] ∨
     ∃ r j, st = Free ∧ st' = Asked r j ∧ to_server out = packet (request_message r)).
Proof.
  intros [Hr Hw] Hu Hh Hsend. cbv zeta. destruct (asks h) as [[r j]|] eqn:Ha.
  - destruct (asks_sends h r j (window p) Ha) as [He Ho]. rewrite He in Hh. rewrite Ho.
    unfold if_availible in Hh. destruct (availible (window p)) eqn:Hav; simpl.
    + assert (st = Free) as ->.
      { destruct st; simpl in Hw; [done|..]; destruct Hw as (_ & Hx & _); congruence. }
      destruct Hw as (_ & _ & Hhalf).
      destruct (request_goes_out r j (set_availible false (window p)))
        as (c' & Hc & Hr' & Hcb & Hc'); [done|by apply (Hsend r j)|].
      rewrite Hh in Hc. injection Hc as -> ->. exists (Asked r j).
      split; [|split].
      * intros up. split; [done|]. unfold half_done in *. simpl. rewrite Hhalf.
        split; [by exists h|].
        split; [by rewrite Hc'|]. split; [done|]. by apply (Hsend r j).
      * by rewrite Hc'.
      * right. exists r, j. split; [done|]. split; [done|]. unfold to_server. simpl. by rewrite app_nil_r.
    + injection Hh as <- <-. exists st. split; [intros; split; [done|]; simpl; by rewrite Hav|]. split; [done|]. by left.
  - destruct h; try done. simpl in Hh.
    destruct (MessagesList.setCurrentChatId chatId (m_messagesList (window p))) as [l es].
    injection Hh as <- <-. exists st. split; [by split|]. split; [done|]. left. split; [done|].
    unfold to_server. by rewrite packets_lists.
Qed.

(** And nothing of its peer but that. *)
Lemma uses_peer i h (S S' : system) p : uses i h S = Some S' → peers S !! i = Some p →
  ∃ p', S' = System (srv S) (<[i := p']> (peers S)) ∧ screen p' = screen p ∧
    window p' = (happens h (window p)).1 ∧
    current p' = if is_operation h && availible (window p) then Some h else current p.
Proof.
  unfold uses. intros Hu Hp. rewrite Hp in Hu. simpl in Hu. destruct (usable h); [|done].
  destruct (happens h (window p)) as [c out]. injection Hu as <-. eexists. by split.
Qed.

(** A response that ends its operation keeps the connection as it is. *)
Lemma callback_keeps j resp c : half_loaded j resp = false →
  m_session (responseProcessingCallback j resp c).1 = m_session c ∧
  m_profile (responseProcessingCallback j resp c).1 = profile_after j resp (m_profile c).
Proof.
  intros Hh. destruct j; cbn [responseProcessingCallback]; try done.
  - unfold login_callback, profile_after. destruct (Response.has_login_response resp); [|done].
    cbv zeta. by destruct (LoginResponse.has_profile _).
  - unfold load_chats_callback, setChats. destruct (Response.has_chats_response resp); [|done].
    cbv zeta. by case_match.
  - unfold load_contacts_callback, setContacts. destruct (Response.has_contacts_response resp); [|done].
    cbv zeta. by case_match.
  - unfold load_messages_callback. destruct (Response.has_messages_response resp); [|done].
    cbv zeta. by case_match.
  - unfold load_data_callback, setChats. simpl in Hh. rewrite Hh.
    destruct (Response.has_chats_response resp); [|done]. cbv zeta. by case_match.
Qed.

(** The contacts of a data load: the chats are asked for. *)
Lemma half_loaded_asks resp c c' out : ready c → Response.has_contacts_response resp = true →
  load_data_callback resp c = (c', out) →
  ready c' ∧ availible c' = availible c ∧ m_callback (m_session c') = Some LoadDataJob ∧
  m_profile c' = m_profile c ∧
  to_server out = packet (request_message MessageFactory.createAllMyChatsRequest).
Proof.
  intros Hr Hh. unfold load_data_callback, setContacts. rewrite Hh. cbv zeta.
  destruct (ContactsList.setItems _ _) as [l es].
  destruct (request_goes_out MessageFactory.createAllMyChatsRequest LoadDataJob (set_contactsList l c))
    as (c1 & -> & Hr' & Hcb & Hc1); [done|exact chats_request_fits|].
  intros [= <- <-]. split; [done|]. split; [by rewrite Hc1|]. split; [done|]. split; [by rewrite Hc1|].
  rewrite to_server_app. unfold to_server. rewrite packets_lists by done. simpl. by rewrite app_nil_r.
Qed.

(** The response to the request under way arrives. *)
Lemma delivers_window p r j resp c out :
  window_ok (Replied r j resp) p → sendable (response_message resp) →
  happens (Arrival (packet (response_message resp))) (window p) = (c, out) →
  let now := if availible c then None else current p in
  ∃ c0 st', c0 = set_session (m_session c0) (window p) ∧
    responseProcessingCallback j resp c0 = (c, out) ∧
    (∀ up, window_ok st' (Peer c now up (screen p ++ [Round (current p) out c]))) ∧
    m_profile c = profile_after j resp (m_profile (window p)) ∧
    (st' = Free ∧ to_server out = [] ∨
     ∃ r' j', st' = Asked r' j' ∧ to_server out = packet (request_message r')).
Proof.
  intros (Hr & (h & Hcur & Hask) & Hav & Hcb & _) Hm Hh. cbv zeta.
  assert (waits_for j (window p) (window p)) as Hw.
  { split; [done|]. split; [done|]. by destruct (window p). }
  destruct (response_comes_in resp j _ _ Hw Hm) as (c0 & Hc & Hr0 & Hcb0 & Hc0).
  rewrite Hh in Hc. exists c0.
  assert (m_profile c0 = m_profile (window p)) as Hpr by (by rewrite Hc0).
  assert (availible c0 = false) as Hav0 by (by rewrite Hc0).
  destruct (half_loaded j resp) eqn:Hhalf.
  - destruct j; try done. simpl in Hhalf, Hc. symmetry in Hc.
    destruct (half_loaded_asks resp c0 c out Hr0 Hhalf Hc) as (H1 & H2 & H3 & H4 & H5).
    exists (Asked MessageFactory.createAllMyChatsRequest LoadDataJob). rewrite H2, Hav0.
    split_and!; try done; [|by rewrite H4|by right; eexists _, _]. intros up.
    split; [done|]. split_and!; [|by rewrite <- Hav0|done|exact chats_request_fits].
    exists h. split; [done|]. unfold half_done. cbn [screen]. rewrite last_snoc. cbn [after].
    rewrite H2, Hav0. split_and!; try done. apply asking_now_asks in Hask as [Ha|(-> & _)]; [|done].
    by destruct h; try done; injection Ha as _ ?.
  - pose proof (response_frees_facade j resp c0 Hhalf) as (H1 & _ & H2).
    pose proof (callback_keeps j resp c0 Hhalf) as [H3 H4]. rewrite <- Hc in *. simpl in *.
    exists Free. rewrite H1. split_and!; try done; [|by rewrite H4, Hpr|].
    + intros up. split; [unfold ready; simpl; by rewrite H3|]. unfold half_done. cbn [waiting screen].
      rewrite last_snoc. cbn [after]. by rewrite H1.
    + left. split; [done|]. unfold to_server. by rewrite H2.
Qed.

(** ** Later databases *)

Lemma answers_next fresh w w' r resp pr :
  next w w' → answers_to fresh w r resp pr → answers_to fresh w' r resp pr.
Proof.
  intros [_ Hc] (H1 & H2 & sj & s & H3 & H4 & H5). split; [done|]. split; [done|].
  exists sj, s. split; [done|]. split; [done|]. unfold answer_from in *. destruct (job_call sj s); [|done].
  destruct H5 as (q & result & ph & seen & s' & Hf & Hq & Hresp). exists q, result, ph, seen, s'.
  split; [done|]. destruct (Hc q _ Hq) as (c & Hc' & _ & Hsame). rewrite Hsame in Hc' by auto. done.
Qed.

Lemma told_next w0 begun w w' i rds talk :
  next w w' → all_told w0 begun w i rds talk → all_told w0 begun w' i rds talk.
Proof.
  intros Hn [Hl Ht]. split; [done|]. intros k rd ex Hrd Hex.
  destruct (Ht k rd ex Hrd Hex) as (h & r & j & resp & c & H1 & H2 & H3 & H4 & H5 & H6).
  exists h, r, j, resp, c. split_and!; try done. by eapply answers_next.
Qed.

Lemma told_snoc w0 begun w i rds talk rd ex : all_told w0 begun w i rds talk →
  told (since_call w0 begun i (length talk)) w rd ex →
  all_told w0 begun w i (rds ++ [rd]) (talk ++ [ex]).
Proof.
  intros [Hl Ht] Hrd. split; [by rewrite !length_app, Hl|]. intros k rd' ex'.
  rewrite !lookup_snoc_Some, Hl. intros [[Hk Hr]|[-> <-]] [[Hk' He]|[? <-]]; try lia; [by eapply Ht|done].
Qed.

Lemma reply_next fresh w w' st p : next w w' → reply_ok fresh w st p → reply_ok fresh w' st p.
Proof. intros Hn. destruct st; simpl; try done. by apply answers_next. Qed.
End Windows.
