(* ===== verification/SystemSteps.v ===== *)
(** * The steps of the system keep its invariant *)
From stdpp Require Import gmap.
From S2P Require Import Prelude Wire Parser Message Requests Responses Envelope Framing WireInstance.
From S2P Require Import Storage Database Postgres Programs Interleaving Isolation Serial Steps.
From S2P Require Import Session Jobs JobCalls Server ConcurrentServer ServerFacts ServerInvariant.
From S2P Require Import ServerTheorems ConcurrentFacts Traffic ConcurrentInvariant ConcurrentProgress.
From S2P Require Import Qt ClientLists NetworkSession NetworkTheorems Client ClientTheorems System.
From S2P Require Import SystemInvariant SystemWindows.

Section Server.
Context `{W : WireFormat} {L : WireFormatLaws W} `{Mem : Memory} `{Q : Qt} `{P : Pqxx} {PL : PqxxLaws P}.
Implicit Types (sv : cserver) (st : stage).
Context (w0 : world) (begun : nat → nat).

Notation peer_ok := (peer_ok w0 begun).
Notation all_told := (all_told w0 begun).
Notation since_call := (since_call w0 begun).

Definition with_upstream (up : bytes) (p : peer) : peer :=
  Peer (window p) (current p) up (screen p).

(** What happens elsewhere. *)
Lemma peer_ok_frame sv sv' i p :
  links (front sv') !! i = links (front sv) !! i →
  jobs_of (executing sv') i = jobs_of (executing sv) i →
  (∀ q sj, executing sv' !! q = Some (i, sj) → executing sv !! q = Some (i, sj)) →
  next (database sv) (database sv') →
  (down (front sv') = false → down (front sv) = false) → peer_ok sv i p → peer_ok sv' i p.
Proof.
  intros Hl Hj Hex Hn Hd (l & talk & st & H1 & H2 & H3 & H4 & H5 & H6). exists l, talk, st.
  split_and!; try done; [by rewrite Hl|by eapply told_next|by eapply reply_next|].
  intros Hdn. destruct (H6 (Hd Hdn)) as [H7 H8]. split; [done|]. intros Hs.
  destruct (H8 Hs) as ((o & Ho & Hline) & Hfr). split; [|by eauto]. exists o. split; [|done].
  unfold whole in *. simpl in *. by rewrite Hj.
Qed.

(** A step of the session itself. *)
Lemma peer_ok_step sv i p up talk st l w ex dn : next (database sv) w →
  history l = flatten talk ++ unmatched st → all_told (database sv) i (screen p) talk →
  window_ok st p → reply_ok (since_call i (length talk)) w st p →
  (dn = false → session_ok (since_call i (length talk)) st ex i l (with_upstream up p)) →
  peer_ok (with_link sv i l w ex dn) i (with_upstream up p).
Proof.
  intros Hn Hh Ht Hw Hr Hs. exists l, talk, st. unfold with_link, database. simpl.
  rewrite lookup_insert_eq. split_and!; try done. by eapply told_next.
Qed.

(** ** Handlers of the event loop *)

Lemma advances_waiting s st st' : advances s st st' → waiting st' = waiting st.
Proof. by destruct 1. Qed.

Lemma window_ok_waiting st st' p : waiting st' = waiting st → window_ok st p → window_ok st' p.
Proof. intros Hw. unfold window_ok. by rewrite Hw. Qed.

Lemma window_requests_fit st p : window_ok st p → requests_fit st.
Proof.
  intros [_ Hw] r j Hr. rewrite Hr in Hw. destruct Hw as ((h & _ & Ha) & _ & _ & Hs).
  destruct (asking_job h r j (asking_now_asks _ _ _ _ Ha)) as (sj & Hj & _). eauto.
Qed.

(** A guest's request has a kind that the empty response answers. *)
Lemma guest_matches r sj s : request_job r = Some sj → job_call sj s = None →
  response_matches r Response.SharedCtor.
Proof. destruct r as [u]. intros Hj. destruct u; try done; by injection Hj as <-. Qed.

Lemma advances_reply fresh w s st st' p : advances s st st' → agrees (state_ s) (known st p) →
  reply_ok fresh w st p → reply_ok fresh w st' p ∧ agrees (state_ s) (known st' p).
Proof.
  destruct 1 as [|r j|r j sj Hj Hc]; simpl; intros Ha Hr; [done|done|]. split; [|by destruct j].
  split; [exact empty_response_fits|]. split; [by eapply guest_matches|].
  exists sj, s. split; [done|]. split; [done|]. unfold answer_from. by rewrite Hc.
Qed.

Lemma local_peer d sv i k c sv' p up : cserver_ok d sv → peer_ok sv i p →
  handle_local i k c sv = Some sv' →
  (∀ o, links (front sv) !! i ≫= (λ l, pending l !! k) = Some o → reads_up o c (upstream p) up) →
  peer_ok sv' i (with_upstream up p).
Proof.
  unfold handle_local. intros Hok (l & talk & st & Hl & Hh & Ht & Hw & Hr & Hs) Hh' Hup.
  destruct (down (front sv)) eqn:Hd; [done|]. rewrite Hl in Hh', Hup. simpl in Hh', Hup.
  destruct (pending l !! k) as [o|] eqn:Hk; [|done]. simpl in Hh'. specialize (Hup o eq_refl).
  destruct (completion_ok o (session l) c) eqn:Hcok; [|done]. simpl in Hh'.
  destruct (_ || _); [|done].
  destruct (local_complete o c (session l)) as [[s out]|] eqn:Hc; [|done]. injection Hh' as <-.
  pose proof (co_link _ _ Hok i l Hd Hl) as Hlk.
  destruct (link_running _ _ _ _ o Hlk (pending_whole _ _ _ _ _ Hk)) as (Hrun & Hwh & _).
  destruct (whole_pending _ _ _ _ _ _ Hwh Hk) as (_ & _ & Hdel & Hjobs).
  destruct (Hs eq_refl) as [Hag Hline]. destruct (Hline Hrun) as ((o' & Ho' & Hlo) & Hfr).
  rewrite Hwh in Ho'. injection Ho' as <-.
  destruct (local_advance st (upstream p) up o c (session l) s out Hrun Hlo
    (window_requests_fit _ _ Hw) Hcok Hup Hc) as (st' & Hadv & Hun & Hcar).
  destruct (advances_reply _ (database sv) _ _ _ p Hadv Hag Hr) as [Hr' Hag'].
  apply (peer_ok_step _ _ _ _ talk st'); try done.
  - simpl. by rewrite Hh, <- app_assoc, Hun.
  - eapply window_ok_waiting; [by eapply advances_waiting|done].
  - intros Hthrow. split.
    + simpl. rewrite (local_state _ _ _ _ _ Hrun Hc). by destruct st'.
    + simpl. rewrite Hdel, Hjobs, app_nil_r.
      destruct Hcar as [->|[[Hst ->]|(_ & a & o' & -> & Ho' & Hlo')]]; [done|congruence|].
      intros _. split; [|done]. exists o'. simpl. by rewrite Ho'.
Qed.

(** ** Jobs *)

Lemma start_peer d sv i k q sv' p : cserver_ok d sv → next w0 (database sv) → peer_ok sv i p →
  start_job i k q sv = Some sv' → peer_ok sv' i p.
Proof.
  unfold start_job. intros Hok Hw0 (l & talk & st & Hl & Hh & Ht & Hw & Hr & Hs) Hh'.
  destruct (down (front sv)) eqn:Hd; [done|]. rewrite Hl in Hh'. simpl in Hh'.
  destruct (pending l !! k) as [o|] eqn:Hk; [|done]. simpl in Hh'.
  destruct o as [|n|data|sj]; try done.
  destruct (job_call sj (session l)) as [op|] eqn:Hj; [|done]. simpl in Hh'.
  destruct (begin_call q op (database sv)) as [w|] eqn:Hb; [|done]. injection Hh' as <-.
  pose proof (step_next _ _ (Call q op) Hb) as Hn. destruct (begin_call_now _ _ _ _ Hb) as [Hnone _].
  assert (executing sv !! q = None) as Hfree.
  { destruct (executing sv !! q) as [[i0 j0]|] eqn:He; [|done].
    destruct (co_exec _ _ Hok q i0 j0 He) as (? & ? & _ & Hc & _). congruence. }
  pose proof (co_link _ _ Hok i l Hd Hl) as Hlk.
  destruct (link_running _ _ _ _ _ Hlk (pending_whole _ _ _ _ _ Hk)) as (Hrun & Hwh & _).
  destruct (whole_pending _ _ _ _ _ _ Hwh Hk) as (_ & _ & Hdel & Hjobs).
  replace p with (with_upstream (upstream p) p) by (by destruct p).
  apply (peer_ok_step _ _ _ _ talk st); try done; [by eapply reply_next|].
  intros _. destruct (Hs eq_refl) as [Hag Hline]. split; [by destruct st|]. intros _.
  destruct (Hline Hrun) as ((o & Ho & Hlo) & Hfr). rewrite Hwh in Ho. injection Ho as <-. split.
  - exists (RunJob sj). split; [|done]. simpl. rewrite Hdel.
    replace (jobs_of _ i) with [sj]; [done|].
    symmetry. apply Permutation_singleton_r. rewrite jobs_of_insert by done. by rewrite Hjobs.
  - intros q' sj'. rewrite lookup_insert_Some. intros [[<- _]|[_ Hq']]; [|by eapply Hfr].
    intros _. destruct (calls w0 !! q) as [c|] eqn:Hq; [|done].
    destruct (next_call _ _ Hw0 q c Hq) as (c' & Hc' & _). congruence.
Qed.

(** The profiles after the response of a job. *)
Lemma response_agrees j sj result s s' resp pr : paired j sj →
  job_response sj result s = Some (s', resp) → agrees (state_ s) pr →
  agrees (state_ s') (profile_after j resp pr).
Proof.
  intros Hp Hr Ha. destruct sj, result as [e|[b|id name|x|x|x]]; try done; injection Hr as <- <-;
    by destruct j; try done; destruct b.
Qed.


Lemma end_peer d sv q sv' i p : cserver_ok d sv → peer_ok sv i p → end_job q sv = Some sv' →
  (∃ sj, executing sv !! q = Some (i, sj)) →
  (∀ resp, reply q sv = Some resp → sendable (response_message resp)) → peer_ok sv' i p.
Proof.
  unfold end_job, reply. intros Hok (l & talk & st & Hl & Hh & Ht & Hw & Hr & Hs) Hh' [sj Hex] Hsend.
  destruct (down (front sv)) eqn:Hd; [done|].
  rewrite Hex in *. simpl in Hh', Hsend. rewrite Hl in *. simpl in Hh', Hsend.
  destruct (return_call q (database sv)) as [w|] eqn:Hret; [|done]. simpl in Hh', Hsend.
  destruct (calls w !! q) as [[|op result ph seen]|] eqn:Hq; try done.
  destruct (job_end sj result (session l)) as [s out] eqn:He. injection Hh' as <-.
  pose proof (step_next _ _ (Return q) Hret) as Hn.
  destruct (co_exec _ _ Hok q i sj Hex) as (l0 & c & Hl0 & Hc & Hrun & Hj).
  rewrite Hl in Hl0. injection Hl0 as <-.
  destruct (next_call _ _ Hn q c Hc) as (c' & Hc' & Hop & _). rewrite Hq in Hc'. injection Hc' as <-.
  simpl in Hop. rewrite <- Hop in Hj.
  assert (world_ok d w) as Hwok by (eapply (world_step_ok _ _ _ (Return q)); [apply Hok|done]).
  pose proof (clink_next _ _ _ _ _ Hn (co_link _ _ Hok i l Hd Hl)) as Hlk.
  destruct (link_running _ _ _ _ _ Hlk (executing_whole _ _ l _ _ Hex)) as (Hstop & Hwh & _).
  destruct (whole_executing _ _ _ _ _ _ Hwh Hex) as (_ & Hpend & Hjobs).
  destruct (Hs eq_refl) as [Hag Hline]. destruct (Hline Hstop) as ((o & Ho & Hlo) & Hfr).
  rewrite Hwh in Ho. injection Ho as <-. specialize (Hfr q sj Hex).
  destruct st as [|r j|r j|r j resp]; try done. destruct Hlo as [Hup Hjob].
  destruct Hjob as [[-> _]|Hsj]; [by destruct (job_call_not_parse _ _ _ Hj)|].
  replace p with (with_upstream (upstream p) p) by (by destruct p).
  destruct (end_backed _ _ _ _ _ _ _ _ _ _ _ _ Hlk Hex Hj (world_calls _ _ Hwok q _ Hq) He)
    as [->|(h & packet & frame & r' & s' & resp & -> & Hh2 & _ & _ & Hr' & Hrj & Hm & Hresp & Hwr & Hst & Hst' & _)].
  { by apply (peer_ok_step _ _ _ _ talk (Heard r j)); try done; simpl; rewrite ?app_nil_r. }
  rewrite Hresp in Hsend. specialize (Hsend resp eq_refl).
  apply writes_packet in Hwr as ->; [|done].
  destruct (window_requests_fit _ _ Hw r j eq_refl) as [Hfit _].
  assert (r' = r) as ->.
  { rewrite Hh in Hh2. simpl in Hh2. apply app_inj_tail in Hh2 as [_ [= <-]].
    unfold enc in Hr'. rewrite (request_in_encoded _ r) in Hr' by done. congruence. }
  apply (peer_ok_step _ _ _ _ talk (Replied r j resp)); try done.
  - simpl. rewrite Hh. simpl. by rewrite <- app_assoc.
  - split; [done|]. split; [done|]. exists sj, (session l). split; [done|]. split; [done|].
    unfold answer_from. rewrite Hj. by exists q, result, ph, seen, s'.
  - intros _. split.
    + simpl. rewrite Hst'. destruct Hw as [_ ((h0 & _ & Hask) & _)].
      destruct (asking_job h0 r j (asking_now_asks _ _ _ _ Hask)) as (sj' & Hsj' & Hpair). rewrite Hsj in Hsj'.
      injection Hsj' as <-. by eapply response_agrees.
    + simpl. rewrite Hpend, Hjobs. intros _. split; [by eexists|]. intros q' sj' Hq'.
      apply elem_of_jobs in Hq'. rewrite Hjobs in Hq'. by apply elem_of_nil in Hq'.
Qed.
End Server.

(** ** The system *)

Section System.
Context `{W : WireFormat} {L : WireFormatLaws W} `{Mem : Memory} `{Q : Qt} `{P : Pqxx} {PL : PqxxLaws P}.
Implicit Types (S : system) (d : db).
Context (w0 : world) (begun : nat → nat).

Notation peer_ok := (peer_ok w0 begun).
Notation system_ok := (system_ok w0 begun).

Lemma with_upstream_id p : with_upstream (upstream p) p = p.
Proof. by destruct p. Qed.

(** The bytes a read takes. *)
Lemma read_from_spec i k c S S1 : read_from i k c S = Some S1 →
  srv S1 = srv S ∧ ∀ i' p', peers S1 !! i' = Some p' → ∃ p up, peers S !! i' = Some p ∧
    p' = with_upstream up p ∧
    if decide (i' = i) then
      ∀ o, links (front (srv S)) !! i ≫= (λ l, pending l !! k) = Some o → reads_up o c (upstream p) up
    else up = upstream p.
Proof.
  unfold read_from. intros Hrd.
  set (under_way := links (front (srv S)) !! i ≫= _) in *.
  assert (S1 = S ∧ (is_Some (peers S !! i) → ∀ o, under_way = Some o → ∀ up, reads_up o c up up) ∨
    ∃ p, peers S !! i = Some p ∧
      (∀ o, under_way = Some o → ∀ up, up = drop (length (data_read c)) (upstream p) →
         reads_up o c (upstream p) up) ∧
      S1 = System (srv S) (<[i := with_upstream (drop (length (data_read c)) (upstream p)) p]> (peers S)))
    as [[-> Ho]|(p & Hp & Ho & ->)].
  { destruct (peers S !! i) as [p|]; [|injection Hrd as <-; left; split; [done|by intros []]].
    destruct under_way as [[|n|data|j]|];
      try (injection Hrd as <-; left; split; [done|]; by intros _ o [= <-]);
      case_decide as Hpre; try done; injection Hrd as <-; right; exists p; split; [done| |done|];
      (split; [|done]); intros o [= <-] up ->; by split. }
  - split; [done|]. intros i' p' Hp'. exists p', (upstream p').
    split; [done|]. split; [by rewrite with_upstream_id|]. case_decide as Hi; [|done].
    subst i'. intros o Hoo. by apply Ho.
  - split; [done|]. intros i' p'. simpl. rewrite lookup_insert_Some. intros [[<- <-]|[Hne Hp']].
    + exists p, (drop (length (data_read c)) (upstream p)). split; [done|]. split; [done|].
      rewrite decide_True by done. intros o Hoo. by apply Ho.
    + exists p', (upstream p'). split; [done|]. split; [by rewrite with_upstream_id|].
      by rewrite decide_False.
Qed.

(** Steps of the server for which a peer stays what it was. *)
Lemma with_link_elsewhere sv i i' l w ex dn p : i' ≠ i →
  jobs_of ex i' = jobs_of (executing sv) i' →
  (∀ q sj, ex !! q = Some (i', sj) → executing sv !! q = Some (i', sj)) →
  next (database sv) w → down (front sv) = false →
  peer_ok sv i' p → peer_ok (with_link sv i l w ex dn) i' p.
Proof.
  intros Hi Hj Hex Hn Hd. apply peer_ok_frame; try done. simpl. by rewrite lookup_insert_ne.
Qed.

Lemma accept_peer d sv error f i p : cserver_ok d sv → handle_accept error (front sv) = Some f →
  peer_ok sv i p → peer_ok (CServer f (executing sv)) i p.
Proof.
  unfold handle_accept. intros Hok Hh Hp. destruct (down (front sv)) eqn:Hd; [done|].
  destruct (negb (accepting (front sv))); [done|]. revert Hp.
  destruct error; [injection Hh as <-; by apply peer_ok_frame|].
  destruct (start new_session) as [s out]. injection Hh as <-.
  intros (l & talk & st & Hl & Hp). apply (peer_ok_frame _ _ sv); try done; [|by exists l, talk, st].
  simpl. rewrite lookup_insert_ne; [done|]. intros <-.
  by rewrite (co_fresh _ _ Hok _ (le_n _)) in Hl.
Qed.

Lemma database_peer sv ev sv' i p : database_step ev sv = Some sv' → peer_ok sv i p → peer_ok sv' i p.
Proof.
  unfold database_step. intros Hh. destruct (down (front sv)) eqn:Hd; [done|].
  assert (∃ w, world_step ev (database sv) = Some w ∧
    sv' = CServer (Server (links (front sv)) (accepted (front sv)) (accepting (front sv)) w false)
            (executing sv)) as (w & Hst & ->).
  { destruct ev; try done; apply bind_Some in Hh as (w & Hw & [= <-]); eauto. }
  apply peer_ok_frame; try done. unfold database. simpl. by eapply step_next.
Qed.

Lemma chandle_next ev sv sv' : chandle ev sv = Some sv' → next (database sv) (database sv').
Proof.
  intros Hh. destruct (chandle_schedule _ _ _ Hh) as (wevs & Hw & _). by eapply schedule_next.
Qed.

(** The session a step belongs to. *)
Definition acts_on (ev : cinput) (sv : cserver) : option nat :=
  match ev with
  | CLocal i _ _ | CStart i _ _ => Some i
  | CEnd q => fst <$> executing sv !! q
  | CAccept _ | CSignal | CDatabase _ => None
  end.

Lemma chandle_elsewhere d ev sv sv' i p : cserver_ok d sv → chandle ev sv = Some sv' →
  acts_on ev sv ≠ Some i → peer_ok sv i p → peer_ok sv' i p.
Proof.
  intros Hok Hh Hact. destruct ev as [error| |i0 k c|i0 k q|ev|q]; simpl in Hh, Hact.
  - apply fmap_Some in Hh as (f & Hf & ->). by eapply accept_peer.
  - apply fmap_Some in Hh as (f & Hf & ->). unfold signal_handler in Hf.
    destruct (down (front sv)) eqn:Hd; [done|]. injection Hf as <-. by apply peer_ok_frame.
  - unfold handle_local in Hh. destruct (down (front sv)) eqn:Hd; [done|].
    apply bind_Some in Hh as (l & Hl & (o & Hk & Hh)%bind_Some). destruct (_ && _); [|done].
    apply bind_Some in Hh as ([s out] & Hc & Hh). injection Hh as <-.
    apply with_link_elsewhere; try done. congruence.
  - unfold start_job in Hh. destruct (down (front sv)) eqn:Hd; [done|].
    apply bind_Some in Hh as (l & Hl & ([|n|data|j] & Hk & Hh)%bind_Some); try done.
    apply bind_Some in Hh as (op & Hop & (w & Hw & Hh)%bind_Some). injection Hh as <-.
    apply with_link_elsewhere; try done;
      [congruence| | |by apply (step_next _ _ (Call q op))].
    + apply jobs_of_insert_ne; [|congruence]. destruct (begin_call_now _ _ _ _ Hw) as [Hnone _].
      destruct (executing sv !! q) as [[i1 j1]|] eqn:He; [|done].
      destruct (co_exec _ _ Hok q i1 j1 He) as (? & ? & _ & Hc & _). congruence.
    + intros q' sj. rewrite lookup_insert_Some. by intros [[_ [= ? _]]|[_ Hq']]; [congruence|].
  - by eapply database_peer.
  - unfold end_job in Hh. destruct (down (front sv)) eqn:Hd; [done|].
    apply bind_Some in Hh as ([i0 j] & Hex & (l & Hl & (w & Hw & Hh)%bind_Some)%bind_Some).
    destruct (calls w !! q) as [[|]|]; try done. destruct (job_end _ _ _) as [s out].
    injection Hh as <-. rewrite Hex in Hact. simpl in Hact.
    apply with_link_elsewhere; try done;
      [congruence| | |by apply (step_next _ _ (Return q))].
    + eapply jobs_of_delete_ne; [exact Hex|congruence].
    + intros q' sj. rewrite lookup_delete_Some. tauto.
Qed.

Lemma serves_ok d S ev S' : system_ok d S → serves ev S = Some S' →
  Forall sendable (mails (Serves ev) S) → system_ok d S'.
Proof.
  unfold serves. intros [Hok Hn Hp] (S1 & Hrd & (sv & Hh & [= <-])%bind_Some)%bind_Some Hm.
  assert (srv S1 = srv S ∧ ∀ i' p', peers S1 !! i' = Some p' → ∃ p up, peers S !! i' = Some p ∧
    p' = with_upstream up p ∧ match ev with
    | CLocal i k c => if decide (i' = i) then
        ∀ o, links (front (srv S)) !! i ≫= (λ l, pending l !! k) = Some o → reads_up o c (upstream p) up
        else up = upstream p
    | _ => up = upstream p end) as [Hsrv Hpeers].
  { destruct ev; try (injection Hrd as <-; split; [done|]; intros i' p' Hp'; exists p', (upstream p');
      split; [done|]; by rewrite with_upstream_id). by apply read_from_spec. }
  rewrite Hsrv in Hh.
  split; simpl; [eapply cstep_ok; [by exists ev|done]|etrans; [exact Hn|by eapply chandle_next]|].
  intros i p' Hp'.
  destruct (Hpeers i p' Hp') as (p & up & Hpi & -> & Hup). specialize (Hp i p Hpi).
  destruct (decide (acts_on ev (srv S) = Some i)) as [Hact|Hact].
  - destruct ev as [error| |i0 k c|i0 k q|ev|q]; simpl in Hh, Hact; try done.
    + injection Hact as ->. rewrite decide_True in Hup by done. by eapply local_peer.
    + injection Hact as ->. subst up. rewrite with_upstream_id. by eapply start_peer.
    + subst up. rewrite with_upstream_id. apply fmap_Some in Hact as ([i0 sj] & Hex & ->).
      eapply end_peer; [done|done|done|by exists sj|]. intros resp Hresp.
      simpl in Hm. rewrite Hex in Hm. simpl in Hpi. rewrite Hpi, Hresp in Hm. by inversion Hm.
  - assert (peer_ok (srv S) i (with_upstream up p)) as Hp2; [|by eapply chandle_elsewhere].
    assert (up = upstream p) as ->; [|by rewrite with_upstream_id].
    destruct ev as [error| |i0 k c|i0 k q|ev|q]; try done. simpl in Hact.
    rewrite decide_False in Hup by congruence. done.
Qed.

(** A request is sent. *)
Lemma line_asked up o s r j :
  line_ok Free up o s → line_ok (Asked r j) (up ++ packet (request_message r)) o s.
Proof. destruct o; simpl; try done; [by intros [-> ?]|by intros ->]. Qed.

Lemma uses_ok d S i h S' : system_ok d S → uses i h S = Some S' →
  Forall sendable (mails (Uses i h) S) → system_ok d S'.
Proof.
  unfold uses. intros [Hok Hn Hp] (p & Hpi & Hh)%bind_Some Hm. destruct (usable h) eqn:Hu; [|done].
  destruct (happens h (window p)) as [c out] eqn:Hhap. injection Hh as <-.
  split; [done..|]. simpl. intros i' p'. rewrite lookup_insert_Some.
  intros [[<- <-]|[_ Hp']]; [|by apply Hp].
  destruct (Hp i p Hpi) as (l & talk & st & Hl & Hh & Ht & Hw & Hr & Hs).
  destruct (uses_window st p h c out Hw Hu Hhap) as (st' & Hw' & Hpr & Hst).
  { intros r j Ha Hav. simpl in Hm. rewrite Hpi, Ha, Hav in Hm. by inversion Hm. }
  exists l, talk, st'. split; [done|]. split.
  { by destruct Hst as [[-> _]|(r & j & -> & -> & _)]. }
  split; [done|]. split; [apply Hw'|].
  destruct Hst as [[-> Hout]|(r & j & -> & -> & Hout)]; rewrite Hout.
  - split; [by destruct st; simpl in *; rewrite ?Hpr|]. intros Hd. destruct (Hs Hd) as [Hag Hline].
    split; [by destruct st; simpl in *; rewrite Hpr|]. by rewrite app_nil_r.
  - split; [done|]. intros Hd. destruct (Hs Hd) as [Hag Hline]. split; [simpl in *; by rewrite Hpr|].
    intros Hst. destruct (Hline Hst) as ((o & Ho & Hlo) & Hfr). split; [|done]. exists o. split; [done|].
    by apply line_asked.
Qed.

Lemma frames_app h h' : frames (h ++ h') = frames h ++ frames h'.
Proof. apply omap_app. Qed.

Lemma frames_flatten talk : frames (flatten talk) = talk.*2.
Proof.
  induction talk as [|x talk IH]; [done|].
  change (flatten (x :: talk)) with ([Received x.1; Sent x.2] ++ flatten talk).
  by rewrite frames_app, IH.
Qed.

(** The next packet of a session is the response its window waits for. *)
Lemma next_frame talk st n frame : length talk = n →
  frames (flatten talk ++ unmatched st) !! n = Some frame →
  ∃ r j resp, st = Replied r j resp ∧ frame = packet (response_message resp).
Proof.
  intros <-. rewrite frames_app, frames_flatten, lookup_app_r by (by rewrite length_fmap).
  rewrite length_fmap, Nat.sub_diag. destruct st; try done. intros [= <-]. eauto.
Qed.

Lemma delivers_ok d S i S' : system_ok d S → delivers i S = Some S' → system_ok d S'.
Proof.
  unfold delivers, talk_of. intros [Hok Hn Hp] (p & Hpi & (frame & Hf & Hh)%bind_Some)%bind_Some.
  destruct (happens (Arrival frame) (window p)) as [c out] eqn:Hhap. injection Hh as <-.
  split; [done..|]. simpl. intros i' p'. rewrite lookup_insert_Some.
  intros [[<- <-]|[_ Hp']]; [|by apply Hp].
  destruct (Hp i p Hpi) as (l & talk & st & Hl & Hh & Ht & Hw & Hr & Hs).
  rewrite Hl, Hh in Hf. destruct Ht as [Hlen Ht].
  destruct (next_frame _ _ _ _ (eq_sym Hlen) Hf) as (r & j & resp & -> & ->).
  destruct Hr as (Hm & Hans).
  destruct (delivers_window p r j resp c out Hw Hm Hhap) as (c0 & st' & Hc0 & Hcb & Hw' & Hpr' & Hst).
  assert (m_profile c0 = m_profile (window p)) as Hpr by (by rewrite Hc0).
  pose proof Hw as (_ & (h & Hcur & Hask%asking_now_asks) & _ & _ & Hreq).
  exists l, (talk ++ [(enc r, packet (response_message resp))]), st'. split; [done|]. split.
  { rewrite Hh. unfold flatten. rewrite bind_app, <- app_assoc. f_equal. simpl.
    by destruct Hst as [[-> _]|(r' & j' & -> & _)]. }
  split.
  { apply told_snoc; [by split|]. exists h, r, j, resp, c0. split_and!; try done. by rewrite Hpr. }
  split; [apply Hw'|]. split; [by destruct Hst as [[-> _]|(r' & j' & -> & _)]|].
  intros Hd. destruct (Hs Hd) as [Hag Hline]. simpl in Hag. rewrite <- Hpr' in Hag. split.
  { by destruct Hst as [[-> _]|(r' & j' & -> & _)]. }
  intros Hstop. destruct (Hline Hstop) as ((o & Ho & Hlo) & _). split.
  2: { intros q sj Hq. apply (executing_whole _ _ l) in Hq. rewrite Ho in Hq.
       apply list_elem_of_singleton in Hq as <-. done. }
  exists o. split; [done|].
  destruct Hst as [[-> Hout]|(r' & j' & -> & Hout)]; rewrite Hout; simpl.
  - by rewrite app_nil_r.
  - by apply line_asked.
Qed.

(** What arrives is handled by the callback of the operation under way. *)
Lemma delivers_round d S i S' p : system_ok d S → delivers i S = Some S' → peers S !! i = Some p →
  ∃ h r j resp c0 c out, current p = Some h ∧ asking h r j ∧
    answers_to (since_call w0 begun i (length (screen p))) (database (srv S)) r resp (m_profile (window p)) ∧
    c0 = set_session (m_session c0) (window p) ∧ responseProcessingCallback j resp c0 = (c, out) ∧
    happens (Arrival (packet (response_message resp))) (window p) = (c, out) ∧
    frames (talk_of (srv S) i) !! length (screen p) = Some (packet (response_message resp)) ∧
    S' = System (srv S) (<[i := Peer c (if availible c then None else Some h)
      (upstream p ++ to_server out) (screen p ++ [Round (Some h) out c])]> (peers S)).
Proof.
  unfold delivers. intros Hok (p' & Hpi' & (frame & Hf & Hh)%bind_Some)%bind_Some Hpi.
  rewrite Hpi in Hpi'. injection Hpi' as <-.
  destruct (happens (Arrival frame) (window p)) as [c out] eqn:Hhap. injection Hh as <-.
  destruct (so_peer _ _ _ _ Hok i p Hpi) as (l & talk & st & Hl & Hh & [Hlen _] & Hw & Hr & _).
  pose proof Hf as Hf'. unfold talk_of in Hf. rewrite Hl, Hh in Hf.
  destruct (next_frame _ _ _ _ (eq_sym Hlen) Hf) as (r & j & resp & -> & ->).
  destruct (delivers_window p r j resp c out Hw (proj1 Hr) Hhap) as (c0 & _ & Hc0 & Hcb & _).
  pose proof Hw as (_ & (h & Hcur & Hask%asking_now_asks) & _). rewrite Hcur.
  exists h, r, j, resp, c0, c, out. split_and!; try done. by rewrite Hlen.
Qed.

(** The first operation of a session. *)
Lemma start_line up s out : start new_session = (s, out) → up = [] →
  out = [Throw] ∨ state_ s = None ∧
    (stopped_ s = false → ∃ o, omap to_operation out = [o] ∧ line_ok Free up o s).
Proof.
  unfold start. intros Hs ->.
  pose proof (read_prefix_carries Free [] (set_stopped false new_session) eq_refl) as Hcar.
  pose proof (read_prefix_state (set_stopped false new_session)) as Hst. rewrite Hs in Hcar, Hst.
  specialize (Hcar (λ r j, ltac:(done)) eq_refl). simpl in Hcar, Hst.
  destruct Hcar as [->|[[Hx ->]|(Hx & a & o & -> & Ho & Hlo)]]; [by left|right..].
  - split; [done|]. simpl in Hx. intros Hy. simpl in Hy. congruence.
  - split; [done|]. intros _. exists o. split; [simpl; by rewrite Ho|done].
Qed.

Lemma joins_ok d S S' : system_ok d S → joins S = Some S' → system_ok d S'.
Proof.
  unfold joins. intros [Hok Hn Hp] (sv & Hh & [= <-])%bind_Some.
  split; simpl;
    [eapply cstep_ok; [by exists (CAccept false)|done]|etrans; [exact Hn|by eapply chandle_next]|].
  intros i p.
  rewrite lookup_insert_Some. intros [[<- <-]|[Hne Hpi]];
    [|eapply chandle_elsewhere; [exact Hok|exact Hh|done|by apply Hp]].
  simpl in Hh. apply fmap_Some in Hh as (f & Hf & ->). unfold handle_accept in Hf.
  destruct (down (front (srv S))) eqn:Hd; [done|]. destruct (negb _); [done|].
  destruct (start new_session) as [s out] eqn:Hstart. injection Hf as <-.
  eexists _, [], Free. simpl. rewrite lookup_insert_eq. split; [done|]. split; [done|].
  split; [by split|]. split; [apply newcomer_ok|]. split; [done|]. intros Ht.
  destruct (start_line [] s out Hstart eq_refl) as [->|[Hst Hline]]; [done|].
  destruct newcomer_ready as (_ & _ & Hpr). split.
  - cbn [session known window]. by rewrite Hst, Hpr.
  - assert (∀ q i0 j0, executing (srv S) !! q = Some (i0, j0) → i0 ≠ accepted (front (srv S))) as Hno.
    { intros q i0 j0 He ->. destruct (co_exec _ _ Hok q _ j0 He) as (l & _ & Hl & _).
      by rewrite (co_fresh _ _ Hok _ (le_n _)) in Hl. }
    simpl. rewrite jobs_of_none by (intros q [i0 j0]; apply Hno). simpl. intros Hs.
    destruct (Hline Hs) as (o & -> & Hlo). split; [by exists o|]. intros q sj Hq. by apply Hno in Hq.
Qed.

Lemma sys_step_ok d S S' : system_ok d S → sys_step S S' → system_ok d S'.
Proof.
  intros Hok (ev & Hh & Hm). destruct ev as [|i|ev|i h|i]; simpl in Hh.
  - by eapply joins_ok.
  - injection Hh as <-. destruct Hok as [H1 Hn H2]. split; [done..|]. simpl. intros i' p.
    rewrite lookup_delete_Some. intros [_ Hp]. by apply H2.
  - by eapply serves_ok.
  - by eapply uses_ok.
  - by eapply delivers_ok.
Qed.

End System.
