(* ===== verification/SystemRounds.v ===== *)
(** * Rounds

    What the rounds of a window tell: the invariant of [SystemInvariant.v]
    from the beginning and from any reachable state on, and the rounds of the
    operations that write and of those that show what was written. *)
From stdpp Require Import gmap.
From S2P Require Import Prelude Wire Parser Message Requests Responses Envelope Framing.
From S2P Require Import Storage Database Postgres Programs Interleaving Isolation Serial Steps.
From S2P Require Import Session Jobs JobCalls Server ConcurrentServer ServerFacts ServerInvariant.
From S2P Require Import ConcurrentFacts Traffic ConcurrentInvariant ConcurrentProgress.
From S2P Require Import Qt ClientLists NetworkSession NetworkTheorems Client ClientTheorems EndToEnd.
From S2P Require Import System SystemInvariant SystemWindows SystemSteps.

Section Rounds.
Context `{W : WireFormat} {L : WireFormatLaws W} `{Mem : Memory} `{Q : Qt} `{P : Pqxx} {PL : PqxxLaws P}.
Implicit Types (S : system) (d : db).

(** The rounds a window has begun. *)
Definition begun_by S (i : nat) : nat :=
  match peers S !! i with
  | Some p => length (screen p) + match current p with Some _ => 1 | None => 0 end
  | None => 0
  end.

Lemma system_ok_initial d : tables_ok d → system_ok (quiet d) (λ _, 0%nat) d (sys_initial d).
Proof.
  intros Hd. split; [by apply cserver_ok_initial|done|]. intros i p Hp. simpl in Hp.
  by rewrite lookup_empty in Hp.
Qed.

(** From any state on. *)
Lemma system_ok_since w0 begun d S :
  system_ok w0 begun d S → system_ok (database (srv S)) (begun_by S) d S.
Proof.
  intros [Hok Hn Hp]. split; [done..|]. intros i p Hpi.
  destruct (Hp i p Hpi) as (l & talk & st & Hl & Hh & [Hlen Ht] & Hw & Hr & Hs).
  assert (∀ k q, (k < begun_by S i)%nat → since_call (database (srv S)) (begun_by S) i k q) as Hold.
  { intros k q Hk Hle. lia. }
  assert (begun_by S i = length (screen p) + match current p with Some _ => 1 | None => 0 end)%nat as Hb
    by (unfold begun_by; by rewrite Hpi).
  exists l, talk, st. split; [done|]. split; [done|]. split; [split; [done|]|split; [done|]].
  { intros k rd ex Hrd Hex. apply lookup_lt_Some in Hrd as Hlt.
    destruct (Ht k rd ex Hrd Hex) as (h & r & j & resp & c & H1 & H2 & H3 & H4 & (H5 & H6 & sj & s & H7 & H8 & H9) & H10).
    exists h, r, j, resp, c. do 4 (split; [done|]). split; [|done]. do 2 (split; [done|]).
    exists sj, s. do 2 (split; [done|]).
    unfold answer_from in *. destruct (job_call sj s); [|done].
    destruct H9 as (q & result & ph & seen & s' & _ & Hq). exists q, result, ph, seen, s'.
    split; [|done]. apply Hold. lia. }
  assert (∀ q, waiting st ≠ None → since_call (database (srv S)) (begun_by S) i (length talk) q) as Hcur.
  { intros q Hst. apply Hold. destruct Hw as [_ Hw]. destruct (waiting st) as [[r j]|]; [|done].
    destruct Hw as ((h & Hc & _) & _). rewrite Hc in Hb. lia. }
  split.
  - destruct st as [| | |r j resp]; try done. destruct Hr as (H1 & H2 & sj & s & H3 & H4 & H5).
    split; [done|]. split; [done|]. exists sj, s. split; [done|]. split; [done|].
    unfold answer_from in *. destruct (job_call sj s); [|done].
    destruct H5 as (q & result & ph & seen & s' & _ & Hq). exists q, result, ph, seen, s'.
    split; [|done]. by apply Hcur.
  - intros Hd. destruct (Hs Hd) as [Hag Hline]. split; [done|]. intros Hrun.
    destruct (Hline Hrun) as ((o & Ho & Hlo) & _). split; [by exists o|]. intros q sj Hq.
    apply Hcur. apply (executing_whole _ _ l) in Hq. rewrite Ho in Hq.
    apply list_elem_of_singleton in Hq as <-. by destruct st.
Qed.

Lemma sys_steps_ok w0 begun d S S' :
  rtc sys_step S S' → system_ok w0 begun d S → system_ok w0 begun d S'.
Proof.
  induction 1 as [S|S1 S2 S3 Hs _ IH]; [done|]. intros Hok. apply IH. by eapply sys_step_ok.
Qed.

Lemma sys_reachable_ok d S : tables_ok d → sys_reachable d S → system_ok (quiet d) (λ _, 0%nat) d S.
Proof. intros Hd Hr. eapply sys_steps_ok; [exact Hr|by apply system_ok_initial]. Qed.

(** The server of a run of the system makes a run of its own. *)
Lemma sys_steps_crun S S' : rtc sys_step S S' → ∃ evs, crun evs (srv S) = Some (srv S').
Proof.
  induction 1 as [S|S1 S2 S3 (ev & Hh & _) _ (evs & IH)]; [by exists []|].
  assert (srv S2 = srv S1 ∨ ∃ cev, chandle cev (srv S1) = Some (srv S2)) as [He|(cev & Hc)].
  { destruct ev as [|i|cev|i h|i]; simpl in Hh.
    - apply bind_Some in Hh as (sv & Hc & [= <-]). right. by exists (CAccept false).
    - injection Hh as <-. by left.
    - apply bind_Some in Hh as (S0 & Hr & (sv & Hc & [= <-])%bind_Some). right. exists cev. simpl.
      assert (srv S0 = srv S1) as <-; [|done].
      destruct cev; try (by injection Hr as <-). by apply read_from_spec in Hr as [-> _].
    - apply bind_Some in Hh as (p & _ & Hh). destruct (usable h); [|done].
      destruct (happens _ _). injection Hh as <-. by left.
    - apply bind_Some in Hh as (p & _ & (f & _ & Hh)%bind_Some). destruct (happens _ _).
      injection Hh as <-. by left. }
  - exists evs. by rewrite <- He.
  - exists (cev :: evs). simpl. by rewrite Hc.
Qed.

(** A round of a window, with what is behind it. *)
Lemma round_told w0 begun d S i p k rd : system_ok w0 begun d S → peers S !! i = Some p →
  screen p !! k = Some rd → ∃ ex, told (since_call w0 begun i k) (database (srv S)) rd ex.
Proof.
  intros Hok Hp Hrd. destruct (so_peer _ _ _ _ Hok i p Hp) as (l & talk & st & _ & _ & [Hlen Ht] & _).
  destruct (lookup_lt_is_Some_2 talk k) as [ex Hex].
  { rewrite <- Hlen. by eapply lookup_lt_Some. }
  exists ex. by eapply Ht.
Qed.

(** Its place in the traffic. *)
Lemma flatten_place talk k ex : talk !! k = Some ex → ∃ h1 h2,
  flatten talk = h1 ++ Received ex.1 :: Sent ex.2 :: h2 ∧ length h1 = (2 * k)%nat.
Proof.
  revert k. induction talk as [|x talk IH]; intros k; [by rewrite lookup_nil|].
  change (flatten (x :: talk)) with (Received x.1 :: Sent x.2 :: flatten talk).
  destruct k as [|k]; simpl; [intros [= ->]; by exists [], (flatten talk)|].
  intros Hk. destruct (IH k Hk) as (h1 & h2 & -> & Hl).
  exists (Received x.1 :: Sent x.2 :: h1), h2. split; [done|]. simpl. lia.
Qed.
End Rounds.

(** ** What the rounds of some operations mean *)

Section Meaning.
Context `{W : WireFormat} {L : WireFormatLaws W} `{Mem : Memory} `{Q : Qt} `{P : Pqxx}.
Implicit Types (rd : round) (fresh : nat → Prop) (w : world).

Lemma asking_asks h r j r' j' : asking h r j → asks h = Some (r', j') → h ≠ LoadData → r = r' ∧ j = j'.
Proof. intros [Ha|[-> _]] Ha' Hh; [|done]. rewrite Ha in Ha'. by injection Ha'. Qed.

(** The round of an operation with request [r] and job [j]. *)
Lemma told_round fresh w rd ex h r j sj : told fresh w rd ex → started rd = Some h →
  h ≠ LoadData → asks h = Some (r, j) → request_job r = Some sj →
  ∃ resp c s, responseProcessingCallback j resp c = (after rd, outputs rd) ∧
    m_profile c = profile_shown <$> state_ s ∧ answer_from fresh w sj s resp.
Proof.
  intros (h' & r' & j' & resp & c & Hst & Hask & _ & _ & (_ & _ & sj' & s & Hsj & Hag & Hans) & Hcb)
    Hst' Hh Ha Hr.
  rewrite Hst in Hst'. injection Hst' as ->. destruct (asking_asks _ _ _ _ _ Hask Ha Hh) as [-> ->].
  rewrite Hr in Hsj. injection Hsj as <-. by exists resp, c, s.
Qed.

Lemma userId_shown c st : m_profile c = Some (profile_shown st) → userId c = user_id st.
Proof. unfold userId. by intros ->. Qed.

(** An operation that was accepted: the call of the user the window shows. *)
Lemma accepted_round fresh w rd ex h r j sj rea : told fresh w rd ex → started rd = Some h →
  h ≠ LoadData → asks h = Some (r, j) → request_job r = Some sj →
  (∀ resp c, responseProcessingCallback j resp c =
     (set_availible true c, [ToQml (rea (accepted_status resp))])) →
  (∀ b, rea true = rea b → b = true) →
  (∀ s, job_call sj s = None ∨ ∃ st, state_ s = Some st) →
  (∀ result s s' resp, job_response sj result s = Some (s', resp) → accepted_status resp = true →
     result = inr (Status true)) →
  ToQml (rea true) ∈ outputs rd →
  ∃ s st op q ph seen, state_ s = Some st ∧ m_profile (after rd) = Some (profile_shown st) ∧
    job_call sj s = Some op ∧ calls w !! q = Some (Finished op (inr (Status true)) ph seen).
Proof.
  intros Ht Hst Hld Hask Hreq Hcb Hrea Hlog Hres Hout.
  destruct (told_round _ _ _ _ _ _ _ _ Ht Hst Hld Hask Hreq) as (resp & c & s & Hc & Hag & Hans).
  rewrite Hcb in Hc. injection Hc as Hc Ho. rewrite <- Ho in Hout.
  apply list_elem_of_singleton in Hout as [= Hb%Hrea]. unfold answer_from in Hans.
  destruct (Hlog s) as [Hn|[st Hs]]; [by rewrite Hn in Hans; rewrite Hans in Hb|].
  destruct (job_call sj s) as [op|] eqn:Hcall; [|by rewrite Hans in Hb].
  destruct Hans as (q & result & ph & seen & s' & _ & Hq & Hresp).
  rewrite (Hres _ _ _ _ Hresp Hb) in Hq. exists s, st, op, q, ph, seen. split_and!; try done.
  rewrite <- Hc. simpl. by rewrite Hag, Hs.
Qed.

Ltac accepted rea Ht Hst Hout :=
  destruct (accepted_round _ _ _ _ _ _ _ _ rea Ht Hst ltac:(done) eq_refl eq_refl)
    as (s & st & op & q & ph & seen & Hs & Hpr & Hcall & Hq);
    [done|by intros b [= <-]
    |intros s; simpl; unfold state; destruct (state_ s) as [st|]; [right; by exists st|by left]
    |by intros [?|[[]|? ?|?|?|?]] ? ? ? [= _ <-] ?
    |exact Hout|];
  simpl in Hcall; unfold state in Hcall; rewrite Hs in Hcall; injection Hcall as <-.

Lemma sent_round fresh w rd ex chat text : told fresh w rd ex →
  started rd = Some (Client.SendMessage chat text) → ToQml (doSendMessageReaction true) ∈ outputs rd →
  m_profile (after rd) ≠ None ∧ ∃ q ph seen, calls w !! q = Some (Finished
    (Programs.SendMessage (userId (after rd)) (MessageToSend.Build chat (toStdString text)))
    (inr (Status true)) ph seen).
Proof.
  intros Ht Hst Hout. accepted doSendMessageReaction Ht Hst Hout.
  rewrite (userId_shown _ st Hpr). split; [by rewrite Hpr|by exists q, ph, seen].
Qed.

Lemma added_round fresh w rd ex email : told fresh w rd ex →
  started rd = Some (Client.AddContact email) → ToQml (doAddContactReaction true) ∈ outputs rd →
  ∃ q ph seen, calls w !! q = Some (Finished
    (Programs.AddContact (userId (after rd)) (toStdString email)) (inr (Status true)) ph seen).
Proof.
  intros Ht Hst Hout. accepted doAddContactReaction Ht Hst Hout.
  rewrite (userId_shown _ st Hpr). by exists q, ph, seen.
Qed.

(** The creator's name is the one his window shows. *)
Lemma created_round fresh w rd ex friend : told fresh w rd ex →
  started rd = Some (Client.CreateChat friend) → ToQml (doChatCreatedReaction true) ∈ outputs rd →
  ∃ q ph seen name, fromUtf8 name = userName (after rd) ∧ calls w !! q = Some (Finished
    (Programs.CreateChat (userId (after rd)) name friend) (inr (Status true)) ph seen).
Proof.
  intros Ht Hst Hout. accepted doChatCreatedReaction Ht Hst Hout.
  rewrite (userId_shown _ st Hpr). unfold userName. rewrite Hpr. by exists q, ph, seen, (user_name st).
Qed.

Lemma messages_round fresh w rd ex chat : told fresh w rd ex →
  started rd = Some (LoadMessages chat) → m_profile (after rd) ≠ None →
  ∃ q ph seen messages, fresh q ∧
    calls w !! q = Some (Finished (GetMessages chat) (inr (Messages messages)) ph seen) ∧
    MessagesList.m_items (m_messagesList (after rd)) =
      Some (shown_message <$> MessagesResponse.messages messages).
Proof.
  intros Ht Hst Hlog.
  destruct (told_round _ _ _ _ _ _ _ _ Ht Hst ltac:(done) eq_refl eq_refl)
    as (resp & c & s & Hcb & Hag & Hans).
  pose proof (callback_keeps LoadMessagesJob resp c eq_refl) as [_ Hpr]. rewrite Hcb in Hpr.
  simpl in Hpr. rewrite Hpr, Hag in Hlog. unfold answer_from in Hans. simpl in Hans.
  unfold state in Hans. destruct (state_ s) as [st|]; [|done]. simpl in Hans.
  destruct Hans as (q & result & ph & seen & s' & Hf & Hq & Hresp).
  destruct result as [e|[b|id name|x|x|messages]]; try done. injection Hresp as _ <-.
  exists q, ph, seen, messages. split; [done|]. split; [done|].
  cbn [responseProcessingCallback] in Hcb. unfold load_messages_callback in Hcb.
  simpl (Response.has_messages_response _) in Hcb. cbv iota zeta in Hcb. unfold MessagesList.setItems in Hcb.
  destruct (MessagesList.m_items (mesagesList c)); simpl in Hcb; by injection Hcb as <- _.
Qed.

(** ** Lists that are loaded

    [LoadData] loads the contacts and then the chats. *)

Definition fills_contacts rd : Prop :=
  started rd = Some LoadContacts ∨
  started rd = Some LoadData ∧ ToQml doLoadDataReaction ∉ outputs rd.

Definition fills_chats rd : Prop :=
  started rd = Some LoadChats ∨
  started rd = Some LoadData ∧ ToQml doLoadDataReaction ∈ outputs rd.

Definition of_list (j : client_job) : Prop := j = LoadContactsJob ∨ j = LoadChatsJob ∨ j = LoadDataJob.

Lemma send_request_calls r j c : m_profile (send_request r j c).1 = m_profile c ∧
  m_contactsList (send_request r j c).1 = m_contactsList c ∧
  ToQml doLoadDataReaction ∉ (send_request r j c).2.
Proof.
  unfold send_request, NetworkSession.request, connection.
  destruct (isConnected (m_session c)); simpl; split_and!; try done; by intros [=]%list_elem_of_singleton.
Qed.

Lemma setContacts_keeps contacts c : m_profile (setContacts contacts c).1 = m_profile c ∧
  ToQml doLoadDataReaction ∉ (setContacts contacts c).2.
Proof.
  unfold setContacts. cbv zeta. case_match. split; [done|]. simpl. by intros (? & ? & _)%list_elem_of_fmap.
Qed.

Lemma setChats_keeps chats c : m_profile (setChats chats c).1 = m_profile c.
Proof. unfold setChats. cbv zeta. by case_match. Qed.

(** An answer with the contacts, one with the chats, and any other one. *)
Lemma contacts_arrive contacts j c c' out : j = LoadContactsJob ∨ j = LoadDataJob →
  responseProcessingCallback j (contacts_reply contacts) c = (c', out) →
  m_profile c' = m_profile c ∧ ContactsList.m_items (m_contactsList c') = shown_contacts contacts ∧
  (j = LoadDataJob → ToQml doLoadDataReaction ∉ out).
Proof.
  intros Hj Hc. pose proof (setContacts_keeps contacts c) as [Hp Ho].
  destruct (setContacts_shows contacts c) as (l & es & Hset & Hl). rewrite Hset in Hp, Ho. simpl in Hp, Ho.
  destruct Hj as [-> | ->]; cbn [responseProcessingCallback] in Hc.
  - unfold load_contacts_callback in Hc. simpl (Response.has_contacts_response _) in Hc. cbv iota in Hc.
    change (Response.contacts_response _) with contacts in Hc. rewrite Hset in Hc. simpl in Hc.
    by injection Hc as <- _.
  - unfold load_data_callback in Hc. simpl (Response.has_contacts_response _) in Hc. cbv iota in Hc.
    change (Response.contacts_response _) with contacts in Hc. rewrite Hset in Hc.
    pose proof (send_request_calls MessageFactory.createAllMyChatsRequest LoadDataJob (set_contactsList l c))
      as (H1 & H2 & H3).
    destruct (send_request _ _ _) as [c2 out2]. injection Hc as <- <-. simpl in *. rewrite H1, H2.
    split_and!; [done|done|]. intros _. rewrite elem_of_app. tauto.
Qed.

Lemma chats_arrive chats j c c' out : j = LoadChatsJob ∨ j = LoadDataJob →
  responseProcessingCallback j (chats_reply chats) c = (c', out) →
  m_profile c' = m_profile c ∧ ChatsList.m_items (m_chatsList c') = shown_chats chats ∧
  (j = LoadDataJob → ToQml doLoadDataReaction ∈ out).
Proof.
  intros Hj Hc. pose proof (setChats_keeps chats c) as Hp.
  destruct (setChats_shows chats c) as (l & es & Hset & Hl). rewrite Hset in Hp. simpl in Hp.
  destruct Hj as [-> | ->]; cbn [responseProcessingCallback] in Hc;
    unfold load_chats_callback, load_data_callback in Hc;
    simpl (Response.has_contacts_response _) in Hc; simpl (Response.has_chats_response _) in Hc;
    cbv iota in Hc; change (Response.chats_response _) with chats in Hc; rewrite Hset in Hc; simpl in Hc;
    injection Hc as <- <-; split_and!; try done. intros _. set_solver.
Qed.

Lemma nothing_arrives j c c' out : of_list j →
  responseProcessingCallback j Response.SharedCtor c = (c', out) →
  m_profile c' = m_profile c ∧ (j = LoadDataJob → ToQml doLoadDataReaction ∈ out).
Proof. intros [->|[->| ->]] [= <- <-]; split; try done. intros _. by left. Qed.

(** Who is logged in gets an answer with the list he asked for. *)
Lemma list_answer fresh w s st sj resp : state_ s = Some st → answer_from fresh w sj s resp →
  (sj = ContactsRequestJob → ∃ q ph seen contacts, fresh q ∧ resp = contacts_reply contacts ∧
     calls w !! q = Some (Finished (GetContacts (user_id st)) (inr (Contacts contacts)) ph seen)) ∧
  (sj = ChatsRequestJob → ∃ q ph seen chats, fresh q ∧ resp = chats_reply chats ∧
     calls w !! q = Some (Finished (GetChats (user_id st)) (inr (Chats chats)) ph seen)).
Proof.
  intros Hs Ha. split; intros ->; unfold answer_from in Ha; simpl in Ha; unfold state in Ha; rewrite Hs in Ha;
    destruct Ha as (q & [e|[b|id name|x|x|x]] & ph & seen & s' & Hf & Hq & Hresp); try done;
    injection Hresp as _ <-; by exists q, ph, seen, x.
Qed.

(** The two requests a list is loaded with. *)
Lemma list_asking rd h r j : started rd = Some h → fills_contacts rd ∨ fills_chats rd → asking h r j →
  (request_job r = Some ContactsRequestJob ∧ (j = LoadContactsJob ∨ j = LoadDataJob) ∨
   request_job r = Some ChatsRequestJob ∧ (j = LoadChatsJob ∨ j = LoadDataJob)) ∧
  (h = LoadData ↔ j = LoadDataJob) ∧ 
  (h = LoadContacts → request_job r = Some ContactsRequestJob) ∧
  (h = LoadChats → request_job r = Some ChatsRequestJob).
Proof.
  unfold fills_contacts, fills_chats. intros -> Hl [Ha|(-> & -> & ->)].
  - destruct Hl as [[[= ->]|[[= ->] _]]|[[= ->]|[[= ->] _]]]; injection Ha as <- <-; split_and!; try done; auto.
  - split_and!; try done; auto.
Qed.

(** A round that fills a list of somebody who is logged in. *)
Lemma list_round fresh w rd ex : told fresh w rd ex → fills_contacts rd ∨ fills_chats rd →
  m_profile (after rd) ≠ None → ∃ h j resp c st q ph seen, started rd = Some h ∧
    responseProcessingCallback j resp c = (after rd, outputs rd) ∧ m_profile c = Some (profile_shown st) ∧
    (h = LoadData ↔ j = LoadDataJob) ∧ fresh q ∧
    (h ≠ LoadChats ∧ (j = LoadContactsJob ∨ j = LoadDataJob) ∧ (∃ contacts, resp = contacts_reply contacts ∧
       calls w !! q = Some (Finished (GetContacts (user_id st)) (inr (Contacts contacts)) ph seen)) ∨
     h ≠ LoadContacts ∧ (j = LoadChatsJob ∨ j = LoadDataJob) ∧ (∃ chats, resp = chats_reply chats ∧
       calls w !! q = Some (Finished (GetChats (user_id st)) (inr (Chats chats)) ph seen))).
Proof.
  intros (h & r & j & resp & c & Hst & Hask & _ & _ & (_ & _ & sj & s & Hsj & Hag & Hans) & Hcb) Hl Hlog.
  destruct (list_asking rd h r j Hst Hl Hask) as (Hr & Hld & Hcon & Hch). unfold agrees in Hag.
  destruct (state_ s) as [st|] eqn:Hs; simpl in Hag.
  - destruct (list_answer _ _ _ _ _ _ Hs Hans) as [H1 H2]. rewrite Hsj in Hr, Hcon, Hch.
    destruct Hr as [[[= ->] Hj]|[[= ->] Hj]].
    + destruct (H1 eq_refl) as (q & ph & seen & contacts & Hf & -> & Hq).
      exists h, j, (contacts_reply contacts), c, st, q, ph, seen. split_and!; try done.
      left. split_and!; [by intros [=]%Hch|done|by exists contacts].
    + destruct (H2 eq_refl) as (q & ph & seen & chats & Hf & -> & Hq).
      exists h, j, (chats_reply chats), c, st, q, ph, seen. split_and!; try done.
      right. split_and!; [by intros [=]%Hcon|done|by exists chats].
  - destruct Hlog. rewrite <- Hag. assert (resp = Response.SharedCtor) as ->.
    { unfold answer_from in Hans. rewrite Hsj in Hr.
      destruct Hr as [[[= ->] _]|[[= ->] _]]; simpl in Hans; unfold state in Hans; by rewrite Hs in Hans. }
    eapply nothing_arrives; [|exact Hcb]. unfold of_list. destruct Hr as [[_ []]|[_ []]]; auto.
Qed.

Lemma contacts_round fresh w rd ex : told fresh w rd ex → fills_contacts rd → m_profile (after rd) ≠ None →
  ∃ q ph seen contacts, fresh q ∧
    calls w !! q = Some (Finished (GetContacts (userId (after rd))) (inr (Contacts contacts)) ph seen) ∧
    ContactsList.m_items (m_contactsList (after rd)) = shown_contacts contacts.
Proof.
  intros Ht Hl Hlog.
  destruct (list_round _ _ _ _ Ht (or_introl Hl) Hlog) as (h & j & resp & c & st & q & ph & seen & Hst &
    Hcb & Hc & Hld & Hf & [(_ & Hj & contacts & -> & Hq)|(Hne & Hj & chats & -> & Hq)]).
  - destruct (contacts_arrive _ _ _ _ _ Hj Hcb) as (Hp & Hi & _).
    rewrite (userId_shown _ st) by congruence. by exists q, ph, seen, contacts.
  - destruct (chats_arrive _ _ _ _ _ Hj Hcb) as (_ & _ & Ho). unfold fills_contacts in Hl.
    rewrite Hst in Hl. destruct Hl as [[= ->]|[[= ->] []]]; [done|]. by apply Ho, Hld.
Qed.

Lemma chats_round fresh w rd ex : told fresh w rd ex → fills_chats rd → m_profile (after rd) ≠ None →
  ∃ q ph seen chats, fresh q ∧
    calls w !! q = Some (Finished (GetChats (userId (after rd))) (inr (Chats chats)) ph seen) ∧
    ChatsList.m_items (m_chatsList (after rd)) = shown_chats chats.
Proof.
  intros Ht Hl Hlog.
  destruct (list_round _ _ _ _ Ht (or_intror Hl) Hlog) as (h & j & resp & c & st & q & ph & seen & Hst &
    Hcb & Hc & Hld & Hf & [(Hne & Hj & contacts & -> & Hq)|(_ & Hj & chats & -> & Hq)]).
  - destruct (contacts_arrive _ _ _ _ _ Hj Hcb) as (_ & _ & Ho). unfold fills_chats in Hl.
    rewrite Hst in Hl. destruct Hl as [[= ->]|[[= ->] Hout]]; [done|]. by destruct (Ho (proj1 Hld eq_refl)).
  - destruct (chats_arrive _ _ _ _ _ Hj Hcb) as (Hp & Hi & _).
    rewrite (userId_shown _ st) by congruence. by exists q, ph, seen, chats.
Qed.
End Meaning.
