(* ===== verification/SystemProgress.v ===== *)
(** * The system goes on

    A window that waits for a response over a connection that is up can be
    answered without a fault and without anybody doing anything new: each step
    brings its request nearer to the answer, or a call of the storage nearer to
    its end. *)
From stdpp Require Import gmap.
From S2P Require Import Prelude Wire Parser Message Requests Responses Envelope Framing.
From S2P Require Import Storage Database Postgres Programs Interleaving Isolation Serial Progress Steps.
From S2P Require Import Session Jobs JobCalls Server ConcurrentServer ServerFacts ServerInvariant.
From S2P Require Import ConcurrentFacts Traffic ConcurrentInvariant ConcurrentProgress.
From S2P Require Import Qt ClientLists NetworkSession NetworkTheorems Client ClientTheorems.
From S2P Require Import System SystemInvariant SystemWindows SystemSteps SystemRounds.

Section Progress.
Context `{W : WireFormat} {L : WireFormatLaws W} `{Mem : Memory} `{Q : Qt} `{P : Pqxx} {PL : PqxxLaws P}.
Implicit Types (S : system) (d : db).

(** A step towards the response window [i] waits for: a packet arrives, or an
    operation of its session completes without an error, or a worker goes on
    with a job. *)
Definition helps S (i : nat) (ev : sys_event) : bool :=
  match ev with
  | Delivers i' => bool_decide (i' = i)
  | Serves (CLocal i' k c) =>
      bool_decide (i' = i) && negb (err c) || worker_step (srv S) (CLocal i' k c)
  | Serves ev => worker_step (srv S) ev
  | Joins | Leaves _ | Uses _ _ => false
  end.

Definition helped (i : nat) S S' : Prop :=
  ∃ ev, helps S i ev = true ∧ shandle ev S = Some S' ∧ Forall sendable (mails ev S).

(** A step of the server among them. *)
Definition serving (i : nat) S S' : Prop :=
  ∃ ev, helps S i (Serves ev) = true ∧ shandle (Serves ev) S = Some S' ∧
    Forall sendable (mails (Serves ev) S).

Lemma serving_helped i S S' : serving i S S' → helped i S S'.
Proof. intros (ev & H). by exists (Serves ev). Qed.

Lemma serving_step i S S' : serving i S S' → sys_step S S'.
Proof. intros (ev & _ & H). by exists (Serves ev). Qed.

(** How far the request is; the steps of the calls under way come on top. *)
Definition rank (os : list operation) : nat :=
  match os with
  | [Write _] => 5
  | [ReadPrefix] => 4
  | [ReadMessage _] => 3
  | [RunJob ParseCommandJob] => 2
  | [RunJob _] => 1
  | _ => 0
  end.

(** The session of a window after a step: stopped, with a response on its way,
    or nearer to it. *)
Definition nearer S S' (i : nat) (p : peer) (l : link) (g : gmap nat nat) : Prop :=
  down (front (srv S')) = true ∨
  ∃ p' l', peers S' !! i = Some p' ∧ current p' = current p ∧ screen p' = screen p ∧
    links (front (srv S')) !! i = Some l' ∧
    (stopped_ (session l') = true ∨ is_Some (frames (history l') !! length (screen p)) ∨
     ∃ g', budget (srv S') g' ∧
       (rank (pending l') < rank (pending l) ∨
        rank (pending l') = rank (pending l) ∧ total g' < total g)%nat).

(** A handler of the event loop, or a job that calls nothing. *)
Lemma local_rank o c s s' out : stopped_ s = false → local_complete o c s = Some (s', out) →
  throws out = true ∨ stopped_ s' = true ∨
  (received o s' out = [] ∧ ∃ frame, omap sent out = [Sent frame]) ∨
  (rank (omap to_operation out) < rank [o])%nat.
Proof.
  intros Hs Hc. destruct o as [|n|data|j]; simpl in Hc; [injection Hc as Hc..|].
  - pose proof (on_read_prefix_proceeds (err c) (zlen (data_read c)) (fill_buffer c s) Hs) as Hp.
    rewrite Hc in Hp. destruct Hp as [[Hst _]|[_ [Ho|(a & Ho & n & ->)]]]; simpl in *; try subst out;
      [by right; left|by left|]. right. right. right. simpl. lia.
  - pose proof (on_read_message_proceeds (err c) (zlen (data_read c)) n (fill_buffer c s) Hs) as Hp.
    rewrite Hc in Hp. destruct Hp as [[Hst _]|[_ [Ho|(a & Ho & ->)]]]; simpl in *; try subst out;
      [by right; left|by left|]. right. right. right. simpl. lia.
  - pose proof (on_write_proceeds (err c) s Hs) as Hp.
    rewrite Hc in Hp. destruct Hp as [[Hst _]|[_ [Ho|(a & Ho & ->)]]]; simpl in *; try subst out;
      [by right; left|by left|]. right. right. right. simpl. lia.
  - destruct (job_call j s); [done|]. injection Hc as Hc.
    assert (j = ParseCommandJob ∨ j ≠ ParseCommandJob) as [->|Hne] by (destruct j; auto).
    + pose proof (parse_command_proceeds s Hs) as Hp. simpl in Hc. rewrite Hc in Hp.
      destruct Hp as [[Hst _]|[_ [Ho|(a & Ho & r & j & _ & Hj & ->)]]]; simpl in *; try subst out;
        [by right; left|by left|]. right. right. right. simpl.
      destruct j; try lia. by apply request_job_not_parse in Hj.
    + destruct (write_proceeds empty_response s Hs) as (Hp & _).
      replace (job_alone j s) with (write empty_response s) in Hc by (by destruct j).
      rewrite Hc in Hp. destruct Hp as [[Hst _]|[_ [Ho|(a & Ho & data & -> & _)]]]; simpl in *; try subst out;
        [by right; left|by left|]. right. right. left. split; [done|]. by exists data.
Qed.

Lemma local_nearer S S1 i p l o c sv g :
  peers S !! i = Some p → links (front (srv S)) !! i = Some l → pending l = [o] →
  stopped_ (session l) = false → length (frames (history l)) = length (screen p) →
  budget (srv S) g → read_from i 0 c S = Some S1 → handle_local i 0 c (srv S) = Some sv →
  nearer S (System sv (peers S1)) i p l g.
Proof.
  intros Hp Hl Hpend Hs Hlen [Hb1 Hb2] Hrd Hh. unfold handle_local in Hh.
  destruct (down (front (srv S))); [done|]. rewrite Hl in Hh. simpl in Hh. rewrite Hpend in Hh.
  simpl in Hh. destruct (_ && _); [|done].
  destruct (local_complete o c (session l)) as [[s out]|] eqn:Hc; [|done]. injection Hh as <-.
  assert (∃ p', peers S1 !! i = Some p' ∧ current p' = current p ∧ screen p' = screen p)
    as (p' & Hp' & Hcur & Hscr).
  { revert Hrd. unfold read_from. rewrite Hp.
    destruct (links (front (srv S)) !! i ≫= _) as [[]|]; try (intros [= <-]; by exists p);
      (case_decide; [|done]); intros [= <-]; simpl; rewrite lookup_insert_eq; by eexists. }
  destruct (local_rank o c (session l) s out Hs Hc) as [Ht|Hrest]; [by left|right].
  eexists p', _. split; [done|]. split; [done|]. split; [done|]. simpl. rewrite lookup_insert_eq.
  split; [done|]. simpl. destruct Hrest as [Hst|[[Hr (frame & Hf)]|Hrank]]; [by left|right; left|right; right].
  - rewrite Hr, Hf, frames_app, <- Hlen. eexists. simpl. by apply list_lookup_middle.
  - exists g. split; [by split|]. left. by rewrite Hpend.
Qed.

(** An operation of the session can complete without an error. *)
Lemma session_goes_on S i p l o data g : down (front (srv S)) = false → peers S !! i = Some p →
  links (front (srv S)) !! i = Some l → pending l = [o] → stopped_ (session l) = false →
  length (frames (history l)) = length (screen p) → budget (srv S) g →
  is_Some (local_complete o (Completion false data) (session l)) →
  (needs_worker o = true → worker_free (database (srv S)) = true) →
  completion_ok o (session l) (Completion false data) = true → data `prefix_of` upstream p →
  ∃ S', serving i S S' ∧ nearer S S' i p l g.
Proof.
  intros Hd Hp Hl Hpend Hs Hlen Hb [[s out] Hrun] Hn Hc Hdata. set (c := Completion false data) in *.
  assert (∃ S1, read_from i 0 c S = Some S1 ∧ srv S1 = srv S) as (S1 & Hrd & Hsrv).
  { unfold read_from. rewrite Hp, Hl. simpl. rewrite Hpend. simpl.
    destruct o; rewrite ?decide_True by done; by eexists. }
  assert (∃ sv, handle_local i 0 c (srv S) = Some sv) as (sv & Hh).
  { unfold handle_local. rewrite Hd, Hl. simpl. rewrite Hpend. simpl. rewrite Hc.
    destruct (needs_worker o); [rewrite Hn by done|]; simpl; rewrite Hrun; by eexists. }
  assert (shandle (Serves (CLocal i 0 c)) S = Some (System sv (peers S1))) as Hst.
  { cbn [shandle]. unfold serves. rewrite Hrd. cbn [mbind option_bind]. rewrite Hsrv.
    cbn [chandle]. by rewrite Hh. }
  exists (System sv (peers S1)). split; [|by eapply local_nearer].
  exists (CLocal i 0 c). split; [|by split]. simpl. by rewrite bool_decide_eq_true_2.
Qed.

(** ** Jobs *)

(** An answer of the storage that cannot be framed. *)
Definition oversized S : Prop :=
  ∃ q resp, reply q (srv S) = Some resp ∧ ¬ sendable (response_message resp).

Lemma mails_fit S ev : (∀ i h, ev ≠ Uses i h) → Forall sendable (mails ev S) ∨ oversized S.
Proof.
  intros Hev. destruct ev as [|i|[error| |i k c|i k q|ev|q]|i h|i]; simpl; try (by left).
  - destruct (executing (srv S) !! q) as [[i sj]|]; [|by left]. destruct (peers S !! i); [|by left].
    destruct (reply q (srv S)) as [resp|] eqn:Hr; [|by left].
    destruct (decide (sendable (response_message resp))); [left; by constructor|right; by exists q, resp].
  - by destruct (Hev i h).
Qed.

Lemma job_end_shape j result s : stopped_ s = false →
  (job_end j result s).2 = [Throw] ∨ ∃ frame, (job_end j result s).2 = [AsyncWrite frame].
Proof.
  intros Hs. unfold job_end. destruct (job_response j result s) as [[s' resp]|] eqn:Hr; [|by left].
  assert (stopped_ s' = false) as Hs'.
  { destruct j, result as [e|[b|id name|x|x|x]]; try done; by injection Hr as <- _. }
  destruct (write_proceeds (wrap resp) s' Hs') as ([[Hx _]|[_ [Ho|(a & Ho & f & -> & _)]]] & Hrun & _);
    [congruence|by left|right; by exists f].
Qed.

(** A call under way goes on, or ends. *)
Lemma job_nearer d S i p l ev sv g : cserver_ok d (srv S) → peers S !! i = Some p →
  links (front (srv S)) !! i = Some l → stopped_ (session l) = false →
  length (frames (history l)) = length (screen p) → budget (srv S) g →
  job_step ev = true → chandle ev (srv S) = Some sv →
  helps S i (Serves ev) = true ∧ shandle (Serves ev) S = Some (System sv (peers S)) ∧
  nearer S (System sv (peers S)) i p l g.
Proof.
  intros Hok Hp Hl Hs Hlen Hb Hj Hh.
  assert (shandle (Serves ev) S = Some (System sv (peers S))) as Hst.
  { cbn [shandle]. unfold serves. destruct ev; try done; cbn [mbind option_bind]; by rewrite Hh. }
  split; [by destruct ev|]. split; [done|].
  destruct (job_step_budget d _ _ _ g Hok Hj Hh Hb) as (g' & Hb' & Hlt).
  assert (links (front sv) !! i = Some l → nearer S (System sv (peers S)) i p l g) as Hsame.
  { intros Hl'. right. exists p, l. do 4 (split; [done|]). right. right. exists g'. split; [done|]. by right. }
  destruct ev as [| | | |ev|q]; try done; simpl in Hh.
  - apply Hsame. unfold database_step in Hh. destruct (down (front (srv S))); [done|].
    by destruct ev; try done; apply bind_Some in Hh as (w & _ & [= <-]).
  - unfold end_job in Hh. destruct (down (front (srv S))); [done|].
    apply bind_Some in Hh as ([i' j] & Hex & (l' & Hl' & (w & Hw & Hh)%bind_Some)%bind_Some).
    destruct (calls w !! q) as [[|op result ph seen]|]; try done.
    pose proof (job_end_shape j result (session l')) as Hshape.
    destruct (job_end j result (session l')) as [s out]. injection Hh as <-.
    destruct (decide (i' = i)) as [->|Hne]; [|apply Hsame; simpl; by rewrite lookup_insert_ne].
    rewrite Hl in Hl'. injection Hl' as <-.
    destruct (Hshape Hs) as [Ho|(frame & Ho)]; simpl in Ho; subst out; [by left|right].
    eexists p, _. do 3 (split; [done|]). simpl. rewrite lookup_insert_eq. split; [done|]. right. left.
    simpl. rewrite frames_app, <- Hlen. eexists. by apply list_lookup_middle.
Qed.

(** A worker takes the job of the session. *)
Lemma start_nearer S i p l j op g : down (front (srv S)) = false → peers S !! i = Some p →
  links (front (srv S)) !! i = Some l → pending l = [RunJob j] → job_call j (session l) = Some op →
  (Interleaving.busy (database (srv S)) < WORKER_THREADS)%nat → budget (srv S) g →
  ∃ S', serving i S S' ∧ nearer S S' i p l g.
Proof.
  intros Hd Hp Hl Hpend Hj Hw [Hb1 Hb2].
  set (q := fresh (dom (calls (database (srv S))))).
  assert (calls (database (srv S)) !! q = None) as Hq by apply not_elem_of_dom_1, is_fresh.
  assert (∃ w, begin_call q op (database (srv S)) = Some w) as (w & Hbegin).
  { unfold begin_call. rewrite Hq, decide_True by done. by eexists. }
  destruct (begin_call_now _ _ _ _ Hbegin) as [_ Hnow].
  set (sv := with_link (srv S) i (Link (session l) (delete 0%nat (pending l)) (history l)) w
               (<[q:=(i, j)]> (executing (srv S))) false).
  assert (chandle (CStart i 0 q) (srv S) = Some sv) as Hh.
  { cbn [chandle]. unfold start_job. rewrite Hd, Hl. simpl. rewrite Hpend. simpl. rewrite Hj. simpl.
    rewrite Hbegin. unfold sv. by rewrite Hpend. }
  assert (shandle (Serves (CStart i 0 q)) S = Some (System sv (peers S))) as Hst.
  { cbn [shandle]. unfold serves. cbn [mbind option_bind]. by rewrite Hh. }
  exists (System sv (peers S)). split; [by exists (CStart i 0 q)|]. right. eexists p, _. do 3 (split; [done|]). simpl.
  rewrite lookup_insert_eq. split; [done|]. right. right. exists (<[q:=Datatypes.S most_exchanges]> g). split.
  - split; unfold database; simpl.
    + intros q'. destruct (decide (q = q')) as [<-|]; [intros _; rewrite lookup_insert_eq; by eexists|].
      rewrite !lookup_insert_ne by done. auto.
    + intros q' k. rewrite lookup_insert_Some. intros [[<- <-]|[Hne Hk]].
      * rewrite Hnow. simpl. exists most_exchanges. split; [done|apply program_within].
      * eapply (may_move_others _ _ _ (Call q op)); [done|exact Hbegin|by apply Hb2].
  - left. rewrite Hpend. simpl. destruct j; lia.
Qed.

(** ** A response *)

(** What keeps a response from a window. *)
Definition failed S (i : nat) : Prop :=
  down (front (srv S)) = true ∨
  (∃ l, links (front (srv S)) !! i = Some l ∧ stopped_ (session l) = true) ∨
  oversized S.

(** What a window that waits comes to. *)
Definition settled S (i : nat) (p : peer) : Prop :=
  failed S i ∨ ∃ p' rd, peers S !! i = Some p' ∧ screen p' = screen p ++ [rd] ∧ started rd = current p.

(** The response is there. *)
Definition replied S (i : nat) (p : peer) : Prop :=
  ∃ p', peers S !! i = Some p' ∧ current p' = current p ∧ screen p' = screen p ∧
    is_Some (frames (talk_of (srv S) i) !! length (screen p)).

Lemma delivery_settles S i p : replied S i p → ∃ S', helped i S S' ∧ settled S' i p.
Proof.
  intros (p' & Hp & Hc & Hs & [frame Hf]).
  destruct (happens (Arrival frame) (window p')) as [c out] eqn:Hh.
  eexists. assert (shandle (Delivers i) S = Some (System (srv S)
    (<[i := Peer c (if availible c then None else current p') (upstream p' ++ to_server out)
               (screen p' ++ [Round (current p') out c])]> (peers S)))) as Hst.
  { cbn [shandle]. unfold delivers. rewrite Hp. cbn [mbind option_bind]. rewrite Hs, Hf.
    cbn [mbind option_bind]. by rewrite Hh. }
  split; [exists (Delivers i); split; [by apply bool_decide_eq_true_2|by split]|].
  right. eexists _, _. simpl. rewrite lookup_insert_eq. split; [done|]. simpl. by rewrite Hs, Hc.
Qed.

Lemma heard_nearer d S i p l sj g : cserver_ok d (srv S) → down (front (srv S)) = false →
  peers S !! i = Some p → links (front (srv S)) !! i = Some l → stopped_ (session l) = false →
  length (frames (history l)) = length (screen p) → budget (srv S) g →
  pending (whole (executing (srv S)) i l) = [RunJob sj] →
  (∃ S', serving i S S' ∧ nearer S S' i p l g) ∨ oversized S.
Proof.
  intros Hok Hd Hp Hl Hs Hlen Hb Hwhole.
  assert ((∃ q e, executing (srv S) !! q = Some e) →
    (∃ S', serving i S S' ∧ nearer S S' i p l g) ∨ oversized S) as Hgo.
  { intros (q & e & Hq). destruct (executing_moves d _ q e Hok Hd Hq) as (ev & sv & Hj & Hh).
    destruct (job_nearer d S i p l ev sv g Hok Hp Hl Hs Hlen Hb Hj Hh) as (H1 & H2 & H3).
    destruct (mails_fit S (Serves ev)) as [Hm|Ho]; [done| |by right]. left.
    eexists. split; [by exists ev|exact H3]. }
  simpl in Hwhole. destruct (pending l) as [|o rest] eqn:Hpend.
  - apply Hgo. assert (sj ∈ jobs_of (executing (srv S)) i) as Hin.
    { simpl in Hwhole. destruct (jobs_of _ i) as [|j [|]]; try done. injection Hwhole as ->. by left. }
    unfold jobs_of in Hin. rewrite <- list_fmap_compose in Hin.
    apply list_elem_of_fmap in Hin as ([q e] & _ & Hin%elem_of_map_to_list).
    apply map_lookup_filter_Some in Hin as [Hq _]. eauto.
  - injection Hwhole as -> [-> _]%app_eq_nil.
    destruct (decide (Interleaving.busy (database (srv S)) < WORKER_THREADS)%nat) as [Hw|Hw].
    + left. destruct (job_call sj (session l)) as [op|] eqn:Hj; [by eapply start_nearer|].
      eapply (session_goes_on S i p l (RunJob sj) []); try done; [|by intros _; apply bool_decide_eq_true_2|
        by apply prefix_nil]. simpl. rewrite Hj. by destruct (job_alone sj (session l)); eexists.
    + apply Hgo. destruct (set_choose_or_empty (running_calls (database (srv S)))) as [[q Hq]|He].
      * apply elem_of_running in Hq. destruct (co_running _ _ Hok q Hq) as [e He]. eauto.
      * rewrite busy_size, He, size_empty in Hw. unfold WORKER_THREADS in Hw. lia.
Qed.

Lemma answer_nearer w0 begun d S i p l g : system_ok w0 begun d S → down (front (srv S)) = false →
  peers S !! i = Some p → links (front (srv S)) !! i = Some l → stopped_ (session l) = false →
  current p ≠ None → budget (srv S) g → frames (history l) !! length (screen p) = None →
  (∃ S', serving i S S' ∧ nearer S S' i p l g) ∨ oversized S.
Proof.
  intros Hok Hd Hp Hl Hs Hcur Hb Hnone. pose proof (so_server _ _ _ _ Hok) as Hsv.
  destruct (so_peer _ _ _ _ Hok i p Hp) as (l' & talk & st & Hl' & Hh & [Hlen _] & Hw & _ & Hsess).
  rewrite Hl in Hl'. injection Hl' as <-. destruct (Hsess Hd) as [_ Hline].
  destruct (Hline Hs) as ((o & Ho & Hlo) & _).
  assert (frames (unmatched st) = []) as Hun.
  { rewrite Hh, frames_app, frames_flatten, Hlen, lookup_app_r in Hnone by (by rewrite length_fmap).
    rewrite length_fmap, Nat.sub_diag in Hnone. by destruct st. }
  assert (length (frames (history l)) = length (screen p)) as Hframes
    by (by rewrite Hh, frames_app, Hun, app_nil_r, frames_flatten, length_fmap).
  assert (needs_worker o = false → pending l = [o]) as Hpend.
  { intros Hn. simpl in Ho. destruct (pending l) as [|o' rest].
    - destruct (jobs_of _ i) as [|j [|]]; try done. simpl in Ho. by injection Ho as <-.
    - injection Ho as -> [-> _]%app_eq_nil. done. }
  destruct st as [|r j|r j|r j resp]; [by destruct Hw as [_ [Hc _]]|left| |done].
  - pose proof (window_requests_fit _ _ Hw r j eq_refl) as [Hfit _].
    pose proof (sendable_size _ Hfit) as Hsize. unfold int_max in Hsize.
    destruct o as [|n|data|sj]; try done; simpl in Hlo; specialize (Hpend eq_refl).
    + destruct Hlo as [Hup Hbuf].
      apply (session_goes_on S i p l ReadPrefix (prefix_of (zlen (enc r)))); try done;
        [|rewrite Hup; by apply prefix_app_r].
      simpl. rewrite Hbuf, zlen_prefix; [done|unfold uint64_ok, enc; lia|unfold enc; lia].
    + destruct Hlo as (Hup & -> & Hbuf).
      apply (session_goes_on S i p l (ReadMessage (zlen (enc r))) (enc r)); try done;
        [by simpl; rewrite Hbuf, Z.eqb_refl|by rewrite Hup].
    + apply (session_goes_on S i p l (Write data) []); try done. by apply prefix_nil.
  - destruct o as [|n|data|sj]; try done. by eapply heard_nearer.
Qed.

(** Without a step of anybody but the server the response gets there. *)
Lemma waiting_is_served w0 begun d S i p l g : system_ok w0 begun d S → down (front (srv S)) = false →
  peers S !! i = Some p → links (front (srv S)) !! i = Some l → stopped_ (session l) = false →
  current p ≠ None → budget (srv S) g →
  ∃ S', rtc (serving i) S S' ∧ (failed S' i ∨ replied S' i p).
Proof.
  remember (rank (pending l)) as n eqn:Hn. revert S p l g Hn.
  induction n as [n IHn] using lt_wf_ind. intros S p l g. remember (total g) as m eqn:Hm.
  revert S p l g Hm. induction m as [m IHm] using lt_wf_ind.
  intros S p l g Hm Hn Hok Hd Hp Hl Hs Hcur Hb.
  destruct (frames (history l) !! length (screen p)) as [frame|] eqn:Hf.
  { exists S. split; [done|]. right. exists p. split_and!; try done. unfold talk_of. rewrite Hl. by exists frame. }
  destruct (answer_nearer _ _ _ _ _ _ _ g Hok Hd Hp Hl Hs Hcur Hb Hf) as [(S1 & Hst & Hnear)|Ho].
  2: { exists S. split; [done|]. left. right. by right. }
  pose proof (sys_step_ok _ _ _ _ _ Hok (serving_step _ _ _ Hst)) as Hok1.
  assert (failed S1 i ∨ replied S1 i p → ∃ S', rtc (serving i) S S' ∧ (failed S' i ∨ replied S' i p)) as Hnow.
  { intros Hset. exists S1. split; [by apply rtc_once|done]. }
  destruct Hnear as [Hdown|(p1 & l1 & Hp1 & Hc1 & Hs1 & Hl1 & Hrest)]; [by apply Hnow; left; left|].
  destruct (stopped_ (session l1)) eqn:Hstop; [apply Hnow; left; right; left; eauto|].
  destruct (down (front (srv S1))) eqn:Hd1; [by apply Hnow; left; left|].
  destruct Hrest as [?|[Hf1|(g1 & Hb1 & Hrank)]]; [congruence| |].
  { apply Hnow. right. exists p1. unfold talk_of. by rewrite Hl1. }
  assert (∃ S2, rtc (serving i) S1 S2 ∧ (failed S2 i ∨ replied S2 i p1)) as (S2 & H1 & H2).
  { assert (current p1 ≠ None) as Hcur1 by congruence. destruct Hrank as [Hrank|[Hrank Htot]].
    - eapply (IHn (rank (pending l1)) ltac:(lia) S1 p1 l1 g1); done.
    - eapply (IHm (total g1) ltac:(lia) S1 p1 l1 g1); try done. congruence. }
  exists S2. split; [by eapply rtc_l|]. unfold replied in *. by rewrite Hs1, Hc1 in H2.
Qed.
End Progress.
