(* ===== verification/SystemTheorems.v ===== *)
(** * The properties of the whole system

    What holds in every state that windows, network, server and database can
    come into together. *)
From stdpp Require Import gmap.
From Stdlib Require Import String.
From S2P Require Import Prelude Wire Parser Message Requests Responses Envelope Framing WireInstance.
From S2P Require Import Storage Database Postgres Growth StorageTheorems Programs Interleaving Isolation Serial.
From S2P Require Import Steps Messenger Linearization Session Jobs JobCalls Server ConcurrentServer.
From S2P Require Import ServerFacts ServerInvariant ServerTheorems ConcurrentFacts Traffic.
From S2P Require Import ConcurrentInvariant ConcurrentProgress ConcurrentServerTheorems.
From S2P Require Import Qt ClientLists ClientListTheorems NetworkSession NetworkTheorems Client.
From S2P Require Import ClientTheorems EndToEnd.
From S2P Require Import System SystemInvariant SystemWindows SystemSteps SystemRounds SystemProgress.

Section Theorems.
Context `{W : WireFormat} {L : WireFormatLaws W} `{Mem : Memory} `{Q : Qt} {QL : QtLaws Q}
  `{P : Pqxx} {PL : PqxxLaws P}.
Implicit Types (S : system) (d : db) (rd : round).

(** C3: each end of a connection handles the messages of the other one in step:
    the [k]-th thing a window is told is the [k]-th response of its session,
    to the request of the operation the window had under way, handled by the
    callback of the job that sent it; and the response is that of the request's
    job on the server for the user the window showed at that moment: the answer
    of a call of the storage that has returned, or the empty response if the
    window had nobody logged in. *)
Theorem rounds_are_calls d S i p k rd :
  tables_ok d → sys_reachable d S → peers S !! i = Some p → screen p !! k = Some rd →
  ∃ h r j resp c h1 h2 sj s, started rd = Some h ∧ asking h r j ∧
    talk_of (srv S) i =
      h1 ++ Received (enc r) :: Sent (packet (response_message resp)) :: h2 ∧ length h1 = (2 * k)%nat ∧
    responseProcessingCallback j resp c = (after rd, outputs rd) ∧ response_matches r resp ∧
    request_job r = Some sj ∧ m_profile c = profile_shown <$> state_ s ∧
    match job_call sj s with
    | Some op => ∃ q result ph seen s',
        calls (database (srv S)) !! q = Some (Finished op result ph seen) ∧
        job_response sj result s = Some (s', resp)
    | None => state_ s = None ∧ resp = Response.SharedCtor
    end.
Proof.
  intros Hd Hr Hp Hrd. pose proof (sys_reachable_ok d S Hd Hr) as Hok.
  destruct (so_peer _ _ _ _ Hok i p Hp) as (l & talk & st & Hl & Hh & [Hlen Ht] & _).
  destruct (lookup_lt_is_Some_2 talk k) as [ex Hex].
  { rewrite <- Hlen. by eapply lookup_lt_Some. }
  destruct (Ht k rd ex Hrd Hex) as (h & r & j & resp & c & H1 & H2 & _ & -> & (_ & H3 & sj & s & H4 & H5 & H6) & H7).
  destruct (flatten_place _ _ _ Hex) as (h1 & h2 & Hf & Hk).
  exists h, r, j, resp, c, h1, (h2 ++ unmatched st), sj, s. unfold talk_of. rewrite Hl, Hh, Hf, <- app_assoc.
  split_and!; try done. unfold answer_from in H6. destruct (job_call sj s) as [op|] eqn:Hcall.
  - destruct H6 as (q & result & ph & seen & s' & _ & Hq). by exists q, result, ph, seen, s'.
  - split; [|done]. destruct r as [u]. destruct u; try done; injection H4 as <-; simpl in Hcall;
      unfold state in Hcall; by destruct (state_ s).
Qed.

(** C14: both ends agree on who is logged in: whenever a window has no operation
    under way, the profile it shows is that of its session, and it is the
    identifier, the name and the email of a client in the tables. *)
Theorem ends_agree d S i p l :
  tables_ok d → sys_reachable d S → down (front (srv S)) = false →
  peers S !! i = Some p → links (front (srv S)) !! i = Some l → current p = None →
  m_profile (window p) = profile_shown <$> state_ (session l) ∧
  ∀ pr, m_profile (window p) = Some pr → ∃ row email, row ∈ Database.Client (shared (database (srv S))) ∧
    m_userId pr = c_id row ∧ m_userName pr = fromUtf8 (c_name row) ∧
    m_userEmail pr = fromUtf8 email ∧ quote_text email = Some (c_email row).
Proof.
  intros Hd Hr Hdown Hp Hl Hcur. pose proof (sys_reachable_ok d S Hd Hr) as Hok.
  destruct (so_peer _ _ _ _ Hok i p Hp) as (l' & talk & st & Hl' & _ & _ & [_ Hw] & _ & Hs).
  rewrite Hl in Hl'. injection Hl' as <-. destruct (Hs Hdown) as [Hag _].
  assert (st = Free) as ->.
  { destruct st; [done|..]; destruct Hw as ((h & Hc & _) & _); congruence. }
  split; [exact Hag|]. intros pr Hpr. simpl in Hag. unfold agrees in Hag. rewrite Hpr in Hag.
  destruct (state_ (session l)) as [u|] eqn:Hu; [|done]. injection Hag as ->.
  destruct (cl_profile _ _ _ _ (co_link _ _ (so_server _ _ _ _ Hok) i l Hdown Hl) u Hu)
    as (h1 & packet & frame & h2 & r & m & row & _ & _ & _ & _ & Hrow & Hq & _ & ->).
  by exists row, (LoginRequest.email m).
Qed.

(** What a window learned to be accepted. *)
Definition accepted_in rd : Prop :=
  match started rd with
  | Some (Client.SendMessage _ _) => ToQml (doSendMessageReaction true) ∈ outputs rd
  | Some (Client.AddContact _) => ToQml (doAddContactReaction true) ∈ outputs rd
  | Some (Client.CreateChat _) => ToQml (doChatCreatedReaction true) ∈ outputs rd
  | _ => False
  end.

(** A call of the storage that began after [w] and has returned in [w']. *)
Definition called_since (w w' : world) (query : storage_op) (result : exn + answer) (ph : phase) : Prop :=
  ∃ q seen, calls w !! q = None ∧ calls w' !! q = Some (Finished query result ph seen).

(** The list a window shows, the answer of a call that ended in phase [ph],
    has what it should have; it is empty instead only if the database never
    answered the commit of the call: a statement failed, or its connection
    broke. *)
Definition shows {A} (items : list A) (ph : phase) (found : Prop) : Prop :=
  found ∨ ph ≠ Done ∧ items = [].

(** What a later load shows of what was accepted in [rd]: the answer of a call
    of the storage that began after it, and in it a chat the message with its
    sender, the contacts of the same user the contact with its email, the chats
    of the friend a chat titled with the name of its creator. *)
Definition shown_in (w w' : world) rd rd' : Prop :=
  match started rd with
  | Some (Client.SendMessage chat text) =>
      started rd' = Some (LoadMessages chat) → plain_text (toStdString text) →
      ∃ messages ph, called_since w w' (GetMessages chat) (inr (Messages messages)) ph ∧
        let items := shown_message <$> MessagesResponse.messages messages in
        MessagesList.m_items (m_messagesList (after rd')) = Some items ∧
        shows items ph (MessagesList.MkMessageItem (userId (after rd)) text ∈ items)
  | Some (Client.AddContact email) =>
      fills_contacts rd' → userId (after rd') = userId (after rd) → plain_text (toStdString email) →
      ∃ contacts ph, called_since w w' (GetContacts (userId (after rd'))) (inr (Contacts contacts)) ph ∧
        let items := ContactsList.m_items (m_contactsList (after rd')) in
        items = shown_contacts contacts ∧
        shows items ph (∃ id name, ContactsList.MkContactItem id name email ∈ items)
  | Some (Client.CreateChat friend) =>
      fills_chats rd' → userId (after rd') = friend →
      ∃ chats ph, called_since w w' (GetChats (userId (after rd'))) (inr (Chats chats)) ph ∧
        let items := ChatsList.m_items (m_chatsList (after rd')) in
        items = shown_chats chats ∧
        shows items ph (∃ name, fromUtf8 name = userName (after rd) ∧
          (plain_text (chat_with ++ name) →
           ∃ id, ChatsList.MkChatItem id (fromUtf8 (chat_with ++ name)) ∈ items))
  | _ => True
  end.

(** A round of one window and a later one of another, and what happened in
    between to the database. *)
Lemma rounds_later d S1 S2 i p k rd i' p' k' rd' :
  tables_ok d → sys_reachable d S1 → rtc sys_step S1 S2 →
  peers S1 !! i = Some p → screen p !! k = Some rd →
  peers S2 !! i' = Some p' → screen p' !! k' = Some rd' →
  ∃ fresh ex ex' evs, told fresh (database (srv S1)) rd ex ∧
    told (since_call (database (srv S1)) (begun_by S1) i' k') (database (srv S2)) rd' ex' ∧
    world_ok d (database (srv S1)) ∧ schedule evs (database (srv S1)) = Some (database (srv S2)).
Proof.
  intros Hd Hr Hrun Hp Hrd Hp' Hrd'. pose proof (sys_reachable_ok d S1 Hd Hr) as Hok.
  destruct (round_told _ _ _ _ _ _ _ _ Hok Hp Hrd) as [ex Ht].
  pose proof (sys_steps_ok _ _ _ _ _ Hrun (system_ok_since _ _ _ _ Hok)) as Hok2.
  destruct (round_told _ _ _ _ _ _ _ _ Hok2 Hp' Hrd') as [ex' Ht'].
  destruct (sys_steps_crun _ _ Hrun) as (cevs & Hcrun). destruct (crun_schedule _ _ _ Hcrun) as (evs & Hevs & _).
  pose proof (co_world _ _ (so_server _ _ _ _ Hok)) as Hw. by eexists _, ex, ex', evs.
Qed.

(** A call that has not begun later had not begun before. *)
Lemma steps_unborn S S' q : rtc sys_step S S' →
  calls (database (srv S')) !! q = None → calls (database (srv S)) !! q = None.
Proof.
  intros Hrun Hq. destruct (sys_steps_crun _ _ Hrun) as (cevs & Hc).
  destruct (crun_schedule _ _ _ Hc) as (evs & Hevs & _). destruct (calls (database (srv S)) !! q) eqn:Hp; [|done].
  destruct (next_call _ _ (schedule_next _ _ _ Hevs) _ _ Hp) as (? & ? & _). congruence.
Qed.

(** A message that was accepted is among those a later load of its chat shows. *)
Lemma sent_is_loaded d S1 S2 i p k rd i' p' k' rd' chat text :
  tables_ok d → sys_reachable d S1 → rtc sys_step S1 S2 →
  peers S1 !! i = Some p → screen p !! k = Some rd →
  started rd = Some (Client.SendMessage chat text) → ToQml (doSendMessageReaction true) ∈ outputs rd →
  peers S2 !! i' = Some p' → screen p' !! k' = Some rd' → started rd' = Some (LoadMessages chat) →
  (begun_by S1 i' ≤ k')%nat → m_profile (after rd') ≠ None → plain_text (toStdString text) →
  ∃ messages ph,
    called_since (database (srv S1)) (database (srv S2)) (GetMessages chat) (inr (Messages messages)) ph ∧
    let items := shown_message <$> MessagesResponse.messages messages in
    MessagesList.m_items (m_messagesList (after rd')) = Some items ∧
    shows items ph (MessagesList.MkMessageItem (userId (after rd)) text ∈ items).
Proof.
  intros Hd Hr Hrun Hp Hrd Hst Hacc Hp' Hrd' Hst' Hk Hlog Htext.
  destruct (rounds_later _ _ _ _ _ _ _ _ _ _ _ Hd Hr Hrun Hp Hrd Hp' Hrd')
    as (fresh & ex & ex' & evs & Ht & Ht' & Hw & Hevs).
  destruct (sent_round _ _ _ _ _ _ Ht Hst Hacc) as (_ & q & ph & seen & Hq).
  destruct (messages_round _ _ _ _ _ Ht' Hst' Hlog) as (q' & ph' & seen' & messages & Hnew & Hq' & Hitems).
  exists messages, ph'. split; [exists q', seen'; split; [exact (Hnew Hk)|exact Hq']|].
  split; [exact Hitems|].
  destruct (accepted_is_answered d evs _ _ q q' _ _ ph ph' seen _ seen' Hd Hw Hevs Hq (Hnew Hk) Hq')
    as [Hsh|[Hph Href]]; [left|right; by rewrite Href].
  destruct (Hsh eq_refl) as (t & Ht0 & Hin). simpl in Ht0. rewrite sql_text_plain in Ht0 by done.
  injection Ht0 as <-. apply list_elem_of_fmap. eexists. split; [|exact Hin]. unfold shown_message. simpl.
  by rewrite c_str_nul_free, fromUtf8_toStdString by by apply plain_nul_free.
Qed.

(** So is a contact among those a later load of the same user shows. *)
Lemma added_is_loaded d S1 S2 i p k rd i' p' k' rd' email :
  tables_ok d → sys_reachable d S1 → rtc sys_step S1 S2 →
  peers S1 !! i = Some p → screen p !! k = Some rd →
  started rd = Some (Client.AddContact email) → ToQml (doAddContactReaction true) ∈ outputs rd →
  peers S2 !! i' = Some p' → screen p' !! k' = Some rd' → fills_contacts rd' →
  (begun_by S1 i' ≤ k')%nat → m_profile (after rd') ≠ None →
  userId (after rd') = userId (after rd) → plain_text (toStdString email) →
  ∃ contacts ph, called_since (database (srv S1)) (database (srv S2)) (GetContacts (userId (after rd')))
      (inr (Contacts contacts)) ph ∧
    let items := ContactsList.m_items (m_contactsList (after rd')) in
    items = shown_contacts contacts ∧
    shows items ph (∃ id name, ContactsList.MkContactItem id name email ∈ items).
Proof.
  intros Hd Hr Hrun Hp Hrd Hst Hacc Hp' Hrd' Hst' Hk Hlog Huser Htext.
  destruct (rounds_later _ _ _ _ _ _ _ _ _ _ _ Hd Hr Hrun Hp Hrd Hp' Hrd')
    as (fresh & ex & ex' & evs & Ht & Ht' & Hw & Hevs).
  destruct (added_round _ _ _ _ _ Ht Hst Hacc) as (q & ph & seen & Hq).
  destruct (contacts_round _ _ _ _ Ht' Hst' Hlog) as (q' & ph' & seen' & contacts & Hnew & Hq' & ->).
  exists contacts, ph'. split; [exists q', seen'; split; [exact (Hnew Hk)|exact Hq']|]. split; [done|].
  destruct (accepted_is_answered d evs _ _ q q' _ _ ph ph' seen _ seen' Hd Hw Hevs Hq (Hnew Hk) Hq')
    as [Hsh|[Hph Href]]; [left|right; split; [done|]; unfold shown_contacts; by rewrite Href].
  destruct (Hsh Huser) as (id & name & e & He & Hin). rewrite sql_text_plain in He by done.
  injection He as <-. exists id, (fromUtf8 (c_str name)). apply list_elem_of_fmap.
  eexists. split; [|exact Hin]. simpl.
  by rewrite (c_str_nul_free (toStdString email)), fromUtf8_toStdString by by apply plain_nul_free.
Qed.

(** And a chat is among those the friend is shown. *)
Lemma created_is_loaded d S1 S2 i p k rd i' p' k' rd' friend :
  tables_ok d → sys_reachable d S1 → rtc sys_step S1 S2 →
  peers S1 !! i = Some p → screen p !! k = Some rd →
  started rd = Some (Client.CreateChat friend) → ToQml (doChatCreatedReaction true) ∈ outputs rd →
  peers S2 !! i' = Some p' → screen p' !! k' = Some rd' → fills_chats rd' →
  (begun_by S1 i' ≤ k')%nat → m_profile (after rd') ≠ None → userId (after rd') = friend →
  ∃ chats ph, called_since (database (srv S1)) (database (srv S2)) (GetChats (userId (after rd')))
      (inr (Chats chats)) ph ∧
    let items := ChatsList.m_items (m_chatsList (after rd')) in
    items = shown_chats chats ∧
    shows items ph (∃ name, fromUtf8 name = userName (after rd) ∧
      (plain_text (chat_with ++ name) →
       ∃ id, ChatsList.MkChatItem id (fromUtf8 (chat_with ++ name)) ∈ items)).
Proof.
  intros Hd Hr Hrun Hp Hrd Hst Hacc Hp' Hrd' Hst' Hk Hlog Huser.
  destruct (rounds_later _ _ _ _ _ _ _ _ _ _ _ Hd Hr Hrun Hp Hrd Hp' Hrd')
    as (fresh & ex & ex' & evs & Ht & Ht' & Hw & Hevs).
  destruct (created_round _ _ _ _ _ Ht Hst Hacc) as (q & ph & seen & name & Hname & Hq).
  destruct (chats_round _ _ _ _ Ht' Hst' Hlog) as (q' & ph' & seen' & chats & Hnew & Hq' & ->).
  exists chats, ph'. split; [exists q', seen'; split; [exact (Hnew Hk)|exact Hq']|]. split; [done|].
  destruct (accepted_is_answered d evs _ _ q q' _ _ ph ph' seen _ seen' Hd Hw Hevs Hq (Hnew Hk) Hq')
    as [Hsh|[Hph Href]]; [left|right; split; [done|]; unfold shown_chats; by rewrite Href].
  exists name. split; [done|]. intros Htext.
  destruct (proj1 Hsh Huser) as (id & title & He & Hin). rewrite sql_text_plain in He by done.
  injection He as <-. exists id. apply list_elem_of_fmap. eexists. split; [|exact Hin].
  cbn [Chat.chat_id Chat.title]. by rewrite c_str_nul_free by by apply plain_nul_free.
Qed.

(** What was accepted is shown, if responses arrive at once. *)
Lemma accepted_is_shown d S1 S2 i p k rd i' p' k' rd' :
  tables_ok d → sys_reachable d S1 → rtc sys_step S1 S2 →
  peers S1 !! i = Some p → screen p !! k = Some rd → accepted_in rd →
  peers S2 !! i' = Some p' → screen p' !! k' = Some rd' → (begun_by S1 i' ≤ k')%nat →
  m_profile (after rd') ≠ None → shown_in (database (srv S1)) (database (srv S2)) rd rd'.
Proof.
  intros Hd Hr Hrun Hp Hrd Hacc Hp' Hrd' Hk Hlog. unfold accepted_in, shown_in in *.
  destruct (started rd) as [[]|] eqn:Hst; try done.
  - intros Hst' Htext. exact (sent_is_loaded _ _ _ _ _ _ _ _ _ _ _ _ _ Hd Hr Hrun Hp Hrd Hst Hacc Hp' Hrd'
      Hst' Hk Hlog Htext).
  - intros Hl Huser Htext. exact (added_is_loaded _ _ _ _ _ _ _ _ _ _ _ _ Hd Hr Hrun Hp Hrd Hst Hacc Hp' Hrd'
      Hl Hk Hlog Huser Htext).
  - intros Hl. exact (created_is_loaded _ _ _ _ _ _ _ _ _ _ _ _ Hd Hr Hrun Hp Hrd Hst Hacc Hp' Hrd' Hl Hk Hlog).
Qed.

(** A window that waits for a response over a running session can get one
    without a fault and without anybody doing anything new: the bytes in the
    network, the session, the workers and the calls under way are enough, in
    finitely many steps; unless the memory of the server runs out, the session
    is stopped or an answer of the storage cannot be framed. *)
Theorem waiting_windows_get_answers d S i p l :
  tables_ok d → sys_reachable d S → down (front (srv S)) = false →
  peers S !! i = Some p → links (front (srv S)) !! i = Some l → stopped_ (session l) = false →
  current p ≠ None → ∃ S', rtc (helped i) S S' ∧ settled S' i p.
Proof.
  intros Hd Hr Hdown Hp Hl Hs Hcur. destruct (sys_steps_crun _ _ Hr) as (evs & Hrun).
  destruct (budget_exists evs d _ Hrun) as (g & Hb).
  destruct (waiting_is_served _ _ d S i p l g (sys_reachable_ok d S Hd Hr) Hdown Hp Hl Hs Hcur Hb)
    as (S1 & H1 & Hend).
  assert (rtc (helped i) S S1) as H2.
  { eapply rtc_subrel; [|exact H1]. by intros; apply serving_helped. }
  destruct Hend as [Hf|Hrep]; [exists S1; split; [done|by left]|].
  destruct (delivery_settles S1 i p Hrep) as (S' & H3 & H4). exists S'. split; [by eapply rtc_r|done].
Qed.
End Theorems.

(** ** Two windows

    Bob, on window 0, and Alice, on window 1, sign in over the sample
    database; Bob writes to Alice, who loads their chat. *)

Section Witnesses.
#[local] Existing Instance plain_pqxx.
#[local] Existing Instance plain_pqxx_laws.
#[local] Existing Instance unlimited.
#[local] Existing Instance utf8_qt.
#[local] Existing Instance utf8_qt_laws.

(** The request of an operation is served by the [n] exchanges of call [q]. *)
Definition served (i : nat) (h : happening) (q n : nat) : list sys_event :=
  match asks h with
  | Some (r, _) => Serves <$> (arrives i (request_message r) ++ [CStart i 0 q] ++
                              replicate n (step_of q) ++ [CEnd q; written i])
  | None => []
  end.

Definition whole_round (i : nat) (h : happening) (q n : nat) : list sys_event :=
  [Uses i h] ++ served i h q n ++ [Delivers i].

Definition bob_signs_in : happening := Signin (str [Byte.x42]) (str [Byte.x71]).
Definition alice_signs_in : happening := Signin (str [Byte.x41]) (str [Byte.x70]).
Definition bob_writes : happening := Client.SendMessage 1 (str [Byte.x68]).

Definition conversation : list sys_event :=
  [Joins; Joins; Uses 0 bob_signs_in] ++ whole_round 1 alice_signs_in 0 2 ++
  served 0 bob_signs_in 1 2 ++ [Delivers 0] ++ whole_round 0 bob_writes 2 4.

Definition reading : list sys_event := whole_round 1 (LoadMessages 1) 3 3.

Definition after_srun (evs : list sys_event) (S : system) : system :=
  default S (fst <$> srun evs S).
Definition mails_of (evs : list sys_event) (S : system) : list WrappedMessage.t :=
  default [] (snd <$> srun evs S).

Definition runs (evs : list sys_event) (S : system) : bool :=
  match srun evs S with Some _ => true | None => false end.

Lemma srun_some evs S : runs evs S = true → srun evs S = Some (after_srun evs S, mails_of evs S).
Proof. unfold runs, after_srun, mails_of. by destruct (srun evs S) as [[S' ms]|]. Qed.

Definition written_to : system := after_srun conversation (sys_initial sample_db).
Definition has_read : system := after_srun reading written_to.

Lemma conversation_run : srun conversation (sys_initial sample_db) = Some (written_to, mails_of conversation (sys_initial sample_db)).
Proof. apply srun_some. by vm_compute. Defined.

Lemma reading_run : srun reading written_to = Some (has_read, mails_of reading written_to).
Proof. apply srun_some. by vm_compute. Defined.

Definition asked_for : system := after_srun [Uses 1 (LoadMessages 1)] written_to.

Lemma asked_for_run :
  srun [Uses 1 (LoadMessages 1)] written_to =
  Some (asked_for, mails_of [Uses 1 (LoadMessages 1)] written_to).
Proof. apply srun_some. by vm_compute. Defined.

Lemma conversation_fits : Forall sendable (mails_of conversation (sys_initial sample_db)).
Proof. concrete_mails. Defined.

Lemma reading_fits : Forall sendable (mails_of reading written_to).
Proof. concrete_mails. Defined.

Lemma asked_for_fits : Forall sendable (mails_of [Uses 1 (LoadMessages 1)] written_to).
Proof. concrete_mails. Defined.

Lemma written_to_reachable : sys_reachable sample_db written_to.
Proof. exact (srun_steps _ _ _ _ conversation_run conversation_fits). Defined.

Lemma has_read_later : rtc sys_step written_to has_read.
Proof. exact (srun_steps _ _ _ _ reading_run reading_fits). Defined.

Lemma asked_for_reachable : sys_reachable sample_db asked_for.
Proof.
  unfold sys_reachable. etrans; [exact written_to_reachable|]. exact (srun_steps _ _ _ _ asked_for_run asked_for_fits).
Defined.

Definition peer_at (i : nat) (S : system) : peer := default (Peer newcomer None [] []) (peers S !! i).
Definition round_at (i k : nat) (S : system) : round :=
  default (Round None [] newcomer) (screen (peer_at i S) !! k).

Definition has_peer (i : nat) (S : system) : bool := match peers S !! i with Some _ => true | None => false end.
Definition has_round (i k : nat) (S : system) : bool :=
  match screen (peer_at i S) !! k with Some _ => true | None => false end.
Definition has_link (i : nat) (S : system) : bool :=
  match links (front (srv S)) !! i with Some _ => true | None => false end.

Lemma peer_at_some i S : has_peer i S = true → peers S !! i = Some (peer_at i S).
Proof. unfold has_peer, peer_at. by destruct (peers S !! i). Defined.

Lemma round_at_some i k S : has_round i k S = true → screen (peer_at i S) !! k = Some (round_at i k S).
Proof. unfold has_round, round_at. by destruct (screen (peer_at i S) !! k). Defined.

Lemma session_link_some i S : has_link i S = true →
  links (front (srv S)) !! i = Some (session_link i (srv S)).
Proof. unfold has_link, session_link. by destruct (links (front (srv S)) !! i). Defined.

(** Bob's second round: his message. *)
Lemma rounds_are_calls_witness :
  started (round_at 0 1 written_to) = Some bob_writes ∧
  ∃ r resp h1 h2, talk_of (srv written_to) 0 =
      h1 ++ Received (enc r) :: Sent (packet (response_message resp)) :: h2 ∧ length h1 = 2%nat ∧
    response_matches r resp.
Proof.
  split; [by vm_compute|].
  destruct (rounds_are_calls sample_db written_to 0 (peer_at 0 written_to) 1 (round_at 0 1 written_to)
    (ok_tables _ sample_db_ok) written_to_reachable
    (peer_at_some 0 written_to ltac:(by vm_compute)) (round_at_some 0 1 written_to ltac:(by vm_compute)))
    as (h & r & j & resp & c & h1 & h2 & sj & s & _ & _ & H1 & H2 & _ & H3 & _).
  exists r, resp, h1, h2. split; [exact H1|]. split; [exact H2|exact H3].
Defined.

Lemma ends_agree_witness :
  m_profile (window (peer_at 0 written_to)) = Some (MkProfile 2 (str [Byte.x62]) (str [Byte.x42])) ∧
  m_profile (window (peer_at 0 written_to)) =
    profile_shown <$> state_ (session (session_link 0 (srv written_to))) ∧
  ∃ row, row ∈ Database.Client (shared (database (srv written_to))) ∧ c_id row = 2.
Proof.
  destruct (ends_agree sample_db written_to 0 (peer_at 0 written_to) (session_link 0 (srv written_to))
    (ok_tables _ sample_db_ok) written_to_reachable ltac:(by vm_compute)
    (peer_at_some 0 written_to ltac:(by vm_compute)) (session_link_some 0 written_to ltac:(by vm_compute))
    ltac:(by vm_compute)) as [H1 H2].
  assert (m_profile (window (peer_at 0 written_to)) =
    Some (MkProfile 2 (str [Byte.x62]) (str [Byte.x42]))) as Hpr by (by vm_compute).
  split; [exact Hpr|]. split; [exact H1|]. destruct (H2 _ Hpr) as (row & email & Hrow & Hid & _).
  exists row. split; [exact Hrow|]. by rewrite <- Hid.
Defined.

Lemma waiting_windows_get_answers_witness :
  current (peer_at 1 asked_for) = Some (LoadMessages 1) ∧
  ∃ S', rtc (helped 1) asked_for S' ∧ settled S' 1 (peer_at 1 asked_for).
Proof.
  assert (current (peer_at 1 asked_for) = Some (LoadMessages 1)) as Hc by (by vm_compute).
  split; [exact Hc|].
  apply (waiting_windows_get_answers sample_db asked_for 1 (peer_at 1 asked_for)
    (session_link 1 (srv asked_for)) (ok_tables _ sample_db_ok) asked_for_reachable
    ltac:(by vm_compute) (peer_at_some 1 asked_for ltac:(by vm_compute))
    (session_link_some 1 asked_for ltac:(by vm_compute)) ltac:(by vm_compute)).
  by rewrite Hc.
Defined.
End Witnesses.
