(* ===== verification/Portions.v ===== *)
(** * Responses in portions

    The system of [System.v] over a network that hands the bytes of a response
    to its window in several arrivals.  The client copes with the portions that
    are [gentle]: however the prefix is cut, once a window has it the rest of
    the message comes at once.  ([NetworkTheorems.slow_response_is_lost] is
    what happens otherwise.)  Between two arrivals anything else can happen,
    at the window and elsewhere. *)
From stdpp Require Import gmap.
From S2P Require Import Prelude Wire Parser Message Requests Responses Envelope Framing Storage Database.
From S2P Require Import Postgres Programs Interleaving Session Jobs JobCalls Server ConcurrentServer.
From S2P Require Import Qt ClientLists NetworkSession Client ClientTheorems System.

Section Portions.
Context `{W : WireFormat} {L : WireFormatLaws W} `{Mem : Memory} `{Q : Qt} `{P : Pqxx}.

(** The system, whose windows may have a part of a response; [arrived]: how
    many bytes of it. *)
Record strewn := Strewn { base : system; arrived : gmap nat nat }.

Definition have (F : strewn) (i : nat) : nat := default 0%nat (arrived F !! i).

(** [n] more bytes of a packet of [len] bytes. *)
Definition gentle (have n len : nat) : bool :=
  (0 <? n)%nat && (have + n <=? len)%nat && ((have <? 9)%nat || (have + n =? len)%nat).

(** The next [n] bytes of the packet under way arrive at window [i].  A round
    is over when something comes out of the window. *)
Definition hands (i n : nat) (F : strewn) : option strewn :=
  p ← peers (base F) !! i;
  frame ← frames (talk_of (srv (base F)) i) !! length (screen p);
  if gentle (have F i) n (length frame) then
    let '(c, out) := happens (Arrival (take n (drop (have F i) frame))) (window p) in
    let now := if availible c then None else current p in
    let rounds := match out with [] => [] | _ => [Round (current p) out c] end in
    Some (Strewn
      (System (srv (base F))
         (<[i := Peer c now (upstream p ++ to_server out) (screen p ++ rounds)]> (peers (base F))))
      (if (have F i + n =? length frame)%nat then delete i (arrived F)
       else <[i := (have F i + n)%nat]> (arrived F)))
  else None.

(** What arrives is up to [Hands]. *)
Inductive strewn_event : Type :=
| Does (ev : sys_event)
| Hands (i n : nat).

Definition fhandle (ev : strewn_event) (F : strewn) : option strewn :=
  match ev with
  | Does (Delivers _) => None
  | Does (Leaves i) => S ← shandle (Leaves i) (base F); Some (Strewn S (delete i (arrived F)))
  | Does ev => S ← shandle ev (base F); Some (Strewn S (arrived F))
  | Hands i n => hands i n F
  end.

Definition fmails (ev : strewn_event) (F : strewn) : list WrappedMessage.t :=
  match ev with Does ev => mails ev (base F) | Hands _ _ => [] end.

Definition strewn_step (F F' : strewn) : Prop :=
  ∃ ev, fhandle ev F = Some F' ∧ Forall sendable (fmails ev F).

Definition strewn_initial (d : db) : strewn := Strewn (sys_initial d) ∅.

Definition strewn_reachable (d : db) (F : strewn) : Prop := rtc strewn_step (strewn_initial d) F.

(** Runs for concrete inputs, with their messages. *)
Fixpoint frun (evs : list strewn_event) (F : strewn) : option (strewn * list WrappedMessage.t) :=
  match evs with
  | [] => Some (F, [])
  | ev :: evs =>
    F' ← fhandle ev F;
    r ← frun evs F';
    Some (r.1, fmails ev F ++ r.2)
  end.

Lemma frun_steps evs F F' ms : frun evs F = Some (F', ms) → Forall sendable ms → rtc strewn_step F F'.
Proof.
  revert F ms. induction evs as [|ev evs IH]; intros F ms; simpl.
  { by intros [= -> _] _. }
  intros (F1 & Hst & ([F2 ms2] & Hrun & [= -> <-])%bind_Some)%bind_Some Hms. simpl in Hms.
  apply Forall_app in Hms as [H1 H2]. eapply rtc_l; [by exists ev|by eapply IH].
Qed.
End Portions.
