(* ===== verification/PortionFacts.v ===== *)
(** * A window with a part of a response

    What has arrived of a response is a matter of the network session alone:
    all else at the window is as if nothing had arrived, and the last portion
    does what the whole response would have done. *)
From stdpp Require Import gmap.
From S2P Require Import Prelude Wire Parser Message Requests Responses Envelope Framing Storage Database.
From S2P Require Import Postgres Programs Interleaving Session Jobs JobCalls Server ConcurrentServer.
From S2P Require Import Qt ClientLists NetworkSession NetworkTheorems Client ClientTheorems System Portions.

(** ** The session *)

Section Session.
Context `{W : WireFormat} {L : WireFormatLaws W} `{Q : Qt} {Callback : Type}.
Notation session := (NetworkSession.t Callback).

(** A session that was ready and has got [n] bytes of [frame]. *)
Definition collected (n : nat) (frame : bytes) (s : session) : session :=
  if (n <? 9)%nat then with_incoming (take n frame) s
  else set_messageSize (zlen frame - 9)
         (set_bytesReaded 9 (with_incoming (take (n - 9) (drop 9 frame)) (set_buffer (take 9 frame) s))).

Lemma collected_nothing frame (s : session) : received_so_far s = [] → collected 0 frame s = s.
Proof. destruct s as [[b inc] ? ? ? ?]. unfold received_so_far. simpl. by intros ->. Qed.

(** A packet is a prefix and a message. *)
Lemma packet_parts m : sendable m →
  take 9 (packet m) = prefix_of (zlen (msg_encode m)) ∧ drop 9 (packet m) = msg_encode m ∧
  zlen (packet m) = 9 + zlen (msg_encode m) ∧ 0 < zlen (msg_encode m).
Proof.
  intros Hm. pose proof (sendable_size m Hm) as Hs. unfold int_max in Hs.
  assert (uint64_ok (zlen (msg_encode m))) as Hu by (unfold uint64_ok; lia).
  pose proof (zlen_prefix _ Hu ltac:(lia)) as Hp.
  assert (length (prefix_of (zlen (msg_encode m))) = 9%nat) as Hl by (unfold zlen in *; lia).
  unfold packet. rewrite take_app_length', drop_app_length', zlen_app, Hp by done. split_and!; [done..|lia].
Qed.

Lemma collected_prefix m n (s : session) : sendable m → (9 ≤ n)%nat →
  collected n (packet m) s = with_prefix (zlen (msg_encode m)) (take (n - 9) (msg_encode m)) s.
Proof.
  intros Hm Hn. destruct (packet_parts m Hm) as (H1 & H2 & H3 & _). unfold collected.
  rewrite (proj2 (Nat.ltb_ge n 9)) by done. rewrite H1, H2, H3. unfold with_prefix. by rewrite Z.add_simpl_l.
Qed.

(** What arrives is put behind what is there. *)
Lemma arrive_behind old data (s : session) : received_so_far s = [] →
  arrive data (with_incoming old s) = arrive (old ++ data) s.
Proof. unfold received_so_far, arrive. simpl. by intros ->. Qed.

(** The first [n] bytes, at once. *)
Lemma arrive_first m n (s : session) : sendable m → idle s → received_so_far s = [] →
  (n < length (packet m))%nat → arrive (take n (packet m)) s = (collected n (packet m) s, []).
Proof.
  intros Hm Hi Hin Hn. destruct (packet_parts m Hm) as (H1 & H2 & H3 & _).
  destruct (Nat.ltb_spec n 9) as [Hlt|Hge].
  - rewrite arrive_little; [|done|].
    + unfold collected. rewrite (proj2 (Nat.ltb_lt n 9)) by done. rewrite Hin. simpl.
      destruct s. unfold idle in Hi. simpl in Hi. by rewrite Hi.
    + rewrite Hin. unfold zlen. simpl. rewrite length_take. lia.
  - rewrite collected_prefix by done. apply arrive_prefix; [done|done|..].
    + rewrite Hin, <- H1, <- H2, take_take_drop. simpl. f_equal. lia.
    + unfold zlen in *. rewrite length_take. lia.
Qed.

Context (m : WrappedMessage.t) (s : session).
Hypotheses (Hm : sendable m) (Hi : idle s) (Hin : received_so_far s = []).

(** More, but not all of it. *)
Lemma arrive_more n k : (n < 9)%nat → (n + k < length (packet m))%nat →
  arrive (take k (drop n (packet m))) (collected n (packet m) s) = (collected (n + k) (packet m) s, []).
Proof.
  intros Hn Hk. unfold collected at 1. rewrite (proj2 (Nat.ltb_lt n 9)) by done.
  rewrite arrive_behind, take_take_drop by done. by apply arrive_first.
Qed.

(** All the rest does what the whole would have done. *)
Lemma arrive_all n : (n < length (packet m))%nat →
  arrive (drop n (packet m)) (collected n (packet m) s) = arrive (packet m) s.
Proof.
  intros Hn. destruct (packet_parts m Hm) as (H1 & H2 & H3 & _). destruct (Nat.ltb_spec n 9) as [Hlt|Hge].
  - unfold collected. rewrite (proj2 (Nat.ltb_lt n 9)) by done. by rewrite arrive_behind, take_drop.
  - rewrite collected_prefix by done. rewrite (arrive_last m), (arrive_at_once m (packet m) s); try done.
    + by rewrite Hin.
    + change (take (n - 9) (msg_encode m) ++ drop n (packet m) = msg_encode m). rewrite <- H2.
      replace n with (9 + (n - 9))%nat at 2 by lia. by rewrite <- drop_drop, take_drop.
Qed.
End Session.

(** ** The window *)

Section Window.
Context `{W : WireFormat} {L : WireFormatLaws W} `{Q : Qt}.

(** A window that has got [n] bytes of [frame]. *)
Definition midway (n : nat) (frame : bytes) (c : client) : client :=
  set_session (collected n frame (m_session c)) c.

Lemma midway_nothing frame c : ready c → midway 0 frame c = c.
Proof. intros (_ & _ & H). unfold midway. rewrite collected_nothing by done. by destruct c. Qed.

Lemma midway_more m n k c : sendable m → ready c → (n < 9)%nat → (n + k < length (packet m))%nat →
  happens (Arrival (take k (drop n (packet m)))) (midway n (packet m) c) =
    (midway (n + k) (packet m) c, []).
Proof.
  intros Hm (_ & Hi & Hin) Hn Hk. simpl. unfold session_slot, midway at 1. simpl.
  by rewrite arrive_more by done.
Qed.

Lemma midway_all m n c : sendable m → ready c → (n < length (packet m))%nat →
  happens (Arrival (drop n (packet m))) (midway n (packet m) c) = happens (Arrival (packet m)) c.
Proof.
  intros Hm (_ & Hi & Hin) Hn. simpl. unfold session_slot, midway. simpl.
  rewrite arrive_all by done. by destruct (arrive (packet m) (m_session c)).
Qed.

(** What the user does meanwhile. *)
Lemma midway_uses h n frame c c' out : usable h = true → availible c = false → happens h c = (c', out) →
  happens h (midway n frame c) = (midway n frame c', out).
Proof.
  intros Hu Hc Hh. destruct (asks h) as [[r j]|] eqn:Ha.
  - destruct h; try done; simpl in *; unfold signin, signup, sendMessage, addContact, loadChats,
      loadContacts, loadData, loadMessages, createChat, if_availible in *;
      replace (availible (midway n frame c)) with false by (by symmetry);
      rewrite Hc in Hh; by injection Hh as <- <-.
  - destruct h; try done. simpl in Hh |- *.
    destruct (MessagesList.setCurrentChatId chatId (m_messagesList c)). by injection Hh as <- <-.
Qed.

(** A response makes its callback say something. *)
Lemma callback_speaks j resp c : (responseProcessingCallback j resp c).2 ≠ [].
Proof.
  assert (∀ g r, (then_emit g r).2 ≠ []) as He.
  { intros g [c' out]. unfold then_emit. destruct g; simpl; intros [_ [=]]%app_eq_nil. }
  destruct j; try done; cbn [responseProcessingCallback]; try apply He.
  - unfold login_callback. by repeat case_match.
  - unfold load_data_callback, send_request, NetworkSession.request. destruct (Response.has_contacts_response resp).
    + destruct (setContacts _ c) as [c' out].
      destruct (isConnected (connection c')); simpl; intros [_ [=]]%app_eq_nil.
    + by destruct (Response.has_chats_response resp); [apply He|].
Qed.
End Window.
