(* ===== verification/PortionTheorems.v ===== *)
(** * In which portions the responses arrive

    The portions of [Portions.v] make no difference: the system of
    [System.v], where a response arrives at once, goes along with every run,
    and its windows show the same at any moment. *)
From stdpp Require Import gmap.
From Stdlib Require Import String.
From S2P Require Import Prelude Wire Parser Message Requests Responses Envelope Framing WireInstance.
From S2P Require Import Storage Database Postgres Growth StorageTheorems Programs Interleaving Isolation Serial.
From S2P Require Import Steps Session Jobs JobCalls Server ConcurrentServer ServerFacts ServerInvariant.
From S2P Require Import ServerTheorems ConcurrentFacts Traffic ConcurrentInvariant ConcurrentServerTheorems.
From S2P Require Import Qt ClientLists ClientListTheorems NetworkSession NetworkTheorems Client.
From S2P Require Import ClientTheorems EndToEnd System SystemInvariant SystemWindows SystemSteps.
From S2P Require Import SystemRounds SystemTheorems Portions PortionFacts.

Section Simulation.
Context `{W : WireFormat} {L : WireFormatLaws W} `{Mem : Memory} `{Q : Qt} `{P : Pqxx} {PL : PqxxLaws P}.
Implicit Types (S : system) (F : strewn) (p : peer) (sv : cserver) (d : db).

(** ** The traffic of a session grows *)

Lemma with_link_talk sv i l w ex dn i' : talk_of sv i `prefix_of` history l →
  talk_of sv i' `prefix_of` talk_of (with_link sv i l w ex dn) i'.
Proof.
  intros Hl. unfold talk_of, with_link in *. simpl. destruct (decide (i' = i)) as [->|Hne].
  - by rewrite lookup_insert_eq.
  - by rewrite lookup_insert_ne by congruence.
Qed.

Lemma talk_grows d ev sv sv' i : cserver_ok d sv → chandle ev sv = Some sv' →
  talk_of sv i `prefix_of` talk_of sv' i.
Proof.
  intros Hok Hh. destruct ev as [error| |i0 k c|i0 k q|ev|q]; simpl in Hh.
  - apply fmap_Some in Hh as (f & Hf & ->). unfold handle_accept in Hf.
    destruct (down (front sv)); [done|]. destruct (negb _); [done|].
    destruct error; [by injection Hf as <-|]. destruct (start new_session) as [s out].
    injection Hf as <-. unfold talk_of. simpl. destruct (decide (i = accepted (front sv))) as [->|Hne].
    + rewrite (co_fresh _ _ Hok _ (le_n _)). apply prefix_nil.
    + by rewrite lookup_insert_ne by congruence.
  - apply fmap_Some in Hh as (f & Hf & ->). unfold signal_handler in Hf.
    destruct (down (front sv)); [done|]. by injection Hf as <-.
  - unfold handle_local in Hh. destruct (down (front sv)); [done|].
    apply bind_Some in Hh as (l & Hl & (o & _ & Hh)%bind_Some). destruct (_ && _); [|done].
    apply bind_Some in Hh as ([s out] & _ & [= <-]). apply with_link_talk. unfold talk_of. rewrite Hl.
    by apply prefix_app_r.
  - unfold start_job in Hh. destruct (down (front sv)); [done|].
    apply bind_Some in Hh as (l & Hl & (o & _ & Hh)%bind_Some). destruct o; try done.
    apply bind_Some in Hh as (op & _ & (w & _ & [= <-])%bind_Some). apply with_link_talk. unfold talk_of.
    by rewrite Hl.
  - unfold database_step in Hh. destruct (down (front sv)); [done|].
    by destruct ev; try done; apply bind_Some in Hh as (w & _ & [= <-]).
  - unfold end_job in Hh. destruct (down (front sv)); [done|].
    apply bind_Some in Hh as ([i0 j] & _ & (l & Hl & (w & _ & Hh)%bind_Some)%bind_Some).
    destruct (calls w !! q) as [[]|]; try done. destruct (job_end _ _ _) as [s out]. injection Hh as <-.
    apply with_link_talk. unfold talk_of. rewrite Hl. by apply prefix_app_r.
Qed.

(** ** The relation *)

Definition with_window (c : client) (p : peer) : peer := Peer c (current p) (upstream p) (screen p).

(** [p'] is [p] with [n] bytes of the response that is under way to it. *)
Definition part_of sv (i n : nat) p p' : Prop :=
  p' = with_window (window p') p ∧
  (n = 0%nat ∧ window p' = window p ∨
   ∃ frame, (0 < n < length frame)%nat ∧ frames (talk_of sv i) !! length (screen p) = Some frame ∧
     window p' = midway n frame (window p)).

Definition goes_along S F : Prop :=
  srv (base F) = srv S ∧
  ∀ i, match peers S !! i, peers (base F) !! i with
       | Some p, Some p' => part_of (srv S) i (have F i) p p'
       | None, None => arrived F !! i = None
       | _, _ => False
       end.
Lemma part_of_grows sv sv' i n p p' : talk_of sv i `prefix_of` talk_of sv' i →
  part_of sv i n p p' → part_of sv' i n p p'.
Proof.
  intros [k Hk] [Hp [H|(frame & Hn & Hf & Hw)]]; (split; [done|]); [by left|right].
  exists frame. split; [done|]. split; [|done]. rewrite Hk, frames_app. by apply lookup_app_l_Some.
Qed.

Lemma goes_along_server S F sv : goes_along S F →
  (∀ i, talk_of (srv S) i `prefix_of` talk_of sv i) →
  goes_along (System sv (peers S)) (Strewn (System sv (peers (base F))) (arrived F)).
Proof.
  intros [_ Hp] Hg. split; [done|]. intros i. simpl. specialize (Hp i).
  destruct (peers S !! i), (peers (base F) !! i); try done.
  eapply part_of_grows; [apply Hg|exact Hp].
Qed.

(** One window changes. *)
Lemma goes_along_peer S F i n p p' ar : goes_along S F → part_of (srv S) i n p p' →
  default 0%nat (ar !! i) = n → (∀ i', i' ≠ i → ar !! i' = arrived F !! i') →
  goes_along (System (srv S) (<[i := p]> (peers S)))
    (Strewn (System (srv S) (<[i := p']> (peers (base F)))) ar).
Proof.
  intros [_ Hp] Hpart Hn Har. split; [done|]. intros i'. simpl. unfold have. simpl.
  destruct (decide (i' = i)) as [->|Hne].
  - rewrite !lookup_insert_eq. by rewrite Hn.
  - rewrite !lookup_insert_ne, Har by congruence. exact (Hp i').
Qed.

Lemma goes_along_window S F i p' : goes_along S F → peers (base F) !! i = Some p' →
  ∃ p, peers S !! i = Some p ∧ part_of (srv S) i (have F i) p p'.
Proof.
  intros [_ Hp] Hi. specialize (Hp i). rewrite Hi in Hp.
  destruct (peers S !! i) as [p|]; [by exists p|done].
Qed.

(** Who is sent a response waits for it. *)
Lemma part_waiting w0 begun d S i p frame : system_ok w0 begun d S → peers S !! i = Some p →
  frames (talk_of (srv S) i) !! length (screen p) = Some frame →
  ∃ resp, frame = packet (response_message resp) ∧ sendable (response_message resp) ∧
    ready (window p) ∧ availible (window p) = false.
Proof.
  intros Hok Hp Hf. destruct (so_peer _ _ _ _ Hok i p Hp) as (l & talk & st & Hl & Hh & [Hlen _] & Hw & Hr & _).
  unfold talk_of in Hf. rewrite Hl, Hh in Hf.
  destruct (next_frame _ _ _ _ (eq_sym Hlen) Hf) as (r & j & resp & -> & ->).
  destruct Hw as (Hready & _ & Hav & _). destruct Hr as [Hm _]. by exists resp.
Qed.

(** ** Steps *)

Lemma reads_along S F i k c B : goes_along S F → read_from i k c (base F) = Some B →
  ∃ S1, read_from i k c S = Some S1 ∧ goes_along S1 (Strewn B (arrived F)).
Proof.
  intros Hal Hr. pose proof Hal as [Hsrv Hp]. specialize (Hp i). unfold read_from in *. rewrite Hsrv in Hr.
  destruct (peers S !! i) as [p|], (peers (base F) !! i) as [p'|]; try done.
  2:{ injection Hr as <-. exists S. by destruct F. }
  pose proof Hp as [Hp' _]. destruct (_ ≫= _) as [[|n|data|j]|];
    try (injection Hr as <-; exists S; by destruct F); replace (upstream p') with (upstream p) in Hr by (by rewrite Hp');
    (case_decide; [|done]); injection Hr as <-; (eexists; split; [done|]);
    (eapply (goes_along_peer S F i (have F i)); [done| |done|done]);
    destruct Hp as [_ Hp]; rewrite Hp'; by split.
Qed.

Lemma serves_along d S F ev B : cserver_ok d (srv S) → goes_along S F → serves ev (base F) = Some B →
  ∃ S', serves ev S = Some S' ∧ goes_along S' (Strewn B (arrived F)).
Proof.
  unfold serves. intros Hok Hal (B1 & Hr & (sv & Hh & [= <-])%bind_Some)%bind_Some.
  assert (∃ S1, match ev with CLocal i k c => read_from i k c S | _ => Some S end = Some S1 ∧
    goes_along S1 (Strewn B1 (arrived F)) ∧ srv S1 = srv S) as (S1 & HS1 & Hal1 & Hsrv).
  { destruct ev as [| |i k c| | |]; try (injection Hr as <-; exists S; by destruct F).
    destruct (reads_along _ _ _ _ _ _ Hal Hr) as (S1 & HS1 & Hal1). exists S1. split; [done|]. split; [done|].
    by apply read_from_spec in HS1 as [? _]. }
  rewrite HS1. pose proof (proj1 Hal1) as Hs1. simpl in Hs1 |- *. rewrite Hs1 in Hh. rewrite Hh. simpl.
  eexists. split; [done|]. apply (goes_along_server S1 (Strewn B1 (arrived F))); [done|]. intros i.
  eapply talk_grows; [|exact Hh]. by rewrite Hsrv.
Qed.

Lemma uses_along w0 begun d S F i h B : system_ok w0 begun d S → goes_along S F →
  uses i h (base F) = Some B → ∃ S', uses i h S = Some S' ∧ goes_along S' (Strewn B (arrived F)).
Proof.
  unfold uses. intros Hok Hal (p' & Hp' & Hu)%bind_Some.
  destruct (goes_along_window _ _ _ _ Hal Hp') as (p & Hp & Hpart). rewrite Hp. simpl.
  destruct (usable h) eqn:Hus; [|done]. destruct (happens h (window p)) as [c out] eqn:Hh.
  rewrite (proj1 Hal) in Hu. eexists. split; [done|]. destruct Hpart as [Hpp [[Hn Hw]|(frame & Hn & Hf & Hw)]].
  - assert (p' = p) as -> by (rewrite Hpp, Hw; by destruct p). rewrite Hh in Hu. injection Hu as <-.
    apply (goes_along_peer S F i (have F i)); [done| |done|done].
    split; [reflexivity|left; by split].
  - destruct (part_waiting _ _ _ _ _ _ _ Hok Hp Hf) as (resp & _ & _ & _ & Hav).
    rewrite Hw, (midway_uses _ _ _ _ _ _ Hus Hav Hh) in Hu.
    change (availible (midway _ _ (window p))) with (availible (window p)) in Hu.
    rewrite Hav, andb_false_r, Hpp in *. injection Hu as <-.
    apply (goes_along_peer S F i (have F i)); [done| |done|done].
    split; [reflexivity|right; by exists frame].
Qed.

Lemma mails_along S F ev : goes_along S F → mails ev (base F) = mails ev S.
Proof.
  intros [Hsrv Hp]. destruct ev as [|i|ev|i h|i]; try done; simpl.
  - destruct ev as [| | | | |q]; try done. rewrite Hsrv. destruct (executing (srv S) !! q) as [[i j]|]; [|done].
    specialize (Hp i). by destruct (peers S !! i), (peers (base F) !! i).
  - specialize (Hp i). destruct (peers S !! i) as [p|], (peers (base F) !! i) as [p'|]; try done.
    replace (availible (window p')) with (availible (window p)); [done|].
    by destruct Hp as [_ [[_ ->]|(frame & _ & _ & ->)]].
Qed.

Lemma joins_along w0 begun d S F B : system_ok w0 begun d S → goes_along S F → joins (base F) = Some B →
  ∃ S', joins S = Some S' ∧ goes_along S' (Strewn B (arrived F)).
Proof.
  unfold joins. intros Hok Hal (sv & Hh & [= <-])%bind_Some. rewrite (proj1 Hal) in *. rewrite Hh.
  eexists. split; [done|]. set (n := accepted (front (srv S))).
  assert (arrived F !! n = None) as Hn.
  { destruct Hal as [_ Hp]. specialize (Hp n). destruct (peers S !! n) as [p|] eqn:Hpn.
    - destruct (so_peer _ _ _ _ Hok n p Hpn) as (l & _ & _ & Hl & _).
      by rewrite (co_fresh _ _ (so_server _ _ _ _ Hok) n (le_n _)) in Hl.
    - by destruct (peers (base F) !! n). }
  apply (goes_along_peer (System sv (peers S)) (Strewn (System sv (peers (base F))) (arrived F)) n 0).
  - apply goes_along_server; [done|]. intros i. eapply talk_grows; [apply (so_server _ _ _ _ Hok)|exact Hh].
  - split; [done|by left].
  - simpl. by rewrite Hn.
  - done.
Qed.

Lemma leaves_along S F i : goes_along S F →
  goes_along (System (srv S) (delete i (peers S)))
    (Strewn (System (srv (base F)) (delete i (peers (base F)))) (delete i (arrived F))).
Proof.
  intros [Hsrv Hp]. split; [done|]. intros i'. simpl. unfold have. simpl. destruct (decide (i' = i)) as [->|Hne].
  - by rewrite !lookup_delete_eq.
  - rewrite !lookup_delete_ne by congruence. exact (Hp i').
Qed.

Lemma gentle_spec n k len : gentle n k len = true →
  (0 < k)%nat ∧ ((n + k)%nat = len ∨ (n < 9)%nat ∧ (n + k < len)%nat).
Proof.
  unfold gentle. intros [[Hk%Nat.ltb_lt Hl%Nat.leb_le]%andb_prop [Hn%Nat.ltb_lt|He%Nat.eqb_eq]%orb_prop]%andb_prop;
    split; lia.
Qed.

(** What a delivery does; something comes out of the window. *)
Lemma delivers_spec w0 begun d S i p frame c out : system_ok w0 begun d S → peers S !! i = Some p →
  frames (talk_of (srv S) i) !! length (screen p) = Some frame →
  happens (Arrival frame) (window p) = (c, out) →
  out ≠ [] ∧ delivers i S = Some (System (srv S)
    (<[i := Peer c (if availible c then None else current p) (upstream p ++ to_server out)
              (screen p ++ [Round (current p) out c])]> (peers S))).
Proof.
  intros Hok Hp Hf Hh.
  assert (delivers i S = Some (System (srv S)
    (<[i := Peer c (if availible c then None else current p) (upstream p ++ to_server out)
              (screen p ++ [Round (current p) out c])]> (peers S)))) as Hd.
  { unfold delivers. rewrite Hp. cbn [mbind option_bind]. rewrite Hf. cbn [mbind option_bind]. by rewrite Hh. }
  split; [|done]. destruct (delivers_round _ _ _ _ _ _ _ Hok Hd Hp)
    as (h & r & j & resp & c0 & c1 & out1 & _ & _ & _ & _ & Hcb & Hh1 & Hf1 & _).
  rewrite Hf in Hf1. injection Hf1 as ->. rewrite Hh in Hh1. injection Hh1 as <- <-.
  pose proof (callback_speaks j resp c0) as Hne. by rewrite Hcb in Hne.
Qed.

Lemma hands_along w0 begun d S F i n F' : system_ok w0 begun d S → goes_along S F → hands i n F = Some F' →
  ∃ S', (S' = S ∨ delivers i S = Some S') ∧ goes_along S' F'.
Proof.
  unfold hands. intros Hok Hal (p' & Hp' & (frame & Hf & Hh)%bind_Some)%bind_Some.
  destruct (goes_along_window _ _ _ _ Hal Hp') as (p & Hp & Hpp & Hpart).
  rewrite (proj1 Hal) in Hf, Hh. rewrite Hpp in Hf, Hh.
  cbn [window screen upstream current with_window] in Hf, Hh.
  destruct (part_waiting _ _ _ _ _ _ _ Hok Hp Hf) as (resp & Hframe & Hm & Hready & Hav).
  destruct (gentle _ _ _) eqn:Hg; [|done]. apply gentle_spec in Hg as [Hn Hg].
  assert (window p' = midway (have F i) frame (window p)) as Hw.
  { destruct Hpart as [[H0 ->]|(frame' & _ & Hf' & Hw)]; [by rewrite H0, midway_nothing|congruence]. }
  rewrite Hw, Hframe in Hh. rewrite Hframe in Hg. destruct Hg as [He|[Hlt Hl]].
  - rewrite take_ge, midway_all in Hh by (done || rewrite ?length_drop; lia).
    rewrite (proj2 (Nat.eqb_eq _ _) He) in Hh. rewrite <- Hframe in Hh.
    destruct (happens (Arrival frame) (window p)) as [c out] eqn:Hhap.
    destruct (delivers_spec _ _ _ _ _ _ _ _ _ Hok Hp Hf Hhap) as [Hne Hd].
    eexists. split; [by right|]. destruct out as [|o out]; [done|]. injection Hh as <-.
    apply (goes_along_peer S F i 0 _ _ _ Hal).
    + split; [reflexivity|by left].
    + by rewrite lookup_delete_eq.
    + intros i' Hne'. by rewrite lookup_delete_ne by congruence.
  - rewrite midway_more in Hh by done. rewrite (proj2 (Nat.eqb_neq _ _)) in Hh by lia.
    change (availible (midway _ _ (window p))) with (availible (window p)) in Hh. rewrite Hav in Hh.
    unfold to_server in Hh. simpl in Hh. rewrite !app_nil_r in Hh. injection Hh as <-.
    exists S. split; [by left|]. destruct S as [sv ps]. rewrite <- (insert_id ps i p) at 1 by done.
    apply (goes_along_peer (System sv ps) F i (have F i + n) _ _ _ Hal).
    + split; [reflexivity|]. right. exists frame. rewrite Hframe in Hf |- *. split; [lia|]. by split.
    + by rewrite lookup_insert_eq.
    + intros i' Hne'. by rewrite lookup_insert_ne by congruence.
Qed.

Lemma step_along w0 begun d S F F' : system_ok w0 begun d S → goes_along S F → strewn_step F F' →
  ∃ S', (S' = S ∨ sys_step S S') ∧ goes_along S' F'.
Proof.
  intros Hok Hal (ev & Hh & Hm). destruct ev as [ev|i n].
  - assert (∃ S', shandle ev S = Some S' ∧ goes_along S' F') as (S' & Hst & Hal').
    { destruct ev as [|i|ev|i h|i]; try done; cbn [fhandle] in Hh;
        apply bind_Some in Hh as (B & Hh & [= <-]).
      - by eapply joins_along.
      - injection Hh as <-. eexists. split; [done|]. by apply leaves_along.
      - eapply serves_along; [apply Hok|done|done].
      - by eapply uses_along. }
    exists S'. split; [|done]. right. exists ev. by rewrite <- (mails_along S F ev Hal).
  - destruct (hands_along _ _ _ _ _ _ _ _ Hok Hal Hh) as (S' & Hs & Hal'). exists S'. split; [|done].
    destruct Hs as [->|Hd]; [by left|right]. by exists (Delivers i).
Qed.
Lemma steps_along d S F F' : tables_ok d → sys_reachable d S → goes_along S F → rtc strewn_step F F' →
  ∃ S', rtc sys_step S S' ∧ goes_along S' F'.
Proof.
  intros Hd Hr Hal Hrun. revert S Hr Hal. induction Hrun as [F|F F1 F2 Hst _ IH]; intros S Hr Hal.
  { by exists S. }
  destruct (step_along _ _ _ _ _ _ (sys_reachable_ok d S Hd Hr) Hal Hst) as (S1 & [->|Hs] & Hal1).
  - by apply IH.
  - destruct (IH S1) as (S2 & Hs2 & Hal2); [by eapply rtc_r|done|]. exists S2. split; [by eapply rtc_l|done].
Qed.

Lemma starts_along d : goes_along (sys_initial d) (strewn_initial d).
Proof. split; [done|]. intros i. simpl. by rewrite lookup_empty. Qed.

(** The other way round: a response may arrive at once. *)
Lemma step_at_once w0 begun d S S' : system_ok w0 begun d S → sys_step S S' →
  strewn_step (Strewn S ∅) (Strewn S' ∅).
Proof.
  intros Hok (ev & Hh & Hm). destruct ev as [|i|ev|i h|i]; simpl in Hh.
  1,3,4: eexists (Does _); split; [|exact Hm]; cbn [fhandle shandle base]; by rewrite Hh.
  { exists (Does (Leaves i)). split; [|done]. cbn [fhandle shandle base]. injection Hh as <-. simpl.
    by rewrite delete_empty. }
  pose proof Hh as Hd. unfold delivers in Hd. apply bind_Some in Hd as (p & Hp & (frame & Hf & _)%bind_Some).
  destruct (part_waiting _ _ _ _ _ _ _ Hok Hp Hf) as (resp & Hframe & Hm' & _).
  destruct (packet_parts _ Hm') as (_ & _ & Hlen & _). rewrite <- Hframe in Hlen. unfold zlen in Hlen.
  destruct (happens (Arrival frame) (window p)) as [c out] eqn:Hhap.
  destruct (delivers_spec _ _ _ _ _ _ _ _ _ Hok Hp Hf Hhap) as [Hne Hd]. rewrite Hh in Hd.
  injection Hd as ->. exists (Hands i (length frame)). split; [|done]. unfold fhandle, hands, have.
  cbn [base arrived]. rewrite Hp. cbn [mbind option_bind]. rewrite Hf. cbn [mbind option_bind].
  rewrite lookup_empty. cbn [default from_option]. rewrite drop_0, firstn_all, Hhap.
  unfold gentle. rewrite (proj2 (Nat.ltb_lt 0 (length frame))), Nat.leb_refl, Nat.eqb_refl by lia.
  destruct out; [done|]. simpl. by rewrite delete_empty.
Qed.
End Simulation.

Section Theorems.
Context `{W : WireFormat} {L : WireFormatLaws W} `{Mem : Memory} `{Q : Qt} {QL : QtLaws Q}
  `{P : Pqxx} {PL : PqxxLaws P}.
Implicit Types (S : system) (F : strewn) (p : peer) (d : db).

(** All of a window but the buffers of its connection. *)
Definition seen p : client * option happening * bytes * list round :=
  (set_session NetworkSession.init (window p), current p, upstream p, screen p).

Definition same_to_see F S : Prop :=
  srv (base F) = srv S ∧ ∀ i, seen <$> peers (base F) !! i = seen <$> peers S !! i.

Lemma goes_along_same S F : goes_along S F → same_to_see F S.
Proof.
  intros [Hsrv Hp]. split; [done|]. intros i. specialize (Hp i).
  destruct (peers S !! i) as [p|], (peers (base F) !! i) as [p'|]; try done.
  destruct Hp as [-> Hw]. cbn [with_window window] in Hw. simpl. unfold seen. simpl.
  by destruct Hw as [[_ ->]|(frame & _ & _ & ->)].
Qed.

(** C5: in which portions the responses arrive makes no difference: at any two
    moments of a run in which they arrive in gentle portions, with anything in
    between, the server is in a state, and the windows show, what they are in
    and show at two moments of a run in which every response arrives at once;
    and each of these runs is one with portions. *)
Theorem portions_make_no_difference d :
  tables_ok d →
  (∀ F1 F2, strewn_reachable d F1 → rtc strewn_step F1 F2 →
     ∃ S1 S2, sys_reachable d S1 ∧ rtc sys_step S1 S2 ∧ same_to_see F1 S1 ∧ same_to_see F2 S2) ∧
  (∀ S, sys_reachable d S → strewn_reachable d (Strewn S ∅)).
Proof.
  intros Hd. split.
  - intros F1 F2 H1 H2.
    destruct (steps_along d _ _ _ Hd (rtc_refl _ _) (starts_along d) H1) as (S1 & Hs1 & Hal1).
    destruct (steps_along d _ _ _ Hd Hs1 Hal1 H2) as (S2 & Hs2 & Hal2).
    exists S1, S2. split_and!; try done; by apply goes_along_same.
  - intros S. unfold sys_reachable, strewn_reachable. apply (rtc_ind_r (λ S, rtc _ _ (Strewn S ∅))).
    + apply rtc_refl.
    + intros S1 S2 H1 Hs IH. eapply rtc_r; [exact IH|].
      eapply step_at_once; [by apply (sys_reachable_ok d S1 Hd)|done].
Qed.

Lemma begun_along S F i : goes_along S F → begun_by (base F) i = begun_by S i.
Proof.
  intros [_ He]. specialize (He i). unfold begun_by.
  destruct (peers (base F) !! i) as [q|], (peers S !! i) as [q'|]; try done. by destruct He as [-> _].
Qed.

(** C1: what one window was told to be accepted is shown by every other one, and
    by itself, whenever somebody who is logged in asks for it later: a message
    by those who load its chat, a contact by those who load that user's
    contacts, a chat, titled with its creator, by those who load the friend's
    chats, [LoadData] after signing in included; whatever all the clients, the
    network, the jobs and the database do in between, and in whatever gentle
    portions the responses arrive.  The list shown is the answer of a call of
    the storage that began after the acceptance.  It has what was accepted if
    the commit of this call was answered; otherwise, as when its connection
    broke, it may be empty instead. *)
Theorem accepted_is_shown_to_others d F1 F2 i p k rd i' p' k' rd' :
  tables_ok d → strewn_reachable d F1 → rtc strewn_step F1 F2 →
  peers (base F1) !! i = Some p → screen p !! k = Some rd → accepted_in rd →
  peers (base F2) !! i' = Some p' → screen p' !! k' = Some rd' → (begun_by (base F1) i' ≤ k')%nat →
  m_profile (after rd') ≠ None →
  shown_in (database (srv (base F1))) (database (srv (base F2))) rd rd'.
Proof.
  intros Hd H1 H2 Hp Hrd Hacc Hp' Hrd' Hk Hlog.
  destruct (steps_along d _ _ _ Hd (rtc_refl _ _) (starts_along d) H1) as (S1 & Hs1 & Hal1).
  destruct (steps_along d _ _ _ Hd Hs1 Hal1 H2) as (S2 & Hs2 & Hal2).
  destruct (goes_along_window _ _ _ _ Hal1 Hp) as (q & Hq & Hqp & _). rewrite Hqp in Hrd.
  destruct (goes_along_window _ _ _ _ Hal2 Hp') as (q' & Hq' & Hqp' & _). rewrite Hqp' in Hrd'.
  rewrite (proj1 Hal1), (proj1 Hal2).
  eapply (accepted_is_shown d S1 S2 i q k rd i' q' k' rd'); try done. rewrite <- (begun_along S1 F1); done.
Qed.
End Theorems.

(** ** A conversation in portions *)

Section Witnesses.
#[local] Existing Instance plain_pqxx.
#[local] Existing Instance plain_pqxx_laws.
#[local] Existing Instance unlimited.
#[local] Existing Instance utf8_qt.
#[local] Existing Instance utf8_qt_laws.

Definition asked (i : nat) (h : happening) (q n : nat) : list strewn_event :=
  Does <$> Uses i h :: served i h q n.

(** Bob and Alice sign in; Bob looks at a chat while the answer is on its way,
    and writes; the answer breaks behind its prefix. *)
Definition talked : list strewn_event :=
  [Does Joins; Does Joins] ++ asked 1 alice_signs_in 0 2 ++ [Hands 1 23] ++
  asked 0 bob_signs_in 1 2 ++ [Hands 0 4; Does (Uses 0 (SelectChat 1)); Hands 0 8; Does (Uses 0 LoadChats);
    Hands 0 11] ++
  asked 0 bob_writes 2 4 ++ [Hands 0 9; Hands 0 4].

(** Alice reads. *)
Definition read_on : list strewn_event :=
  asked 1 (LoadMessages 1) 3 3 ++ [Hands 1 3; Hands 1 10; Hands 1 15].

Definition after_frun (evs : list strewn_event) (F : strewn) : strewn := default F (fst <$> frun evs F).
Definition fmails_of (evs : list strewn_event) (F : strewn) : list WrappedMessage.t :=
  default [] (snd <$> frun evs F).
Definition fruns (evs : list strewn_event) (F : strewn) : bool :=
  match frun evs F with Some _ => true | None => false end.

Lemma frun_some evs F : fruns evs F = true → frun evs F = Some (after_frun evs F, fmails_of evs F).
Proof. unfold fruns, after_frun, fmails_of. by destruct (frun evs F) as [[F' ms]|]. Qed.

Definition has_talked : strewn := after_frun talked (strewn_initial sample_db).
Definition has_read_on : strewn := after_frun read_on has_talked.

Lemma talked_run :
  frun talked (strewn_initial sample_db) = Some (has_talked, fmails_of talked (strewn_initial sample_db)).
Proof. apply frun_some. by vm_compute. Defined.

Lemma read_on_run : frun read_on has_talked = Some (has_read_on, fmails_of read_on has_talked).
Proof. apply frun_some. by vm_compute. Defined.

Lemma talked_fits : Forall sendable (fmails_of talked (strewn_initial sample_db)).
Proof. concrete_mails. Defined.

Lemma read_on_fits : Forall sendable (fmails_of read_on has_talked).
Proof. concrete_mails. Defined.

Lemma has_talked_reachable : strewn_reachable sample_db has_talked.
Proof. exact (frun_steps _ _ _ _ talked_run talked_fits). Defined.

Lemma has_read_later_on : rtc strewn_step has_talked has_read_on.
Proof. exact (frun_steps _ _ _ _ read_on_run read_on_fits). Defined.

(** Alice has got the prefix of her answer and some more. *)
Definition nearly : list strewn_event := removelast read_on.
Definition has_nearly_read : strewn := after_frun nearly has_talked.

Lemma nearly_run : frun nearly has_talked = Some (has_nearly_read, fmails_of nearly has_talked).
Proof. apply frun_some. by vm_compute. Defined.

Lemma nearly_fits : Forall sendable (fmails_of nearly has_talked).
Proof. concrete_mails. Defined.

Lemma portions_make_no_difference_witness :
  have has_nearly_read 1 = 13%nat ∧
  ∃ S1 S2, sys_reachable sample_db S1 ∧ rtc sys_step S1 S2 ∧
    same_to_see has_talked S1 ∧ same_to_see has_nearly_read S2.
Proof.
  split; [by vm_compute|].
  destruct (portions_make_no_difference sample_db (ok_tables _ sample_db_ok)) as [H _].
  exact (H has_talked has_nearly_read has_talked_reachable (frun_steps _ _ _ _ nearly_run nearly_fits)).
Defined.

(** Alice's second round shows Bob's message. *)
Lemma accepted_is_shown_to_others_witness :
  accepted_in (round_at 0 1 (base has_talked)) ∧
  (∃ messages ph, called_since (database (srv (base has_talked))) (database (srv (base has_read_on)))
     (GetMessages 1) (inr (Messages messages)) ph) ∧
  ∃ items, MessagesList.m_items (m_messagesList (after (round_at 1 1 (base has_read_on)))) = Some items ∧
    MessagesList.MkMessageItem 2 (str [Byte.x68]) ∈ items.
Proof.
  assert (plain_text (toStdString (str [Byte.x68]))) as Hplain by (apply plain_bytes; set_solver).
  assert (started (round_at 0 1 (base has_talked)) = Some bob_writes) as H0 by (by vm_compute).
  assert (started (round_at 1 1 (base has_read_on)) = Some (LoadMessages 1)) as H1 by (by vm_compute).
  assert (userId (after (round_at 0 1 (base has_talked))) = 2) as Hu by (by vm_compute).
  assert (accepted_in (round_at 0 1 (base has_talked))) as Hacc.
  { unfold accepted_in. rewrite H0. assert (outputs (round_at 0 1 (base has_talked)) =
      [ToQml (doSendMessageReaction true)]) as -> by (by vm_compute). simpl. by left. }
  split; [exact Hacc|].
  pose proof (accepted_is_shown_to_others sample_db has_talked has_read_on 0 (peer_at 0 (base has_talked)) 1
    (round_at 0 1 (base has_talked)) 1 (peer_at 1 (base has_read_on)) 1 (round_at 1 1 (base has_read_on))
    (ok_tables _ sample_db_ok) has_talked_reachable has_read_later_on
    (peer_at_some 0 (base has_talked) ltac:(by vm_compute)) (round_at_some 0 1 (base has_talked) ltac:(by vm_compute))
    Hacc (peer_at_some 1 (base has_read_on) ltac:(by vm_compute)) (round_at_some 1 1 (base has_read_on) ltac:(by vm_compute))
    ltac:(vm_compute; lia)) as H.
  assert (m_profile (after (round_at 1 1 (base has_read_on))) = Some (MkProfile 1 (str [Byte.x61]) (str [Byte.x41])))
    as Hal by (by vm_compute).
  specialize (H (proj2 (not_eq_None_Some _) (mk_is_Some _ _ Hal))). unfold shown_in in H. rewrite H0, H1, Hu in H.
  destruct (H eq_refl Hplain) as (messages & ph & Hcall & Hitems & [Hin|[_ Hnil]]).
  - split; [by exists messages, ph|]. eexists. split; [exact Hitems|exact Hin].
  - assert ((if MessagesList.m_items (m_messagesList (after (round_at 1 1 (base has_read_on)))) is Some [] then true else false) = false)
      as Hsome by (by vm_compute).
    rewrite Hnil in Hitems. by rewrite Hitems in Hsome.
Defined.

End Witnesses.
