(* ===== verification/PageSystem.v ===== *)
(** * The whole system with its pages

    The system of [System.v] whose windows are used through their pages: what
    the user does is done to a page, and the calls of the backend a page makes
    are what the window does.  A window whose user changes the connection
    settings is no window of the system any more, as in [System.v]. *)
From stdpp Require Import gmap.
From S2P Require Import Prelude Wire Parser Message Requests Responses Envelope Framing Storage Database.
From S2P Require Import Postgres Programs Interleaving Session Jobs JobCalls Server ConcurrentServer.
From S2P Require Import Qt ClientLists NetworkSession Client ClientTheorems Pages System.

Section PageSystem.
Context `{W : WireFormat} {L : WireFormatLaws W} `{Mem : Memory} `{Q : Qt} `{V : Views} `{P : Pqxx}.

(** The system, and the pages of each window. *)
Record psystem := PSystem { core : system; views : gmap nat Pages.window }.

Inductive psys_event : Type :=
| PJoins
| PLeaves (i : nat)
| PServes (ev : cinput)
| PDoes (i : nat) (ev : page_event)
| PDelivers (i : nat).

(** What the user does. *)
Definition from_user (ev : page_event) : bool :=
  match ev with Gets _ => false | _ => true end.

(** The window of a client that has just connected. *)
Definition connected_window : Pages.window :=
  default opened (fst <$> page_step (Gets SocketConnected) opened).

(** The steps of the system that the calls of the pages are. *)
Definition used (i : nat) (hs : list happening) : list sys_event := Uses i <$> hs.

(** A step and the messages it sends. *)
Definition phandle (ev : psys_event) (S : psystem) : option (psystem * list WrappedMessage.t) :=
  match ev with
  | PJoins =>
      r ← srun [Joins] (core S);
      Some (PSystem r.1 (<[accepted (front (srv (core S))) := connected_window]> (views S)), r.2)
  | PLeaves i => r ← srun [Leaves i] (core S); Some (PSystem r.1 (delete i (views S)), r.2)
  | PServes ev => r ← srun [Serves ev] (core S); Some (PSystem r.1 (views S), r.2)
  | PDoes i ev =>
      if from_user ev then
        w ← views S !! i;
        u ← page_step ev w;
        r ← srun (used i u.2) (core S);
        Some (PSystem r.1 (<[i := u.1]> (views S)), r.2)
      else None
  | PDelivers i =>
      p ← peers (core S) !! i;
      w ← views S !! i;
      frame ← frames (talk_of (srv (core S)) i) !! length (screen p);
      u ← page_step (Gets (Arrival frame)) w;
      r ← srun (Delivers i :: used i (tail u.2)) (core S);
      Some (PSystem r.1 (<[i := u.1]> (views S)), r.2)
  end.

Definition psys_step (S S' : psystem) : Prop :=
  ∃ ev ms, phandle ev S = Some (S', ms) ∧ Forall sendable ms.

Definition psys_initial (d : db) : psystem := PSystem (sys_initial d) ∅.

Definition psys_reachable (d : db) (S : psystem) : Prop := rtc psys_step (psys_initial d) S.

(** Runs for concrete inputs. *)
Fixpoint psrun (evs : list psys_event) (S : psystem) : option (psystem * list WrappedMessage.t) :=
  match evs with
  | [] => Some (S, [])
  | ev :: evs =>
    r ← phandle ev S;
    r' ← psrun evs r.1;
    Some (r'.1, r.2 ++ r'.2)
  end.

Lemma psrun_steps evs S S' ms : psrun evs S = Some (S', ms) → Forall sendable ms → rtc psys_step S S'.
Proof.
  revert S ms. induction evs as [|ev evs IH]; intros S ms; simpl.
  { by intros [= -> _] _. }
  intros ([S1 ms1] & Hst & ([S2 ms2] & Hrun & [= -> <-])%bind_Some)%bind_Some Hms. simpl in *.
  apply Forall_app in Hms as [H1 H2]. eapply rtc_l; [by exists ev, ms1|by eapply IH].
Qed.
End PageSystem.
