(* ===== verification/PageSystemInvariant.v ===== *)
(** * The invariant of the system with its pages

    Each window is what its pages made of a new client, and its list of
    messages keeps for every chat an answer of the storage for that chat. *)
From stdpp Require Import gmap.
From S2P Require Import Prelude Wire Parser Message Requests Responses Envelope Framing Storage Database.
From S2P Require Import Postgres Programs Interleaving Isolation Serial Steps Session Jobs JobCalls Server.
From S2P Require Import ConcurrentServer ServerFacts ServerInvariant Traffic ConcurrentInvariant.
From S2P Require Import Qt ClientLists NetworkSession NetworkTheorems Client ClientTheorems.
From S2P Require Import Pages PageFacts PageInvariant PageSteps EndToEnd.
From S2P Require Import System SystemInvariant SystemWindows SystemSteps SystemRounds PageSystem.

Section Invariant.
Context `{W : WireFormat} {L : WireFormatLaws W} `{Mem : Memory} `{Q : Qt} `{V : Views}
  `{P : Pqxx} {PL : PqxxLaws P}.
Implicit Types (S : system) (d : db) (w : world) (p : peer) (hs : list happening).

(** ** One event of the pages *)

Lemma step_called ev (v v' : Pages.window) hs0 hs : page_run v hs0 → page_step ev v = Some (v', hs) →
  page_run v' (hs0 ++ hs) ∧ backend v' = lived hs (backend v) ∧ guarded hs (backend v).
Proof.
  intros Hr Hst. pose proof (run_step _ _ _ _ _ Hr Hst) as Hr'. split; [done|].
  destruct (run_ok _ _ Hr) as [_ _ _ _ H5 H6]. destruct (run_ok _ _ Hr') as [_ _ _ _ G5 G6].
  rewrite G5, H5, lived_app. split; [done|]. by apply guarded_rest in G6.
Qed.

Lemma gets_first h (v v' : Pages.window) hs : page_step (Gets h) v = Some (v', hs) → ∃ hs', hs = h :: hs'.
Proof.
  unfold page_step. simpl. intros Hst.
  assert (∃ r, invoke h v = Some r ∧ r = (v', hs)) as (r & Hr & ->).
  { destruct (popup v), (from_socket h); try done; eauto. }
  unfold invoke, DEPTH in Hr. cbn [call] in Hr. destruct (happens h (backend v)).
  destruct (each _ _ _) as [[v1 hs1]|]; [|done]. injection Hr as _ <-. by exists hs1.
Qed.

(** ** The list of messages *)

Definition chat_of (c : client) : Z := MessagesList.m_currentChatId (m_messagesList c).

(** [v] shows the answer of a call for the messages of chat [k]. *)
Definition answered w (k : Z) (v : list MessagesList.MessageItem) : Prop :=
  ∃ q ph seen messages,
    calls w !! q = Some (Finished (GetMessages k) (inr (Messages messages)) ph seen) ∧
    v = shown_message <$> MessagesResponse.messages messages.

Definition kept w (l : MessagesList.t) : Prop :=
  (∀ k v, MessagesList.m_mapToItems l !! k = Some v → answered w k v) ∧
  (∀ v, MessagesList.m_items l = Some v →
     MessagesList.m_mapToItems l !! MessagesList.m_currentChatId l = Some v).

Lemma answered_next w w' k v : next w w' → answered w k v → answered w' k v.
Proof.
  intros [_ Hc] (q & ph & seen & messages & Hq & ->). exists q, ph, seen, messages. split; [|done].
  destruct (Hc q _ Hq) as (c & Hc' & _ & Hsame). rewrite Hsame in Hc' by auto. done.
Qed.

Lemma kept_next w w' l : next w w' → kept w l → kept w' l.
Proof. intros Hn [H1 H2]. split; [|done]. intros k v Hk. by eapply answered_next, H1. Qed.

Lemma kept_select w k l : kept w l → kept w (MessagesList.setCurrentChatId k l).1.
Proof.
  intros [H1 H2]. unfold MessagesList.setCurrentChatId. case_match; [done|]. simpl.
  destruct (MessagesList.m_mapToItems l !! k) as [v|] eqn:Hk; simpl; (split; [done|]); simpl; [|done].
  by intros v' [= <-].
Qed.

Lemma set_items_some vec l : (MessagesList.setItems (Some vec) l).1 =
  MessagesList.Build (<[MessagesList.m_currentChatId l := vec]> (MessagesList.m_mapToItems l))
    (MessagesList.m_currentChatId l) (Some vec).
Proof. unfold MessagesList.setItems. by destruct (MessagesList.m_items l). Qed.

Lemma kept_set w vec l : kept w l → answered w (MessagesList.m_currentChatId l) vec →
  kept w (MessagesList.setItems (Some vec) l).1.
Proof.
  intros [H1 H2] Ha. rewrite set_items_some. split; simpl.
  - intros k v. rewrite lookup_insert_Some. intros [[<- <-]|[_ Hk]]; [done|by apply H1].
  - intros v [= <-]. apply lookup_insert_eq.
Qed.

(** Only the messages of a load change the list. *)
Lemma callback_messages j resp c :
  m_messagesList (responseProcessingCallback j resp c).1 = m_messagesList c ∨
  j = LoadMessagesJob ∧ Response.has_messages_response resp = true ∧
  m_messagesList (responseProcessingCallback j resp c).1 =
    (MessagesList.setItems (Some (shown_message <$>
       MessagesResponse.messages (Response.messages_response resp))) (m_messagesList c)).1.
Proof.
  destruct j; cbn [responseProcessingCallback]; try (by left).
  - left. unfold login_callback. by repeat case_match.
  - left. unfold load_chats_callback, setChats. case_match; [|done]. cbv zeta. by case_match.
  - left. unfold load_contacts_callback, setContacts. case_match; [|done]. cbv zeta. by case_match.
  - unfold load_messages_callback. destruct (Response.has_messages_response resp); [right|by left].
    split; [done|]. split; [done|]. cbv zeta. unfold shown_message, mesagesList.
    by destruct (MessagesList.setItems _ _).
  - left. unfold load_data_callback, setContacts, setChats. destruct (Response.has_contacts_response resp).
    + destruct (ContactsList.setItems _ _) as [l es]. cbv zeta.
      pose proof (send_request_calm MessageFactory.createAllMyChatsRequest LoadDataJob
        (set_contactsList l c)) as [_ (_ & Hm & _)].
      by destruct (send_request _ _ _).
    + case_match; [|done]. cbv zeta. by case_match.
Qed.

(** The answer to a load, if it has messages, is the storage's. *)
Lemma answer_messages fresh w k resp pr :
  answers_to fresh w (MessageFactory.createLoadMessagesRequest k) resp pr →
  Response.has_messages_response resp = true →
  answered w k (shown_message <$> MessagesResponse.messages (Response.messages_response resp)).
Proof.
  intros (_ & _ & sj & s & [= <-] & _ & Hans) Hm. unfold answer_from in Hans. simpl in Hans.
  unfold state in Hans. destruct (state_ s) as [st|]; [|by rewrite Hans in Hm]. simpl in Hans.
  destruct Hans as (q & result & ph & seen & s' & _ & Hq & Hresp).
  destruct result as [e|[b|id name|x|x|messages]]; try done; injection Hresp as _ <-; try done.
  by exists q, ph, seen, messages.
Qed.

(** ** Windows *)

(** A load under way is for the chat of the list. *)
Definition filed p : Prop := ∀ k, current p = Some (LoadMessages k) → chat_of (window p) = k.

Definition window_kept w p : Prop := filed p ∧ kept w (m_messagesList (window p)).

(** What the pages keep to. *)
Definition allowed (h : happening) (c : client) : Prop :=
  match h with
  | SelectChat _ => availible c = true
  | LoadMessages k => chat_of c = k
  | _ => True
  end.

Lemma guarded_cons h hs c : guarded (h :: hs) c → allowed h c ∧ guarded hs (happens h c).1.
Proof. simpl. intros [H1 H2]. split; [|done]. destruct h; try done. by destruct H1. Qed.

Lemma uses_kept w0 begun d S i h S' p : system_ok w0 begun d S → uses i h S = Some S' →
  peers S !! i = Some p → allowed h (window p) → window_kept (database (srv S)) p →
  ∃ p', S' = System (srv S) (<[i := p']> (peers S)) ∧ window_kept (database (srv S)) p' ∧
    window p' = (happens h (window p)).1 ∧ screen p' = screen p ∧
    (availible (window p) = false → current p' = current p).
Proof.
  intros Hok Hu Hp Hg [Hf Hk]. unfold uses in Hu. rewrite Hp in Hu. simpl in Hu.
  destruct (usable h) eqn:Hus; [|done]. destruct (happens h (window p)) as [c out] eqn:Hh.
  injection Hu as <-. eexists. split; [done|]. unfold window_kept, filed, chat_of in *.
  cbn [window current screen].
  split; [|split; [done|split; [done|intros ->; by rewrite andb_false_r]]].
  destruct (is_operation h) eqn:Hop; simpl.
  - assert (calm h = true) as Hc by (by destruct h).
    destruct (operation_contents h (window p) Hc Hop) as (_ & Hm & _). rewrite Hh in Hm. simpl in Hm.
    rewrite Hm. split; [|done]. intros k. destruct (availible (window p)); [|by apply Hf].
    intros [= ->]. exact Hg.
  - destruct h; try done. simpl in Hg. cbn [happens] in Hh. pose proof (kept_select _ chatId _ Hk) as Hsel.
    destruct (MessagesList.setCurrentChatId _ _) as [l es]. injection Hh as <- <-. simpl.
    split; [|done]. intros k' Hcur. exfalso.
    destruct (so_peer _ _ _ _ Hok i p Hp) as (_ & _ & st & _ & _ & _ & [_ Hw] & _).
    destruct (waiting st) as [[r j]|]; [|by destruct Hw as [? _]; congruence].
    destruct Hw as (_ & Hx & _). congruence.
Qed.

Lemma used_kept w0 begun d i hs : ∀ S S' ms p,
  system_ok w0 begun d S → srun (used i hs) S = Some (S', ms) → Forall sendable ms →
  peers S !! i = Some p → guarded hs (window p) → window_kept (database (srv S)) p →
  ∃ p', S' = System (srv S) (<[i := p']> (peers S)) ∧ window_kept (database (srv S)) p' ∧
    window p' = lived hs (window p) ∧ screen p' = screen p.
Proof.
  induction hs as [|h hs IH]; intros S S' ms p Hok Hrun Hms Hp Hg Hk; simpl in Hrun.
  { injection Hrun as <- <-. exists p. rewrite insert_id by done. by destruct S. }
  apply bind_Some in Hrun as (S1 & Hu & ([S2 ms2] & Hrun & [= <- <-])%bind_Some). simpl in *.
  apply Forall_app in Hms as [Hms1 Hms2]. apply guarded_cons in Hg as [Ha Hg].
  assert (system_ok w0 begun d S1) as Hok1.
  { eapply sys_step_ok; [exact Hok|]. exists (Uses i h). by split. }
  destruct (uses_kept w0 begun d S i h S1 p Hok Hu Hp Ha Hk) as (p1 & -> & Hk1 & Hw1 & Hs1 & _).
  destruct (IH _ S2 ms2 p1 Hok1 Hrun Hms2) as (p2 & -> & Hk2 & Hw2 & Hs2);
    [apply lookup_insert_eq|by rewrite Hw1|done|].
  exists p2. simpl in *. rewrite insert_insert_eq. split_and!; [done|done|by rewrite Hw2, Hw1|congruence].
Qed.

Lemma delivers_kept w0 begun d S i S' p : system_ok w0 begun d S → delivers i S = Some S' →
  peers S !! i = Some p → window_kept (database (srv S)) p →
  ∃ p' frame, S' = System (srv S) (<[i := p']> (peers S)) ∧ window_kept (database (srv S)) p' ∧
    frames (talk_of (srv S) i) !! length (screen p) = Some frame ∧
    window p' = (happens (Arrival frame) (window p)).1.
Proof.
  intros Hok Hd Hp [Hf Hk].
  destruct (delivers_round _ _ _ _ _ _ _ Hok Hd Hp)
    as (h & r & j & resp & c0 & c & out & Hcur & Hask & Hans & Hc0 & Hcb & Hh & Hfr & ->).
  eexists _, _. split; [done|]. split; [|split; [exact Hfr|by rewrite Hh]].
  unfold window_kept, filed, chat_of in *. cbn [window current].
  pose proof (callback_messages j resp c0) as Hm. rewrite Hcb in Hm. simpl in Hm.
  assert (m_messagesList c0 = m_messagesList (window p)) as H0 by (by rewrite Hc0).
  rewrite H0 in Hm. destruct Hm as [->|(-> & Hhas & ->)].
  - split; [|done]. intros k. destruct (availible c); [done|]. intros [= ->]. by apply Hf.
  - destruct Hask as [Ha|(_ & _ & Hx)]; [|done]. destruct h; try done. injection Ha as <-.
    pose proof (Hf _ Hcur) as Hchat. split.
    + intros k. destruct (availible c); [done|]. intros [= <-]. by rewrite set_items_some.
    + apply kept_set; [done|]. rewrite Hchat. by eapply answer_messages.
Qed.

(** What the server does leaves the windows alone. *)
Lemma serves_windows S ev S' i p' : serves ev S = Some S' → peers S' !! i = Some p' →
  ∃ p, peers S !! i = Some p ∧ window p' = window p ∧ current p' = current p ∧ screen p' = screen p.
Proof.
  unfold serves. intros (S1 & Hr & (sv & _ & [= <-])%bind_Some)%bind_Some. simpl. intros Hp.
  destruct ev; try (injection Hr as <-; by exists p').
  apply read_from_spec in Hr as [_ Hr]. destruct (Hr i p' Hp) as (p & up & Hp0 & -> & _). by exists p.
Qed.

(** ** The invariant *)

Record psystem_ok w0 begun d (S : psystem) : Prop := {
  ps_core : system_ok w0 begun d (core S);
  ps_view i p : peers (core S) !! i = Some p → ∃ v hs, views S !! i = Some v ∧ page_run v hs ∧
    backend v = window p ∧ window_kept (database (srv (core S))) p
}.

Lemma connected_run : page_run connected_window [SocketConnected] ∧ backend connected_window = newcomer.
Proof.
  assert (page_step (Gets SocketConnected) opened = Some (connected_window, [SocketConnected])) as Hst
    by done.
  split; [|done]. exact (run_step _ _ _ _ _ run_opened Hst).
Qed.

Lemma newcomer_kept w up sc : window_kept w (Peer newcomer None up sc).
Proof.
  split; [done|]. cbn [window].
  assert (m_messagesList newcomer = MessagesList.init) as ->.
  { unfold newcomer, new_client, startup, connect, sock_abort. by repeat case_match; simplify_eq/=. }
  split; [|done]. intros k v. unfold MessagesList.init. simpl. by rewrite lookup_empty.
Qed.

Lemma window_kept_next w w' p p' : next w w' → window p' = window p → current p' = current p →
  window_kept w p → window_kept w' p'.
Proof.
  intros Hn Hw Hc [Hf Hk]. unfold window_kept, filed. rewrite Hw, Hc. split; [done|].
  by eapply kept_next.
Qed.

(** One window changes, the rest stays. *)
Lemma psystem_ok_update w0 begun d (S : psystem) i p v hs S' :
  psystem_ok w0 begun d S → system_ok w0 begun d S' →
  S' = System (srv (core S)) (<[i := p]> (peers (core S))) →
  page_run v hs → backend v = window p → window_kept (database (srv (core S))) p →
  psystem_ok w0 begun d (PSystem S' (<[i := v]> (views S))).
Proof.
  intros [_ Hv] Hok -> Hr Hb Hk. split; [done|]. simpl. intros i' p'. rewrite lookup_insert_Some.
  intros [[<- <-]|[Hne Hp]].
  - exists v, hs. by rewrite lookup_insert_eq.
  - destruct (Hv i' p' Hp) as (v' & hs' & H1 & H2). exists v', hs'. by rewrite lookup_insert_ne.
Qed.

Lemma sys_run_ok w0 begun d S evs S' ms : system_ok w0 begun d S → srun evs S = Some (S', ms) →
  Forall sendable ms → system_ok w0 begun d S'.
Proof. intros Hok Hr Hms. eapply sys_steps_ok; [by eapply srun_steps|done]. Qed.

Lemma srun_one ev S S' ms : srun [ev] S = Some (S', ms) → shandle ev S = Some S'.
Proof. simpl. intros (S1 & Hh & [= -> _])%bind_Some. done. Qed.

Lemma does_ok w0 begun d (S : psystem) i v v' hs S' ms :
  psystem_ok w0 begun d S → views S !! i = Some v → (∃ ev, page_step ev v = Some (v', hs)) →
  srun (used i hs) (core S) = Some (S', ms) → Forall sendable ms →
  psystem_ok w0 begun d (PSystem S' (<[i := v']> (views S))).
Proof.
  intros Hok Hv (ev & Hst) Hrun Hms. pose proof (sys_run_ok _ _ _ _ _ _ _ (ps_core _ _ _ _ Hok) Hrun Hms) as Hok'.
  destruct (peers (core S) !! i) as [p|] eqn:Hp.
  - destruct (ps_view _ _ _ _ Hok i p Hp) as (v0 & hs0 & Hv0 & Hr & Hb & Hk).
    rewrite Hv in Hv0. injection Hv0 as <-.
    destruct (step_called _ _ _ _ _ Hr Hst) as (Hr' & Hb' & Hg). rewrite Hb in Hb', Hg.
    destruct (used_kept _ _ _ _ _ _ _ _ _ (ps_core _ _ _ _ Hok) Hrun Hms Hp Hg Hk) as (p' & HS & Hk' & Hw & _).
    eapply psystem_ok_update; [done|done|exact HS|exact Hr'|congruence|done].
  - assert (S' = core S) as ->.
    { destruct hs as [|h hs]; simpl in Hrun; [by injection Hrun as <-|].
      unfold uses in Hrun. by rewrite Hp in Hrun. }
    split; [done|]. simpl. intros i' p' Hp'. rewrite lookup_insert_ne by congruence.
    by apply (ps_view _ _ _ _ Hok).
Qed.

Lemma pdelivers_ok w0 begun d (S : psystem) i p v v' hs frame S' ms :
  psystem_ok w0 begun d S → peers (core S) !! i = Some p → views S !! i = Some v →
  frames (talk_of (srv (core S)) i) !! length (screen p) = Some frame →
  page_step (Gets (Arrival frame)) v = Some (v', hs) →
  srun (Delivers i :: used i (tail hs)) (core S) = Some (S', ms) → Forall sendable ms →
  psystem_ok w0 begun d (PSystem S' (<[i := v']> (views S))).
Proof.
  intros Hok Hp Hv Hfr Hst Hrun Hms.
  pose proof (sys_run_ok _ _ _ _ _ _ _ (ps_core _ _ _ _ Hok) Hrun Hms) as Hok'.
  destruct (gets_first _ _ _ _ Hst) as (hs' & ->). cbn [tail] in Hrun.
  destruct (ps_view _ _ _ _ Hok i p Hp) as (v0 & hs0 & Hv0 & Hr & Hb & Hk).
  rewrite Hv in Hv0. injection Hv0 as <-.
  destruct (step_called _ _ _ _ _ Hr Hst) as (Hr' & Hb' & Hg). rewrite Hb in Hb', Hg.
  cbn [srun] in Hrun. apply bind_Some in Hrun as (S1 & Hd & ([S2 ms2] & Hrun & [= <- <-])%bind_Some).
  cbn [fst snd mails app shandle] in *. apply guarded_cons in Hg as [_ Hg]. pose proof Hok as [Hcore _].
  assert (system_ok w0 begun d S1) as Hok1 by (by eapply sys_step_ok; [|by exists (Delivers i)]).
  destruct (delivers_kept _ _ _ _ _ _ _ Hcore Hd Hp Hk) as (p1 & frame' & -> & Hk1 & Hfr' & Hw1).
  rewrite Hfr in Hfr'. injection Hfr' as <-. rewrite <- Hw1 in Hg.
  destruct (used_kept _ _ _ _ _ _ _ _ _ Hok1 Hrun Hms (lookup_insert_eq _ _ _) Hg Hk1)
    as (p2 & -> & Hk2 & Hw2 & _).
  simpl in *. rewrite insert_insert_eq in *.
  eapply psystem_ok_update; [done|done|done|exact Hr'| |done]. rewrite Hb', Hw2, Hw1. done.
Qed.

Lemma pjoins_ok w0 begun d (S : psystem) S' ms :
  psystem_ok w0 begun d S → srun [Joins] (core S) = Some (S', ms) → Forall sendable ms →
  psystem_ok w0 begun d (PSystem S' (<[accepted (front (srv (core S))) := connected_window]> (views S))).
Proof.
  intros Hok Hrun Hms. pose proof (sys_run_ok _ _ _ _ _ _ _ (ps_core _ _ _ _ Hok) Hrun Hms) as Hok'.
  apply srun_one in Hrun. simpl in Hrun. apply bind_Some in Hrun as (sv & Hh & [= <-]).
  pose proof (chandle_next _ _ _ Hh) as Hn. split; [done|]. simpl. intros i p.
  rewrite lookup_insert_Some. intros [[<- <-]|[Hne Hp]].
  - destruct connected_run as [Hr Hb]. exists connected_window, [SocketConnected].
    rewrite lookup_insert_eq. split_and!; [done|done|done|apply newcomer_kept].
  - destruct (ps_view _ _ _ _ Hok i p Hp) as (v & hs & Hv & Hr & Hb & Hk). exists v, hs.
    rewrite lookup_insert_ne by done. split_and!; try done. by eapply window_kept_next.
Qed.

Lemma pserves_ok w0 begun d (S : psystem) ev S' ms :
  psystem_ok w0 begun d S → srun [Serves ev] (core S) = Some (S', ms) → Forall sendable ms →
  psystem_ok w0 begun d (PSystem S' (views S)).
Proof.
  intros Hok Hrun Hms. pose proof (sys_run_ok _ _ _ _ _ _ _ (ps_core _ _ _ _ Hok) Hrun Hms) as Hok'.
  pose proof (srun_one _ _ _ _ Hrun) as Hh. simpl in Hh.
  split; [done|]. simpl. intros i p' Hp'.
  destruct (serves_windows _ _ _ _ _ Hh Hp') as (p & Hp & Hw & Hc & _).
  destruct (ps_view _ _ _ _ Hok i p Hp) as (v & hs & Hv & Hr & Hb & Hk). exists v, hs.
  split_and!; [done|done|congruence|]. eapply (window_kept_next _ _ p p'); [|done..].
  unfold serves in Hh. apply bind_Some in Hh as (S0 & Hrd & (sv & Hch & [= <-])%bind_Some).
  assert (srv S0 = srv (core S)) as H0.
  { destruct ev; try (by injection Hrd as <-). by apply read_from_spec in Hrd as [-> _]. }
  rewrite <- H0. by eapply chandle_next.
Qed.

Lemma psys_step_ok w0 begun d (S S' : psystem) :
  psystem_ok w0 begun d S → psys_step S S' → psystem_ok w0 begun d S'.
Proof.
  intros Hok (ev & ms & Hh & Hms). destruct ev as [|i|ev|i ev|i]; cbn [phandle] in Hh.
  - apply bind_Some in Hh as ([S1 ms1] & Hr & [= <- <-]). by eapply pjoins_ok.
  - apply bind_Some in Hh as ([S1 ms1] & Hr & [= <- <-]).
    pose proof (sys_run_ok _ _ _ _ _ _ _ (ps_core _ _ _ _ Hok) Hr Hms) as Hok'.
    apply srun_one in Hr. injection Hr as <-. split; [done|]. simpl. intros i' p.
    rewrite lookup_delete_Some. intros [Hne Hp].
    destruct (ps_view _ _ _ _ Hok i' p Hp) as (v & hs & Hv & Hrest). exists v, hs.
    by rewrite lookup_delete_ne.
  - apply bind_Some in Hh as ([S1 ms1] & Hr & [= <- <-]). by eapply pserves_ok.
  - destruct (from_user ev); [|done].
    apply bind_Some in Hh as (v & Hv & ([v' hs] & Hst & ([S1 ms1] & Hr & [= <- <-])%bind_Some)%bind_Some).
    by eapply does_ok; [| |exists ev| |].
  - apply bind_Some in Hh as (p & Hp & (v & Hv & (frame & Hfr & ([v' hs] & Hst &
      ([S1 ms1] & Hr & [= <- <-])%bind_Some)%bind_Some)%bind_Some)%bind_Some).
    by eapply pdelivers_ok.
Qed.

Lemma psys_reachable_ok d (S : psystem) : tables_ok d → psys_reachable d S →
  psystem_ok (Interleaving.quiet d) (λ _, 0%nat) d S.
Proof.
  intros Hd Hr. assert (psystem_ok (Interleaving.quiet d) (λ _, 0%nat) d (psys_initial d)) as H0.
  { split; [by apply system_ok_initial|]. intros i p Hp. simpl in Hp. by rewrite lookup_empty in Hp. }
  revert H0. unfold psys_reachable in Hr. induction Hr as [S|S1 S2 S3 Hs _ IH]; [done|].
  intros Hok. by eapply IH, psys_step_ok.
Qed.

(** A step of the pages is some steps of the system. *)
Lemma psys_step_core (S S' : psystem) : psys_step S S' → rtc sys_step (core S) (core S').
Proof.
  intros (ev & ms & Hh & Hms). destruct ev as [|i|ev|i ev|i]; cbn [phandle] in Hh;
    [..|destruct (from_user ev); [|done]|];
    repeat (let Hx := fresh in apply bind_Some in Hh as (? & Hx & Hh)); injection Hh as <- <-; simpl;
    (eapply srun_steps; [|exact Hms]); match goal with H : srun _ _ = Some ?r |- _ => by destruct r end.
Qed.

Lemma psys_steps_core (S S' : psystem) : rtc psys_step S S' → rtc sys_step (core S) (core S').
Proof.
  induction 1 as [S|S1 S2 S3 Hs _ IH]; [done|]. etrans; [by apply psys_step_core|done].
Qed.
End Invariant.
