(* ===== verification/PageProgress.v ===== *)
(** * What the pages set off

    An answer can make a page ask for more, without its user: the data after a
    login, the chat after a message, a list after a new contact or chat.  Every
    answer brings the window nearer to the end of this, and what it asks for
    fits the network. *)
From stdpp Require Import gmap.
From S2P Require Import Prelude Wire Parser Message Requests Responses Envelope Framing Storage Database.
From S2P Require Import Postgres Programs Interleaving Isolation Serial Progress Steps Session Jobs JobCalls.
From S2P Require Import Server ConcurrentServer ServerFacts ConcurrentProgress Qt ClientLists NetworkSession NetworkTheorems.
From S2P Require Import Client ClientTheorems Pages PageFacts PageInvariant PageSteps.
From S2P Require Import System SystemInvariant SystemWindows SystemSteps SystemRounds SystemProgress.
From S2P Require Import PageSystem PageSystemInvariant.
#[local] Open Scope page_scope.

(** ** Calls of the pages *)

(** What a page asks for by itself. *)
Definition follow_up `{Q : Qt} (h : happening) : bool :=
  match h with
  | LoadData | LoadContacts | LoadChats | SelectChat _ => true
  | LoadMessages chatId => bool_decide (uint64_ok chatId)
  | _ => false
  end.

(** The responses an operation leads to, with those to what its pages ask
    for then. *)
Definition rounds_of `{Q : Qt} (h : happening) : nat :=
  match h with
  | Signin _ _ => 3
  | LoadData | Client.SendMessage _ _ | Client.AddContact _ | Client.CreateChat _ => 2
  | Signup _ _ _ | LoadChats | LoadContacts | LoadMessages _ => 1
  | _ => 0
  end.

(** The responses that a reaction leads to. *)
Definition sets_off `{Q : Qt} (r : reaction) : nat :=
  match r with
  | doLoginReaction _ => 2
  | doChatCreatedReaction _ | doAddContactReaction _ | doSendMessageReaction _ => 1
  | _ => 0
  end.

Section Calls.
Context `{W : WireFormat} `{Q : Qt} `{V : Views}.
Implicit Types (h : happening) (r : reaction).

Definition within (n : nat) h : Prop := follow_up h = true ∧ (rounds_of h ≤ n)%nat.

Lemma follow_up_calm h : follow_up h = true → calm h = true.
Proof. by destruct h. Qed.

Section Within.
Context (m n : nat).
Notation call := (call (S m)).

(** Nothing else is called. *)
Definition only (hs : list happening) (_ : Pages.window) : Prop := Forall (within n) hs.

Lemma only_quiet f : sure only (modify f) only.
Proof. by apply sure_modify. Qed.

Lemma only_call h : within n h → sure only (call h) only.
Proof.
  intros Hh. apply sure_call; [apply follow_up_calm, Hh|]. intros hs w Hw.
  apply Forall_app. split; [done|]. by apply Forall_singleton.
Qed.

Lemma only_when t a : sure only a only → sure only (when t a) only.
Proof. intros Ha. apply sure_when; [|done]. eapply sure_weaken; [exact Ha|by intros ?? []|done]. Qed.

Lemma only_look (f : Pages.window → act) : (∀ w, sure only (f w) only) → sure only (λ w, f w w) only.
Proof. intros H. apply sure_look. intros w. eapply sure_weaken; [apply H|by intros ?? []|done]. Qed.

Lemma only_reload : (1 ≤ n)%nat → sure only (reload_messages call) only.
Proof.
  intros Hn. apply only_when, (only_look (λ w, (call (SelectChat _) ;; call (LoadMessages _)))). intros w.
  apply (sure_andthen only); apply only_call; split; simpl; try done; [lia|].
  apply bool_decide_eq_true_2. unfold uint64_ok, quint64_arg, to_unsigned. apply Z.mod_pos_bound. lia.
Qed.

Lemma only_login isLogged : (2 ≤ n)%nat → sure only (loginReaction call isLogged) only.
Proof.
  intros Hn. destruct isLogged; [|apply only_quiet].
  apply (only_look (λ w, (showMessage _ ;; push call ChatsWindow))). intros w.
  apply (sure_andthen only); [apply only_quiet|]. apply (sure_andthen only); [apply only_quiet|].
  by apply only_when, only_call.
Qed.

Lemma only_chat isCreated : (1 ≤ n)%nat → sure only (createChatReaction call isCreated) only.
Proof.
  intros Hn. destruct isCreated; [|apply only_quiet]. apply (sure_andthen only); [apply only_quiet|].
  by apply only_call.
Qed.

Lemma only_contact i email isAdded : (1 ≤ n)%nat → sure only (addContactReaction call i email isAdded) only.
Proof.
  intros Hn. destruct isAdded; [|apply only_quiet]. apply (sure_andthen only); [apply only_quiet|].
  apply (sure_andthen only); [apply only_quiet|]. by apply only_when, only_call.
Qed.

Lemma only_page i p r : (sets_off r ≤ n)%nat → sure only (page_reacts call i p r) only.
Proof.
  intros Hr. assert (sure only skip only) as Hskip by (by apply sure_skip).
  destruct p, r; cbn [page_reacts] in *; try exact Hskip.
  - by apply only_login.
  - destruct isRegistered; [|apply only_quiet]. apply (sure_andthen only); apply only_quiet.
  - apply (only_look (λ w, each _ _)). intros w. apply sure_each. intros x _. by apply only_chat.
  - by apply only_contact.
  - destruct status; [by apply only_reload|exact Hskip].
  - unfold updateSettingsReaction. destruct (is_empty errorMesg); [exact Hskip|apply only_quiet].
  - apply (only_look (λ w, modify _)). intros w. apply only_quiet.
  - apply (only_look (λ w, modify _)). intros w. apply only_quiet.
Qed.

Lemma only_reacts r : (sets_off r ≤ n)%nat → sure only (reacts call r) only.
Proof.
  intros Hr. apply (only_look (λ w, (main_reacts r ;; each (listens call r) (seq 0 (length (stack w)))))).
  intros w. apply (sure_andthen only).
  - destruct r; cbn [main_reacts]; try apply only_quiet; by apply sure_skip.
  - apply sure_each. intros i _ hs w' Hw. unfold listens. destruct (stack w' !! i) as [p|].
    + by apply only_page.
    + by apply (sure_skip only only).
Qed.
End Within.

(** What an arrival makes a window call. *)
Lemma call_calls m n v h c out : happens h (backend v) = (c, out) →
  Forall (λ r, (sets_off r ≤ n)%nat) (reactions out) →
  ∃ v' hs, call (S (S m)) h v = Some (v', h :: hs) ∧ Forall (within n) hs.
Proof.
  intros Hh Hr. cbn [call]. rewrite Hh.
  destruct (sure_each (only n) (reacts (call (S m))) (reactions out)) with (hs := @nil happening)
    (w := set_backend c v) as (v' & hs & Hrun & Hw); [|apply Forall_nil_2|].
  - intros r Hin. apply only_reacts. by eapply Forall_forall in Hr.
  - cbn [call] in Hrun. rewrite Hrun. by exists v', hs.
Qed.

Lemma arrival_calls n v c out frame : happens (Arrival frame) (backend v) = (c, out) →
  Forall (λ r, (sets_off r ≤ n)%nat) (reactions out) →
  ∃ v' hs, page_step (Gets (Arrival frame)) v = Some (v', Arrival frame :: hs) ∧ Forall (within n) hs.
Proof.
  intros Hh Hr. assert (page_step (Gets (Arrival frame)) v = invoke (Arrival frame) v) as ->.
  { unfold page_step. simpl. by destruct (popup v). }
  by apply (call_calls 0 n v _ c out).
Qed.

(** What the callback of an operation sets off is less than the operation. *)
Definition job_sets_off (j : client_job) : nat :=
  match j with
  | LoginJob => 2
  | SendMessageJob | AddContactJob | CreateChatJob => 1
  | _ => 0
  end.

Lemma asks_more h q j : asks h = Some (q, j) → (job_sets_off j < rounds_of h)%nat.
Proof. intros Ha. destruct h; try done; injection Ha as _ <-; simpl; lia. Qed.

Lemma send_request_sets_off q j c n :
  Forall (λ r, (sets_off r ≤ n)%nat) (reactions (send_request q j c).2).
Proof. destruct (send_request_calm q j c) as [[-> | ->] _]; repeat constructor. simpl. lia. Qed.

Lemma lists_set_off {A} (f : A → output) l g c n : (∀ a, match f a with ToQml _ => False | _ => True end) →
  Forall (λ r, (sets_off r ≤ n)%nat) (reactions (emit g c).2) →
  Forall (λ r, (sets_off r ≤ n)%nat) (reactions (then_emit g (c, f <$> l)).2).
Proof.
  intros Hf Hg. unfold then_emit. destruct (emit g c) as [c' out]. simpl in *.
  by rewrite reactions_app, reactions_lists.
Qed.

Lemma callback_sets_off j resp c :
  Forall (λ r, (sets_off r ≤ job_sets_off j)%nat) (reactions (responseProcessingCallback j resp c).2).
Proof.
  destruct j; cbn [responseProcessingCallback]; try (by repeat constructor).
  - unfold login_callback. repeat case_match; repeat constructor.
  - unfold load_chats_callback, setChats. case_match; [|by repeat constructor]. cbv zeta. case_match.
    apply lists_set_off; [done|by repeat constructor].
  - unfold load_contacts_callback, setContacts. case_match; [|by repeat constructor]. cbv zeta. case_match.
    apply lists_set_off; [done|by repeat constructor].
  - unfold load_messages_callback. case_match; [|by repeat constructor]. cbv zeta. case_match.
    apply lists_set_off; [done|by repeat constructor].
  - unfold load_data_callback, setContacts, setChats. case_match.
    + cbv zeta. destruct (ContactsList.setItems _ _) as [l es].
      pose proof (send_request_sets_off MessageFactory.createAllMyChatsRequest
        LoadDataJob (set_contactsList l c) 0) as Hs. destruct (send_request _ _ _) as [c' out'].
      simpl in *. by rewrite reactions_app, reactions_lists.
    + case_match; [|by repeat constructor]. cbv zeta. destruct (ChatsList.setItems _ _) as [l es].
      apply lists_set_off; [done|by repeat constructor].
Qed.
End Calls.

(** ** What the pages ask for, in the system *)

Section System.
Context `{W : WireFormat} {L : WireFormatLaws W} `{Mem : Memory} `{Q : Qt} `{V : Views}
  `{P : Pqxx} {PL : PqxxLaws P}.
Implicit Types (h : happening) (p : peer).

(** It fits the network. *)
Lemma follow_up_fits h r j : follow_up h = true → asks h = Some (r, j) → sendable (request_message r).
Proof.
  intros Hf Ha. destruct h; try done; injection Ha as <- <-.
  - exact chats_request_fits.
  - exact contacts_request_fits.
  - exact contacts_request_fits.
  - apply bool_decide_eq_true_1 in Hf. by apply messages_request_fits.
Qed.

Lemma follow_up_usable h : follow_up h = true → usable h = true.
Proof. by destruct h. Qed.

(** The responses a window has before it until it is free. *)
Definition expected p : nat :=
  match current p with
  | Some h => if half_done p then 1 else rounds_of h
  | None => 0
  end.

(** A call does not free the window. *)
Lemma follow_up_stays_busy h c : follow_up h = true → availible c = false →
  availible (happens h c).1 = false.
Proof.
  intros Hf Hc. destruct h; try done; cbn [happens];
    try (unfold loadChats, loadContacts, loadData, loadMessages, if_availible; by rewrite Hc).
  by destruct (MessagesList.setCurrentChatId _ _).
Qed.

Lemma follow_up_sent i h (S : system) p : follow_up h = true → peers S !! i = Some p →
  Forall sendable (mails (Uses i h) S).
Proof.
  intros Hf Hp. simpl. rewrite Hp. destruct (asks h) as [[r j]|] eqn:Ha; [|apply Forall_nil_2].
  destruct (availible (window p)); [|apply Forall_nil_2].
  apply Forall_singleton. by eapply follow_up_fits.
Qed.

(** One call after another: the first that is an operation is what the window
    waits for then. *)
Lemma used_follow n i hs : ∀ (S : system) p, peers S !! i = Some p → Forall (within n) hs →
  (expected p ≤ n)%nat → (availible (window p) = true → half_done p = false) →
  ∃ S' ms p', srun (used i hs) S = Some (S', ms) ∧ Forall sendable ms ∧ peers S' !! i = Some p' ∧
    screen p' = screen p ∧ (expected p' ≤ n)%nat.
Proof.
  induction hs as [|h hs IH]; intros S p Hp Hhs Hn Hhalf.
  { exists S, [], p. by split_and!; try apply Forall_nil_2. }
  apply Forall_cons in Hhs as [[Hf Hr] Hhs].
  assert (∃ S1, uses i h S = Some S1) as [S1 Hu].
  { unfold uses. rewrite Hp. simpl. rewrite follow_up_usable by done.
    destruct (happens h (window p)). by eexists. }
  destruct (uses_peer _ _ _ _ _ Hu Hp) as (p1 & HS1 & Hs & Hw & Hc).
  assert (peers S1 !! i = Some p1) as Hp1 by (rewrite HS1; apply lookup_insert_eq).
  assert (half_done p1 = half_done p) as Hd by (unfold half_done; by rewrite Hs).
  destruct (IH S1 p1 Hp1 Hhs) as (S' & ms & p' & Hrun & Hms & Hp' & Hs' & Hn').
  - unfold expected in *. rewrite Hc, Hd. destruct (availible (window p)) eqn:Hav;
      [|by rewrite andb_false_r]. rewrite andb_true_r, Hhalf in * by done. by destruct (is_operation h).
  - rewrite Hw, Hd. intros Hav. apply Hhalf. destruct (availible (window p)) eqn:Hav'; [done|].
    by rewrite follow_up_stays_busy in Hav.
  - exists S', (mails (Uses i h) S ++ ms), p'. cbn [used fmap list_fmap srun shandle].
    rewrite Hu. cbn [mbind option_bind]. unfold used in Hrun. rewrite Hrun.
    split_and!; try done; [|congruence]. apply Forall_app. split; [by eapply follow_up_sent|done].
Qed.

(** ** Responses *)

(** A response leaves less to wait for. *)
Lemma delivers_expects w0 begun d (S S1 : system) i p : system_ok w0 begun d S →
  delivers i S = Some S1 → peers S !! i = Some p →
  ∃ frame c out p1, happens (Arrival frame) (window p) = (c, out) ∧
    frames (talk_of (srv S) i) !! length (screen p) = Some frame ∧
    Forall (λ r, (sets_off r ≤ expected p - 1)%nat) (reactions out) ∧
    peers S1 !! i = Some p1 ∧ screen p1 = screen p ++ [Round (current p) out c] ∧
    (expected p1 ≤ expected p - 1)%nat ∧ (0 < expected p)%nat ∧
    (availible (window p1) = true → half_done p1 = false).
Proof.
  intros Hok Hd Hp. pose proof Hd as Hd'. unfold delivers in Hd'. rewrite Hp in Hd'.
  cbn [mbind option_bind] in Hd'.
  apply bind_Some in Hd' as (frame & Hf & Hd'). destruct (happens (Arrival frame) (window p)) as [c out] eqn:Hh.
  injection Hd' as <-. destruct (so_peer _ _ _ _ Hok i p Hp) as (l & talk & st & Hl & Hhist & [Hlen _] & Hw & Hr & _).
  pose proof Hf as Hf'. unfold talk_of in Hf'. rewrite Hl, Hhist in Hf'.
  destruct (next_frame _ _ _ _ (eq_sym Hlen) Hf') as (r & j & resp & -> & ->).
  destruct (delivers_window p r j resp c out Hw (proj1 Hr) Hh) as (c0 & _ & _ & Hcb & _).
  pose proof Hw as (_ & (h & Hcur & Hask) & _).
  assert (job_sets_off j < expected p)%nat as Hj.
  { unfold expected. rewrite Hcur. unfold asking_now in Hask. destruct (half_done p); [|by eapply asks_more].
    destruct Hask as (_ & _ & ->). simpl. lia. }
  assert (availible c = true ∨ half_done p = false ∧ h = LoadData) as Hfree.
  { destruct (half_loaded j resp) eqn:Hhalf.
    - right. destruct j; try done. unfold asking_now in Hask. destruct (half_done p) eqn:Hdone.
      + destruct Hask as (_ & -> & _). destruct Hr as (_ & Hm & _). simpl in Hhalf.
        unfold response_matches, Response.has_contacts_response in *. simpl in Hm.
        by destruct (Response.msg_ resp).
      + split; [done|]. by destruct h; try done; injection Hask as _ ?.
    - left. pose proof (response_frees_facade j resp c0 Hhalf) as (H1 & _). by rewrite Hcb in H1. }
  eexists _, c, out, _. split; [exact Hh|]. split; [exact Hf|]. split.
  { pose proof (callback_sets_off j resp c0) as Hs. rewrite Hcb in Hs.
    eapply Forall_impl; [exact Hs|]. intros x Hx. simpl in Hx. lia. }
  cbn [peers]. rewrite lookup_insert_eq. split; [done|]. split; [done|]. split; [|split; [lia|]].
  - unfold expected at 1, half_done. cbn [current screen]. rewrite last_snoc. cbn [after].
    destruct (availible c); [lia|]. destruct Hfree as [?|[Hdone ->]]; [done|].
    rewrite Hcur. unfold expected. rewrite Hcur, Hdone. simpl. lia.
  - unfold half_done. cbn [window screen]. rewrite last_snoc. cbn [after]. by intros ->.
Qed.

(** What brings a window to rest: steps of the server for it, and the arrival
    of its responses with all its pages do then. *)
Definition phelps (S : psystem) (i : nat) (ev : psys_event) : bool :=
  match ev with
  | PServes ev => helps (core S) i (Serves ev)
  | PDelivers i' => bool_decide (i' = i)
  | PJoins | PLeaves _ | PDoes _ _ => false
  end.

Definition phelped (i : nat) (S S' : psystem) : Prop :=
  ∃ ev ms, phelps S i ev = true ∧ phandle ev S = Some (S', ms) ∧ Forall sendable ms.

Lemma phelped_step i S S' : phelped i S S' → psys_step S S'.
Proof. intros (ev & ms & _ & H). by exists ev, ms. Qed.

Lemma served_paged i (S : psystem) (C : system) :
  rtc (serving i) (core S) C → rtc (phelped i) S (PSystem C (views S)).
Proof.
  destruct S as [C0 vs]. cbn [core views]. induction 1 as [C0|C0 C1 C (ev & Hh & Hs & Hm) _ IH]; [done|].
  eapply rtc_l; [|exact IH]. exists (PServes ev), (mails (Serves ev) C0 ++ []). split; [done|].
  cbn [phandle core views srun]. rewrite Hs. cbn [mbind option_bind fst snd].
  split; [done|]. by rewrite app_nil_r.
Qed.

(** The response is delivered, and the pages ask for what comes next. *)
Lemma delivery_goes_on w0 begun d (S : psystem) i p : psystem_ok w0 begun d S →
  peers (core S) !! i = Some p → is_Some (frames (talk_of (srv (core S)) i) !! length (screen p)) →
  ∃ S' p', phelped i S S' ∧ peers (core S') !! i = Some p' ∧
    length (screen p') = (length (screen p) + 1)%nat ∧ (expected p' < expected p)%nat.
Proof.
  intros Hok Hp [frame Hf]. pose proof Hok as [Hcore _].
  destruct (ps_view _ _ _ _ Hok i p Hp) as (v & hs0 & Hv & _ & Hb & _).
  assert (∃ S1, delivers i (core S) = Some S1) as [S1 Hd].
  { unfold delivers. rewrite Hp. cbn [mbind option_bind]. rewrite Hf. cbn [mbind option_bind].
    destruct (happens _ _). by eexists. }
  destruct (delivers_expects _ _ _ _ _ _ _ Hcore Hd Hp)
    as (frame' & c & out & p1 & Hh & Hf' & Hoff & Hp1 & Hs1 & Hn1 & Hpos & Hhalf).
  rewrite Hf in Hf'. injection Hf' as <-. rewrite <- Hb in Hh.
  destruct (arrival_calls _ _ _ _ _ Hh Hoff) as (v' & hs & Hst & Hhs).
  destruct (used_follow _ i hs S1 p1 Hp1 Hhs Hn1 Hhalf) as (S' & ms & p' & Hrun & Hms & Hp' & Hs' & Hn').
  exists (PSystem S' (<[i := v']> (views S))), p'.
  split; [|split; [done|split; [by rewrite Hs', Hs1, length_app|lia]]].
  exists (PDelivers i), ms. split; [by apply bool_decide_eq_true_2|]. split; [|done].
  cbn [phandle]. rewrite Hp, Hv. cbn [mbind option_bind]. rewrite Hf. cbn [mbind option_bind]. rewrite Hst.
  cbn [mbind option_bind fst snd tail srun shandle]. rewrite Hd. cbn [mbind option_bind]. by rewrite Hrun.
Qed.

(** A window at rest; [n] responses have come since [p]. *)
Definition rested (S : psystem) (i n : nat) (p : peer) : Prop :=
  failed (core S) i ∨
  ∃ p', peers (core S) !! i = Some p' ∧ current p' = None ∧ availible (window p') = true ∧
    (length (screen p') ≤ length (screen p) + n)%nat.

Lemma no_operation_is_free w0 begun d (S : system) i p : system_ok w0 begun d S → peers S !! i = Some p →
  current p = None → availible (window p) = true.
Proof.
  intros Hok Hp Hc. destruct (so_peer _ _ _ _ Hok i p Hp) as (_ & _ & st & _ & _ & _ & [_ Hw] & _).
  destruct (waiting st) as [[r j]|]; [|apply Hw]. destruct Hw as ((h & Hc' & _) & _). congruence.
Qed.

Lemma comes_to_rest d (S : psystem) i p : tables_ok d → psys_reachable d S →
  peers (core S) !! i = Some p → ∃ S', rtc (phelped i) S S' ∧ rested S' i (expected p) p.
Proof.
  intros Hd. remember (expected p) as n eqn:Hn. revert S p Hn.
  induction n as [n IH] using lt_wf_ind. intros S p -> Hr Hp.
  pose proof (psys_reachable_ok d S Hd Hr) as Hok. pose proof Hok as [Hcore _].
  destruct (current p) as [h|] eqn:Hcur.
  2: { exists S. split; [done|]. right. exists p. split_and!; try done; [|lia]. by eapply no_operation_is_free. }
  destruct (so_peer _ _ _ _ Hcore i p Hp) as (l & _ & _ & Hl & _).
  destruct (down (front (srv (core S)))) eqn:Hdown; [exists S; split; [done|by left; left]|].
  destruct (stopped_ (session l)) eqn:Hs; [exists S; split; [done|left; right; left; by exists l]|].
  destruct (sys_steps_crun _ _ (psys_steps_core (psys_initial d) _ Hr)) as (evs & Hrun).
  destruct (budget_exists evs d _ Hrun) as (g & Hb).
  destruct (waiting_is_served _ _ d _ i p l g Hcore Hdown Hp Hl Hs ltac:(congruence) Hb)
    as (C & Hserve%served_paged & Hend).
  set (S1 := PSystem C (views S)) in *.
  destruct Hend as [Hf|(p1 & Hp1 & Hc1 & Hs1 & Hfr)]; [exists S1; split; [done|by left]|].
  assert (psys_reachable d S1) as Hr1.
  { unfold psys_reachable in *. etrans; [exact Hr|]. eapply rtc_subrel; [|exact Hserve].
    by intros; eapply phelped_step. }
  rewrite <- Hs1 in Hfr.
  assert (expected p1 = expected p) as He by (unfold expected, half_done; by rewrite Hc1, Hs1).
  destruct (delivery_goes_on _ _ _ S1 i p1 (psys_reachable_ok d S1 Hd Hr1) Hp1 Hfr)
    as (S2 & p2 & Hst & Hp2 & Hlen & Hlt).
  destruct (IH (expected p2) ltac:(lia) S2 p2 eq_refl) as (S3 & Hrest & Hend); [|done|].
  { eapply rtc_r; [exact Hr1|by eapply phelped_step]. }
  exists S3. split; [etrans; [exact Hserve|by eapply rtc_l]|].
  destruct Hend as [Hf|(p3 & Hp3 & Hc3 & Hav & Hle)]; [by left|right]. exists p3. split_and!; try done.
  rewrite Hlen, Hs1 in Hle. lia.
Qed.
End System.
