(* ===== verification/PageSystemTheorems.v ===== *)
(** * What the windows of the whole system show

    The properties of the system with its pages: what the client shows is the
    database's, and a message that was sent comes back. *)
From stdpp Require Import gmap.
From Stdlib Require Import String.
From S2P Require Import Prelude Wire Parser Message Requests Responses Envelope Framing WireInstance.
From S2P Require Import Storage Database Postgres Growth StorageTheorems Programs Interleaving Isolation Serial.
From S2P Require Import Steps Session Jobs JobCalls Server ConcurrentServer ServerFacts ServerInvariant.
From S2P Require Import ServerTheorems Traffic ConcurrentInvariant Provenance ConcurrentServerTheorems.
From S2P Require Import Qt ClientLists ClientListTheorems NetworkSession NetworkTheorems Client.
From S2P Require Import ClientTheorems EndToEnd Pages PageFacts PageInvariant PageSteps PageTheorems.
From S2P Require Import System SystemInvariant SystemWindows SystemSteps SystemRounds SystemTheorems.
From S2P Require Import SystemProgress PageSystem PageSystemInvariant PageProgress.

Section Theorems.
Context `{W : WireFormat} {L : WireFormatLaws W} `{Mem : Memory} `{Q : Qt} {QL : QtLaws Q} `{V : Views}
  `{P : Pqxx} {PL : PqxxLaws P}.
Implicit Types (d : db) (p : peer) (rd : round).

(** C9: whatever the users do with their pages, and however their requests
    interleave: the messages a window shows, and those it keeps for the chats
    it has shown before, are each the answer of a call of the storage for the
    messages of that very chat. *)
Theorem shown_messages_are_of_the_chat d (S : psystem) i p :
  tables_ok d → psys_reachable d S → peers (core S) !! i = Some p →
  let l := m_messagesList (window p) in
  (∀ v, MessagesList.m_items l = Some v →
     answered (database (srv (core S))) (MessagesList.m_currentChatId l) v) ∧
  (∀ k v, MessagesList.m_mapToItems l !! k = Some v → answered (database (srv (core S))) k v).
Proof.
  intros Hd Hr Hp. cbv zeta.
  destruct (ps_view _ _ _ _ (psys_reachable_ok d S Hd Hr) i p Hp) as (v & hs & _ & _ & _ & _ & [H1 H2]).
  split; [|done]. intros v' Hv. by apply H1, H2.
Qed.

(** ** The next round of a window *)

(** The [n]-th round is that of [h], which is under way or over, and somebody
    is logged in. *)
Definition round_is (i n : nat) (h : happening) (S : system) : Prop :=
  is_Some (links (front (srv S)) !! i) ∧
  ∀ p, peers S !! i = Some p → m_profile (window p) ≠ None ∧
    (length (screen p) = n ∧ current p = Some h ∨
     ∃ rd, screen p !! n = Some rd ∧ started rd = Some h ∧ m_profile (after rd) ≠ None).

Lemma links_kept d ev sv sv' i : cserver_ok d sv → chandle ev sv = Some sv' →
  is_Some (links (front sv) !! i) → is_Some (links (front sv') !! i).
Proof.
  intros Hok Hh Hi. apply not_eq_None_Some. intros Hn. apply not_eq_None_Some in Hi. apply Hi.
  eapply since_links; [|exact Hn]. eapply since_step; [exact Hok|apply since_refl|by exists ev].
Qed.

Lemma happens_profile h c : m_profile c ≠ None → m_profile (happens h c).1 ≠ None.
Proof.
  intros Hc. assert ((∃ k, h = SelectChat k) ∨ ∀ k, h ≠ SelectChat k) as [[k ->]|Hk].
  { destruct h; try (right; intros k; done). left. by eexists. }
  - rewrite (proj1 (select_chat k c)). exact Hc.
  - exact (proj1 (happens_carried h c Hk) Hc).
Qed.

Lemma busy_window w0 begun d S i p h : system_ok w0 begun d S → peers S !! i = Some p →
  current p = Some h → availible (window p) = false.
Proof.
  intros Hok Hp Hc. destruct (so_peer _ _ _ _ Hok i p Hp) as (_ & _ & st & _ & _ & _ & [_ Hw] & _).
  destruct (waiting st) as [[r j]|]; [by destruct Hw as (_ & ? & _)|]. destruct Hw as [? _]. congruence.
Qed.

Lemma round_is_uses w0 begun d S i n h i' h' S' : system_ok w0 begun d S → uses i' h' S = Some S' →
  round_is i n h S → round_is i n h S'.
Proof.
  unfold uses. intros Hok (p' & Hp' & Hu)%bind_Some [Hl Hr]. destruct (usable h'); [|done].
  destruct (happens h' (window p')) as [c out] eqn:Hh. injection Hu as <-. split; [done|]. simpl.
  intros p. rewrite lookup_insert_Some. intros [[-> <-]|[_ Hp]]; [|by apply Hr].
  destruct (Hr p' Hp') as [Hlog Hn]. simpl. split.
  - pose proof (happens_profile h' (window p') Hlog) as Hx. by rewrite Hh in Hx.
  - destruct Hn as [[Hlen Hc]|Hn]; [left|by right]. split; [done|].
    by rewrite (busy_window _ _ _ _ _ _ _ Hok Hp' Hc), andb_false_r.
Qed.

Lemma round_is_delivers S i n h i' S' : delivers i' S = Some S' → round_is i n h S → round_is i n h S'.
Proof.
  unfold delivers. intros (p' & Hp' & (frame & _ & Hd)%bind_Some)%bind_Some [Hl Hr].
  destruct (happens (Arrival frame) (window p')) as [c out] eqn:Hh. injection Hd as <-. split; [done|]. simpl.
  intros p. rewrite lookup_insert_Some. intros [[-> <-]|[_ Hp]]; [|by apply Hr].
  destruct (Hr p' Hp') as [Hlog Hn]. simpl.
  assert (m_profile c ≠ None) as Hlog'.
  { pose proof (happens_profile (Arrival frame) (window p') Hlog) as Hx. by rewrite Hh in Hx. }
  split; [done|]. right. destruct Hn as [[Hlen Hc]|(rd & Hrd & Hst)].
  - exists (Round (current p') out c). split; [|by split]. rewrite <- Hlen.
    by rewrite lookup_app_r, Nat.sub_diag by lia.
  - exists rd. split; [|done]. by apply lookup_app_l_Some.
Qed.

Lemma round_is_step w0 begun d S i n h S' : system_ok w0 begun d S → sys_step S S' →
  round_is i n h S → round_is i n h S'.
Proof.
  intros Hok (ev & Hh & _) Hr. destruct ev as [|i'|ev|i' h'|i']; simpl in Hh.
  - apply bind_Some in Hh as (sv & Hc & [= <-]). destruct Hr as [Hl Hr].
    pose proof (links_kept _ _ _ _ i (so_server _ _ _ _ Hok) Hc Hl) as Hl'. split; [done|]. simpl.
    intros p. rewrite lookup_insert_Some. intros [[<- _]|[_ Hp]]; [|by apply Hr].
    rewrite (co_fresh _ _ (so_server _ _ _ _ Hok) _ (le_n _)) in Hl. by destruct Hl.
  - injection Hh as <-. destruct Hr as [Hl Hr]. split; [done|]. simpl. intros p.
    rewrite lookup_delete_Some. intros [_ Hp]. by apply Hr.
  - destruct Hr as [Hl Hr]. split.
    + unfold serves in Hh. apply bind_Some in Hh as (S0 & Hrd & (sv & Hch & [= <-])%bind_Some). simpl.
      assert (srv S0 = srv S) as H0.
      { destruct ev; try (by injection Hrd as <-). by apply read_from_spec in Hrd as [-> _]. }
      rewrite H0 in Hch. by eapply links_kept; [apply (so_server _ _ _ _ Hok)|..].
    + intros p' Hp'. destruct (serves_windows _ _ _ _ _ Hh Hp') as (p & Hp & -> & -> & ->). by apply Hr.
  - by eapply round_is_uses.
  - by eapply round_is_delivers.
Qed.

Lemma round_is_steps w0 begun d S i n h S' : rtc sys_step S S' → system_ok w0 begun d S →
  round_is i n h S → round_is i n h S'.
Proof.
  induction 1 as [S|S1 S2 S3 Hs _ IH]; [done|]. intros Hok Hr.
  apply IH; [by eapply sys_step_ok|by eapply round_is_step].
Qed.

(** ** The way of a message *)

(** The page of a chat, on top of others. *)
Definition chat_page (v : Pages.window) (chat : Z) : Prop :=
  ∃ below text, stack v = below ++ [MessagesWindow text] ∧
    Forall (λ q, kind_of q ≠ KMessages) below ∧ quint64_arg (current_chat v) = chat.

(** A response to a message under way. *)
Lemma send_round w0 begun d (S : psystem) i p v chat text S' ms :
  psystem_ok w0 begun d S → peers (core S) !! i = Some p → views S !! i = Some v →
  current p = Some (Client.SendMessage chat text) →
  phandle (PDelivers i) S = Some (S', ms) →
  ∃ resp c out S1 v' hs ms', delivers i (core S) = Some S1 ∧
    S1 = System (srv (core S)) (<[i := Peer c None (upstream p ++ to_server out)
           (screen p ++ [Round (current p) out c])]> (peers (core S))) ∧
    availible c = true ∧ out = [ToQml (doSendMessageReaction (accepted_status resp))] ∧
    sendable (response_message resp) ∧ waits_for SendMessageJob (window p) (backend v) ∧
    page_step (Gets (Arrival (packet (response_message resp)))) v = Some (v', hs) ∧
    srun (used i (tail hs)) S1 = Some (core S', ms') ∧ ms = ms'.
Proof.
  intros Hok Hp Hv Hcur Hh. cbn [phandle] in Hh. rewrite Hp, Hv in Hh. cbn [mbind option_bind] in Hh.
  apply bind_Some in Hh as (frame & Hfr & ([v' hs] & Hst & ([S2 ms2] & Hrun & [= <- <-])%bind_Some)%bind_Some).
  cbn [srun] in Hrun. apply bind_Some in Hrun as (S1 & Hd & ([S3 ms3] & Hrun & [= <- <-])%bind_Some).
  cbn [fst snd mails app shandle core] in *. pose proof Hok as [Hcore _].
  destruct (delivers_round _ _ _ _ _ _ _ Hcore Hd Hp)
    as (h & r & j & resp & c0 & c & out & Hcur' & Hask & Hans & _ & Hcb & _ & Hfr' & HS).
  rewrite Hcur in Hcur'. injection Hcur' as <-. destruct Hask as [[= <- <-]|[? _]]; [|done].
  rewrite Hfr in Hfr'. injection Hfr' as ->. simpl in Hcb. injection Hcb as <- <-.
  destruct (ps_view _ _ _ _ Hok i p Hp) as (v0 & hs0 & Hv0 & _ & Hb & _). rewrite Hv in Hv0. injection Hv0 as <-.
  exists resp. do 6 eexists. split; [done|]. rewrite Hcur. split; [exact HS|].
  split_and!; [done|done|apply Hans| |exact Hst|exact Hrun|done].
  rewrite Hb. destruct (so_peer _ _ _ _ Hcore i p Hp) as (_ & _ & st & _ & _ & _ & Hw & _).
  destruct Hw as [Hready Hw]. destruct (waiting st) as [[r' j']|]; [|destruct Hw; congruence].
  destruct Hw as ((h' & Hc' & Ha') & _ & Hcb & _). rewrite Hcur in Hc'. injection Hc' as <-.
  apply asking_now_asks in Ha' as [[= <- <-]|[? _]]; [|done]. split; [done|]. split; [done|]. by destruct (window p).
Qed.

Lemma used_screen i hs : ∀ S S' ms p, srun (used i hs) S = Some (S', ms) → peers S !! i = Some p →
  ∃ p', peers S' !! i = Some p' ∧ screen p' = screen p.
Proof.
  induction hs as [|h hs IH]; intros S S' ms p Hrun Hp; simpl in Hrun.
  { injection Hrun as <- _. by exists p. }
  apply bind_Some in Hrun as (S1 & Hu & ([S2 ms2] & Hrun & [= <- _])%bind_Some).
  destruct (uses_peer _ _ _ _ _ Hu Hp) as (p1 & -> & Hs & _).
  destruct (IH _ _ _ _ Hrun (lookup_insert_eq _ _ _)) as (p2 & Hp2 & Hs2). exists p2. by rewrite Hs2.
Qed.

(** Its page asks for the chat at once. *)
Lemma accepted_reloads w0 begun d (S1 S2 : psystem) i p v chat text ms rd p2 :
  psystem_ok w0 begun d S1 → peers (core S1) !! i = Some p → views S1 !! i = Some v →
  chat_page v chat → current p = Some (Client.SendMessage chat text) →
  phandle (PDelivers i) S1 = Some (S2, ms) → Forall sendable ms →
  peers (core S2) !! i = Some p2 → screen p2 !! length (screen p) = Some rd →
  ToQml (doSendMessageReaction true) ∈ outputs rd →
  ∃ S p', sys_step (core S1) S ∧ rtc sys_step S (core S2) ∧ peers S !! i = Some p' ∧
    screen p' = screen p ++ [rd] ∧ current p' = None ∧ started rd = Some (Client.SendMessage chat text) ∧
    round_is i (length (screen p) + 1) (LoadMessages chat) (core S2) ∧
    current p2 = Some (LoadMessages chat).
Proof.
  intros Hok Hp Hv (below & text' & Hs & Hb & Hk) Hcur Hh Hms Hp2 Hrd Hout.
  destruct (send_round _ _ _ _ _ _ _ _ _ _ _ Hok Hp Hv Hcur Hh)
    as (resp & c & out & S & v' & hs & ms' & Hd & HS & Hc & -> & Hresp & Hw & Hst & Hrun & ->).
  set (p' := Peer c None (upstream p ++ to_server [ToQml (doSendMessageReaction (accepted_status resp))])
    (screen p ++ [Round (current p) [ToQml (doSendMessageReaction (accepted_status resp))] c])) in *.
  assert (peers S !! i = Some p') as Hp' by (rewrite HS; apply lookup_insert_eq).
  destruct (used_screen _ _ _ _ _ _ Hrun Hp') as (p3 & Hp3 & Hs3). rewrite Hp2 in Hp3. injection Hp3 as <-.
  rewrite Hs3 in Hrd. simpl in Hrd. rewrite lookup_app_r, Nat.sub_diag in Hrd by lia. injection Hrd as <-.
  assert (m_profile c ≠ None) as Hlog.
  { assert (system_ok w0 begun d S) as HokS by (eapply sys_step_ok; [apply Hok|by exists (Delivers i)]).
    assert (screen p' !! length (screen p) =
      Some (Round (current p) [ToQml (doSendMessageReaction (accepted_status resp))] c)) as Hlast.
    { simpl. by rewrite lookup_app_r, Nat.sub_diag by lia. }
    destruct (round_told _ _ _ _ _ _ _ _ HokS Hp' Hlast) as [ex Ht]. exact (proj1 (sent_round _ _ _ _ _ _ Ht Hcur Hout)). }
  simpl in Hout. apply list_elem_of_singleton in Hout as [= Hacc]. symmetry in Hacc.
  exists S, p'. split; [by exists (Delivers i)|]. split; [by eapply srun_steps|].
  do 3 (split; [done|]). split; [exact Hcur|].
  destruct (accepted_message_calls resp _ v below text' Hw Hresp Hacc Hs Hb) as (c' & _ & Hst').
  rewrite Hk, Hst in Hst'. injection Hst' as _ ->. cbn [tail used fmap list_fmap] in Hrun.
  cbn [srun shandle] in Hrun.
  apply bind_Some in Hrun as (Sa & Hu & ([S3 ms3] & (Sb & Hu' & [= <- <-])%bind_Some & [= HS2 _])%bind_Some).
  simpl in HS2. destruct (uses_peer _ _ _ _ _ Hu Hp') as (pa & -> & Hsa & Hwa & Hca).
  destruct (uses_peer _ _ _ _ _ Hu' (lookup_insert_eq _ _ _)) as (pb & -> & Hsb & Hwb & Hcb).
  simpl in Hsb, Hcb. rewrite Hwa in Hcb. cbn [window p'] in Hcb.
  rewrite (proj2 (proj2 (select_chat chat c))), Hc in Hcb.
  rewrite <- HS2 in *. split; [split|].
  - destruct (so_peer _ _ _ _ (ps_core _ _ _ _ Hok) i p Hp) as (l & _ & _ & Hl & _).
    rewrite HS. simpl. by exists l.
  - simpl. rewrite insert_insert_eq. intros q. rewrite lookup_insert_eq. intros [= <-]. split.
    + rewrite Hwb, Hwa. apply happens_profile, happens_profile, Hlog.
    + left. split; [|exact Hcb]. rewrite Hsb, Hsa. simpl. by rewrite length_app.
  - simpl in Hp2. rewrite insert_insert_eq, lookup_insert_eq in Hp2. injection Hp2 as <-. exact Hcb.
Qed.

(** C2: who writes under a chat sees it: once his window was told that the message
    was accepted, with the page of the chat in front, the window asks for the
    chat without a press of his, and the next thing it shows is the answer of a
    call of the storage for the messages of that chat, made after the message
    was accepted, and the message is in it; whatever all the others do in
    between.  Only if the database never answered the commit of that call, as
    when its connection broke, the list is empty instead. *)
Theorem sender_sees_message d (S1 S2 : psystem) i p v chat text ms rd p2 :
  tables_ok d → psys_reachable d S1 → peers (core S1) !! i = Some p → views S1 !! i = Some v →
  chat_page v chat → current p = Some (Client.SendMessage chat text) →
  phandle (PDelivers i) S1 = Some (S2, ms) → Forall sendable ms →
  peers (core S2) !! i = Some p2 → screen p2 !! length (screen p) = Some rd →
  ToQml (doSendMessageReaction true) ∈ outputs rd →
  current p2 = Some (LoadMessages chat) ∧
  ∀ S3 p3 rd', rtc psys_step S2 S3 → peers (core S3) !! i = Some p3 →
    screen p3 !! (length (screen p) + 1)%nat = Some rd' →
    started rd' = Some (LoadMessages chat) ∧
    (plain_text (toStdString text) →
     ∃ messages ph, called_since (database (srv (core S1))) (database (srv (core S3)))
         (GetMessages chat) (inr (Messages messages)) ph ∧
       let items := shown_message <$> MessagesResponse.messages messages in
       MessagesList.m_items (m_messagesList (after rd')) = Some items ∧
       shows items ph (MessagesList.MkMessageItem (userId (after rd)) text ∈ items)).
Proof.
  intros Hd Hr Hp Hv Hpage Hcur Hh Hms Hp2 Hrd Hout.
  pose proof (psys_reachable_ok d S1 Hd Hr) as Hok.
  destruct (accepted_reloads _ _ _ _ _ _ _ _ _ _ _ _ _ Hok Hp Hv Hpage Hcur Hh Hms Hp2 Hrd Hout)
    as (S & p' & Hs1 & Hs2 & Hp' & Hscreen & Hfree & Hst & Hround & Hnext).
  split; [exact Hnext|]. intros S3 p3 rd' Hrun Hp3 Hrd'.
  assert (sys_reachable d S) as HrS.
  { eapply rtc_r; [|exact Hs1]. by apply (psys_steps_core (psys_initial d)). }
  pose proof (psys_steps_core _ _ Hrun) as Hs3.
  pose proof (sys_steps_ok _ _ _ _ _ Hs2 (sys_reachable_ok d S Hd HrS)) as Hok2.
  destruct (proj2 (round_is_steps _ _ _ _ _ _ _ _ Hs3 Hok2 Hround) p3 Hp3) as [_ [[Hlen _]|(rd2 & Hrd2 & Hst' & Hlog)]].
  { apply lookup_lt_Some in Hrd'. lia. }
  rewrite Hrd' in Hrd2. injection Hrd2 as <-. split; [done|]. intros Htext.
  destruct (sent_is_loaded d S (core S3) i p' (length (screen p)) rd i p3 (length (screen p) + 1) rd' chat text)
    as (messages & ph & Hcall & Hshow); try done; [by etrans|..|].
  - by rewrite Hscreen, lookup_app_r, Nat.sub_diag by lia.
  - unfold begun_by. rewrite Hp', Hfree, Hscreen, length_app. simpl. lia.
  - exists messages, ph. split; [|exact Hshow]. destruct Hcall as (q & seen & Hq & Hq').
    exists q, seen. split; [|exact Hq']. by eapply steps_unborn; [apply rtc_once|].
Qed.

(** C4: a window comes to rest: from every state of the system, the steps of the
    server for it and the arrival of its responses alone can bring it to where
    it has no operation under way and takes the next one of its user, whatever
    its pages ask for meanwhile.  It takes as many responses as are expected of
    the operation under way, three at most (a login that loads contacts and
    chats).  Only the memory of the server, a session that is stopped or an
    answer that cannot be framed prevent it. *)
Theorem windows_come_to_rest d (S : psystem) i p :
  tables_ok d → psys_reachable d S → peers (core S) !! i = Some p →
  (expected p ≤ 3)%nat ∧ ∃ S', rtc (phelped i) S S' ∧ rested S' i (expected p) p.
Proof.
  intros Hd Hr Hp. split; [|by eapply comes_to_rest]. unfold expected.
  destruct (current p) as [h|]; [|lia]. destruct (half_done p); [lia|]. destruct h; simpl; lia.
Qed.
End Theorems.

(** ** Bob at his pages *)

Section Witnesses.
#[local] Existing Instance plain_pqxx.
#[local] Existing Instance plain_pqxx_laws.
#[local] Existing Instance unlimited.
#[local] Existing Instance utf8_qt.
#[local] Existing Instance utf8_qt_laws.
#[local] Existing Instance all_rows.

(** The server serves the request of an operation with call [q]. *)
Definition pserved (h : happening) (q n : nat) : list psys_event :=
  omap (λ e, match e with Serves ev => Some (PServes ev) | _ => None end) (served 0 h q n).

Definition does (evs : list page_event) : list psys_event := PDoes 0 <$> evs.

Definition bob_arrives : list psys_event :=
  [PJoins] ++ does [Dismisses; Types 0 (str [Byte.x42]); Types 1 (str [Byte.x71]); Presses signin_btn] ++
  pserved bob_signs_in 0 2 ++ [PDelivers 0] ++
  pserved LoadContacts 1 3 ++ [PDelivers 0] ++ pserved LoadChats 2 3 ++ [PDelivers 0] ++
  does [Dismisses; Presses (chat_row 0)] ++ pserved (LoadMessages 1) 3 3 ++ [PDelivers 0] ++
  does [Types 0 (str [Byte.x68]); Presses send_mesg_btn] ++ pserved bob_writes 4 4.

Definition bob_reads : list psys_event := pserved (LoadMessages 1) 5 3 ++ [PDelivers 0].

Definition after_psrun (evs : list psys_event) (S : psystem) : psystem :=
  default S (fst <$> psrun evs S).
Definition mails_of_pages (evs : list psys_event) (S : psystem) : list WrappedMessage.t :=
  default [] (snd <$> psrun evs S).
Definition pruns (evs : list psys_event) (S : psystem) : bool :=
  match psrun evs S with Some _ => true | None => false end.

Lemma psrun_some evs S : pruns evs S = true → psrun evs S = Some (after_psrun evs S, mails_of_pages evs S).
Proof. unfold pruns, after_psrun, mails_of_pages. by destruct (psrun evs S) as [[S' ms]|]. Qed.

Definition bob_sent : psystem := after_psrun bob_arrives (psys_initial sample_db).

Definition bob_told : psystem := after_psrun [PDelivers 0] bob_sent.
Definition bob_saw : psystem := after_psrun bob_reads bob_told.

Lemma bob_sent_run : psrun bob_arrives (psys_initial sample_db) =
  Some (bob_sent, mails_of_pages bob_arrives (psys_initial sample_db)).
Proof. apply psrun_some. by vm_compute. Defined.

Lemma bob_sent_fits : Forall sendable (mails_of_pages bob_arrives (psys_initial sample_db)).
Proof. concrete_mails. Defined.

Lemma bob_told_step : phandle (PDelivers 0) bob_sent = Some (bob_told, mails_of_pages [PDelivers 0] bob_sent).
Proof.
  assert (psrun [PDelivers 0] bob_sent = Some (bob_told, mails_of_pages [PDelivers 0] bob_sent)) as H
    by (apply psrun_some; by vm_compute).
  cbn [psrun] in H. destruct (phandle (PDelivers 0) bob_sent) as [[S ms]|]; [|discriminate H].
  cbn [mbind option_bind fst snd] in H. rewrite app_nil_r in H. exact H.
Defined.

Lemma bob_told_fits : Forall sendable (mails_of_pages [PDelivers 0] bob_sent).
Proof. concrete_mails. Defined.

Lemma bob_saw_run : psrun bob_reads bob_told = Some (bob_saw, mails_of_pages bob_reads bob_told).
Proof. apply psrun_some. by vm_compute. Defined.

Lemma bob_saw_fits : Forall sendable (mails_of_pages bob_reads bob_told).
Proof. concrete_mails. Defined.

Lemma bob_sent_reachable : psys_reachable sample_db bob_sent.
Proof. exact (psrun_steps _ _ _ _ bob_sent_run bob_sent_fits). Defined.

Definition view_at (i : nat) (S : psystem) : Pages.window := default opened (views S !! i).
Definition has_view (i : nat) (S : psystem) : bool := match views S !! i with Some _ => true | None => false end.

Lemma view_at_some i S : has_view i S = true → views S !! i = Some (view_at i S).
Proof. unfold has_view, view_at. by destruct (views S !! i). Defined.

(** The list Bob's window keeps for chat 1 before he has written. *)
Lemma shown_messages_are_of_the_chat_witness :
  ∃ v, MessagesList.m_items (m_messagesList (window (peer_at 0 (core bob_sent)))) = Some v ∧
    answered (database (srv (core bob_sent))) 1 v.
Proof.
  destruct (shown_messages_are_of_the_chat sample_db bob_sent 0 (peer_at 0 (core bob_sent))
    (ok_tables _ sample_db_ok) bob_sent_reachable (peer_at_some 0 (core bob_sent) ltac:(by vm_compute)))
    as [H _].
  assert (MessagesList.m_currentChatId (m_messagesList (window (peer_at 0 (core bob_sent)))) = 1) as Hc
    by (by vm_compute).
  rewrite Hc in H.
  assert (match MessagesList.m_items (m_messagesList (window (peer_at 0 (core bob_sent)))) with
          | Some _ => true | None => false end = true) as Hi by (by vm_compute).
  destruct (MessagesList.m_items (m_messagesList (window (peer_at 0 (core bob_sent))))) as [v|]; [|discriminate Hi].
  exists v. split; [reflexivity|]. exact (H v eq_refl).
Defined.

Lemma sender_sees_message_witness :
  current (peer_at 0 (core bob_sent)) = Some bob_writes ∧
  current (peer_at 0 (core bob_told)) = Some (LoadMessages 1) ∧
  started (round_at 0 5 (core bob_saw)) = Some (LoadMessages 1) ∧
  (∃ messages ph, called_since (database (srv (core bob_sent))) (database (srv (core bob_saw)))
     (GetMessages 1) (inr (Messages messages)) ph) ∧
  ∃ items, MessagesList.m_items (m_messagesList (after (round_at 0 5 (core bob_saw)))) = Some items ∧
    MessagesList.MkMessageItem 2 (str [Byte.x68]) ∈ items.
Proof.
  assert (plain_text (toStdString (str [Byte.x68]))) as Hplain by (apply plain_bytes; set_solver).
  assert (current (peer_at 0 (core bob_sent)) = Some bob_writes) as Hcur by (by vm_compute).
  assert (length (screen (peer_at 0 (core bob_sent))) = 4%nat) as Hlen by (by vm_compute).
  assert (outputs (round_at 0 4 (core bob_told)) = [ToQml (doSendMessageReaction true)]) as Hout
    by (by vm_compute).
  assert (userId (after (round_at 0 4 (core bob_told))) = 2) as Hu by (by vm_compute).
  assert (stack (view_at 0 bob_sent) =
    [LoginWindow (str [Byte.x42]) (str [Byte.x71]); ChatsWindow] ++ [MessagesWindow (str [])]) as Hs
    by (by vm_compute).
  assert (chat_page (view_at 0 bob_sent) 1) as Hpage.
  { eexists _, _. split; [exact Hs|]. split; [by repeat constructor|by vm_compute]. }
  pose proof (sender_sees_message sample_db bob_sent bob_told 0 (peer_at 0 (core bob_sent))
    (view_at 0 bob_sent) 1 (str [Byte.x68]) _ (round_at 0 4 (core bob_told)) (peer_at 0 (core bob_told))
    (ok_tables _ sample_db_ok) bob_sent_reachable (peer_at_some 0 (core bob_sent) ltac:(by vm_compute))
    (view_at_some 0 bob_sent ltac:(by vm_compute)) Hpage Hcur bob_told_step bob_told_fits
    (peer_at_some 0 (core bob_told) ltac:(by vm_compute))) as H.
  rewrite Hlen, Hout, Hu in H.
  destruct (H (round_at_some 0 4 (core bob_told) ltac:(by vm_compute)) ltac:(by left)) as [H1 H2].
  destruct (H2 bob_saw (peer_at 0 (core bob_saw)) (round_at 0 5 (core bob_saw))
    (psrun_steps _ _ _ _ bob_saw_run bob_saw_fits) (peer_at_some 0 (core bob_saw) ltac:(by vm_compute))
    (round_at_some 0 5 (core bob_saw) ltac:(by vm_compute))) as [H3 H4].
  destruct (H4 Hplain) as (messages & ph & Hcall & Hitems & [Hin|[_ Hnil]]).
  - split; [exact Hcur|]. split; [exact H1|]. split; [exact H3|]. split; [by exists messages, ph|].
    eexists. split; [exact Hitems|exact Hin].
  - assert ((if MessagesList.m_items (m_messagesList (after (round_at 0 5 (core bob_saw)))) is Some [] then true else false) = false)
      as Hsome by (by vm_compute).
    rewrite Hnil in Hitems. by rewrite Hitems in Hsome.
Defined.

(** Bob has pressed the button that signs him in. *)
Definition bob_knocks : psystem := after_psrun (take 5 bob_arrives) (psys_initial sample_db).

Lemma bob_knocks_run : psrun (take 5 bob_arrives) (psys_initial sample_db) =
  Some (bob_knocks, mails_of_pages (take 5 bob_arrives) (psys_initial sample_db)).
Proof. apply psrun_some. by vm_compute. Defined.

Lemma bob_knocks_fits : Forall sendable (mails_of_pages (take 5 bob_arrives) (psys_initial sample_db)).
Proof. concrete_mails. Defined.

Lemma windows_come_to_rest_witness :
  current (peer_at 0 (core bob_knocks)) = Some bob_signs_in ∧
  ∃ S', rtc (phelped 0) bob_knocks S' ∧ rested S' 0 3 (peer_at 0 (core bob_knocks)).
Proof.
  split; [by vm_compute|].
  assert (expected (peer_at 0 (core bob_knocks)) = 3%nat) as He by (by vm_compute).
  destruct (windows_come_to_rest sample_db bob_knocks 0 (peer_at 0 (core bob_knocks))
    (ok_tables _ sample_db_ok) (psrun_steps _ _ _ _ bob_knocks_run bob_knocks_fits)
    (peer_at_some 0 (core bob_knocks) ltac:(by vm_compute))) as [_ H].
  rewrite He in H. exact H.
Defined.
End Witnesses.
